(** * DataLog: the memory-mapped, timestamp-indexed log of wpiutil

    A shallow embedding of [wpiutil/src/main/native/cpp/DataLog.cpp].

    - Unsigned 64-bit integers ([uint64_t], and [size_t] on an LP64 target) are
      [Z] with the wrap-around written out ([u64]).
    - A file is the list of its bytes; a mapping is [MAP_SHARED], so a store
      through the mapping is a store into the file.
    - The stateful code runs in a small state-and-fault monad over [World]:
      the log object, its two files and the answers of the operating system.
      [None] is a fault (an access outside the mapping or the file, a division
      by zero): the C++ program has no defined behaviour there. *)

From Stdlib Require Import ZArith List Lia Bool.
From Stdlib Require String Ascii Decimal DecimalFacts DecimalN.
Import ListNotations.
Import String.StringSyntax.
Delimit Scope string_scope with string.
Local Open Scope Z_scope.

(** ** Machine integers and bytes *)

Definition u64 (x : Z) : Z := x mod 2 ^ 64.
Definition u32 (x : Z) : Z := x mod 2 ^ 32.
Definition SIZE_MAX : Z := 2 ^ 64 - 1.

Definition is_u64 (x : Z) : Prop := 0 <= x < 2 ^ 64.

(** [n] bytes of [v], least significant first. *)
Fixpoint le_bytes (n : nat) (v : Z) : list Z :=
  match n with
  | O => []
  | S k => v mod 256 :: le_bytes k (v / 256)
  end.

Fixpoint le_value (bs : list Z) : Z :=
  match bs with
  | [] => 0
  | b :: r => b + 256 * le_value r
  end.

(** ** Files and mappings *)

Definition len (l : list Z) : Z := Z.of_nat (length l).

Definition peek (off n : Z) (c : list Z) : list Z :=
  firstn (Z.to_nat n) (skipn (Z.to_nat off) c).

Definition poke (off : Z) (bs c : list Z) : list Z :=
  firstn (Z.to_nat off) c ++ bs ++ skipn (Z.to_nat off + length bs) c.

(** [ftruncate]: cut, or extend with zero bytes. *)
Definition resize (n : Z) (c : list Z) : list Z :=
  firstn (Z.to_nat n) c ++ repeat 0 (Z.to_nat n - length c).

(** [MappedFile]: [m_mapping] is kept as "the pointer is not null". *)
Record MappedFile := mkMappedFile {
  m_mapping : bool;
  m_size : Z
}.

Record FileInfo := mkFileInfo {
  fd : Z;
  readOnly : bool;
  writePos : Z;
  fileSize : Z;
  mapOffset : Z;
  mapGrowSize : Z;
  maxGrowSize : Z;
  maxMapSize : Z;
  mapping : MappedFile;      (* the member [map] *)
  contents : list Z          (* the bytes of the file behind [fd] *)
}.

(** What the operating system answers to one growth-and-remap: whether
    [ftruncate] succeeds, and the [errno] of [mmap] (0 on success). *)
Record OsAnswer := mkOsAnswer {
  ftruncate_ok : bool;
  mmap_errno : Z
}.

Definition os_fine : OsAnswer := mkOsAnswer true 0.

Inductive Which := Time | Data.

Record World := mkWorld {
  m_dataType : list Z;
  m_dataLayout : list Z;
  m_recordSize : Z;
  m_fixedSize : bool;
  m_gapData : list Z;
  m_lastTimestamp : Z;
  m_checkMonotonic : bool;
  m_periodicFlush : Z;
  m_periodicFlushCount : Z;
  m_time : FileInfo;
  m_data : FileInfo;
  os : list OsAnswer;        (* answers still to come; all fine once used up *)
  perrors : list (list Z)    (* what [std::perror] has printed, newest first *)
}.

Definition file_of (w : Which) (st : World) : FileInfo :=
  match w with Time => m_time st | Data => m_data st end.

Definition set_file (w : Which) (f : FileInfo) (st : World) : World :=
  match w with
  | Time => mkWorld (m_dataType st) (m_dataLayout st) (m_recordSize st)
              (m_fixedSize st) (m_gapData st) (m_lastTimestamp st)
              (m_checkMonotonic st) (m_periodicFlush st)
              (m_periodicFlushCount st) f (m_data st) (os st) (perrors st)
  | Data => mkWorld (m_dataType st) (m_dataLayout st) (m_recordSize st)
              (m_fixedSize st) (m_gapData st) (m_lastTimestamp st)
              (m_checkMonotonic st) (m_periodicFlush st)
              (m_periodicFlushCount st) (m_time st) f (os st) (perrors st)
  end.

Definition set_contents (c : list Z) (f : FileInfo) : FileInfo :=
  mkFileInfo (fd f) (readOnly f) (writePos f) (fileSize f) (mapOffset f)
    (mapGrowSize f) (maxGrowSize f) (maxMapSize f) (mapping f) c.

Definition set_writePos (p : Z) (f : FileInfo) : FileInfo :=
  mkFileInfo (fd f) (readOnly f) p (fileSize f) (mapOffset f)
    (mapGrowSize f) (maxGrowSize f) (maxMapSize f) (mapping f) (contents f).

Definition set_env (o : list OsAnswer) (p : list (list Z)) (st : World) : World :=
  mkWorld (m_dataType st) (m_dataLayout st) (m_recordSize st)
    (m_fixedSize st) (m_gapData st) (m_lastTimestamp st)
    (m_checkMonotonic st) (m_periodicFlush st)
    (m_periodicFlushCount st) (m_time st) (m_data st) o p.

Definition set_lastTimestamp (t : Z) (st : World) : World :=
  mkWorld (m_dataType st) (m_dataLayout st) (m_recordSize st)
    (m_fixedSize st) (m_gapData st) t
    (m_checkMonotonic st) (m_periodicFlush st)
    (m_periodicFlushCount st) (m_time st) (m_data st) (os st) (perrors st).

Definition set_periodicFlushCount (n : Z) (st : World) : World :=
  mkWorld (m_dataType st) (m_dataLayout st) (m_recordSize st)
    (m_fixedSize st) (m_gapData st) (m_lastTimestamp st)
    (m_checkMonotonic st) (m_periodicFlush st)
    n (m_time st) (m_data st) (os st) (perrors st).

(** ** The monad *)

Definition M (A : Type) : Type := World -> option (A * World).

Definition ret {A} (a : A) : M A := fun st => Some (a, st).

Definition bind {A B} (c : M A) (k : A -> M B) : M B :=
  fun st => match c st with
            | Some (a, st') => k a st'
            | None => None
            end.

Definition fault {A} : M A := fun _ => None.
Definition get : M World := fun st => Some (st, st).
Definition modify (f : World -> World) : M unit := fun st => Some (tt, f st).

Notation "x <- c ;; k" := (bind c (fun x => k))
  (at level 61, c at next level, right associativity).
Notation "' pat <- c ;; k" := (bind c (fun x => match x with pat => k end))
  (at level 61, pat pattern, c at next level, right associativity).
Notation "c ;;; k" := (bind c (fun _ => k))
  (at level 61, right associativity).

(** ** Pointers into a mapping, and array views *)

(** [map.data() + off]: the mapping it points into and the offset from its
    base.  Every mapping starts at offset 0 of its file. *)
Record Ptr := mkPtr { p_file : Which; p_off : Z }.

(** [wpi::ArrayRef<uint8_t>]: a pointer and a length; [{}] is [nil_ref]. *)
Record ArrayRef := mkArrayRef { a_data : option Ptr; a_size : Z }.

Definition nil_ref : ArrayRef := mkArrayRef None 0.

Definition accessible (f : FileInfo) (off n : Z) : bool :=
  m_mapping (mapping f) && (0 <=? off) && (0 <=? n)
  && (off + n <=? m_size (mapping f)) && (off + n <=? len (contents f)).

(** Reading [n] bytes at a pointer. *)
Definition load (p : Ptr) (n : Z) : M (list Z) := fun st =>
  let f := file_of (p_file p) st in
  if accessible f (p_off p) n
  then Some (peek (p_off p) n (contents f), st)
  else None.

(** Writing bytes at a pointer ([memcpy], [write64le], ...); a mapping made
    read-only is [PROT_READ]. *)
Definition store (p : Ptr) (bs : list Z) : M unit := fun st =>
  let f := file_of (p_file p) st in
  if accessible f (p_off p) (len bs) && negb (readOnly f)
  then Some (tt, set_file (p_file p) (set_contents (poke (p_off p) bs (contents f)) f) st)
  else None.

Definition ptr_add (p : Ptr) (d : Z) : Ptr := mkPtr (p_file p) (p_off p + d).

Definition slice (a : ArrayRef) (d : Z) : ArrayRef :=
  mkArrayRef (option_map (fun p => ptr_add p d) (a_data a)) (a_size a - d).

(** The bytes a view shows in a given world. *)
Definition view_bytes (a : ArrayRef) (st : World) : option (list Z) :=
  match a_data a with
  | None => if a_size a =? 0 then Some [] else None
  | Some p => option_map fst (load p (a_size a) st)
  end.

(** ** FileInfo *)

Definition kHeaderSize : Z := 4096.
Definition kTimestampSize : Z := 8.
Definition kLargePointerRecordSize : Z := kTimestampSize + 8 * 2.
Definition kSmallPointerRecordSize : Z := kTimestampSize + 4 * 2.

Definition msg_update_size : list Z :=
  [99;111;117;108;100;32;110;111;116;32;117;112;100;97;116;101;32;102;105;108;101;32;115;105;122;101].

Definition next_os (st : World) : OsAnswer * list OsAnswer :=
  match os st with
  | [] => (os_fine, [])
  | a :: r => (a, r)
  end.

(** [FileInfo::GetMappedOffset]: the result is the pair of the returned offset
    and the error code left in [ec] (0: no error). *)
Definition GetMappedOffset (w : Which) (pos n : Z) : M (Z * Z) := fun st =>
  let f := file_of w st in
  if m_mapping (mapping f) && (mapOffset f <=? pos)
     && (u64 (pos + n - mapOffset f) <=? m_size (mapping f))
  then Some ((u64 (pos - mapOffset f), 0), st)
  else
    let (a, rest) := next_os st in
    (* the growth, for a writable file *)
    let grown :=
      if readOnly f then Some (fileSize f, mapGrowSize f, contents f, perrors st)
      else if mapGrowSize f =? 0 then None
      else
        let size := u64 (u64 (pos + n + mapGrowSize f - 1) / mapGrowSize f * mapGrowSize f) in
        let fileSize' := if fileSize f <? size then size else fileSize f in
        let grow' :=
          if mapGrowSize f <? maxGrowSize f then
            let g := u64 (mapGrowSize f * 2) in
            if maxGrowSize f <? g then maxGrowSize f else g
          else mapGrowSize f in
        if ftruncate_ok a
        then Some (fileSize', grow', resize fileSize' (contents f), perrors st)
        else Some (fileSize', grow', contents f, msg_update_size :: perrors st)
    in
    match grown with
    | None => None
    | Some (fileSize', grow', contents', perrors') =>
        let f' := mkFileInfo (fd f) (readOnly f) (writePos f) fileSize'
                    (mapOffset f) grow' (maxGrowSize f) (maxMapSize f)
                    (mkMappedFile (mmap_errno a =? 0) fileSize') contents' in
        let st' := set_env rest perrors' (set_file w f' st) in
        if mmap_errno a =? 0
        then Some ((u64 (pos - mapOffset f), 0), st')
        else Some ((SIZE_MAX, mmap_errno a), st')
    end.

(** [FileInfo::Read] *)
Definition Read (w : Which) (pos n : Z) : M ArrayRef :=
  '(off, ec) <- GetMappedOffset w pos n ;;
  if negb (ec =? 0) then ret nil_ref
  else ret (mkArrayRef (Some (mkPtr w off)) n).

(** [FileInfo::Write] *)
Definition Write (w : Which) (pos : Z) (data : list Z) : M unit :=
  '(off, ec) <- GetMappedOffset w pos (len data) ;;
  if negb (ec =? 0) then ret tt
  else store (mkPtr w off) data.

(** ** Strings *)

(** A [std::string] is the list of its bytes. *)
Fixpoint bytes (s : String.string) : list Z :=
  match s with
  | String.EmptyString => []
  | String.String a r => Z.of_N (Ascii.N_of_ascii a) :: bytes r
  end.

Fixpoint bytes_eqb (a b : list Z) : bool :=
  match a, b with
  | [], [] => true
  | x :: a', y :: b' => (x =? y) && bytes_eqb a' b'
  | _, _ => false
  end.

(** ** JSON *)

(** Modelled from the spec: [wpi::json] (its [dump], [parse], [at] and [get],
    in wpiutil's json sources) is not part of src.  A value is any JSON
    value, read from and written as UTF-8 text: "on read, JSON-parse the
    first 4 KiB".  The bytes of a string from 128 on are taken as they come;
    a number that has a fraction or an exponent is kept in decimal; of two
    members with the same key the first is the one [at] finds. *)
Module Json.

#[local] Set Warnings "-register-all".

Inductive value :=
| Str (s : list Z)
| Num (n : N)
| Bool (b : bool)
| Null
| Int (z : Z)
| Real (d : Decimal.decimal)
| Array (vs : list value)
| Object (o : list (list Z * value)).

Definition object := list (list Z * value).

(** *** Writing *)

Definition hex_digit (d : Z) : Z := if d <? 10 then 48 + d else 87 + d.

Definition escape_char (c : Z) : list Z :=
  if c =? 34 then [92; 34]
  else if c =? 92 then [92; 92]
  else if c =? 8 then [92; 98]
  else if c =? 12 then [92; 102]
  else if c =? 10 then [92; 110]
  else if c =? 13 then [92; 114]
  else if c =? 9 then [92; 116]
  else if c <? 32 then [92; 117; 48; 48; hex_digit (c / 16); hex_digit (c mod 16)]
  else [c].

Fixpoint escape (s : list Z) : list Z :=
  match s with
  | [] => []
  | c :: r => escape_char c ++ escape r
  end.

Definition quote (s : list Z) : list Z := 34 :: escape s ++ [34].

Fixpoint uint_chars (d : Decimal.uint) : list Z :=
  match d with
  | Decimal.Nil => []
  | Decimal.D0 r => 48 :: uint_chars r
  | Decimal.D1 r => 49 :: uint_chars r
  | Decimal.D2 r => 50 :: uint_chars r
  | Decimal.D3 r => 51 :: uint_chars r
  | Decimal.D4 r => 52 :: uint_chars r
  | Decimal.D5 r => 53 :: uint_chars r
  | Decimal.D6 r => 54 :: uint_chars r
  | Decimal.D7 r => 55 :: uint_chars r
  | Decimal.D8 r => 56 :: uint_chars r
  | Decimal.D9 r => 57 :: uint_chars r
  end.

Definition int_chars (i : Decimal.int) : list Z :=
  match i with
  | Decimal.Pos d => uint_chars d
  | Decimal.Neg d => 45 :: uint_chars d
  end.

Definition frac_chars (f : Decimal.uint) : list Z :=
  match f with
  | Decimal.Nil => []
  | _ => 46 :: uint_chars f
  end.

Definition real_chars (d : Decimal.decimal) : list Z :=
  match d with
  | Decimal.Decimal i f => int_chars i ++ frac_chars f
  | Decimal.DecimalExp i f e => int_chars i ++ frac_chars f ++ 101 :: int_chars e
  end.

(** The lines of an array or of an object: a comma after every line but the
    last. *)
Fixpoint lines {A} (line : A -> list Z) (l : list A) : list Z :=
  match l with
  | [] => []
  | [x] => line x ++ [10]
  | x :: r => line x ++ [44; 10] ++ lines line r
  end.

(** A value, at the indentation [cur], with [step] more spaces for what it
    holds. *)
Fixpoint dump_value (step cur : nat) (v : value) : list Z :=
  match v with
  | Str s => quote s
  | Num n => uint_chars (N.to_uint n)
  | Bool true => [116; 114; 117; 101]
  | Bool false => [102; 97; 108; 115; 101]
  | Null => [110; 117; 108; 108]
  | Int z => int_chars (Z.to_int z)
  | Real d => real_chars d
  | Array [] => [91; 93]
  | Array vs =>
      [91; 10]
      ++ lines (fun x => repeat 32 (cur + step) ++ dump_value step (cur + step) x) vs
      ++ repeat 32 cur ++ [93]
  | Object [] => [123; 125]
  | Object o =>
      [123; 10]
      ++ lines (fun m =>
                  match m with
                  | (k, x) =>
                      repeat 32 (cur + step) ++ quote k ++ [58; 32]
                      ++ dump_value step (cur + step) x
                  end) o
      ++ repeat 32 cur ++ [125]
  end.

Definition dump_member (step indent : nat) (m : list Z * value) : list Z :=
  match m with
  | (k, x) => repeat 32 indent ++ quote k ++ [58; 32] ++ dump_value step indent x
  end.

Definition dump_members (step indent : nat) (o : object) : list Z :=
  lines (dump_member step indent) o.

(** [j.dump(os, indent)] of an object. *)
Definition dump (indent : nat) (o : object) : list Z :=
  dump_value indent 0 (Object o).

(** *** Reading *)

Definition is_ws (c : Z) : bool :=
  (c =? 32) || (c =? 10) || (c =? 13) || (c =? 9).

Fixpoint skip_ws (t : list Z) : list Z :=
  match t with
  | c :: r => if is_ws c then skip_ws r else t
  | [] => []
  end.

Definition hex_value (c : Z) : option Z :=
  if (48 <=? c) && (c <=? 57) then Some (c - 48)
  else if (97 <=? c) && (c <=? 102) then Some (c - 87)
  else if (65 <=? c) && (c <=? 70) then Some (c - 55)
  else None.

Definition hex4 (a b c d : Z) : option Z :=
  match hex_value a, hex_value b, hex_value c, hex_value d with
  | Some x, Some y, Some z, Some w => Some (((x * 16 + y) * 16 + z) * 16 + w)
  | _, _, _, _ => None
  end.

(** UTF-8 of a code point; a surrogate has none. *)
Definition utf8 (v : Z) : option (list Z) :=
  if v <? 128 then Some [v]
  else if v <? 2048 then Some [192 + v / 64; 128 + v mod 64]
  else if (55296 <=? v) && (v <=? 57343) then None
  else if v <? 65536 then
    Some [224 + v / 4096; 128 + (v / 64) mod 64; 128 + v mod 64]
  else
    Some [240 + v / 262144; 128 + (v / 4096) mod 64; 128 + (v / 64) mod 64;
          128 + v mod 64].

(** A high surrogate, which takes the low surrogate after it. *)
Definition is_high (v : Z) : bool := (55296 <=? v) && (v <=? 56319).

Definition is_low (w : Z) : bool := (56320 <=? w) && (w <=? 57343).

(** The code point a pair of surrogates stands for. *)
Definition pair_point (v w : Z) : Z := 65536 + (v - 55296) * 1024 + (w - 56320).

(** The characters of a string, after its opening quote. *)
Fixpoint parse_chars (t : list Z) : option (list Z * list Z) :=
  match t with
  | [] => None
  | c :: r =>
      if c =? 34 then Some ([], r)
      else if c =? 92 then
        match r with
        | [] => None
        | e :: r' =>
            if e =? 117 then
              match r' with
              | h1 :: h2 :: h3 :: h4 :: r'' =>
                  match hex4 h1 h2 h3 h4 with
                  | Some v =>
                      if is_high v then
                        match r'' with
                        | b :: u :: l1 :: l2 :: l3 :: l4 :: r3 =>
                            if (b =? 92) && (u =? 117) then
                              match hex4 l1 l2 l3 l4 with
                              | Some w =>
                                  if is_low w then
                                    match utf8 (pair_point v w), parse_chars r3 with
                                    | Some p, Some (s, rest) => Some (p ++ s, rest)
                                    | _, _ => None
                                    end
                                  else None
                              | None => None
                              end
                            else None
                        | _ => None
                        end
                      else
                        match utf8 v, parse_chars r'' with
                        | Some p, Some (s, rest) => Some (p ++ s, rest)
                        | _, _ => None
                        end
                  | None => None
                  end
              | _ => None
              end
            else
              let plain :=
                if e =? 34 then Some 34
                else if e =? 92 then Some 92
                else if e =? 47 then Some 47
                else if e =? 98 then Some 8
                else if e =? 102 then Some 12
                else if e =? 110 then Some 10
                else if e =? 114 then Some 13
                else if e =? 116 then Some 9
                else None in
              match plain, parse_chars r' with
              | Some x, Some (s, rest) => Some (x :: s, rest)
              | _, _ => None
              end
        end
      else if c <? 32 then None
      else
        match parse_chars r with
        | Some (s, rest) => Some (c :: s, rest)
        | None => None
        end
  end.

Definition is_digit (c : Z) : bool := (48 <=? c) && (c <=? 57).

Definition digit (c : Z) (d : Decimal.uint) : Decimal.uint :=
  if c =? 48 then Decimal.D0 d
  else if c =? 49 then Decimal.D1 d
  else if c =? 50 then Decimal.D2 d
  else if c =? 51 then Decimal.D3 d
  else if c =? 52 then Decimal.D4 d
  else if c =? 53 then Decimal.D5 d
  else if c =? 54 then Decimal.D6 d
  else if c =? 55 then Decimal.D7 d
  else if c =? 56 then Decimal.D8 d
  else Decimal.D9 d.

(** The longest run of digits. *)
Fixpoint read_uint (t : list Z) : Decimal.uint * list Z :=
  match t with
  | c :: r =>
      if is_digit c
      then let (d, rest) := read_uint r in (digit c d, rest)
      else (Decimal.Nil, t)
  | [] => (Decimal.Nil, [])
  end.

Fixpoint prefix_eqb (p t : list Z) : bool :=
  match p, t with
  | [], _ => true
  | x :: p', y :: t' => (x =? y) && prefix_eqb p' t'
  | _ :: _, [] => false
  end.

(** The minus sign of a number, if it has one. *)
Definition read_minus (t : list Z) : bool * list Z :=
  match t with
  | c :: r => if c =? 45 then (true, r) else (false, t)
  | [] => (false, [])
  end.

Definition is_nil (d : Decimal.uint) : bool :=
  match d with
  | Decimal.Nil => true
  | _ => false
  end.

(** The fraction of a number: the digits after the point, none when there is
    no point. *)
Definition read_frac (t : list Z) : option (Decimal.uint * list Z) :=
  match t with
  | c :: r =>
      if c =? 46 then
        let (f, rest) := read_uint r in
        if is_nil f then None else Some (f, rest)
      else Some (Decimal.Nil, t)
  | [] => Some (Decimal.Nil, [])
  end.

(** The sign of an exponent. *)
Definition read_sign (t : list Z) : bool * list Z :=
  match t with
  | c :: r =>
      if c =? 45 then (true, r) else if c =? 43 then (false, r) else (false, t)
  | [] => (false, [])
  end.

(** The exponent of a number, if it has one. *)
Definition read_exp (t : list Z) : option (option Decimal.int * list Z) :=
  match t with
  | c :: r =>
      if (c =? 101) || (c =? 69) then
        let (neg, r') := read_sign r in
        let (e, rest) := read_uint r' in
        if is_nil e then None
        else Some (Some (if neg then Decimal.Neg e else Decimal.Pos e), rest)
      else Some (None, t)
  | [] => Some (None, [])
  end.

(** The digits before the point start with a zero that is not alone. *)
Definition leading_zero (i : Decimal.uint) : bool :=
  match i with
  | Decimal.D0 d => negb (is_nil d)
  | _ => false
  end.

(** The value of a number: an unsigned integer, an integer with a minus
    sign, or a number with a fraction or an exponent. *)
Definition number (neg : bool) (i f : Decimal.uint) (e : option Decimal.int) : value :=
  let si := if neg then Decimal.Neg i else Decimal.Pos i in
  match e with
  | Some e => Real (Decimal.DecimalExp si f e)
  | None =>
      if is_nil f
      then if neg then Int (- Z.of_N (N.of_uint i)) else Num (N.of_uint i)
      else Real (Decimal.Decimal si f)
  end.

(** A number: sign, digits, fraction, exponent. *)
Definition parse_number (t : list Z) : option (value * list Z) :=
  let (neg, t0) := read_minus t in
  let (i, t1) := read_uint t0 in
  if is_nil i || leading_zero i then None
  else
    match read_frac t1 with
    | None => None
    | Some (f, t2) =>
        match read_exp t2 with
        | None => None
        | Some (e, rest) => Some (number neg i f e, rest)
        end
    end.

(** A value, the elements of an array after its bracket, and the members of
    an object from the quote of the first key, up to the closing bracket or
    brace; [fuel] bounds how deep the reading goes. *)
Fixpoint parse_value (fuel : nat) (t : list Z) {struct fuel}
    : option (value * list Z) :=
  match fuel with
  | O => None
  | S fuel' =>
      match t with
      | [] => None
      | c :: r =>
          if c =? 34 then
            match parse_chars r with
            | Some (s, rest) => Some (Str s, rest)
            | None => None
            end
          else if prefix_eqb [116; 114; 117; 101] t then Some (Bool true, skipn 4 t)
          else if prefix_eqb [102; 97; 108; 115; 101] t then Some (Bool false, skipn 5 t)
          else if prefix_eqb [110; 117; 108; 108] t then Some (Null, skipn 4 t)
          else if c =? 91 then
            match skip_ws r with
            | [] => None
            | c' :: r' =>
                if c' =? 93 then Some (Array [], r')
                else
                  match parse_elements fuel' (c' :: r') with
                  | Some (vs, rest) => Some (Array vs, rest)
                  | None => None
                  end
            end
          else if c =? 123 then
            match skip_ws r with
            | [] => None
            | c' :: r' =>
                if c' =? 125 then Some (Object [], r')
                else
                  match parse_members fuel' (c' :: r') with
                  | Some (o, rest) => Some (Object o, rest)
                  | None => None
                  end
            end
          else parse_number t
      end
  end
with parse_elements (fuel : nat) (t : list Z) {struct fuel}
    : option (list value * list Z) :=
  match fuel with
  | O => None
  | S fuel' =>
      match parse_value fuel' t with
      | Some (v, r1) =>
          match skip_ws r1 with
          | [] => None
          | c :: r2 =>
              if c =? 44 then
                match parse_elements fuel' (skip_ws r2) with
                | Some (vs, rest) => Some (v :: vs, rest)
                | None => None
                end
              else if c =? 93 then Some ([v], r2)
              else None
          end
      | None => None
      end
  end
with parse_members (fuel : nat) (t : list Z) {struct fuel}
    : option (object * list Z) :=
  match fuel with
  | O => None
  | S fuel' =>
      match t with
      | [] => None
      | q :: r =>
          if q =? 34 then
            match parse_chars r with
            | Some (k, r1) =>
                match skip_ws r1 with
                | [] => None
                | c1 :: r2 =>
                    if c1 =? 58 then
                      match parse_value fuel' (skip_ws r2) with
                      | Some (v, r3) =>
                          match skip_ws r3 with
                          | [] => None
                          | c2 :: r4 =>
                              if c2 =? 44 then
                                match parse_members fuel' (skip_ws r4) with
                                | Some (o, rest) => Some ((k, v) :: o, rest)
                                | None => None
                                end
                              else if c2 =? 125 then Some ([(k, v)], r4)
                              else None
                          end
                      | None => None
                      end
                    else None
                end
            | None => None
            end
          else None
      end
  end.

(** An object: the value the text holds, when it is one.  The fuel is as
    long as the text, which is as deep as a text can go. *)
Definition parse_object (t : list Z) : option (object * list Z) :=
  match skip_ws t with
  | [] => None
  | c :: r =>
      if c =? 123 then
        match skip_ws r with
        | [] => None
        | c' :: rest =>
            if c' =? 125 then Some ([], rest)
            else parse_members (length (c' :: rest)) (c' :: rest)
        end
      else None
  end.

(** [json::parse] and the test [is_object] after it: one value that is an
    object, then white space, then the end of the input or the first byte
    of the zero padding. *)
Definition parse (t : list Z) : option object :=
  match parse_object t with
  | Some (o, rest) =>
      match skip_ws rest with
      | [] => Some o
      | c :: _ => if c =? 0 then Some o else None
      end
  | None => None
  end.

(** [j.at(key)] *)
Fixpoint at_ (key : list Z) (o : object) : option value :=
  match o with
  | [] => None
  | (k, v) :: r => if bytes_eqb k key then Some v else at_ key r
  end.

(** [get<std::string>()], [get<uint64_t>()] and [get<bool>()]: "missing or
    type-mismatched keys yield wrong_protocol_type". *)
Definition get_string (v : option value) : option (list Z) :=
  match v with Some (Str s) => Some s | _ => None end.

Definition get_unsigned (v : option value) : option Z :=
  match v with Some (Num n) => Some (Z.of_N n) | _ => None end.

Definition get_bool (v : option value) : option bool :=
  match v with Some (Bool b) => Some b | _ => None end.

End Json.

(** ** DataLogImpl *)

Definition wrong_protocol_type : Z := 91.   (* EPROTOTYPE *)

Definition read64le (p : Ptr) : M Z := bs <- load p 8 ;; ret (le_value bs).
Definition read32le (p : Ptr) : M Z := bs <- load p 4 ;; ret (le_value bs).
Definition write64le (p : Ptr) (v : Z) : M unit := store p (le_bytes 8 v).
Definition write32le (p : Ptr) (v : Z) : M unit := store p (le_bytes 4 v).

Definition upd_file (w : Which) (g : FileInfo -> FileInfo) : M unit :=
  modify (fun st => set_file w (g (file_of w st)) st).

(** Modelled from the spec: [size()] is declared inline in DataLog.h, which
    is not part of src: [(time.writePos - 4096) / recordSize]. *)
Definition size (st : World) : Z :=
  u64 (writePos (m_time st) - kHeaderSize) / m_recordSize st.

(** [DataLogImpl::ReadRaw] *)
Definition ReadRaw (n : Z) : M (Z * ArrayRef) :=
  st <- get ;;
  raw <- Read Time (u64 (kHeaderSize + n * m_recordSize st)) (m_recordSize st) ;;
  if (a_size raw <? m_recordSize st) || (a_size raw <? kTimestampSize)
  then ret (0, nil_ref)
  else
    match a_data raw with
    | None => fault
    | Some p =>
        ts <- read64le p ;;
        if m_fixedSize st then ret (ts, slice raw kTimestampSize)
        else if m_recordSize st =? kLargePointerRecordSize then
          off <- read64le (ptr_add p kTimestampSize) ;;
          sz <- read64le (ptr_add p (kTimestampSize + 8)) ;;
          r <- Read Data off sz ;;
          ret (ts, r)
        else
          off <- read32le (ptr_add p kTimestampSize) ;;
          sz <- read32le (ptr_add p (kTimestampSize + 4)) ;;
          r <- Read Data off sz ;;
          ret (ts, r)
    end.

(** The JSON object [DataLogImpl::WriteHeader] builds. *)
Definition header_json (st : World) : Json.object :=
  [ (bytes "dataType"%string, Json.Str (m_dataType st));
    (bytes "dataLayout"%string, Json.Str (m_dataLayout st));
    (bytes "recordSize"%string, Json.Num (Z.to_N (m_recordSize st)));
    (bytes "fixedSize"%string, Json.Bool (m_fixedSize st));
    (bytes "gapData"%string, Json.Str (m_gapData st));
    (bytes "timeWritePos"%string,
      Json.Num (Z.to_N (u64 (mapOffset (m_time st) + writePos (m_time st)))));
    (bytes "dataWritePos"%string,
      Json.Num (Z.to_N (u64 (mapOffset (m_data st) + writePos (m_data st))))) ].

(** The contents of [buf] when it is handed to [m_time.Write]. *)
Definition header_bytes (st : World) : list Z :=
  resize kHeaderSize (Json.dump 1 (header_json st) ++ [10]).

(** [DataLogImpl::WriteHeader] *)
Definition WriteHeader : M unit :=
  st <- get ;;
  if negb (m_mapping (mapping (m_time st))) || readOnly (m_time st) then ret tt
  else Write Time 0 (header_bytes st).

(** [DataLogImpl::Flush]; [MappedFile::Flush] schedules the write-back and
    changes nothing that is modelled. *)
Definition Flush : M unit := WriteHeader.

(** [DataLogImpl::AppendRawStart]: [None] is the null pointer. *)
Definition AppendRawStart (timestamp sz : Z) : M (option Ptr) :=
  st <- get ;;
  if m_checkMonotonic st && (timestamp <=? m_lastTimestamp st) then ret None
  else if readOnly (m_time st) then ret None
  else
    '(off, ec) <- GetMappedOffset Time (writePos (m_time st)) (m_recordSize st) ;;
    if negb (ec =? 0) then ret None
    else
      let timeBuf := mkPtr Time off in
      write64le timeBuf timestamp ;;;
      if m_fixedSize st then
        modify (set_lastTimestamp timestamp) ;;;
        ret (Some (ptr_add timeBuf kTimestampSize))
      else
        (if m_recordSize st =? kLargePointerRecordSize then
           write64le (ptr_add timeBuf kTimestampSize) (writePos (m_data st)) ;;;
           write64le (ptr_add timeBuf (kTimestampSize + 8)) sz
         else
           write32le (ptr_add timeBuf kTimestampSize) (writePos (m_data st)) ;;;
           write32le (ptr_add timeBuf (kTimestampSize + 4)) sz) ;;;
        '(off, ec) <- GetMappedOffset Data (writePos (m_data st)) sz ;;
        if negb (ec =? 0) then ret None
        else
          modify (set_lastTimestamp timestamp) ;;;
          ret (Some (mkPtr Data off)).

(** [DataLogImpl::AppendRawFinish] *)
Definition AppendRawFinish (sz : Z) : M unit :=
  st <- get ;;
  (if negb (m_fixedSize st) then
     upd_file Data (fun f => set_writePos (u64 (writePos f + sz)) f) ;;;
     if negb (len (m_gapData st) =? 0) then
       st1 <- get ;;
       Write Data (writePos (m_data st1)) (m_gapData st) ;;;
       upd_file Data (fun f => set_writePos (u64 (writePos f + len (m_gapData st))) f)
     else ret tt
   else ret tt) ;;;
  upd_file Time (fun f => set_writePos (u64 (writePos f + m_recordSize st)) f) ;;;
  if negb (m_periodicFlush st =? 0) then
    modify (fun s => set_periodicFlushCount (m_periodicFlushCount s + 1) s) ;;;
    st2 <- get ;;
    if m_periodicFlush st <=? m_periodicFlushCount st2 then
      Flush ;;;
      modify (set_periodicFlushCount 0)
    else ret tt
  else ret tt.

(** [DataLogImpl::AppendRaw] *)
Definition AppendRaw (timestamp : Z) (data : list Z) : M bool :=
  let sz := len data in
  out <- AppendRawStart timestamp sz ;;
  match out with
  | None => ret false
  | Some p =>
      store p data ;;;
      AppendRawFinish sz ;;;
      ret true
  end.

(** The loop of [DataLogImpl::FindImpl].  [count] at least halves on every
    turn, so a 64-bit [count] is used up after 64 turns; the inner [None]
    says that the fuel was not enough. *)
Fixpoint FindImpl_loop (fuel : nat) (timestamp first count : Z) : M (option Z) :=
  if count <=? 0 then ret (Some first)
  else
    match fuel with
    | O => ret None
    | S fuel' =>
        let step := count / 2 in
        let it := u64 (first + step) in
        r <- ReadRaw it ;;
        if fst r <? timestamp
        then FindImpl_loop fuel' timestamp (u64 (it + 1)) (u64 (count - (step + 1)))
        else FindImpl_loop fuel' timestamp first step
    end.

(** [DataLogImpl::FindImpl] *)
Definition FindImpl (timestamp first last : Z) : M (option Z) :=
  st <- get ;;
  let count := u64 (Z.min (size st) last - first) in
  FindImpl_loop 64 timestamp first count.

(** Modelled from the spec: [Find] is declared in DataLog.h, which is not part
    of src: the lower bound over [[0, size())]. *)
Definition find (timestamp : Z) : M (option Z) :=
  FindImpl timestamp 0 SIZE_MAX.

(** [DataLogImpl::Check]: the error it returns, 0 for success. *)
Definition Check (st : World) (dataType dataLayout : list Z) (recordSize : Z)
    (checkType checkLayout checkSize : bool) : Z :=
  if (checkType && negb (bytes_eqb (m_dataType st) dataType))
     || (checkLayout && negb (bytes_eqb (m_dataLayout st) dataLayout))
     || (checkSize &&
         ((negb (recordSize =? 0)
           && (negb (m_fixedSize st) || negb (m_recordSize st =? recordSize)))
          || ((recordSize =? 0)
              && (m_fixedSize st
                  || (negb (m_recordSize st =? kLargePointerRecordSize)
                      && negb (m_recordSize st =? kSmallPointerRecordSize))))))
  then wrong_protocol_type
  else 0.

Definition set_header_field (k : nat) (s : list Z) (n : Z) (b : bool) (st : World) : World :=
  mkWorld
    (if Nat.eqb k 0 then s else m_dataType st)
    (if Nat.eqb k 1 then s else m_dataLayout st)
    (if Nat.eqb k 2 then n else m_recordSize st)
    (if Nat.eqb k 3 then b else m_fixedSize st)
    (if Nat.eqb k 4 then s else m_gapData st)
    (m_lastTimestamp st) (m_checkMonotonic st) (m_periodicFlush st)
    (m_periodicFlushCount st) (m_time st) (m_data st) (os st) (perrors st).

Definition set_dataType (s : list Z) := set_header_field 0 s 0 false.
Definition set_dataLayout (s : list Z) := set_header_field 1 s 0 false.
Definition set_recordSize (n : Z) := set_header_field 2 [] n false.
Definition set_fixedSize (b : bool) := set_header_field 3 [] 0 b.
Definition set_gapData (s : list Z) := set_header_field 4 s 0 false.

(** Modelled from the spec: the stream over the descriptor and the parser
    that reads it are not part of src; "on read, JSON-parse the first 4 KiB". *)
Definition parse_header (stream : list Z) : option Json.object :=
  Json.parse (firstn (Z.to_nat kHeaderSize) stream).

(** [DataLogImpl::ReadHeader]: the error it returns, 0 for success.  The
    members are assigned one after the other, as far as the keys are good. *)
Definition ReadHeader : M Z :=
  st <- get ;;
  match parse_header (contents (m_time st)) with
  | None => ret wrong_protocol_type
  | Some j =>
  match Json.get_string (Json.at_ (bytes "dataType"%string) j) with
  | None => ret wrong_protocol_type
  | Some dataType => modify (set_dataType dataType) ;;;
  match Json.get_string (Json.at_ (bytes "dataLayout"%string) j) with
  | None => ret wrong_protocol_type
  | Some dataLayout => modify (set_dataLayout dataLayout) ;;;
  match Json.get_unsigned (Json.at_ (bytes "recordSize"%string) j) with
  | None => ret wrong_protocol_type
  | Some recordSize => modify (set_recordSize (u32 recordSize)) ;;;
  match Json.get_bool (Json.at_ (bytes "fixedSize"%string) j) with
  | None => ret wrong_protocol_type
  | Some fixedSize => modify (set_fixedSize fixedSize) ;;;
  match Json.get_string (Json.at_ (bytes "gapData"%string) j) with
  | None => ret wrong_protocol_type
  | Some gapData => modify (set_gapData gapData) ;;;
  match Json.get_unsigned (Json.at_ (bytes "timeWritePos"%string) j) with
  | None => ret wrong_protocol_type
  | Some timeWritePos => upd_file Time (set_writePos (u64 timeWritePos)) ;;;
  match Json.get_unsigned (Json.at_ (bytes "dataWritePos"%string) j) with
  | None => ret wrong_protocol_type
  | Some dataWritePos => upd_file Data (set_writePos (u64 dataWritePos)) ;;;
  ret 0
  end end end end end end end end.

(** Modelled from the spec: the enumeration is declared in DataLog.h, which is
    not part of src. *)
Inductive CreationDisposition :=
| CD_CreateAlways
| CD_CreateNew
| CD_OpenAlways
| CD_OpenExisting
| CD_OpenExistingTruncate.

Definition disp_eqb (a b : CreationDisposition) : bool :=
  match a, b with
  | CD_CreateAlways, CD_CreateAlways | CD_CreateNew, CD_CreateNew
  | CD_OpenAlways, CD_OpenAlways | CD_OpenExisting, CD_OpenExisting
  | CD_OpenExistingTruncate, CD_OpenExistingTruncate => true
  | _, _ => false
  end.

(** Modelled from the spec: [wpi::sys::fs::openFile] is not part of src; the
    dispositions have their standard semantics.  [disk] is what the path names
    before the call ([None]: no such file); the result is the error (0: none)
    and the bytes of the opened file. *)
Definition openFile (disk : option (list Z)) (disp : CreationDisposition) : Z * list Z :=
  match disp, disk with
  | CD_CreateAlways, _ => (0, [])
  | CD_CreateNew, None => (0, [])
  | CD_CreateNew, Some _ => (17, [])                 (* EEXIST *)
  | CD_OpenAlways, None => (0, [])
  | CD_OpenAlways, Some c => (0, c)
  | CD_OpenExisting, Some c => (0, c)
  | CD_OpenExistingTruncate, Some _ => (0, [])
  | _, None => (2, [])                               (* ENOENT *)
  end.

(** [FileInfo::Open] *)
Definition Open (w : Which) (disk : option (list Z)) (disp : CreationDisposition)
    (ro : bool) : M Z :=
  let (e, c) := openFile disk disp in
  upd_file w (fun f =>
    mkFileInfo (if e =? 0 then 3 else fd f) ro (writePos f) (fileSize f)
      (mapOffset f) (mapGrowSize f) (maxGrowSize f) (maxMapSize f) (mapping f)
      (if e =? 0 then c else contents f)) ;;;
  ret e.

(** [GetFileSize] *)
Definition GetFileSize (f : FileInfo) : Z := len (contents f).

Definition set_fileSize (n : Z) (f : FileInfo) : FileInfo :=
  mkFileInfo (fd f) (readOnly f) (writePos f) n (mapOffset f)
    (mapGrowSize f) (maxGrowSize f) (maxMapSize f) (mapping f) (contents f).

Definition set_growth (maxGrow grow maxMap : Z) (f : FileInfo) : FileInfo :=
  mkFileInfo (fd f) (readOnly f) (writePos f) (fileSize f) (mapOffset f)
    grow maxGrow maxMap (mapping f) (contents f).

(** Modelled from the spec: [Config] is declared in DataLog.h, which is not
    part of src; the members are those the spec tabulates. *)
Record Config := mkConfig {
  cfg_readOnly : bool;
  cfg_checkType : bool;
  cfg_checkLayout : bool;
  cfg_checkSize : bool;
  cfg_checkMonotonic : bool;
  cfg_largeData : bool;
  cfg_periodicFlush : Z;
  cfg_initialSize : Z;
  cfg_maxGrowSize : Z;
  cfg_initialDataSize : Z;
  cfg_maxDataGrowSize : Z;
  cfg_maxMapSize : Z;
  cfg_gapData : list Z
}.

Definition set_config (periodicFlush : Z) (checkMonotonic : bool) (st : World) : World :=
  mkWorld (m_dataType st) (m_dataLayout st) (m_recordSize st)
    (m_fixedSize st) (m_gapData st) (m_lastTimestamp st)
    checkMonotonic periodicFlush
    (m_periodicFlushCount st) (m_time st) (m_data st) (os st) (perrors st).

(** [DataLogImpl::DoOpen]: the error it returns, 0 for success.  The file
    name is given by what it and its [".data"] sibling name on the disk. *)
Definition DoOpen (time_disk data_disk : option (list Z))
    (dataType dataLayout : list Z) (recordSize : Z)
    (disp : CreationDisposition) (config : Config) : M Z :=
  ec <- Open Time time_disk disp (cfg_readOnly config) ;;
  if negb (ec =? 0) then ret ec else
  upd_file Time (fun f => set_fileSize (GetFileSize f) f) ;;;
  st <- get ;;
  e <- (if disp_eqb disp CD_OpenExisting
           || (disp_eqb disp CD_OpenAlways && (0 <? fileSize (m_time st)))
        then
          e <- ReadHeader ;;
          if negb (e =? 0) then ret e
          else
            st1 <- get ;;
            ret (Check st1 dataType dataLayout recordSize (cfg_checkType config)
                   (cfg_checkLayout config) (cfg_checkSize config))
        else
          modify (set_dataType dataType) ;;;
          modify (set_dataLayout dataLayout) ;;;
          modify (set_fixedSize (negb (recordSize =? 0))) ;;;
          modify (set_recordSize
                    (if negb (recordSize =? 0) then recordSize
                     else if cfg_largeData config then kLargePointerRecordSize
                     else kSmallPointerRecordSize)) ;;;
          modify (set_gapData (cfg_gapData config)) ;;;
          upd_file Time (set_writePos kHeaderSize) ;;;
          ret 0) ;;
  if negb (e =? 0) then ret e else
  modify (set_config (cfg_periodicFlush config) (cfg_checkMonotonic config)) ;;;
  st2 <- get ;;
  upd_file Time (set_growth (u64 (cfg_maxGrowSize config * m_recordSize st2))
                   (u64 (cfg_initialSize config * m_recordSize st2))
                   (cfg_maxMapSize config)) ;;;
  upd_file Data (set_growth (cfg_maxDataGrowSize config)
                   (cfg_initialDataSize config) (cfg_maxMapSize config)) ;;;
  ec <- (if kHeaderSize + m_recordSize st2 <? writePos (m_time st2) then
           '(off, ec) <- GetMappedOffset Time
                           (u64 (writePos (m_time st2) - m_recordSize st2))
                           (u64 (m_recordSize st2 * 2)) ;;
           if negb (ec =? 0) then ret ec
           else
             ts <- read64le (mkPtr Time off) ;;
             modify (set_lastTimestamp ts) ;;;
             ret 0
         else
           '(_, ec) <- GetMappedOffset Time (writePos (m_time st2)) (m_recordSize st2) ;;
           ret ec) ;;
  if negb (ec =? 0) then ret ec else
  if negb (m_fixedSize st2) then
    ec <- Open Data data_disk disp (cfg_readOnly config) ;;
    if negb (ec =? 0) then ret ec else
    upd_file Data (fun f => set_fileSize (GetFileSize f) f) ;;;
    st3 <- get ;;
    '(_, ec) <- GetMappedOffset Data (writePos (m_data st3)) 1024 ;;
    ret ec
  else ret 0.

(** Modelled from the spec: the member initialisers of [DataLogImpl] and of
    [FileInfo] are in DataLog.h, which is not part of src: a new object has no
    descriptor, no mapping and zero positions. *)
Definition FileInfo_new : FileInfo :=
  mkFileInfo (-1) false 0 0 0 0 0 0 (mkMappedFile false 0) [].

Definition DataLogImpl_new (answers : list OsAnswer) : World :=
  mkWorld [] [] 0 false [] 0 false 0 0 FileInfo_new FileInfo_new answers [].

(** Running a computation for its result and for its final world. *)
Definition result {A} (r : option (A * World)) : option A := option_map fst r.
Definition world {A} (r : option (A * World)) : option World := option_map snd r.
(** * The rest of DataLog.cpp *)

(** ** Closing a file *)

(** [MappedFile::Unmap] *)
Definition Unmap (m : MappedFile) : MappedFile := mkMappedFile false (m_size m).

Definition msg_truncate : list Z := bytes "could not truncate during close"%string.

(** [FileInfo::Close]: the file is cut to [writePos] when it is open, has a
    write position and is writable; the answer to that [ftruncate] is the next
    one of the operating system.  The bytes stay behind the path. *)
Definition Close (w : Which) : M unit := fun st =>
  let f := file_of w st in
  let cut := negb (fd f =? -1) && negb (writePos f =? 0) && negb (readOnly f) in
  let (a, rest) := if cut then next_os st else (os_fine, os st) in
  let contents' :=
    if cut && ftruncate_ok a then resize (writePos f) (contents f) else contents f in
  let perrors' :=
    if cut && negb (ftruncate_ok a) then msg_truncate :: perrors st else perrors st in
  let f' := mkFileInfo (-1) (readOnly f) (writePos f) (fileSize f) (mapOffset f)
              (mapGrowSize f) (maxGrowSize f) (maxMapSize f) (Unmap (mapping f))
              contents' in
  Some (tt, set_env rest perrors' (set_file w f' st)).

(** ** DataLog::Open *)




(** ** Loops over a view *)

(** [arr.data()] where it is read through: the null pointer cannot be. *)
Definition data_ptr (a : ArrayRef) : M Ptr :=
  match a_data a with
  | Some p => ret p
  | None => fault
  end.

(** [for (i = i0; i < i0 + k; ++i) buf.emplace_back(body(i))] *)
Fixpoint for_each {A} (k : nat) (i : Z) (body : Z -> M A) : M (list A) :=
  match k with
  | O => ret []
  | S k' =>
      x <- body i ;;
      r <- for_each k' (i + 1) body ;;
      ret (x :: r)
  end.

Definition load8 (p : Ptr) : M Z := bs <- load p 1 ;; ret (hd 0 bs).

(** [for (uint8_t value : arr)]: the bytes of the view, first to last. *)
Definition each_byte (arr : ArrayRef) : M (list Z) :=
  for_each (Z.to_nat (a_size arr)) 0
    (fun i => p <- data_ptr arr ;; load8 (ptr_add p i)).

(** [*out++ = b] for every [b]. *)
Fixpoint store_each (out : Ptr) (bs : list Z) : M unit :=
  match bs with
  | [] => ret tt
  | b :: r => store out [b] ;;; store_each (ptr_add out 1) r
  end.

(** ** DoubleLog, BooleanArrayLog, DoubleArrayLog *)

Section Doubles.

(** [wpi::DoubleToBits] and [wpi::BitsToDouble] are declared in MathExtras.h,
    which is not part of src: they are taken as they come. *)
Variable double : Type.
Variable DoubleToBits : double -> Z.
Variable BitsToDouble : Z -> double.

(** [DoubleLog::Append] *)
Definition DoubleLog_Append (timestamp : Z) (value : double) : M bool :=
  let buf := le_bytes 8 (DoubleToBits value) in
  AppendRaw timestamp buf.

(** [DoubleLog::operator[]] *)
Definition DoubleLog_at (n : Z) : M (Z * double) :=
  '(ts, arr) <- ReadRaw n ;;
  p <- data_ptr arr ;;
  bits <- read64le p ;;
  ret (ts, BitsToDouble bits).

(** [DoubleArrayLogArrayProxy::operator[]], on the view the proxy holds. *)
Definition DoubleArrayLogArrayProxy_at (m_data : ArrayRef) (n : Z) : M double :=
  p <- data_ptr m_data ;;
  bits <- read64le (ptr_add p (u64 (n * 8))) ;;
  ret (BitsToDouble bits).

(** [write64le(out, ...); out += 8] for every value. *)
Fixpoint write64le_each (out : Ptr) (vs : list Z) : M unit :=
  match vs with
  | [] => ret tt
  | v :: r => write64le out v ;;; write64le_each (ptr_add out 8) r
  end.

(** [DoubleArrayLog::Append] *)
Definition DoubleArrayLog_Append (timestamp : Z) (arr : list double) : M bool :=
  let sz := u64 (Z.of_nat (length arr) * 8) in
  out <- AppendRawStart timestamp sz ;;
  match out with
  | None => ret false
  | Some p =>
      write64le_each p (map DoubleToBits arr) ;;;
      AppendRawFinish sz ;;;
      ret true
  end.

(** [DoubleArrayLog::Get] *)
Definition DoubleArrayLog_Get (n : Z) : M (Z * list double) :=
  '(ts, arr) <- ReadRaw n ;;
  buf <- for_each (Z.to_nat (a_size arr / 8)) 0
           (fun i =>
              p <- data_ptr arr ;;
              bits <- read64le (ptr_add p (u64 (i * 8))) ;;
              ret (BitsToDouble bits)) ;;
  ret (ts, buf).

End Doubles.

(** [BooleanArrayLog::Append(uint64_t, ArrayRef<bool>)] *)
Definition BooleanArrayLog_Append (timestamp : Z) (arr : list bool) : M bool :=
  let sz := Z.of_nat (length arr) in
  out <- AppendRawStart timestamp sz ;;
  match out with
  | None => ret false
  | Some p =>
      store_each p (map (fun value : bool => if value then 1 else 0) arr) ;;;
      AppendRawFinish sz ;;;
      ret true
  end.

(** [BooleanArrayLog::Append(uint64_t, ArrayRef<int>)] *)
Definition BooleanArrayLog_Append_int (timestamp : Z) (arr : list Z) : M bool :=
  let sz := Z.of_nat (length arr) in
  out <- AppendRawStart timestamp sz ;;
  match out with
  | None => ret false
  | Some p =>
      store_each p (map (fun value => if value =? 0 then 0 else 1) arr) ;;;
      AppendRawFinish sz ;;;
      ret true
  end.

(** [BooleanArrayLog::Get(size_t, SmallVectorImpl<bool>&)] *)
Definition BooleanArrayLog_Get (n : Z) : M (Z * list bool) :=
  '(ts, arr) <- ReadRaw n ;;
  bs <- each_byte arr ;;
  ret (ts, map (fun value => negb (value =? 0)) bs).

(** [BooleanArrayLog::Get(size_t, SmallVectorImpl<int>&)] *)
Definition BooleanArrayLog_Get_int (n : Z) : M (Z * list Z) :=
  '(ts, arr) <- ReadRaw n ;;
  bs <- each_byte arr ;;
  ret (ts, map (fun value => if negb (value =? 0) then 1 else 0) bs).

(** ** StringArrayLog *)

(** The loop that writes the offset and the length of every string, in
    [StringArrayLog::Append(uint64_t, ArrayRef<StringRef>)]; [off] is a
    [uint32_t].  The result is [out] after the loop. *)
Fixpoint write_pointers (out : Ptr) (off : Z) (arr : list (list Z)) : M Ptr :=
  match arr with
  | [] => ret out
  | value :: r =>
      write32le out off ;;;
      write32le (ptr_add out 4) (len value) ;;;
      write_pointers (ptr_add out 8) (u32 (off + (len value + 1))) r
  end.

(** The same loop in [StringArrayLog::Append(uint64_t, ArrayRef<std::string>)]:
    both values are written at [out], which moves on by 8 afterwards. *)
Fixpoint write_pointers_string (out : Ptr) (off : Z) (arr : list (list Z)) : M Ptr :=
  match arr with
  | [] => ret out
  | value :: r =>
      write32le out off ;;;
      write32le out (len value) ;;;
      write_pointers_string (ptr_add out 8) (u32 (off + (len value + 1))) r
  end.

(** The loop that copies every string and ends it with a zero byte. *)
Fixpoint write_strings (out : Ptr) (arr : list (list Z)) : M unit :=
  match arr with
  | [] => ret tt
  | value :: r =>
      store out value ;;;
      store (ptr_add out (len value)) [0] ;;;
      write_strings (ptr_add out (len value + 1)) r
  end.

(** [uint32_t size = off; for (auto&& value : arr) size += value.size() + 1;] *)
Definition strings_size (off : Z) (arr : list (list Z)) : Z :=
  fold_left (fun size value => u32 (size + (len value + 1))) arr off.

Definition StringArrayLog_Append_with
    (pointers : Ptr -> Z -> list (list Z) -> M Ptr)
    (timestamp : Z) (arr : list (list Z)) : M bool :=
  let off := u32 (4 + u64 (8 * Z.of_nat (length arr))) in
  let size := strings_size off arr in
  out <- AppendRawStart timestamp size ;;
  match out with
  | None => ret false
  | Some p =>
      write32le p (Z.of_nat (length arr)) ;;;
      out' <- pointers (ptr_add p 4) off arr ;;
      write_strings out' arr ;;;
      AppendRawFinish size ;;;
      ret true
  end.

(** [StringArrayLog::Append(uint64_t, ArrayRef<StringRef>)] *)
Definition StringArrayLog_Append : Z -> list (list Z) -> M bool :=
  StringArrayLog_Append_with write_pointers.

(** [StringArrayLog::Append(uint64_t, ArrayRef<std::string>)] *)
Definition StringArrayLog_Append_string : Z -> list (list Z) -> M bool :=
  StringArrayLog_Append_with write_pointers_string.

(** The string that a pointer record of the view names:
    [arr.slice(off, size)] read as [size] characters. *)
Definition string_at (arr : ArrayRef) (rec : Z) : M (list Z) :=
  p <- data_ptr arr ;;
  let ptrRec := ptr_add p rec in
  off <- read32le ptrRec ;;
  size <- read32le (ptr_add ptrRec 4) ;;
  load (ptr_add p off) size.

(** [StringArrayLogArrayProxy::operator[]], on the view the proxy holds. *)
Definition StringArrayLogArrayProxy_at (m_data : ArrayRef) (n : Z) : M (list Z) :=
  string_at m_data (u64 (4 + u64 (n * 8))).

(** [StringArrayLog::Get], for [std::string] and for [StringRef]: the two
    bodies are the same, and a [StringRef] is taken by the characters it shows. *)
Definition StringArrayLog_Get (n : Z) : M (Z * list (list Z)) :=
  '(ts, arr) <- ReadRaw n ;;
  p <- data_ptr arr ;;
  num <- read32le p ;;
  buf <- for_each (Z.to_nat num) 0 (fun i => string_at arr (u32 (4 + u32 (i * 8)))) ;;
  ret (ts, buf).

(** [StringArrayLog::operator[]]: the number of strings and the view, which
    make the proxy. *)
Definition StringArrayLog_at (n : Z) : M (Z * (Z * ArrayRef)) :=
  '(ts, arr) <- ReadRaw n ;;
  p <- data_ptr arr ;;
  num <- read32le p ;;
  ret (ts, (num, arr)).

(** * Specification-level definitions *)

(** The window test of [GetMappedOffset] in mathematical terms: the mapping
    exists and holds the bytes [[pos, pos + n)]. *)
Definition covers (f : FileInfo) (pos n : Z) : Prop :=
  m_mapping (mapping f) = true
  /\ mapOffset f <= pos
  /\ pos + n - mapOffset f <= m_size (mapping f).

Definition other (w : Which) : Which :=
  match w with Time => Data | Data => Time end.

(** What an append must not touch unless it completes. *)
Definition positions (st : World) : Z * Z :=
  (writePos (m_time st), writePos (m_data st)).

Definition settings (st : World) :=
  (m_dataType st, m_dataLayout st, m_recordSize st, m_fixedSize st,
   m_gapData st, m_checkMonotonic st, m_periodicFlush st,
   (readOnly (m_time st), readOnly (m_data st)),
   (mapOffset (m_time st), mapOffset (m_data st))).

Definition rejected (st : World) (timestamp : Z) : bool :=
  (m_checkMonotonic st && (timestamp <=? m_lastTimestamp st))
  || readOnly (m_time st).

Definition is_mapped (w : Which) (st : World) : bool :=
  m_mapping (mapping (file_of w st)).

(** Nothing but the files' sizes, mappings and bytes has changed. *)
Definition preserved (st st' : World) : Prop :=
  settings st' = settings st /\ positions st' = positions st
  /\ m_lastTimestamp st' = m_lastTimestamp st.

(** A file whose mapping can always be redone: it is read-only, or its
    growth step is positive and stays so. *)
Definition growable (f : FileInfo) : Prop :=
  readOnly f = true \/ (0 < mapGrowSize f /\ maxGrowSize f <= 2 ^ 63).

(** The records of the log can be read: an 8-byte timestamp fits a record,
    a variable-size log has pointer records, and the time file is mapped and
    backed up to its write position. *)
Definition readable (st : World) : Prop :=
  8 <= m_recordSize st
  /\ (m_fixedSize st = false -> m_recordSize st = 16 \/ m_recordSize st = 24)
  /\ m_mapping (mapping (m_time st)) = true
  /\ mapOffset (m_time st) = 0
  /\ kHeaderSize <= writePos (m_time st)
  /\ writePos (m_time st) <= m_size (mapping (m_time st))
  /\ writePos (m_time st) <= len (contents (m_time st))
  /\ m_size (mapping (m_time st)) < 2 ^ 64
  /\ growable (m_data st).

(** The timestamp stored in record [n] of the time file. *)
Definition ts_at (st : World) (n : Z) : Z :=
  le_value (peek (kHeaderSize + n * m_recordSize st) 8 (contents (m_time st))).

(** The stored timestamps never go down. *)
Definition sorted (st : World) : Prop :=
  forall i j, 0 <= i -> i <= j -> j < size st -> ts_at st i <= ts_at st j.

(** [n] is the lower bound of [timestamp] among the records [[lo, hi)]. *)
Definition lower_bound (st : World) (timestamp lo hi n : Z) : Prop :=
  lo <= n <= hi
  /\ (forall i, lo <= i < n -> ts_at st i < timestamp)
  /\ (forall i, n <= i < hi -> timestamp <= ts_at st i).

(** The time file and the record size are the same. *)
Definition same_records (st st' : World) : Prop :=
  m_time st' = m_time st /\ m_recordSize st' = m_recordSize st.

(** A run of [AppendRaw]; the result tells which appends went through. *)
Fixpoint AppendAll (l : list (Z * list Z)) : M (list bool) :=
  match l with
  | [] => ret []
  | (timestamp, data) :: r =>
      b <- AppendRaw timestamp data ;;
      bs <- AppendAll r ;;
      ret (b :: bs)
  end.

(** The appends that went through. *)
Fixpoint completed (l : list (Z * list Z)) (bs : list bool) : list (Z * list Z) :=
  match l, bs with
  | x :: l', true :: bs' => x :: completed l' bs'
  | _ :: l', false :: bs' => completed l' bs'
  | _, _ => []
  end.

Fixpoint payload_sum (l : list (Z * list Z)) : Z :=
  match l with
  | [] => 0
  | (_, data) :: r => len data + payload_sum r
  end.

(** The disposition makes a new log, rather than read the header of one that
    exists. *)
Definition creates (disp : CreationDisposition) (time_disk : option (list Z)) : bool :=
  match disp, time_disk with
  | CD_OpenExisting, _ => false
  | CD_OpenAlways, Some (_ :: _) => false
  | _, _ => true
  end.

(** The members that say how the data file is laid out. *)
Definition data_layout (st : World) :=
  (m_fixedSize st, m_gapData st, writePos (m_data st), mapOffset (m_data st)).

(** The operating system maps a file when asked to. *)
Definition maps_ok (a : OsAnswer) : Prop := mmap_errno a = 0.

(** A file the log can go on with: the mapping starts at offset 0, the sizes
    are 64-bit values, the file is no longer than [fileSize] says, and the
    mapping can be redone. *)
Definition file_ok (f : FileInfo) : Prop :=
  mapOffset f = 0
  /\ 0 <= writePos f < 2 ^ 64
  /\ len (contents f) <= fileSize f < 2 ^ 64
  /\ growable f.

(** The bytes in [[lo, hi)] that [c] holds are the same in [c']. *)
Definition bytes_kept (lo hi : Z) (c c' : list Z) : Prop :=
  len c <= len c'
  /\ forall off n, lo <= off -> 0 <= n -> off + n <= hi -> off + n <= len c ->
       peek off n c' = peek off n c.

(** The width of the offset and of the length in a pointer record. *)
Definition ptr_width (st : World) : nat :=
  if m_recordSize st =? kLargePointerRecordSize then 8%nat else 4%nat.

(** The file holds the bytes [v] at offset [o]. *)
Definition holds (f : FileInfo) (o : Z) (v : list Z) : Prop :=
  0 <= o /\ o + len v <= len (contents f) /\ peek o (len v) (contents f) = v.

(** A log that can be appended to: a timestamp fits a record, a variable-size
    log has pointer records, both files are good, and the write position of
    the time file is on a record boundary, inside the file. *)
Definition well_formed (st : World) : Prop :=
  8 <= m_recordSize st
  /\ (m_fixedSize st = false -> m_recordSize st = 16 \/ m_recordSize st = 24)
  /\ file_ok (m_time st) /\ file_ok (m_data st)
  /\ kHeaderSize <= writePos (m_time st)
  /\ (writePos (m_time st) - kHeaderSize) mod m_recordSize st = 0
  /\ writePos (m_time st) <= len (contents (m_time st)).

(** From [st] to [st'] the log has only grown: the records and the payloads
    below the write positions of [st] are still there. *)
Definition grows (st st' : World) : Prop :=
  settings st' = settings st
  /\ writePos (m_time st) <= writePos (m_time st')
  /\ writePos (m_data st) <= writePos (m_data st')
  /\ bytes_kept kHeaderSize (writePos (m_time st))
       (contents (m_time st)) (contents (m_time st'))
  /\ bytes_kept 0 (writePos (m_data st))
       (contents (m_data st)) (contents (m_data st')).

(** Record [n] of the log holds the timestamp and the payload: in its slot
    for a fixed-size log, through the pointer in its slot for a variable-size
    one. *)
Definition stored (st : World) (n timestamp : Z) (payload : list Z) : Prop :=
  let slot := kHeaderSize + n * m_recordSize st in
  let w := ptr_width st in
  kHeaderSize <= slot
  /\ slot + m_recordSize st <= writePos (m_time st)
  /\ holds (m_time st) slot (le_bytes 8 timestamp)
  /\ if m_fixedSize st
     then holds (m_time st) (slot + 8) payload
          /\ len payload = m_recordSize st - 8
     else exists off,
          8 + Z.of_nat w + Z.of_nat w <= m_recordSize st
          /\ holds (m_time st) (slot + 8) (le_bytes w off)
          /\ holds (m_time st) (slot + 8 + Z.of_nat w) (le_bytes w (len payload))
          /\ holds (m_data st) off payload
          /\ off + len payload <= writePos (m_data st)
          /\ off + len payload < 2 ^ (8 * Z.of_nat w).

(** The payloads fit the log: a fixed-size log takes payloads of
    [recordSize - 8] bytes; in a variable-size log the data file, with the
    payloads and their gaps added, stays within what a pointer can hold. *)
Definition fits (st : World) (l : list (Z * list Z)) : Prop :=
  if m_fixedSize st
  then Forall (fun p => len (snd p) = m_recordSize st - 8) l
  else writePos (m_data st) + payload_sum l
       + Z.of_nat (length l) * len (m_gapData st)
       < 2 ^ (8 * Z.of_nat (ptr_width st)).

(** ** Headers *)

(** Bytes of a string: the characters are not negative. *)
Definition is_string (s : list Z) : Prop := Forall (fun c => 0 <= c) s.

Definition no_digit_ahead (rest : list Z) : Prop :=
  match rest with
  | c :: _ => Json.is_digit c = false
  | [] => True
  end.

(** After a number: no digit, point or exponent follows. *)
Definition number_end (rest : list Z) : Prop :=
  match rest with
  | c :: _ =>
      Json.is_digit c || (c =? 46) || (c =? 101) || (c =? 69) = false
  | [] => True
  end.

(** The values of a header, read back as they are written: a string of
    characters, an unsigned integer or a boolean. *)
Definition value_ok (v : Json.value) : Prop :=
  match v with
  | Json.Str s => is_string s
  | Json.Num _ | Json.Bool _ => True
  | _ => False
  end.

Definition member_ok (m : list Z * Json.value) : Prop :=
  is_string (fst m) /\ value_ok (snd m).

(** After the white space, the text ends or the zero padding starts. *)
Definition padding (tail : list Z) : Prop :=
  match Json.skip_ws tail with
  | [] => True
  | c :: _ => c = 0
  end.

Record Header := mkHeader {
  h_dataType : list Z;
  h_dataLayout : list Z;
  h_recordSize : Z;
  h_fixedSize : bool;
  h_gapData : list Z;
  h_timeWritePos : Z;
  h_dataWritePos : Z
}.

(** The header a JSON object stands for: every key is there, with a value of
    the right type. *)
Definition header_fields (j : Json.object) : option Header :=
  match Json.get_string (Json.at_ (bytes "dataType"%string) j),
        Json.get_string (Json.at_ (bytes "dataLayout"%string) j),
        Json.get_unsigned (Json.at_ (bytes "recordSize"%string) j),
        Json.get_bool (Json.at_ (bytes "fixedSize"%string) j),
        Json.get_string (Json.at_ (bytes "gapData"%string) j),
        Json.get_unsigned (Json.at_ (bytes "timeWritePos"%string) j),
        Json.get_unsigned (Json.at_ (bytes "dataWritePos"%string) j) with
  | Some dataType, Some dataLayout, Some recordSize, Some fixedSize,
    Some gapData, Some timeWritePos, Some dataWritePos =>
      Some (mkHeader dataType dataLayout (u32 recordSize) fixedSize gapData
              (u64 timeWritePos) (u64 dataWritePos))
  | _, _, _, _, _, _, _ => None
  end.

(** The header of a time file, if it has a good one. *)
Definition header_of (c : list Z) : option Header :=
  match parse_header c with
  | Some j => header_fields j
  | None => None
  end.

(** The header a log would write. *)
Definition header_at (st : World) : Header :=
  mkHeader (m_dataType st) (m_dataLayout st) (m_recordSize st) (m_fixedSize st)
    (m_gapData st)
    (u64 (mapOffset (m_time st) + writePos (m_time st)))
    (u64 (mapOffset (m_data st) + writePos (m_data st))).

(** The log after the members of a header have been assigned. *)
Definition with_header (h : Header) (st : World) : World :=
  mkWorld (h_dataType h) (h_dataLayout h) (h_recordSize h) (h_fixedSize h)
    (h_gapData h) (m_lastTimestamp st) (m_checkMonotonic st) (m_periodicFlush st)
    (m_periodicFlushCount st)
    (set_writePos (h_timeWritePos h) (m_time st))
    (set_writePos (h_dataWritePos h) (m_data st)) (os st) (perrors st).

(** The text of the header: the JSON and the line feed after it. *)
Definition header_text (st : World) : list Z :=
  Json.dump 1 (header_json st) ++ [10].

(** ** Opening a log that exists *)

(** The record size of a header matches the size a log is opened with: a
    positive size asks for fixed-size records of that size, the size 0 for
    the pointer records of a variable-size log. *)
Definition size_matches (h : Header) (recordSize : Z) : Prop :=
  if recordSize =? 0
  then h_fixedSize h = false
       /\ (h_recordSize h = kLargePointerRecordSize
           \/ h_recordSize h = kSmallPointerRecordSize)
  else h_fixedSize h = true /\ h_recordSize h = recordSize.

(** Every check that the configuration enables passes on the header. *)
Definition checks_pass (h : Header) (dataType dataLayout : list Z)
    (recordSize : Z) (config : Config) : Prop :=
  (cfg_checkType config = true -> h_dataType h = dataType)
  /\ (cfg_checkLayout config = true -> h_dataLayout h = dataLayout)
  /\ (cfg_checkSize config = true -> size_matches h recordSize).

(** The operating system never reports a protocol error. *)
Definition os_error (a : OsAnswer) : Prop := mmap_errno a <> wrong_protocol_type.

(** What the log needs, besides a good header, for the open to go through:
    the operating system maps the files, the data file of a variable-size log
    can be opened, a writable log has growth steps that are not zero, and the
    record before the write position is in the file. *)
Definition can_open (h : Header) (c : list Z) (data_disk : option (list Z))
    (disp : CreationDisposition) (config : Config) (answers : list OsAnswer) : Prop :=
  Forall maps_ok answers
  /\ (h_fixedSize h = false -> fst (openFile data_disk disp) = 0)
  /\ (cfg_readOnly config = false ->
      u64 (cfg_initialSize config * h_recordSize h) <> 0
      /\ (h_fixedSize h = false -> cfg_initialDataSize config <> 0))
  /\ (kHeaderSize + h_recordSize h < h_timeWritePos h ->
      h_timeWritePos h - h_recordSize h + 8 <= len c).

(** ** Example worlds *)

(** A file of [c] bytes, mapped as a whole or not at all. *)
Definition ex_file (ro mapped : bool) (wpos grow maxGrow : Z) (c : list Z) : FileInfo :=
  mkFileInfo 3 ro wpos (len c) 0 grow maxGrow 0 (mkMappedFile mapped (len c)) c.

(** A fixed-size log of 16-byte records over the given files. *)
Definition ex_world (t d : FileInfo) (answers : list OsAnswer) : World :=
  mkWorld (bytes "double"%string) [] 16 true [] 0 false 0 0 t d answers [].

(** A writable time file of 4128 bytes, all mapped, and one that has just been
    created: empty and not mapped. *)
Definition ex_mapped : World :=
  ex_world (ex_file false true 4096 32 64 (repeat 0 4128%nat)) FileInfo_new [].

Definition ex_fresh (grow maxGrow : Z) (answers : list OsAnswer) : World :=
  ex_world (ex_file false false 4096 grow maxGrow []) FileInfo_new answers.

(** The same, with an operating system that refuses to resize the file. *)
Definition ex_extend_fails : World := ex_fresh 32 64 [mkOsAnswer false 0].


(** A fresh log under an operating system that cannot map the file. *)
Definition ex_map_fails : World := ex_fresh 32 64 [mkOsAnswer true 12].

Definition ex_config : Config :=
  mkConfig false true true true true false 0 2 4 16 64 1024 (bytes "##"%string).

Definition run_from_new {A} (c : M A) : World :=
  match c (DataLogImpl_new []) with
  | Some (_, st) => st
  | None => DataLogImpl_new []
  end.

(** Scenario S5: a new fixed-size log and five appends, at the timestamps
    10, 20, 30, 40 and 50. *)
Definition ex_five : World :=
  Eval vm_compute in
  run_from_new
    (DoOpen None None (bytes "double"%string) [] 16 CD_CreateAlways ex_config ;;;
     AppendRaw 10 (le_bytes 8 1) ;;;
     AppendRaw 20 (le_bytes 8 2) ;;;
     AppendRaw 30 (le_bytes 8 3) ;;;
     AppendRaw 40 (le_bytes 8 4) ;;;
     AppendRaw 50 (le_bytes 8 5)).

(** Scenario S2: a new variable-size log with the gap ["##"] and two appends. *)
Definition ex_s2_appends : list (Z * list Z) :=
  [(1, bytes "a"%string); (2, bytes "bcd"%string)].

Definition ex_s2_open : World :=
  Eval vm_compute in
  run_from_new (DoOpen None None (bytes "string"%string) [] 0 CD_CreateAlways ex_config).

Definition ex_s2 : World :=
  Eval vm_compute in
  match AppendAll ex_s2_appends ex_s2_open with
  | Some (_, st) => st
  | None => ex_s2_open
  end.

(** Scenario S1: a new fixed-size log of 16-byte records. *)
Definition ex_s1_open : World :=
  Eval vm_compute in
  run_from_new (DoOpen None None (bytes "double"%string) [] 16 CD_CreateAlways ex_config).

(** A configuration whose gap is 5000 bytes long, and a new variable-size log
    made with it. *)
Definition ex_long_config : Config :=
  mkConfig false true true true true false 0 2 4 16 64 1024
    (repeat 35 (Z.to_nat 5000)).

Definition ex_long : World :=
  run_from_new
    (DoOpen None None (bytes "string"%string) [] 0 CD_CreateAlways ex_long_config).

Definition ex_s2_flushed : World :=
  Eval vm_compute in
  match Flush ex_s2 with
  | Some (_, st) => st
  | None => ex_s2
  end.

(** A configuration to open a log for reading, with every check on. *)
Definition ex_readonly_config : Config :=
  mkConfig true true true true true false 0 2 4 16 64 1024 [].

(** Five members that no header needs: a null, a negative number, a number
    with a fraction, an array and an object. *)
Definition ex_more_members : Json.object :=
  [ (bytes "note"%string, Json.Null);
    (bytes "bias"%string, Json.Int (-5));
    (bytes "scale"%string,
      Json.Real (Decimal.Decimal (Decimal.Pos (Decimal.D1 Decimal.Nil))
                   (Decimal.D5 Decimal.Nil)));
    (bytes "tags"%string, Json.Array [Json.Num 1; Json.Array []]);
    (bytes "more"%string, Json.Object [(bytes "k"%string, Json.Bool true)]) ].

(** The time file of scenario S2 with these members after the seven of its
    header. *)
Definition ex_s2_more : list Z :=
  Eval vm_compute in
  poke 0 (resize kHeaderSize (Json.dump 1 (header_json ex_s2 ++ ex_more_members) ++ [10]))
    (contents (m_time ex_s2_flushed)).


(** A new variable-size log with the gap ["##"], whose data file is mapped
    for 1024 bytes, and the append of a payload of 1024 bytes to it under an
    operating system that cannot map the data file again. *)
Definition ex_gap_config : Config :=
  mkConfig false true true true true false 0 2 4 1 64 1024 (bytes "##"%string).

Definition ex_gap_unmapped : option (bool * World) :=
  Eval vm_compute in
  (DoOpen None None (bytes "string"%string) [] 0 CD_CreateAlways ex_gap_config ;;;
   AppendRaw 1 (repeat 97 1024%nat))
    (DataLogImpl_new [os_fine; os_fine; mkOsAnswer true 12]).
(** * More specifications *)

(** A call of the log's interface, for runs of calls. *)
Inductive Call :=
| CallReadRaw (n : Z)
| CallFind (timestamp first last : Z)
| CallAppendRaw (timestamp : Z) (data : list Z)
| CallFlush.

(** What a call runs; the result is dropped. *)
Definition call (c : Call) : M unit :=
  match c with
  | CallReadRaw n => ReadRaw n ;;; ret tt
  | CallFind timestamp first last => FindImpl timestamp first last ;;; ret tt
  | CallAppendRaw timestamp data => AppendRaw timestamp data ;;; ret tt
  | CallFlush => Flush
  end.

(** A run of calls, one after the other. *)
Fixpoint calls (l : list Call) : M unit :=
  match l with
  | [] => ret tt
  | c :: r => call c ;;; calls r
  end.

(** The bytes of the two files. *)
Definition files (st : World) : list Z * list Z :=
  (contents (m_time st), contents (m_data st)).

(** The log was opened for reading: the time file is read-only, and so is the
    data file of a variable-size log. *)
Definition read_only (st : World) : Prop :=
  readOnly (m_time st) = true
  /\ (m_fixedSize st = true \/ readOnly (m_data st) = true).

(** The operating system does what a growth-and-remap asks for. *)
Definition os_ok (a : OsAnswer) : Prop := ftruncate_ok a = true /\ mmap_errno a = 0.

(** [x] rounded up to a multiple of [g], as [GetMappedOffset] does. *)
Definition round_up (x g : Z) : Z := (x + g - 1) / g * g.

(** The growth step after a growth-and-remap. *)
Definition next_grow (g maxGrow : Z) : Z :=
  if g <? maxGrow then Z.min (2 * g) maxGrow else g.

(** The record size a new log gets. *)
Definition new_recordSize (recordSize : Z) (config : Config) : Z :=
  if recordSize =? 0
  then if cfg_largeData config then kLargePointerRecordSize else kSmallPointerRecordSize
  else recordSize.

(** The sizes a new log can be made with: records that hold a timestamp,
    growth steps that are positive and stay below [2^63]. *)
Definition config_ok (recordSize : Z) (config : Config) : Prop :=
  let rs := new_recordSize recordSize config in
  (recordSize = 0 \/ 8 <= recordSize < 2 ^ 32)
  /\ 0 < cfg_initialSize config * rs < 2 ^ 63
  /\ 0 <= cfg_maxGrowSize config * rs <= 2 ^ 63
  /\ 0 < cfg_initialDataSize config < 2 ^ 63
  /\ cfg_maxDataGrowSize config <= 2 ^ 63.

(** The stored timestamps go up, and none is above the last timestamp. *)
Definition increasing (st : World) : Prop :=
  (forall i j, 0 <= i -> i < j -> j < size st -> ts_at st i < ts_at st j)
  /\ (forall i, 0 <= i < size st -> ts_at st i <= m_lastTimestamp st).

(** An append that can go through: the timestamp is a 64-bit value and the
    payload fits. *)
Definition fits_one (st : World) (p : Z * list Z) : Prop :=
  0 <= fst p < 2 ^ 64
  /\ if m_fixedSize st then len (snd p) = m_recordSize st - 8
     else writePos (m_data st) + len (snd p) + len (m_gapData st)
          < 2 ^ (8 * Z.of_nat (ptr_width st)).

(** A store that is not made when there is nothing to store. *)
Definition store_some (p : Ptr) (bs : list Z) : M unit :=
  match bs with
  | [] => ret tt
  | _ => store p bs
  end.

(** The view shows [payload]: its size is the length of [payload], and every
    part of it can be loaded. *)
Definition shows (view : ArrayRef) (st : World) (payload : list Z) : Prop :=
  a_size view = len payload
  /\ match a_data view with
     | Some p =>
         forall k m, 0 <= k -> 0 <= m -> k + m <= len payload ->
           load (ptr_add p k) m st = Some (peek k m payload, st)
     | None => payload = []
     end.

(** A value that the two casts take to its 64 bits and back. *)
Definition bit_cast {double : Type} (DoubleToBits : double -> Z)
    (BitsToDouble : Z -> double) (value : double) : Prop :=
  0 <= DoubleToBits value < 2 ^ 64 /\ BitsToDouble (DoubleToBits value) = value.

(** The bytes the strings take, each with its zero byte. *)
Fixpoint strings_len (arr : list (list Z)) : Z :=
  match arr with
  | [] => 0
  | value :: r => len value + 1 + strings_len r
  end.

(** The table of the offsets and lengths, for strings that start at [off]. *)
Fixpoint pointer_table (off : Z) (arr : list (list Z)) : list Z :=
  match arr with
  | [] => []
  | value :: r =>
      le_bytes 4 off ++ le_bytes 4 (len value)
      ++ pointer_table (off + (len value + 1)) r
  end.

(** The strings one after the other, each ended by a zero byte. *)
Definition strings_bytes (arr : list (list Z)) : list Z :=
  concat (map (fun value => value ++ [0]) arr).

(** The payload of a record of [StringArrayLog]: the number of strings, the
    table, the strings. *)
Definition string_array_bytes (arr : list (list Z)) : list Z :=
  le_bytes 4 (Z.of_nat (length arr))
  ++ pointer_table (4 + 8 * Z.of_nat (length arr)) arr
  ++ strings_bytes arr.

(** * Definitions for logs that are opened again *)





(** The sizes a log can be opened again with, for appending: records that
    hold a timestamp, pointer records in a variable-size log, growth steps
    that are positive and stay below [2^63], and positions that leave room
    for a growth step. *)
Definition reopen_ok (h : Header) (c dd : list Z) (config : Config) : Prop :=
  let rs := h_recordSize h in
  len c < 2 ^ 64
  /\ 8 <= rs
  /\ (h_fixedSize h = false -> rs = 16 \/ rs = 24)
  /\ 0 < cfg_initialSize config * rs < 2 ^ 63
  /\ 0 <= cfg_maxGrowSize config * rs <= 2 ^ 63
  /\ h_timeWritePos h + rs + cfg_initialSize config * rs < 2 ^ 64
  /\ 0 < cfg_initialDataSize config < 2 ^ 63
  /\ cfg_maxDataGrowSize config <= 2 ^ 63
  /\ (h_fixedSize h = false ->
      h_dataWritePos h + 1024 + cfg_initialDataSize config < 2 ^ 64
      /\ len dd < 2 ^ 64).

(** The size of the time file after it has been opened for appending. *)
Definition reopened_size (h : Header) (config : Config) (c : list Z) : Z :=
  Z.max (len c)
    (round_up (h_timeWritePos h + h_recordSize h)
       (cfg_initialSize config * h_recordSize h)).

(** * Definitions for appends that go through *)

(** A writable file whose mapping, when there is one, is backed by the
    file and covers the first [hi] bytes when [hi] is not negative, and whose
    growth steps are at most [G]. *)
Definition good (f : FileInfo) (hi G : Z) : Prop :=
  file_ok f /\ readOnly f = false
  /\ (m_mapping (mapping f) = true -> m_size (mapping f) <= len (contents f))
  /\ (0 <= hi -> m_mapping (mapping f) = true /\ hi <= m_size (mapping f))
  /\ mapGrowSize f <= G /\ maxGrowSize f <= G.

(** A log whose two files are good. *)
Definition safe (st : World) (ht hd Gt Gd : Z) : Prop :=
  good (m_time st) ht Gt /\ good (m_data st) hd Gd /\ Forall os_ok (os st).

(** The mapping of the file, when there is one, is within the file. *)
Definition backed (f : FileInfo) : Prop :=
  m_mapping (mapping f) = true -> m_size (mapping f) <= len (contents f).

(** The largest step the file can grow by. *)
Definition grow_step (f : FileInfo) : Z := Z.max (mapGrowSize f) (maxGrowSize f).

(** A log that appends go through on: it can be appended to, both files are
    writable and their mappings within them, and the operating system grows
    and maps the files. *)
Definition appendable (st : World) : Prop :=
  well_formed st
  /\ readOnly (m_time st) = false /\ readOnly (m_data st) = false
  /\ backed (m_time st) /\ backed (m_data st)
  /\ Forall os_ok (os st).

(** The positions after the append, and a growth step, are 64-bit values. *)
Definition room (st : World) (data : list Z) : Prop :=
  writePos (m_time st) + m_recordSize st + grow_step (m_time st) < 2 ^ 64
  /\ (m_fixedSize st = false ->
      writePos (m_data st) + len data + len (m_gapData st) + grow_step (m_data st)
      < 2 ^ 64).

(** * More example worlds *)

(** The state a computation leaves, or the one it started from. *)
Definition state_after {A} (c : M A) (st : World) : World :=
  match c st with
  | Some (_, st') => st'
  | None => st
  end.

(** The log of scenario S2, flushed and opened again for reading. *)
Definition ex_s2_reopened : World :=
  Eval vm_compute in
  state_after
    (DoOpen (Some (contents (m_time ex_s2_flushed)))
       (Some (contents (m_data ex_s2_flushed)))
       (bytes "string"%string) [] 0 CD_OpenExisting ex_readonly_config)
    (DataLogImpl_new []).

(** A read, an append, a flush and a search. *)
Definition ex_calls : list Call :=
  [CallReadRaw 1; CallAppendRaw 3 (bytes "e"%string); CallFlush; CallFind 2 0 2].

(** A configuration that flushes after every record. *)
Definition ex_flush_config : Config :=
  mkConfig false true true true true false 1 2 4 16 64 1024 [].

(** A new fixed-size log made with it, in which an append has been started. *)
Definition ex_flush_started : World :=
  Eval vm_compute in
  state_after (AppendRawStart 7 8)
    (state_after
       (DoOpen None None (bytes "double"%string) [] 16 CD_CreateAlways ex_flush_config)
       (DataLogImpl_new [])).

(** Appends of which the second comes too early. *)
Definition ex_early_appends : list (Z * list Z) :=
  [(5, bytes "a"%string); (3, bytes "b"%string); (7, bytes "cd"%string)].

(** The log of scenario S1 with one record, at the timestamp 100, after its
    header has been written and its time file closed. *)
Definition ex_one_record : World :=
  Eval vm_compute in
  state_after (AppendRaw 100 (le_bytes 8 7) ;;; WriteHeader ;;; Close Time) ex_s1_open.


(** * Basic facts *)

Ltac by_computation :=
  vm_compute; repeat split;
  first [ reflexivity | discriminate | intro; discriminate
        | let H := fresh in intros [H _]; discriminate H ].

Lemma u64_small x : 0 <= x < 2 ^ 64 -> u64 x = x.
Proof. intros; unfold u64; apply Z.mod_small; assumption. Qed.

Lemma u64_range x : 0 <= u64 x < 2 ^ 64.
Proof. unfold u64; apply Z.mod_pos_bound; lia. Qed.

Lemma round_up_bounds x g :
  0 < g -> 0 <= x ->
  let r := (x + g - 1) / g * g in
  x <= r < x + g /\ (g | r).
Proof.
  intros Hg Hx r; subst r.
  pose proof (Z.div_mod (x + g - 1) g ltac:(lia)) as E.
  pose proof (Z.mod_pos_bound (x + g - 1) g Hg) as B.
  split; [nia | exists ((x + g - 1) / g); reflexivity].
Qed.

Ltac fsimpl :=
  cbn [file_of set_file set_env m_time m_data other mapOffset writePos contents
       fileSize mapping m_mapping m_size readOnly mapGrowSize maxGrowSize os
       set_writePos set_contents set_periodicFlushCount set_lastTimestamp] in *.

Ltac wcase w := destruct w; fsimpl.

(** * What the file operations leave alone *)

Lemma preserved_refl st : preserved st st.
Proof. repeat split. Qed.

Lemma preserved_trans a b c : preserved a b -> preserved b c -> preserved a c.
Proof.
  intros (A1 & A2 & A3) (B1 & B2 & B3).
  repeat split; congruence.
Qed.

Lemma GetMappedOffset_preserved w pos n st r st' :
  GetMappedOffset w pos n st = Some (r, st') -> preserved st st'.
Proof.
  unfold GetMappedOffset.
  destruct (_ && _ && _).
  - intros [= <- <-]. apply preserved_refl.
  - destruct (next_os st) as [a rest].
    destruct (readOnly (file_of w st)) eqn:Ero.
    + destruct (mmap_errno a =? 0); intros [= <- <-];
        destruct w; simpl in Ero;
        unfold preserved, settings, positions; cbn; rewrite ?Ero; repeat split.
    + destruct (mapGrowSize (file_of w st) =? 0); [discriminate|].
      destruct (ftruncate_ok a), (mmap_errno a =? 0); intros [= <- <-];
        destruct w; simpl in Ero;
        unfold preserved, settings, positions; cbn; rewrite ?Ero; repeat split.
Qed.

(** The error code of [GetMappedOffset] tells whether the file is mapped
    afterwards. *)
Lemma GetMappedOffset_mapped w pos n st off ec st' :
  GetMappedOffset w pos n st = Some ((off, ec), st') ->
  is_mapped w st' = (ec =? 0)
  /\ file_of (other w) st' = file_of (other w) st.
Proof.
  unfold GetMappedOffset, is_mapped.
  destruct (_ && _ && _) eqn:E.
  - intros [= <- <- <-]. apply andb_prop in E as [E _]. apply andb_prop in E as [E _].
    rewrite E. split; reflexivity.
  - destruct (next_os st) as [a rest].
    destruct (readOnly (file_of w st)) eqn:Ero.
    + destruct (mmap_errno a =? 0) eqn:Em; intros [= <- <- <-];
        destruct w; cbn; rewrite ?Em; split; reflexivity.
    + destruct (mapGrowSize (file_of w st) =? 0); [discriminate|].
      destruct (ftruncate_ok a), (mmap_errno a =? 0) eqn:Em; intros [= <- <- <-];
        destruct w; cbn; rewrite ?Em; split; reflexivity.
Qed.

Lemma store_preserved p bs st u st' :
  store p bs st = Some (u, st') ->
  preserved st st'
  /\ (forall w, mapping (file_of w st') = mapping (file_of w st)).
Proof.
  unfold store. destruct (_ && _); [|discriminate].
  intros [= <- <-]. destruct p as [[] o]; cbn; repeat split; destruct w; reflexivity.
Qed.

Lemma bind_Some {A B} (c : M A) (k : A -> M B) st r st' :
  bind c k st = Some (r, st') ->
  exists a st1, c st = Some (a, st1) /\ k a st1 = Some (r, st').
Proof.
  unfold bind. destruct (c st) as [[a st1]|]; [|discriminate].
  intros H. exists a, st1. split; [reflexivity|exact H].
Qed.

Ltac minv H :=
  let a := fresh "a" in
  let s := fresh "s" in
  let E := fresh "E" in
  apply bind_Some in H; destruct H as (a & s & E & H).

Lemma settings_fields a b :
  settings a = settings b ->
  m_recordSize a = m_recordSize b /\ m_fixedSize a = m_fixedSize b
  /\ m_gapData a = m_gapData b
  /\ readOnly (m_time a) = readOnly (m_time b)
  /\ readOnly (m_data a) = readOnly (m_data b)
  /\ mapOffset (m_time a) = mapOffset (m_time b)
  /\ mapOffset (m_data a) = mapOffset (m_data b).
Proof. unfold settings. intros H. repeat split; congruence. Qed.

Lemma positions_fields a b :
  positions a = positions b ->
  writePos (m_time a) = writePos (m_time b)
  /\ writePos (m_data a) = writePos (m_data b).
Proof. unfold positions. intros H. split; congruence. Qed.

Lemma size_positions st st' :
  settings st' = settings st -> positions st' = positions st -> size st' = size st.
Proof.
  intros S P. unfold size.
  destruct (settings_fields _ _ S) as (R & _).
  destruct (positions_fields _ _ P) as (T & _).
  rewrite R, T. reflexivity.
Qed.

Lemma size_preserved st st' : preserved st st' -> size st' = size st.
Proof. intros (S & P & _). apply size_positions; assumption. Qed.


(** * The cases of AppendRawStart *)

Lemma AppendRawStart_cases (st : World) (timestamp sz : Z)
    (r : option Ptr) (st' : World) :
  AppendRawStart timestamp sz st = Some (r, st') ->
  settings st' = settings st /\ positions st' = positions st
  /\ size st' = size st
  /\ (rejected st timestamp = true -> r = None /\ st' = st)
  /\ match r with
     | None =>
         m_lastTimestamp st' = m_lastTimestamp st
         /\ (rejected st timestamp = true
             \/ is_mapped Time st' = false
             \/ (m_fixedSize st = false /\ is_mapped Data st' = false))
     | Some p =>
         m_lastTimestamp st' = timestamp
         /\ rejected st timestamp = false
         /\ is_mapped Time st' = true
         /\ is_mapped (p_file p) st' = true
     end.
Proof.
  unfold AppendRawStart, rejected. intros H.
  minv H. injection E as <- <-.
  destruct (m_checkMonotonic st && (timestamp <=? m_lastTimestamp st)) eqn:Emono.
  { injection H as <- <-. cbn. repeat split; auto. }
  destruct (readOnly (m_time st)) eqn:Ero.
  { injection H as <- <-. cbn. repeat split; auto. }
  cbn [orb].
  minv H. destruct a as [off ec].
  pose proof (GetMappedOffset_preserved _ _ _ _ _ _ E) as P1.
  destruct (GetMappedOffset_mapped _ _ _ _ _ _ _ E) as [M1 O1].
  destruct (ec =? 0) eqn:Eec; cbn [negb] in H.
  2:{ injection H as <- <-. destruct P1 as (A & B & C).
      repeat split; auto; try discriminate.
      apply size_preserved; repeat split; auto. }
  minv H. unfold write64le in E0.
  destruct (store_preserved _ _ _ _ _ E0) as [P2 M2].
  pose proof (preserved_trans _ _ _ P1 P2) as P12.
  destruct (m_fixedSize st) eqn:Efix.
  - minv H. injection E1 as <- <-. injection H as <- <-.
    destruct P12 as (A & B & C).
    repeat split; try discriminate; auto.
    + apply size_positions; assumption.
    + unfold is_mapped in *. pose proof (M2 Time) as T. cbn in *.
      rewrite T. exact M1.
    + unfold is_mapped in *. pose proof (M2 Time) as T. cbn in *.
      rewrite T. exact M1.
  - minv H.
    assert (P3 : preserved s0 s1 /\ forall w, mapping (file_of w s1) = mapping (file_of w s0)).
    { destruct (m_recordSize st =? kLargePointerRecordSize).
      - minv E1. unfold write64le in *.
        destruct (store_preserved _ _ _ _ _ E2) as [Q1 N1].
        destruct (store_preserved _ _ _ _ _ E1) as [Q2 N2].
        split; [eapply preserved_trans; eassumption|].
        intros w. rewrite N2, N1. reflexivity.
      - minv E1. unfold write32le in *.
        destruct (store_preserved _ _ _ _ _ E2) as [Q1 N1].
        destruct (store_preserved _ _ _ _ _ E1) as [Q2 N2].
        split; [eapply preserved_trans; eassumption|].
        intros w. rewrite N2, N1. reflexivity. }
    destruct P3 as [P3 M3].
    pose proof (preserved_trans _ _ _ P12 P3) as P123.
    minv H. destruct a1 as [off2 ec2].
    pose proof (GetMappedOffset_preserved _ _ _ _ _ _ E2) as P4.
    destruct (GetMappedOffset_mapped _ _ _ _ _ _ _ E2) as [M4 O4].
    pose proof (preserved_trans _ _ _ P123 P4) as P.
    assert (MT : is_mapped Time s2 = true).
    { unfold is_mapped in *. simpl other in O4. simpl file_of in O4.
      simpl file_of. rewrite O4.
      change (m_time s1) with (file_of Time s1). rewrite M3, M2. exact M1. }
    destruct (ec2 =? 0) eqn:Eec2; cbn [negb] in H.
    2:{ injection H as <- <-. destruct P as (A & B & C).
        repeat split; auto; try discriminate.
        apply size_preserved; repeat split; auto. }
    minv H. injection E3 as <- <-. injection H as <- <-.
    destruct P as (A & B & C).
    repeat split; try discriminate; auto.
    apply size_positions; assumption.
Qed.


(** * Reading records *)

Lemma GetMappedOffset_total w pos n st :
  growable (file_of w st) ->
  exists r st', GetMappedOffset w pos n st = Some (r, st')
    /\ growable (file_of w st')
    /\ file_of (other w) st' = file_of (other w) st.
Proof.
  intros G. unfold GetMappedOffset.
  destruct (_ && _ && _).
  { eexists _, st. repeat split; auto. }
  destruct (next_os st) as [a rest].
  destruct (readOnly (file_of w st)) eqn:Ero.
  - destruct (mmap_errno a =? 0); eexists _, _; (split; [reflexivity|]);
      destruct w; cbn; (split; [left; reflexivity | reflexivity]).
  - destruct G as [G|[G1 G2]]; [congruence|].
    replace (mapGrowSize (file_of w st) =? 0) with false
      by (symmetry; apply Z.eqb_neq; lia).
    assert (G' : 0 < (if mapGrowSize (file_of w st) <? maxGrowSize (file_of w st)
                      then
                        if maxGrowSize (file_of w st) <? u64 (mapGrowSize (file_of w st) * 2)
                        then maxGrowSize (file_of w st)
                        else u64 (mapGrowSize (file_of w st) * 2)
                      else mapGrowSize (file_of w st))).
    { destruct (Z.ltb_spec (mapGrowSize (file_of w st)) (maxGrowSize (file_of w st))); [|lia].
      rewrite u64_small by lia.
      destruct (Z.ltb_spec (maxGrowSize (file_of w st)) (mapGrowSize (file_of w st) * 2)); lia. }
    destruct (ftruncate_ok a), (mmap_errno a =? 0); eexists _, _;
      (split; [reflexivity|]);
      destruct w; cbn; (split; [right; split; [exact G'|exact G2] | reflexivity]).
Qed.

Lemma GetMappedOffset_covered w pos n st :
  m_mapping (mapping (file_of w st)) = true ->
  mapOffset (file_of w st) <= pos ->
  pos + n - mapOffset (file_of w st) <= m_size (mapping (file_of w st)) ->
  0 <= n -> pos + n < 2 ^ 64 -> 0 <= mapOffset (file_of w st) ->
  GetMappedOffset w pos n st = Some ((pos - mapOffset (file_of w st), 0), st).
Proof.
  intros Hm Ho Hs Hn Hb H0. unfold GetMappedOffset.
  rewrite Hm. rewrite (proj2 (Z.leb_le _ _) Ho).
  rewrite (u64_small (pos + n - mapOffset (file_of w st))) by lia.
  rewrite (proj2 (Z.leb_le _ _) Hs). cbn [andb].
  rewrite u64_small by lia. reflexivity.
Qed.

Lemma load_ok p n st :
  m_mapping (mapping (file_of (p_file p) st)) = true ->
  0 <= p_off p -> 0 <= n ->
  p_off p + n <= m_size (mapping (file_of (p_file p) st)) ->
  p_off p + n <= len (contents (file_of (p_file p) st)) ->
  load p n st = Some (peek (p_off p) n (contents (file_of (p_file p) st)), st).
Proof.
  intros Hm H0 Hn H1 H2. unfold load, accessible.
  rewrite Hm.
  rewrite (proj2 (Z.leb_le _ _) H0), (proj2 (Z.leb_le _ _) Hn),
    (proj2 (Z.leb_le _ _) H1), (proj2 (Z.leb_le _ _) H2).
  reflexivity.
Qed.

Lemma load_state p n st r st' : load p n st = Some (r, st') -> st' = st.
Proof. unfold load. destruct (accessible _ _ _); congruence. Qed.

Lemma Read_preserved w pos n st r st' :
  Read w pos n st = Some (r, st') -> preserved st st'.
Proof.
  unfold Read. intros H. minv H. destruct a as [off ec].
  apply GetMappedOffset_preserved in E.
  destruct (negb (ec =? 0)); injection H as <- <-; exact E.
Qed.

Lemma ReadRaw_preserved n st r st' :
  ReadRaw n st = Some (r, st') -> preserved st st'.
Proof.
  unfold ReadRaw. intros H. minv H. injection E as <- <-.
  minv H. apply Read_preserved in E.
  destruct (_ || _).
  { injection H as <- <-. exact E. }
  destruct (a_data a) as [p|]; [|discriminate].
  minv H. unfold read64le in E0. minv E0. apply load_state in E1. subst s1.
  injection E0 as <- <-.
  destruct (m_fixedSize st).
  { injection H as <- <-. exact E. }
  destruct (m_recordSize st =? kLargePointerRecordSize).
  - minv H. unfold read64le in E0. minv E0. apply load_state in E1. subst.
    injection E0 as <- <-.
    minv H. unfold read64le in E0. minv E0. apply load_state in E1. subst.
    injection E0 as <- <-.
    minv H. apply Read_preserved in E0. injection H as <- <-.
    eapply preserved_trans; eassumption.
  - minv H. unfold read32le in E0. minv E0. apply load_state in E1. subst.
    injection E0 as <- <-.
    minv H. unfold read32le in E0. minv E0. apply load_state in E1. subst.
    injection E0 as <- <-.
    minv H. apply Read_preserved in E0. injection H as <- <-.
    eapply preserved_trans; eassumption.
Qed.

Lemma bind_eq {A B} (c : M A) (k : A -> M B) st a st1 :
  c st = Some (a, st1) -> bind c k st = k a st1.
Proof. unfold bind. intros ->. reflexivity. Qed.

Lemma Read_total w pos n st :
  growable (file_of w st) ->
  exists r st', Read w pos n st = Some (r, st')
    /\ growable (file_of w st')
    /\ file_of (other w) st' = file_of (other w) st
    /\ preserved st st'.
Proof.
  intros G.
  destruct (GetMappedOffset_total w pos n st G) as ([off ec] & st' & E & G' & O).
  unfold Read. rewrite (bind_eq _ _ _ _ _ E).
  pose proof (GetMappedOffset_preserved _ _ _ _ _ _ E) as P.
  destruct (negb (ec =? 0)); eexists _, st'; repeat split; auto; apply P.
Qed.

Lemma size_eq st :
  kHeaderSize <= writePos (m_time st) < 2 ^ 64 ->
  size st = (writePos (m_time st) - kHeaderSize) / m_recordSize st.
Proof. intros H. unfold size. rewrite u64_small by (unfold kHeaderSize in *; lia). reflexivity. Qed.

Lemma slot_bound st n :
  readable st -> 0 <= n < size st ->
  0 <= n * m_recordSize st
  /\ kHeaderSize + n * m_recordSize st + m_recordSize st <= writePos (m_time st).
Proof.
  intros (R1 & R2 & R3 & R4 & R5 & R6 & R7 & R8 & R9) Hn.
  rewrite size_eq in Hn by lia.
  pose proof (Z.mul_div_le (writePos (m_time st) - kHeaderSize) (m_recordSize st) ltac:(lia)).
  split; nia.
Qed.

Lemma ReadRaw_in_range st n :
  readable st -> 0 <= n < size st ->
  exists v st',
    ReadRaw n st = Some ((ts_at st n, v), st')
    /\ readable st' /\ m_time st' = m_time st
    /\ m_recordSize st' = m_recordSize st.
Proof.
  intros R Hn. destruct (slot_bound st n R Hn) as [B0 B1].
  destruct R as (R1 & R2 & R3 & R4 & R5 & R6 & R7 & R8 & R9).
  unfold kHeaderSize in *.
  unfold ReadRaw.
  rewrite (bind_eq get _ st st st eq_refl).
  rewrite (u64_small (kHeaderSize + n * m_recordSize st)) by (unfold kHeaderSize; lia).
  assert (ER : Read Time (kHeaderSize + n * m_recordSize st) (m_recordSize st) st
               = Some (mkArrayRef (Some (mkPtr Time (kHeaderSize + n * m_recordSize st)))
                         (m_recordSize st), st)).
  { unfold Read.
    rewrite (bind_eq _ _ st (kHeaderSize + n * m_recordSize st - mapOffset (file_of Time st), 0) st).
    2:{ apply GetMappedOffset_covered; cbn [file_of]; unfold kHeaderSize;
        first [exact R3 | lia]. }
    cbn [file_of]. rewrite R4, Z.sub_0_r. reflexivity. }
  rewrite (bind_eq _ _ _ _ _ ER). cbn [a_size a_data].
  replace (m_recordSize st <? m_recordSize st) with false by (symmetry; apply Z.ltb_ge; lia).
  replace (m_recordSize st <? kTimestampSize) with false
    by (symmetry; apply Z.ltb_ge; unfold kTimestampSize; lia).
  cbn [orb].
  assert (EL : forall d k, 0 <= d -> 0 <= k -> d + k <= m_recordSize st ->
             (bs <- load (ptr_add (mkPtr Time (kHeaderSize + n * m_recordSize st)) d) k ;;
              ret (le_value bs)) st
             = Some (le_value (peek (kHeaderSize + n * m_recordSize st + d) k
                                 (contents (m_time st))), st)).
  { intros d k Hd Hk Hdk. unfold bind.
    rewrite load_ok; unfold ptr_add; cbn [p_off p_file file_of]; unfold kHeaderSize;
      first [reflexivity | exact R3 | lia]. }
  assert (EL0 : read64le (mkPtr Time (kHeaderSize + n * m_recordSize st)) st
                = Some (ts_at st n, st)).
  { unfold read64le, bind.
    rewrite load_ok; unfold ptr_add; cbn [p_off p_file file_of]; unfold kHeaderSize;
      first [reflexivity | exact R3 | lia]. }
  rewrite (bind_eq _ _ _ _ _ EL0).
  assert (RD : forall off sz,
             exists r st', Read Data off sz st = Some (r, st')
               /\ readable st' /\ m_time st' = m_time st
               /\ m_recordSize st' = m_recordSize st).
  { intros off sz. destruct (Read_total Data off sz st R9) as (r & st' & E & G & O & P).
    exists r, st'. split; [exact E|]. cbn in O.
    destruct P as (S & _).
    destruct (settings_fields _ _ S) as (S3 & S4 & _).
    split; [|split; [exact O|exact S3]].
    unfold readable. rewrite O, S3, S4. repeat split; auto. }
  destruct (m_fixedSize st) eqn:Efix.
  { eexists _, st. split; [reflexivity|]. unfold readable. rewrite Efix.
    repeat split; auto. }
  destruct (R2 eq_refl) as [E16|E24].
  - replace (m_recordSize st =? kLargePointerRecordSize) with false
      by (rewrite E16; reflexivity).
    unfold read32le.
    rewrite (bind_eq _ _ _ _ _ (EL kTimestampSize 4 ltac:(unfold kTimestampSize; lia)
                                  ltac:(lia) ltac:(unfold kTimestampSize; lia))).
    rewrite (bind_eq _ _ _ _ _ (EL (kTimestampSize + 4) 4 ltac:(unfold kTimestampSize; lia)
                                  ltac:(lia) ltac:(unfold kTimestampSize; lia))).
    match goal with |- context [Read Data ?o ?z] =>
      destruct (RD o z) as (r & st' & E & F) end.
    rewrite (bind_eq _ _ _ _ _ E). exists r, st'. split; [reflexivity|exact F].
  - replace (m_recordSize st =? kLargePointerRecordSize) with true
      by (rewrite E24; reflexivity).
    unfold read64le.
    rewrite (bind_eq _ _ _ _ _ (EL kTimestampSize 8 ltac:(unfold kTimestampSize; lia)
                                  ltac:(lia) ltac:(unfold kTimestampSize; lia))).
    rewrite (bind_eq _ _ _ _ _ (EL (kTimestampSize + 8) 8 ltac:(unfold kTimestampSize; lia)
                                  ltac:(lia) ltac:(unfold kTimestampSize; lia))).
    match goal with |- context [Read Data ?o ?z] =>
      destruct (RD o z) as (r & st' & E & F) end.
    rewrite (bind_eq _ _ _ _ _ E). exists r, st'. split; [reflexivity|exact F].
Qed.

Lemma same_records_ts st st' i : same_records st st' -> ts_at st' i = ts_at st i.
Proof. intros [T R]. unfold ts_at. rewrite T, R. reflexivity. Qed.

Lemma same_records_size st st' : same_records st st' -> size st' = size st.
Proof. intros [T R]. unfold size. rewrite T, R. reflexivity. Qed.

Lemma same_records_trans a b c :
  same_records a b -> same_records b c -> same_records a c.
Proof. intros [A1 A2] [B1 B2]. split; congruence. Qed.

Lemma readable_size st : readable st -> 0 <= size st < 2 ^ 64.
Proof.
  intros (R1 & R2 & R3 & R4 & R5 & R6 & R7 & R8 & R9).
  rewrite size_eq by lia. unfold kHeaderSize in *.
  split; [apply Z.div_pos; lia|].
  apply Z.div_lt_upper_bound; nia.
Qed.

Lemma half_bounds count k :
  0 < count < 2 ^ (Z.of_nat (S k)) ->
  0 <= count / 2 < 2 ^ (Z.of_nat k)
  /\ 0 <= count - (count / 2 + 1) < 2 ^ (Z.of_nat k)
  /\ count / 2 < count.
Proof.
  intros H. rewrite Nat2Z.inj_succ, Z.pow_succ_r in H by lia.
  pose proof (Z.div_mod count 2 ltac:(lia)).
  pose proof (Z.mod_pos_bound count 2 ltac:(lia)).
  lia.
Qed.

Lemma FindImpl_loop_spec (timestamp : Z) (fuel : nat) :
  forall st first count,
    readable st -> 0 <= first -> 0 <= count < 2 ^ (Z.of_nat fuel) ->
    first + count <= size st ->
    exists n st',
      FindImpl_loop fuel timestamp first count st = Some (Some n, st')
      /\ first <= n <= first + count
      /\ readable st' /\ same_records st st'
      /\ (sorted st -> lower_bound st timestamp first (first + count) n).
Proof.
  induction fuel as [|k IH]; intros st first count R H0 Hc Hs.
  - assert (count = 0) by (cbn in Hc; lia). subst count.
    exists first, st. cbn.
      split; [reflexivity|]. split; [lia|]. split; [exact R|].
      split; [split; reflexivity|].
      intros _. unfold lower_bound. repeat split; intros; lia.
  - destruct (Z.leb_spec count 0) as [Hle|Hgt].
    + assert (count = 0) by lia. subst count.
      exists first, st. cbn [FindImpl_loop Z.leb Z.compare].
      split; [reflexivity|]. split; [lia|]. split; [exact R|].
      split; [split; reflexivity|].
      intros _. unfold lower_bound. repeat split; intros; lia.
    + cbn [FindImpl_loop].
      replace (count <=? 0) with false by (symmetry; apply Z.leb_gt; lia).
      destruct (half_bounds count k ltac:(lia)) as (Hstep & Hrest & Hlt).
      pose proof (readable_size st R) as Hsz.
      rewrite (u64_small (first + count / 2)) by lia.
      destruct (ReadRaw_in_range st (first + count / 2) R ltac:(lia))
        as (v & st1 & E & R1 & T1 & S1).
      rewrite (bind_eq _ _ _ _ _ E). cbn [fst].
      assert (SR : same_records st st1) by (split; assumption).
      destruct (Z.ltb_spec (ts_at st (first + count / 2)) timestamp) as [Hlo|Hhi].
      * rewrite (u64_small (first + count / 2 + 1)) by lia.
        rewrite (u64_small (count - (count / 2 + 1))) by lia.
        destruct (IH st1 (first + count / 2 + 1) (count - (count / 2 + 1)) R1
                    ltac:(lia) Hrest
                    ltac:(rewrite (same_records_size st st1 SR); lia))
          as (n & st' & E' & B & R' & SR' & LB).
        exists n, st'. split; [exact E'|]. split; [lia|]. split; [exact R'|].
        split; [eapply same_records_trans; eassumption|].
        intros So.
        destruct LB as (L1 & L2 & L3).
        { intros i j Hi Hij Hj. rewrite !(same_records_ts st st1) by exact SR.
          apply So; try lia. rewrite <- (same_records_size st st1 SR). exact Hj. }
        split; [lia|]. split.
        -- intros i Hi. destruct (Z.le_gt_cases i (first + count / 2)) as [A|A].
           ++ pose proof (So i (first + count / 2) ltac:(lia) A ltac:(lia)). lia.
           ++ rewrite <- (same_records_ts st st1 i SR). apply L2. lia.
        -- intros i Hi. rewrite <- (same_records_ts st st1 i SR). apply L3. lia.
      * destruct (IH st1 first (count / 2) R1 H0 Hstep
                    ltac:(rewrite (same_records_size st st1 SR); lia))
          as (n & st' & E' & B & R' & SR' & LB).
        exists n, st'. split; [exact E'|]. split; [lia|]. split; [exact R'|].
        split; [eapply same_records_trans; eassumption|].
        intros So.
        destruct LB as (L1 & L2 & L3).
        { intros i j Hi Hij Hj. rewrite !(same_records_ts st st1) by exact SR.
          apply So; try lia. rewrite <- (same_records_size st st1 SR). exact Hj. }
        split; [lia|]. split.
        -- intros i Hi. rewrite <- (same_records_ts st st1 i SR). apply L2. lia.
        -- intros i Hi. destruct (Z.le_gt_cases (first + count / 2) i) as [A|A].
           ++ pose proof (So (first + count / 2) i ltac:(lia) A ltac:(lia)). lia.
           ++ rewrite <- (same_records_ts st st1 i SR). apply L3. lia.
Qed.

(** * Writing records *)

Lemma u64_add_l a b : u64 (u64 a + b) = u64 (a + b).
Proof. unfold u64. rewrite Zplus_mod_idemp_l. reflexivity. Qed.

Lemma u64_add_r a b : u64 (a + u64 b) = u64 (a + b).
Proof. unfold u64. rewrite Zplus_mod_idemp_r. reflexivity. Qed.

Lemma len_nonneg l : 0 <= len l.
Proof. unfold len. lia. Qed.

Lemma len_app a b : len (a ++ b) = len a + len b.
Proof. unfold len. rewrite length_app. lia. Qed.

Lemma peek_poke off bs c :
  0 <= off -> off + len bs <= len c -> peek off (len bs) (poke off bs c) = bs.
Proof.
  unfold peek, poke, len. intros H0 H1.
  rewrite skipn_app, length_firstn.
  rewrite Nat.min_l by lia.
  rewrite skipn_all2 by (rewrite length_firstn; lia).
  replace (Z.to_nat off - Z.to_nat off)%nat with 0%nat by lia.
  cbn [app skipn]. rewrite Nat2Z.id.
  rewrite firstn_app, Nat.sub_diag, firstn_all. cbn [firstn]. apply app_nil_r.
Qed.

Lemma len_poke off bs c :
  0 <= off -> off + len bs <= len c -> len (poke off bs c) = len c.
Proof.
  unfold poke, len. intros H0 H1.
  rewrite !length_app, length_firstn, length_skipn. lia.
Qed.

Lemma store_effect p bs st u st' :
  store p bs st = Some (u, st') ->
  contents (file_of (p_file p) st')
  = poke (p_off p) bs (contents (file_of (p_file p) st))
  /\ file_of (other (p_file p)) st' = file_of (other (p_file p)) st
  /\ 0 <= p_off p /\ p_off p + len bs <= len (contents (file_of (p_file p) st))
  /\ is_mapped (p_file p) st = true.
Proof.
  unfold store, accessible.
  destruct (m_mapping _) eqn:E1; [|discriminate].
  destruct (0 <=? p_off p) eqn:E2; [|discriminate].
  destruct (0 <=? len bs) eqn:E3; [|discriminate].
  destruct (p_off p + len bs <=? m_size _) eqn:E4; [|discriminate].
  destruct (p_off p + len bs <=? len _) eqn:E5; [|discriminate].
  destruct (negb _); [|discriminate].
  intros [= <- <-]. apply Z.leb_le in E2, E5.
  destruct p as [[] o]; cbn in *; repeat split; auto.
Qed.

Lemma Write_preserved w pos d st u st' :
  Write w pos d st = Some (u, st') -> preserved st st'.
Proof.
  unfold Write. intros H. minv H. destruct a as [off ec].
  apply GetMappedOffset_preserved in E.
  destruct (negb (ec =? 0)).
  - injection H as <- <-. exact E.
  - apply store_preserved in H as [P _]. eapply preserved_trans; eassumption.
Qed.

(** What [Write] leaves in the file when the file is mapped afterwards. *)
Lemma Write_effect w pos d st u st' :
  Write w pos d st = Some (u, st') ->
  file_of (other w) st' = file_of (other w) st
  /\ (is_mapped w st' = true ->
      peek (u64 (pos - mapOffset (file_of w st))) (len d) (contents (file_of w st')) = d).
Proof.
  unfold Write. intros H. minv H. destruct a as [off ec].
  destruct (GetMappedOffset_mapped _ _ _ _ _ _ _ E) as [Mp O].
  destruct (ec =? 0) eqn:Eec; cbn [negb] in H.
  - destruct (store_effect _ _ _ _ _ H) as (C & O2 & B0 & B1 & _).
    cbn [p_file p_off] in *. split; [congruence|]. intros _.
    rewrite C.
    assert (off = u64 (pos - mapOffset (file_of w st))).
    { unfold GetMappedOffset in E.
      destruct (_ && _ && _); [congruence|].
      destruct (next_os st). 
      destruct (if readOnly (file_of w st) then _ else _) as [[[[? ?] ?] ?]|]; [|discriminate].
      destruct (mmap_errno o =? 0) eqn:Em; [congruence|].
      injection E as _ E _. rewrite <- E in Eec. rewrite Em in Eec. discriminate. }
    subst off. apply peek_poke; assumption.
  - injection H as _ <-. split; [exact O|]. intros Hm. congruence.
Qed.

Lemma GetMappedOffset_count w pos n st r st' :
  GetMappedOffset w pos n st = Some (r, st') ->
  m_periodicFlushCount st' = m_periodicFlushCount st.
Proof.
  unfold GetMappedOffset.
  destruct (_ && _ && _); [congruence|].
  destruct (next_os st).
  destruct (if readOnly (file_of w st) then _ else _) as [[[[? ?] ?] ?]|]; [|discriminate].
  destruct (mmap_errno o =? 0); intros [= _ <-]; destruct w; reflexivity.
Qed.

Lemma store_count p bs st u st' :
  store p bs st = Some (u, st') ->
  m_periodicFlushCount st' = m_periodicFlushCount st.
Proof.
  unfold store. destruct (_ && _); [|discriminate].
  intros [= <- <-]. destruct p as [[] o]; reflexivity.
Qed.

Lemma Write_count w pos d st u st' :
  Write w pos d st = Some (u, st') ->
  m_periodicFlushCount st' = m_periodicFlushCount st.
Proof.
  unfold Write. intros H. minv H. destruct a as [off ec].
  apply GetMappedOffset_count in E.
  destruct (negb (ec =? 0)); [injection H as _ <-; exact E|].
  apply store_count in H. congruence.
Qed.

Lemma WriteHeader_preserved st u st' :
  WriteHeader st = Some (u, st') ->
  preserved st st' /\ m_data st' = m_data st
  /\ m_periodicFlushCount st' = m_periodicFlushCount st.
Proof.
  unfold WriteHeader. intros H. minv H. injection E as <- <-.
  destruct (_ || _).
  - injection H as _ <-. repeat split.
  - split; [eapply Write_preserved; exact H|].
    split; [apply (Write_effect Time _ _ _ _ _ H)|].
    eapply Write_count; exact H.
Qed.

Lemma modify_Some f st u st' : modify f st = Some (u, st') -> st' = f st.
Proof. unfold modify. congruence. Qed.

Lemma upd_file_Some w g st u st' :
  upd_file w g st = Some (u, st') -> st' = set_file w (g (file_of w st)) st.
Proof. unfold upd_file, modify. congruence. Qed.

Lemma AppendRawFinish_effect st sz u st' :
  AppendRawFinish sz st = Some (u, st') ->
  settings st' = settings st
  /\ m_lastTimestamp st' = m_lastTimestamp st
  /\ writePos (m_time st') = u64 (writePos (m_time st) + m_recordSize st)
  /\ writePos (m_data st')
     = (if m_fixedSize st then writePos (m_data st)
        else u64 (writePos (m_data st) + sz + len (m_gapData st)))
  /\ (m_fixedSize st = false -> m_gapData st <> [] ->
      is_mapped Data st' = true ->
      peek (u64 (u64 (writePos (m_data st) + sz) - mapOffset (m_data st)))
        (len (m_gapData st)) (contents (m_data st'))
      = m_gapData st).
Proof.
  unfold AppendRawFinish. intros H.
  apply bind_Some in H as (s0 & s0' & E0 & H). injection E0 as <- <-.
  apply bind_Some in H as (u1 & s1 & E1 & H).
  (* the data file *)
  assert (A : settings s1 = settings st
              /\ m_lastTimestamp s1 = m_lastTimestamp st
              /\ m_time s1 = m_time st
              /\ writePos (m_data s1)
                 = (if m_fixedSize st then writePos (m_data st)
                    else u64 (writePos (m_data st) + sz + len (m_gapData st)))
              /\ (m_fixedSize st = false -> m_gapData st <> [] ->
                  is_mapped Data s1 = true ->
                  peek (u64 (u64 (writePos (m_data st) + sz) - mapOffset (m_data st)))
                    (len (m_gapData st)) (contents (m_data s1))
                  = m_gapData st)).
  { destruct (m_fixedSize st) eqn:Efix; cbn [negb] in E1.
    { injection E1 as _ <-. repeat split; discriminate. }
    apply bind_Some in E1 as (u2 & s2 & E2 & E1).
    apply upd_file_Some in E2. subst s2.
    destruct (len (m_gapData st) =? 0) eqn:Eg; cbn [negb] in E1.
    { injection E1 as _ <-. apply Z.eqb_eq in Eg.
      assert (m_gapData st = []) as G.
      { destruct (m_gapData st); [reflexivity|]. unfold len in Eg. cbn in Eg. lia. }
      rewrite Eg, Z.add_0_r.
      unfold settings. cbn. rewrite Efix.
      repeat split. intros _ C. contradiction. }
    apply bind_Some in E1 as (s3 & s3' & E3 & E1). injection E3 as <- <-.
    apply bind_Some in E1 as (u4 & s4 & E4 & E1).
    pose proof (Write_preserved _ _ _ _ _ _ E4) as (P1 & P2 & P3).
    destruct (Write_effect _ _ _ _ _ _ E4) as (O & W).
    apply upd_file_Some in E1. subst s1.
    cbn [other file_of] in O, W.
    destruct (positions_fields _ _ P2) as [T D].
    cbn in T, D, P3, O.
    split.
    { unfold settings in *. cbn in *. rewrite Efix in *. exact P1. }
    split; [exact P3|]. split.
    { cbn. exact O. }
    split.
    { cbn. rewrite D. rewrite u64_add_l. reflexivity. }
    intros _ _ Hm. cbn in *. apply W. exact Hm. }
  destruct A as (A1 & A2 & A3 & A5 & A6).
  apply bind_Some in H as (u5 & s5 & E5 & H).
  apply upd_file_Some in E5. subst s5.
  assert (B : forall s2,
             preserved (set_file Time
                (set_writePos (u64 (writePos (file_of Time s1) + m_recordSize st))
                   (file_of Time s1)) s1) s2 ->
             m_data s2 = m_data s1 ->
             settings s2 = settings st
             /\ m_lastTimestamp s2 = m_lastTimestamp st
             /\ writePos (m_time s2) = u64 (writePos (m_time st) + m_recordSize st)
             /\ writePos (m_data s2)
                = (if m_fixedSize st then writePos (m_data st)
                   else u64 (writePos (m_data st) + sz + len (m_gapData st)))
             /\ (m_fixedSize st = false -> m_gapData st <> [] ->
                 is_mapped Data s2 = true ->
                 peek (u64 (u64 (writePos (m_data st) + sz) - mapOffset (m_data st)))
                   (len (m_gapData st)) (contents (m_data s2))
                 = m_gapData st)).
  { intros s2 (Q1 & Q2 & Q3) QD.
    destruct (positions_fields _ _ Q2) as [T D]. cbn in T, D, Q3.
    split.
    { rewrite Q1. rewrite <- A1. unfold settings. cbn. reflexivity. }
    split; [congruence|]. split; [rewrite T, A3; reflexivity|].
    split; [rewrite D; exact A5|].
    unfold is_mapped in *. cbn [file_of] in *. rewrite QD. exact A6. }
  destruct (negb (m_periodicFlush st =? 0)).
  2:{ injection H as _ <-. apply B; [apply preserved_refl|reflexivity]. }
  apply bind_Some in H as (u6 & s6 & E6 & H).
  apply modify_Some in E6. subst s6.
  apply bind_Some in H as (s7 & s7' & E7 & H). injection E7 as <- <-.
  match type of H with (if ?c then _ else _) _ = _ => destruct c end.
  2:{ injection H as _ <-. apply B; [repeat split|reflexivity]. }
  apply bind_Some in H as (u8 & s8 & E8 & H).
  unfold Flush in E8.
  destruct (WriteHeader_preserved _ _ _ E8) as (P & PD & _).
  apply modify_Some in H. subst st'.
  apply B.
  - destruct P as (P1 & P2 & P3). repeat split; assumption.
  - cbn. rewrite PD. reflexivity.
Qed.

Lemma settings_layout st st' :
  settings st' = settings st -> positions st' = positions st ->
  data_layout st' = data_layout st.
Proof.
  intros S P. unfold data_layout.
  destruct (settings_fields _ _ S) as (_ & F & G & _ & _ & _ & O).
  destruct (positions_fields _ _ P) as (_ & D).
  congruence.
Qed.

Lemma AppendRaw_effect timestamp data st b st' :
  AppendRaw timestamp data st = Some (b, st') ->
  settings st' = settings st
  /\ (b = false -> positions st' = positions st)
  /\ (b = true ->
      writePos (m_data st')
      = (if m_fixedSize st then writePos (m_data st)
         else u64 (writePos (m_data st) + len data + len (m_gapData st)))).
Proof.
  unfold AppendRaw. intros H.
  apply bind_Some in H as (out & s1 & E1 & H).
  destruct (AppendRawStart_cases _ _ _ _ _ E1) as (S1 & P1 & _).
  destruct out as [p|].
  - apply bind_Some in H as (u2 & s2 & E2 & H).
    destruct (store_preserved _ _ _ _ _ E2) as [(S2 & P2 & _) _].
    apply bind_Some in H as (u3 & s3 & E3 & H).
    injection H as <- <-.
    destruct (AppendRawFinish_effect _ _ _ _ E3) as (S3 & _ & _ & D3 & _).
    split; [congruence|]. split; [discriminate|]. intros _.
    rewrite D3.
    destruct (settings_fields _ _ S2) as (_ & F2 & G2 & _).
    destruct (settings_fields _ _ S1) as (_ & F1 & G1 & _).
    destruct (positions_fields _ _ P2) as (_ & D2).
    destruct (positions_fields _ _ P1) as (_ & D1).
    rewrite F2, F1, G2, G1, D2, D1. reflexivity.
  - injection H as <- <-. split; [exact S1|]. split; [intros _; exact P1|discriminate].
Qed.

Lemma AppendAll_writePos l :
  forall st bs st',
    m_fixedSize st = false ->
    0 <= writePos (m_data st) < 2 ^ 64 ->
    AppendAll l st = Some (bs, st') ->
    settings st' = settings st
    /\ writePos (m_data st')
       = u64 (writePos (m_data st) + payload_sum (completed l bs)
              + Z.of_nat (length (completed l bs)) * len (m_gapData st)).
Proof.
  induction l as [|[timestamp data] r IH]; intros st bs st' Hv Hw H.
  - injection H as <- <-. cbn [completed payload_sum length Z.of_nat].
    split; [reflexivity|].
    rewrite Z.mul_0_l, !Z.add_0_r. symmetry. apply u64_small. exact Hw.
  - cbn [AppendAll] in H.
    apply bind_Some in H as (b & s1 & E1 & H).
    apply bind_Some in H as (bs1 & s2 & E2 & H).
    injection H as <- <-.
    destruct (AppendRaw_effect _ _ _ _ _ E1) as (S1 & Pf & Pt).
    destruct (settings_fields _ _ S1) as (_ & F1 & G1 & _).
    assert (Hw1 : 0 <= writePos (m_data s1) < 2 ^ 64).
    { destruct b.
      - rewrite (Pt eq_refl), Hv. apply u64_range.
      - destruct (positions_fields _ _ (Pf eq_refl)) as (_ & D). rewrite D. exact Hw. }
    destruct (IH s1 bs1 s2 ltac:(congruence) Hw1 E2) as (S2 & W2).
    split; [congruence|].
    rewrite W2, G1.
    destruct b; cbn [completed payload_sum length].
    + rewrite (Pt eq_refl), Hv.
      rewrite Nat2Z.inj_succ.
      rewrite <- Z.add_assoc, u64_add_l.
      f_equal. lia.
    + destruct (positions_fields _ _ (Pf eq_refl)) as (_ & D). rewrite D.
      reflexivity.
Qed.

Lemma Open_Some w disk disp ro st e st1 :
  Open w disk disp ro st = Some (e, st1) ->
  e = fst (openFile disk disp)
  /\ st1 = set_file w
       (mkFileInfo (if e =? 0 then 3 else fd (file_of w st)) ro
          (writePos (file_of w st)) (fileSize (file_of w st))
          (mapOffset (file_of w st)) (mapGrowSize (file_of w st))
          (maxGrowSize (file_of w st)) (maxMapSize (file_of w st))
          (mapping (file_of w st))
          (if e =? 0 then snd (openFile disk disp) else contents (file_of w st))) st.
Proof.
  unfold Open. destruct (openFile disk disp) as [e0 c]. intros H.
  apply bind_Some in H as (u & s & E & H). apply upd_file_Some in E.
  injection H as <- <-. subst s. split; reflexivity.
Qed.

Lemma creates_fresh disp td :
  creates disp td = true ->
  fst (openFile td disp) = 0 ->
  disp_eqb disp CD_OpenExisting
  || (disp_eqb disp CD_OpenAlways && (0 <? len (snd (openFile td disp)))) = false.
Proof.
  destruct disp; destruct td as [[|x c]|]; cbn; intros; congruence.
Qed.

Lemma GetMappedOffset_layout w pos n st r st' :
  GetMappedOffset w pos n st = Some (r, st') -> data_layout st' = data_layout st.
Proof.
  intros H. apply GetMappedOffset_preserved in H as (S & P & _).
  apply settings_layout; assumption.
Qed.

Lemma DoOpen_creates td dd dataType dataLayout recordSize disp config answers st0 :
  creates disp td = true ->
  DoOpen td dd dataType dataLayout recordSize disp config (DataLogImpl_new answers)
  = Some (0, st0) ->
  data_layout st0 = (negb (recordSize =? 0), cfg_gapData config, 0, 0).
Proof.
  intros Hc H. unfold DoOpen in H.
  apply bind_Some in H as (ec & s1 & E1 & H).
  apply Open_Some in E1 as (Eec & E1).
  destruct (ec =? 0) eqn:Eec0; cbn [negb] in H.
  2:{ injection H as -> _. discriminate. }
  apply Z.eqb_eq in Eec0.
  assert (Hopen : fst (openFile td disp) = 0) by congruence.
  clear Eec Eec0 ec.
  apply bind_Some in H as (u2 & s2 & E2 & H). apply upd_file_Some in E2.
  apply bind_Some in H as (s3 & s3' & E3 & H). injection E3 as <- <-.
  apply bind_Some in H as (e & s4 & E4 & H).
  assert (C : disp_eqb disp CD_OpenExisting
              || (disp_eqb disp CD_OpenAlways && (0 <? fileSize (m_time s2))) = false).
  { rewrite E2, E1. cbn. apply creates_fresh; assumption. }
  clear Hopen.
  rewrite C in E4.
  assert (L4 : e = 0 /\ data_layout s4 = (negb (recordSize =? 0), cfg_gapData config, 0, 0)).
  { apply bind_Some in E4 as (? & t1 & F1 & E4). apply modify_Some in F1.
    apply bind_Some in E4 as (? & t2 & F2 & E4). apply modify_Some in F2.
    apply bind_Some in E4 as (? & t3 & F3 & E4). apply modify_Some in F3.
    apply bind_Some in E4 as (? & t4 & F4 & E4). apply modify_Some in F4.
    apply bind_Some in E4 as (? & t5 & F5 & E4). apply modify_Some in F5.
    apply bind_Some in E4 as (? & t6 & F6 & E4). apply upd_file_Some in F6.
    injection E4 as <- <-. split; [reflexivity|].
    subst t6 t5 t4 t3 t2 t1 s2 s1. reflexivity. }
  destruct L4 as [-> L4]. cbn [Z.eqb negb] in H.
  apply bind_Some in H as (u5 & s5 & E5 & H). apply modify_Some in E5.
  apply bind_Some in H as (s6 & s6' & E6 & H). injection E6 as <- <-.
  apply bind_Some in H as (u7 & s7 & E7 & H). apply upd_file_Some in E7.
  apply bind_Some in H as (u8 & s8 & E8 & H). apply upd_file_Some in E8.
  assert (L8 : data_layout s8 = data_layout s4).
  { subst s8 s7 s5. reflexivity. }
  apply bind_Some in H as (ec9 & s9 & E9 & H).
  assert (L9 : data_layout s9 = data_layout s8).
  { destruct (_ <? _).
    - apply bind_Some in E9 as ([off ec] & t1 & F1 & E9).
      apply GetMappedOffset_layout in F1.
      destruct (negb (ec =? 0)); [injection E9 as _ <-; exact F1|].
      apply bind_Some in E9 as (ts & t2 & F2 & E9).
      unfold read64le in F2. apply bind_Some in F2 as (bs & t3 & F3 & F2).
      apply load_state in F3. injection F2 as _ <-. subst t3.
      apply bind_Some in E9 as (? & t4 & F4 & E9). apply modify_Some in F4.
      injection E9 as _ <-. subst t4. exact F1.
    - apply bind_Some in E9 as ([off ec] & t1 & F1 & E9).
      apply GetMappedOffset_layout in F1. injection E9 as _ <-. exact F1. }
  destruct (negb (ec9 =? 0)).
  { injection H as _ <-. congruence. }
  destruct (negb (m_fixedSize s5)).
  2:{ injection H as <-. congruence. }
  apply bind_Some in H as (ec10 & s10 & E10 & H).
  apply Open_Some in E10 as (_ & E10).
  assert (L10 : data_layout s10 = data_layout s9).
  { subst s10. reflexivity. }
  destruct (negb (ec10 =? 0)).
  { injection H as _ <-. congruence. }
  apply bind_Some in H as (u11 & s11 & E11 & H). apply upd_file_Some in E11.
  apply bind_Some in H as (s12 & s12' & E12 & H). injection E12 as <- <-.
  apply bind_Some in H as ([off ec] & s13 & E13 & H).
  apply GetMappedOffset_layout in E13. injection H as _ <-.
  rewrite E13. subst s11.
  transitivity (data_layout s10); [reflexivity|congruence].
Qed.

(** * Records in the files *)

Lemma peek_poke_before off n o bs c :
  0 <= off -> 0 <= n -> off + n <= o -> o <= len c ->
  peek off n (poke o bs c) = peek off n c.
Proof.
  unfold peek, poke, len. intros H0 Hn H1 H2.
  rewrite skipn_app, firstn_app.
  rewrite length_skipn, length_firstn.
  replace (Z.to_nat off - Nat.min (Z.to_nat o) (length c))%nat with 0%nat by lia.
  replace (Z.to_nat n - (Nat.min (Z.to_nat o) (length c) - Z.to_nat off))%nat
    with 0%nat by lia.
  cbn [skipn firstn]. rewrite app_nil_r.
  rewrite skipn_firstn_comm, firstn_firstn.
  f_equal. lia.
Qed.

Lemma peek_poke_after off n o bs c :
  0 <= o -> o + len bs <= off -> o + len bs <= len c ->
  peek off n (poke o bs c) = peek off n c.
Proof.
  unfold peek, poke, len. intros H0 H1 H2.
  rewrite !skipn_app, !length_firstn.
  rewrite (skipn_all2 (firstn (Z.to_nat o) c)) by (rewrite length_firstn; lia).
  rewrite (skipn_all2 bs) by lia.
  cbn [app]. rewrite skipn_skipn. f_equal. f_equal. lia.
Qed.

Lemma len_resize n c : 0 <= n -> len (resize n c) = n.
Proof.
  unfold len, resize. intros H.
  rewrite length_app, length_firstn, repeat_length. lia.
Qed.

Lemma peek_resize off n m c :
  0 <= off -> 0 <= n -> off + n <= len c -> len c <= m ->
  peek off n (resize m c) = peek off n c.
Proof.
  unfold peek, resize, len. intros H0 Hn H1 H2.
  rewrite (@firstn_all2 _ (Z.to_nat m) c) by lia.
  rewrite skipn_app, firstn_app, length_skipn.
  replace (Z.to_nat n - (length c - Z.to_nat off))%nat with 0%nat by lia.
  cbn [firstn]. apply app_nil_r.
Qed.

Lemma len_peek off n c :
  0 <= off -> 0 <= n -> off + n <= len c -> len (peek off n c) = n.
Proof.
  unfold peek, len. intros. rewrite length_firstn, length_skipn. lia.
Qed.

Lemma le_value_bytes k v :
  le_value (le_bytes k v) = v mod 2 ^ (8 * Z.of_nat k).
Proof.
  revert v. induction k as [|k IH]; intros v.
  - cbn. rewrite Z.mod_1_r. reflexivity.
  - cbn [le_bytes le_value]. rewrite IH.
    replace (8 * Z.of_nat (S k)) with (8 + 8 * Z.of_nat k) by lia.
    rewrite Z.pow_add_r by lia. change (2 ^ 8) with 256.
    rewrite Z.rem_mul_r by lia. reflexivity.
Qed.

Lemma len_le_bytes k v : len (le_bytes k v) = Z.of_nat k.
Proof.
  unfold len. f_equal. revert v. induction k; intros; cbn; [reflexivity|].
  rewrite IHk. reflexivity.
Qed.

Lemma bytes_kept_refl lo hi c : bytes_kept lo hi c c.
Proof. split; [lia|reflexivity]. Qed.

Lemma bytes_kept_trans lo hi a b c :
  bytes_kept lo hi a b -> bytes_kept lo hi b c -> bytes_kept lo hi a c.
Proof.
  intros [L1 K1] [L2 K2]. split; [lia|].
  intros off n H0 Hn H1 H2. rewrite K2 by lia. apply K1; lia.
Qed.

Lemma bytes_kept_weaken lo hi hi' a b :
  hi' <= hi -> bytes_kept lo hi a b -> bytes_kept lo hi' a b.
Proof.
  intros H [L K]. split; [exact L|]. intros. apply K; lia.
Qed.

Lemma bytes_kept_resize lo hi m c :
  0 <= lo -> len c <= m -> bytes_kept lo hi c (resize m c).
Proof.
  intros H0 H. split.
  - rewrite len_resize by (pose proof (len_nonneg c); lia). exact H.
  - intros off n A B C D. apply peek_resize; lia.
Qed.

Lemma bytes_kept_poke lo hi o bs c :
  0 <= lo -> 0 <= o -> o + len bs <= len c ->
  hi <= o \/ o + len bs <= lo ->
  bytes_kept lo hi c (poke o bs c).
Proof.
  intros H0 Ho Hb Hd. pose proof (len_nonneg bs). split.
  - rewrite len_poke by assumption. lia.
  - intros off n A B C D. destruct Hd as [Hd|Hd].
    + apply peek_poke_before; lia.
    + apply peek_poke_after; lia.
Qed.

Lemma accessible_intro f off n :
  m_mapping (mapping f) = true -> 0 <= off -> 0 <= n ->
  off + n <= m_size (mapping f) -> off + n <= len (contents f) ->
  accessible f off n = true.
Proof.
  intros Hm H0 Hn H1 H2. unfold accessible. rewrite Hm.
  rewrite (proj2 (Z.leb_le _ _) H0), (proj2 (Z.leb_le _ _) Hn),
    (proj2 (Z.leb_le _ _) H1), (proj2 (Z.leb_le _ _) H2).
  reflexivity.
Qed.

(** What one call of [GetMappedOffset] does to a good file. *)
Lemma GetMappedOffset_step w pos n st off ec st' lo hi :
  0 <= lo ->
  GetMappedOffset w pos n st = Some ((off, ec), st') ->
  file_ok (file_of w st) ->
  file_ok (file_of w st')
  /\ bytes_kept lo hi (contents (file_of w st)) (contents (file_of w st'))
  /\ file_of (other w) st' = file_of (other w) st
  /\ (ec = 0 -> off = u64 pos)
  /\ (Forall maps_ok (os st) -> ec = 0 /\ Forall maps_ok (os st'))
  /\ (ec = 0 -> 0 <= pos -> 0 <= n ->
      pos + n <= len (contents (file_of w st)) ->
      accessible (file_of w st') pos n = true).
Proof.
  intros Hlo H Hok. pose proof Hok as (Fo & Fw & Fs & Fg).
  unfold GetMappedOffset in H. rewrite Fo in H. rewrite !Z.sub_0_r in H.
  destruct (m_mapping (mapping (file_of w st)) && (0 <=? pos)
            && (u64 (pos + n) <=? m_size (mapping (file_of w st)))) eqn:Efast.
  - injection H as <- <- <-.
    split; [exact Hok|].
    split; [apply bytes_kept_refl|]. split; [reflexivity|].
    split; [reflexivity|]. split; [intros; split; [reflexivity|assumption]|].
    intros _ Hp Hn Hl.
    apply andb_prop in Efast as [Efast E3]. apply andb_prop in Efast as [E1 E2].
    apply Z.leb_le in E2.
    rewrite u64_small in E3 by lia.
    unfold accessible. rewrite E1, E3.
    rewrite (proj2 (Z.leb_le _ _) Hp), (proj2 (Z.leb_le _ _) Hn),
      (proj2 (Z.leb_le _ _) Hl). reflexivity.
  - clear Efast. unfold next_os in H.
    set (a := match os st with [] => os_fine | a :: _ => a end).
    set (rest := match os st with [] => [] | _ :: r => r end).
    assert (Hos : match os st with [] => (os_fine, []) | a :: r => (a, r) end
                  = (a, rest)) by (subst a rest; destruct (os st); reflexivity).
    rewrite Hos in H.
    assert (Hmaps : Forall maps_ok (os st) -> mmap_errno a = 0 /\ Forall maps_ok rest).
    { subst a rest. intros F. destruct (os st); [split; [reflexivity|constructor]|].
      inversion F; subst. split; assumption. }
    clearbody a rest. clear Hos.
    destruct (readOnly (file_of w st)) eqn:Ero.
    + destruct (Z.eqb_spec (mmap_errno a) 0) as [Em|Em];
        injection H as <- <- <-;
        (split; [wcase w; repeat split; fsimpl; first [lia | left; reflexivity]|]);
        (split; [destruct w; apply bytes_kept_refl|]);
        (split; [destruct w; reflexivity|]).
      * split; [reflexivity|]. split.
        { intros F. split; [reflexivity|]. destruct w; apply (Hmaps F). }
        intros _ Hp Hn Hl.
        wcase w; apply accessible_intro; fsimpl; first [reflexivity | lia].
      * split; [intros C; contradiction|]. split.
        { intros F. destruct (Hmaps F). contradiction. }
        intros C; contradiction.
    + destruct Fg as [Fg|[Fg1 Fg2]]; [congruence|].
      replace (mapGrowSize (file_of w st) =? 0) with false in H
        by (symmetry; apply Z.eqb_neq; lia).
      set (size := u64 (u64 (pos + n + mapGrowSize (file_of w st) - 1)
                        / mapGrowSize (file_of w st) * mapGrowSize (file_of w st))) in *.
      set (fs' := if fileSize (file_of w st) <? size then size else fileSize (file_of w st)) in *.
      set (g' := if mapGrowSize (file_of w st) <? maxGrowSize (file_of w st)
                 then if maxGrowSize (file_of w st) <? u64 (mapGrowSize (file_of w st) * 2)
                      then maxGrowSize (file_of w st)
                      else u64 (mapGrowSize (file_of w st) * 2)
                 else mapGrowSize (file_of w st)) in *.
      assert (Hfs : fileSize (file_of w st) <= fs' < 2 ^ 64).
      { subst fs'. pose proof (u64_range
          (u64 (pos + n + mapGrowSize (file_of w st) - 1)
           / mapGrowSize (file_of w st) * mapGrowSize (file_of w st))).
        fold size in H0.
        destruct (Z.ltb_spec (fileSize (file_of w st)) size); lia. }
      assert (Hg : 0 < g').
      { subst g'.
        destruct (Z.ltb_spec (mapGrowSize (file_of w st)) (maxGrowSize (file_of w st))); [|lia].
        rewrite u64_small by lia.
        destruct (Z.ltb_spec (maxGrowSize (file_of w st)) (mapGrowSize (file_of w st) * 2)); lia. }
      clearbody size fs' g'.
      pose proof (len_nonneg (contents (file_of w st))) as Hc0.
      set (c' := if ftruncate_ok a then resize fs' (contents (file_of w st))
                 else contents (file_of w st)).
      assert (Hc' : len (contents (file_of w st)) <= len c' <= fs'
                    /\ bytes_kept lo hi (contents (file_of w st)) c').
      { subst c'. destruct (ftruncate_ok a).
        - rewrite len_resize by lia. split; [lia|]. apply bytes_kept_resize; lia.
        - split; [lia|apply bytes_kept_refl]. }
      destruct Hc' as (Hlen & Hkept).
      assert (E : exists p',
                 st' = set_env rest p'
                         (set_file w
                            (mkFileInfo (fd (file_of w st)) false (writePos (file_of w st))
                               fs' 0 g' (maxGrowSize (file_of w st))
                               (maxMapSize (file_of w st))
                               (mkMappedFile (mmap_errno a =? 0) fs') c') st)
                 /\ ((mmap_errno a =? 0) = true -> off = u64 pos /\ ec = 0)
                 /\ ((mmap_errno a =? 0) = false -> ec = mmap_errno a)).
      { subst c'. destruct (ftruncate_ok a); destruct (mmap_errno a =? 0);
          injection H as <- <- <-; eexists; (split; [reflexivity|]);
          split; intros; try discriminate; auto. }
      clear H. destruct E as (p' & -> & Eok & Eerr).
      split.
      { wcase w; repeat split; fsimpl; first [lia | right; split; assumption]. }
      split; [destruct w; exact Hkept|].
      split; [destruct w; reflexivity|].
      destruct (Z.eqb_spec (mmap_errno a) 0) as [Em|Em].
      * destruct (Eok eq_refl) as [-> ->].
        split; [reflexivity|]. split.
        { intros F. split; [reflexivity|]. destruct w; apply (Hmaps F). }
        intros _ Hp Hn Hl.
        wcase w; apply accessible_intro; fsimpl; first [reflexivity | lia].
      * rewrite (Eerr eq_refl).
        split; [intros C; contradiction|]. split.
        { intros F. destruct (Hmaps F). contradiction. }
        intros C; contradiction.
Qed.

Lemma store_Some p bs st u st' :
  store p bs st = Some (u, st') ->
  st' = set_file (p_file p)
          (set_contents (poke (p_off p) bs (contents (file_of (p_file p) st)))
             (file_of (p_file p) st)) st
  /\ m_mapping (mapping (file_of (p_file p) st)) = true
  /\ 0 <= p_off p
  /\ p_off p + len bs <= m_size (mapping (file_of (p_file p) st))
  /\ p_off p + len bs <= len (contents (file_of (p_file p) st))
  /\ readOnly (file_of (p_file p) st) = false.
Proof.
  unfold store, accessible.
  destruct (m_mapping _) eqn:E1; [|discriminate].
  destruct (0 <=? p_off p) eqn:E2; [|discriminate].
  destruct (0 <=? len bs) eqn:E3; [|discriminate].
  destruct (p_off p + len bs <=? m_size _) eqn:E4; [|discriminate].
  destruct (p_off p + len bs <=? len _) eqn:E5; [|discriminate].
  destruct (readOnly _) eqn:E6; [discriminate|].
  intros [= <- <-]. apply Z.leb_le in E2, E4, E5. repeat split; assumption.
Qed.

(** What a store does to a good file, away from the bytes to be kept. *)
Lemma store_step p bs st u st' lo hi :
  0 <= lo ->
  store p bs st = Some (u, st') ->
  file_ok (file_of (p_file p) st) ->
  hi <= p_off p \/ p_off p + len bs <= lo ->
  file_ok (file_of (p_file p) st')
  /\ bytes_kept lo hi (contents (file_of (p_file p) st))
       (contents (file_of (p_file p) st'))
  /\ file_of (other (p_file p)) st' = file_of (other (p_file p)) st
  /\ os st' = os st
  /\ 0 <= p_off p
  /\ p_off p + len bs <= len (contents (file_of (p_file p) st'))
  /\ peek (p_off p) (len bs) (contents (file_of (p_file p) st')) = bs.
Proof.
  intros Hlo H Hok Hd.
  apply store_Some in H as (-> & Hm & H0 & H1 & H2 & Hro).
  destruct Hok as (Fo & Fw & Fs & Fg).
  pose proof (len_poke (p_off p) bs _ H0 H2) as Hl.
  pose proof (peek_poke (p_off p) bs _ H0 H2) as Hp.
  pose proof (bytes_kept_poke lo hi (p_off p) bs _ Hlo H0 H2 Hd) as Hk.
  destruct p as [w o]. cbn [p_file p_off] in *.
  wcase w; unfold set_contents; fsimpl;
    (split; [repeat split; fsimpl; first [lia | exact Fg]|]);
    (split; [exact Hk|]); (split; [reflexivity|]); (split; [reflexivity|]);
    (split; [exact H0|]); (split; [lia|exact Hp]).
Qed.

Lemma Write_step w pos d st u st' lo hi :
  0 <= lo ->
  Write w pos d st = Some (u, st') ->
  file_ok (file_of w st) ->
  0 <= pos < 2 ^ 64 ->
  hi <= pos \/ pos + len d <= lo ->
  file_ok (file_of w st')
  /\ bytes_kept lo hi (contents (file_of w st)) (contents (file_of w st'))
  /\ file_of (other w) st' = file_of (other w) st.
Proof.
  intros Hlo H Hok Hpos Hd. unfold Write in H.
  apply bind_Some in H as ([off ec] & s1 & E & H).
  destruct (GetMappedOffset_step _ _ _ _ _ _ _ lo hi Hlo E Hok)
    as (Ok1 & K1 & O1 & Off & _).
  destruct (Z.eqb_spec ec 0) as [->|Hec]; cbn [negb] in H.
  - rewrite (Off eq_refl), u64_small in H by exact Hpos.
    destruct (store_step _ _ _ _ _ lo hi Hlo H Ok1 Hd) as (Ok2 & K2 & O2 & _).
    cbn [p_file] in *.
    split; [exact Ok2|]. split; [eapply bytes_kept_trans; eassumption|].
    congruence.
  - injection H as _ <-. split; [exact Ok1|]. split; [exact K1|exact O1].
Qed.

Lemma len_header_bytes st : len (header_bytes st) = kHeaderSize.
Proof. unfold header_bytes. apply len_resize. unfold kHeaderSize. lia. Qed.

Lemma WriteHeader_step st u st' hi :
  WriteHeader st = Some (u, st') ->
  file_ok (m_time st) ->
  file_ok (m_time st')
  /\ bytes_kept kHeaderSize hi (contents (m_time st)) (contents (m_time st'))
  /\ m_data st' = m_data st.
Proof.
  intros H Hok. unfold WriteHeader in H.
  apply bind_Some in H as (s & s' & E & H). injection E as <- <-.
  destruct (_ || _).
  - injection H as _ <-. split; [exact Hok|]. split; [apply bytes_kept_refl|reflexivity].
  - apply (Write_step Time 0 (header_bytes st) st u st' kHeaderSize hi) in H.
    + exact H.
    + unfold kHeaderSize. lia.
    + exact Hok.
    + lia.
    + right. rewrite len_header_bytes. lia.
Qed.

(** What [AppendRawFinish] does to the files: the time file keeps its
    records, the data file keeps what lies below the end of the payload. *)
Lemma AppendRawFinish_step st sz u st' hi :
  AppendRawFinish sz st = Some (u, st') ->
  file_ok (m_time st) -> file_ok (m_data st) ->
  0 <= sz -> (m_fixedSize st = false -> writePos (m_data st) + sz < 2 ^ 64) ->
  file_ok (set_writePos (writePos (m_time st)) (m_time st'))
  /\ file_ok (set_writePos (writePos (m_data st)) (m_data st'))
  /\ bytes_kept kHeaderSize hi (contents (m_time st)) (contents (m_time st'))
  /\ bytes_kept 0 (writePos (m_data st) + sz) (contents (m_data st))
       (contents (m_data st')).
Proof.
  intros H Ht Hd Hsz Hb. unfold AppendRawFinish in H.
  apply bind_Some in H as (s0 & s0' & E0 & H). injection E0 as <- <-.
  apply bind_Some in H as (u1 & s1 & E1 & H).
  assert (A : m_time s1 = m_time st
              /\ file_ok (set_writePos (writePos (m_data st)) (m_data s1))
              /\ bytes_kept 0 (writePos (m_data st) + sz) (contents (m_data st))
                   (contents (m_data s1))).
  { destruct (m_fixedSize st); cbn [negb] in E1.
    { injection E1 as _ <-. split; [reflexivity|].
      split; [destruct (m_data st); exact Hd|apply bytes_kept_refl]. }
    specialize (Hb eq_refl).
    apply bind_Some in E1 as (u2 & s2 & E2 & E1).
    apply upd_file_Some in E2. subst s2.
    destruct (negb (len (m_gapData st) =? 0)).
    2:{ injection E1 as _ <-. split; [reflexivity|].
        split; [destruct (m_data st); exact Hd|apply bytes_kept_refl]. }
    apply bind_Some in E1 as (s3 & s3' & E3 & E1). injection E3 as <- <-.
    apply bind_Some in E1 as (u4 & s4 & E4 & E1).
    apply upd_file_Some in E1. subst s1.
    cbn [file_of set_file m_data set_writePos writePos] in E4.
    destruct Hd as (Do & Dw & Ds & Dg).
    rewrite (u64_small (writePos (m_data st) + sz)) in E4 by lia.
    apply (Write_step Data _ _ _ _ _ 0 (writePos (m_data st) + sz)) in E4;
      [| lia | repeat split; fsimpl; try lia; exact Dg | lia | left; lia].
    destruct E4 as (Ok & K & O). cbn [other file_of set_file m_time m_data] in *.
    split; [exact O|]. split.
    - destruct Ok as (A1 & A2 & A3 & A4).
      repeat split; fsimpl; try lia; exact A4.
    - exact K. }
  destruct A as (A1 & A2 & A3).
  apply bind_Some in H as (u5 & s5 & E5 & H).
  apply upd_file_Some in E5. subst s5.
  assert (B : forall s2,
             file_ok (set_writePos (writePos (m_time st)) (m_time s2))
             /\ bytes_kept kHeaderSize hi (contents (m_time st)) (contents (m_time s2))
             /\ m_data s2 = m_data s1 ->
             file_ok (set_writePos (writePos (m_time st)) (m_time s2))
             /\ file_ok (set_writePos (writePos (m_data st)) (m_data s2))
             /\ bytes_kept kHeaderSize hi (contents (m_time st)) (contents (m_time s2))
             /\ bytes_kept 0 (writePos (m_data st) + sz) (contents (m_data st))
                  (contents (m_data s2))).
  { intros s2 (B1 & B2 & B3). rewrite B3. repeat split; try assumption; apply A2 || apply A3 || apply B1 || apply B2. }
  assert (T0 : file_ok (set_writePos (writePos (m_time st))
                 (m_time (set_file Time
                    (set_writePos (u64 (writePos (file_of Time s1) + m_recordSize st))
                       (file_of Time s1)) s1)))).
  { cbn [file_of set_file m_time]. rewrite A1. destruct (m_time st); exact Ht. }
  destruct (negb (m_periodicFlush st =? 0)).
  2:{ injection H as _ <-. apply B. split; [exact T0|].
      split; [|reflexivity]. cbn [file_of set_file m_time]. rewrite A1.
      apply bytes_kept_refl. }
  apply bind_Some in H as (u6 & s6 & E6 & H).
  apply modify_Some in E6. subst s6.
  apply bind_Some in H as (s7 & s7' & E7 & H). injection E7 as <- <-.
  match type of H with (if ?c then _ else _) _ = _ => destruct c end.
  2:{ injection H as _ <-. apply B. split; [exact T0|].
      split; [|reflexivity]. cbn [file_of set_file m_time set_periodicFlushCount].
      rewrite A1. apply bytes_kept_refl. }
  apply bind_Some in H as (u8 & s8 & E8 & H).
  unfold Flush in E8.
  apply (WriteHeader_step _ _ _ hi) in E8.
  2:{ cbn [file_of set_file m_time set_periodicFlushCount]. rewrite A1.
      destruct Ht as (T1 & T2 & T3 & T4). pose proof (u64_range (writePos (m_time st) + m_recordSize st)).
      repeat split; fsimpl; try lia; exact T4. }
  destruct E8 as (W1 & W2 & W3).
  apply modify_Some in H. subst st'.
  apply B. cbn [file_of set_file m_time m_data set_periodicFlushCount] in *.
  rewrite A1 in W2. cbn [contents set_writePos] in W2.
  split; [|split; [exact W2|exact W3]].
  destruct W1 as (X1 & X2 & X3 & X4). destruct Ht as (T1 & T2 & T3 & T4).
  repeat split; fsimpl; try lia; exact X4.
Qed.

Lemma holds_kept lo hi f f' o v :
  holds f o v -> bytes_kept lo hi (contents f) (contents f') ->
  lo <= o -> o + len v <= hi -> holds f' o v.
Proof.
  intros (H0 & H1 & H2) [L K] Hlo Hhi. pose proof (len_nonneg v).
  split; [exact H0|]. split; [lia|]. rewrite K by lia. exact H2.
Qed.

Lemma holds_same f f' o v : contents f' = contents f -> holds f o v -> holds f' o v.
Proof. unfold holds. intros ->. trivial. Qed.

Lemma store_holds p bs st u st' lo hi :
  0 <= lo ->
  store p bs st = Some (u, st') ->
  file_ok (file_of (p_file p) st) ->
  hi <= p_off p \/ p_off p + len bs <= lo ->
  file_ok (file_of (p_file p) st')
  /\ bytes_kept lo hi (contents (file_of (p_file p) st))
       (contents (file_of (p_file p) st'))
  /\ file_of (other (p_file p)) st' = file_of (other (p_file p)) st
  /\ holds (file_of (p_file p) st') (p_off p) bs.
Proof.
  intros Hlo H Hok Hd.
  destruct (store_step _ _ _ _ _ lo hi Hlo H Hok Hd) as (A & B & C & _ & D & E & F).
  split; [exact A|]. split; [exact B|]. split; [exact C|].
  split; [exact D|]. split; [exact E|exact F].
Qed.

Lemma AppendRawStart_stored st timestamp sz p s1 :
  file_ok (m_time st) -> file_ok (m_data st) ->
  kHeaderSize <= writePos (m_time st) ->
  AppendRawStart timestamp sz st = Some (Some p, s1) ->
  p = (if m_fixedSize st then mkPtr Time (writePos (m_time st) + 8)
       else mkPtr Data (writePos (m_data st)))
  /\ file_ok (m_time s1) /\ file_ok (m_data s1)
  /\ bytes_kept kHeaderSize (writePos (m_time st))
       (contents (m_time st)) (contents (m_time s1))
  /\ (forall hi, bytes_kept 0 hi (contents (m_data st)) (contents (m_data s1)))
  /\ holds (m_time s1) (writePos (m_time st)) (le_bytes 8 timestamp)
  /\ (m_fixedSize st = false ->
      holds (m_time s1) (writePos (m_time st) + 8)
        (le_bytes (ptr_width st) (writePos (m_data st)))
      /\ holds (m_time s1) (writePos (m_time st) + 8 + Z.of_nat (ptr_width st))
           (le_bytes (ptr_width st) sz)).
Proof.
  intros Ht Hd Hwp H. unfold AppendRawStart in H.
  apply bind_Some in H as (s0 & s0' & E0 & H). injection E0 as <- <-.
  destruct (m_checkMonotonic st && (timestamp <=? m_lastTimestamp st));
    [discriminate|].
  destruct (readOnly (m_time st)); [discriminate|].
  apply bind_Some in H as ([off ec] & sa & Ea & H).
  destruct (GetMappedOffset_step _ _ _ _ _ _ _ kHeaderSize (writePos (m_time st))
              ltac:(unfold kHeaderSize; lia) Ea Ht) as (Oka & Ka & Oa & Offa & _).
  destruct (Z.eqb_spec ec 0) as [->|Hec]; cbn [negb] in H; [|discriminate].
  pose proof Ht as (_ & Tw & _).
  rewrite (Offa eq_refl), u64_small in H by exact Tw. clear Offa.
  cbn [other file_of] in *.
  apply bind_Some in H as (ub & sb & Eb & H). unfold write64le in Eb.
  destruct (store_holds _ _ _ _ _ kHeaderSize (writePos (m_time st))
              ltac:(unfold kHeaderSize; lia) Eb Oka ltac:(left; cbn; lia))
    as (Okb & Kb & Ob & Hts).
  cbn [p_file p_off other file_of] in *.
  pose proof (bytes_kept_trans _ _ _ _ _ Ka Kb) as Kab.
  destruct (m_fixedSize st) eqn:Efix.
  - apply bind_Some in H as (uc & sc & Ec & H). apply modify_Some in Ec. subst sc.
    injection H as <- <-. fsimpl.
    split; [reflexivity|]. split; [exact Okb|].
    split; [rewrite Ob, Oa; exact Hd|]. split; [exact Kab|].
    split; [intros hi; rewrite Ob, Oa; apply bytes_kept_refl|].
    split; [exact Hts|discriminate].
  - apply bind_Some in H as (uc & sc & Ec & H).
    assert (C : file_ok (m_time sc) /\ m_data sc = m_data st
                /\ bytes_kept kHeaderSize (writePos (m_time st))
                     (contents (m_time st)) (contents (m_time sc))
                /\ holds (m_time sc) (writePos (m_time st)) (le_bytes 8 timestamp)
                /\ holds (m_time sc) (writePos (m_time st) + 8)
                     (le_bytes (ptr_width st) (writePos (m_data st)))
                /\ holds (m_time sc) (writePos (m_time st) + 8 + Z.of_nat (ptr_width st))
                     (le_bytes (ptr_width st) sz)).
    { unfold ptr_width.
      destruct (m_recordSize st =? kLargePointerRecordSize).
      - apply bind_Some in Ec as (u1 & t1 & F1 & Ec). unfold write64le in *.
        destruct (store_holds _ _ _ _ _ kHeaderSize (writePos (m_time st) + 8)
                    ltac:(unfold kHeaderSize; lia) F1 Okb
                    ltac:(left; cbn; unfold kTimestampSize; lia))
          as (Ok1 & K1 & O1 & H1).
        destruct (store_holds _ _ _ _ _ kHeaderSize (writePos (m_time st) + 16)
                    ltac:(unfold kHeaderSize; lia) Ec Ok1
                    ltac:(left; cbn; unfold kTimestampSize; lia))
          as (Ok2 & K2 & O2 & H2).
        cbn [p_file p_off other file_of ptr_add] in *. unfold kTimestampSize in *.
        split; [exact Ok2|]. split; [congruence|].
        split.
        { eapply bytes_kept_trans; [exact Kab|].
          eapply bytes_kept_trans; eapply bytes_kept_weaken; try eassumption; lia. }
        split.
        { eapply holds_kept; [|exact K2| |]; [|unfold kHeaderSize in *; lia|rewrite len_le_bytes; lia].
          eapply holds_kept; [exact Hts|exact K1| |];
            [unfold kHeaderSize in *; lia|rewrite len_le_bytes; lia]. }
        split.
        { eapply holds_kept; [exact H1|exact K2| |];
            [unfold kHeaderSize in *; lia|rewrite len_le_bytes; lia]. }
        replace (writePos (m_time st) + 8 + Z.of_nat 8) with (writePos (m_time st) + (8 + 8)) by lia.
        exact H2.
      - apply bind_Some in Ec as (u1 & t1 & F1 & Ec). unfold write32le in *.
        destruct (store_holds _ _ _ _ _ kHeaderSize (writePos (m_time st) + 8)
                    ltac:(unfold kHeaderSize; lia) F1 Okb
                    ltac:(left; cbn; unfold kTimestampSize; lia))
          as (Ok1 & K1 & O1 & H1).
        destruct (store_holds _ _ _ _ _ kHeaderSize (writePos (m_time st) + 12)
                    ltac:(unfold kHeaderSize; lia) Ec Ok1
                    ltac:(left; cbn; unfold kTimestampSize; lia))
          as (Ok2 & K2 & O2 & H2).
        cbn [p_file p_off other file_of ptr_add] in *. unfold kTimestampSize in *.
        split; [exact Ok2|]. split; [congruence|].
        split.
        { eapply bytes_kept_trans; [exact Kab|].
          eapply bytes_kept_trans; eapply bytes_kept_weaken; try eassumption; lia. }
        split.
        { eapply holds_kept; [|exact K2| |]; [|unfold kHeaderSize in *; lia|rewrite len_le_bytes; lia].
          eapply holds_kept; [exact Hts|exact K1| |];
            [unfold kHeaderSize in *; lia|rewrite len_le_bytes; lia]. }
        split.
        { eapply holds_kept; [exact H1|exact K2| |];
            [unfold kHeaderSize in *; lia|rewrite len_le_bytes; lia]. }
        replace (writePos (m_time st) + 8 + Z.of_nat 4) with (writePos (m_time st) + (8 + 4)) by lia.
        exact H2. }
    destruct C as (Okc & Dc & Kc & C1 & C2 & C3).
    apply bind_Some in H as ([off2 ec2] & sd & Ed & H).
    assert (Hdc : file_ok (file_of Data sc)) by (cbn [file_of]; rewrite Dc; exact Hd).
    destruct (Z.eqb_spec ec2 0) as [->|Hec2]; cbn [negb] in H; [|discriminate].
    apply bind_Some in H as (ue & se & Ee & H). apply modify_Some in Ee. subst se.
    injection H as <- <-. fsimpl.
    assert (Td : m_time sd = m_time sc).
    { destruct (GetMappedOffset_step _ _ _ _ _ _ _ 0 0 ltac:(lia) Ed Hdc)
        as (_ & _ & Od & _). exact Od. }
    destruct (GetMappedOffset_step _ _ _ _ _ _ _ 0 0 ltac:(lia) Ed Hdc)
      as (Okd & _ & _ & Offd & _).
    pose proof Hd as (_ & Dw & _).
    split; [rewrite (Offd eq_refl), u64_small by exact Dw; reflexivity|].
    rewrite Td. split; [exact Okc|]. split; [exact Okd|]. split; [exact Kc|].
    split.
    { intros hi.
      destruct (GetMappedOffset_step _ _ _ _ _ _ _ 0 hi ltac:(lia) Ed Hdc)
        as (_ & Kd & _). cbn [file_of] in Kd. rewrite Dc in Kd. exact Kd. }
    split; [exact C1|]. intros _. split; [exact C2|exact C3].
Qed.

Lemma grows_refl st : grows st st.
Proof. repeat split; try lia; intros; reflexivity. Qed.

Lemma grows_trans a b c : grows a b -> grows b c -> grows a c.
Proof.
  intros (S1 & T1 & D1 & KT1 & KD1) (S2 & T2 & D2 & KT2 & KD2).
  split; [congruence|]. split; [lia|]. split; [lia|]. split.
  - eapply bytes_kept_trans; [exact KT1|].
    eapply bytes_kept_weaken; [|exact KT2]. lia.
  - eapply bytes_kept_trans; [exact KD1|].
    eapply bytes_kept_weaken; [|exact KD2]. lia.
Qed.

Lemma ptr_width_settings st st' :
  settings st' = settings st -> ptr_width st' = ptr_width st.
Proof.
  intros S. destruct (settings_fields _ _ S) as (R & _).
  unfold ptr_width. rewrite R. reflexivity.
Qed.

Lemma stored_grows st st' n timestamp payload :
  stored st n timestamp payload -> grows st st' -> stored st' n timestamp payload.
Proof.
  intros (A1 & A2 & A3 & A4) (S & T & D & KT & KD).
  destruct (settings_fields _ _ S) as (R & F & _).
  unfold stored. rewrite R, F, (ptr_width_settings _ _ S).
  pose proof (len_nonneg payload) as Hp.
  assert (R8 : 8 <= m_recordSize st).
  { destruct (m_fixedSize st); [destruct A4; lia|].
    destruct A4 as (off & W & _). lia. }
  split; [exact A1|]. split; [lia|].
  split; [eapply holds_kept; [exact A3|exact KT| |];
          [lia|rewrite len_le_bytes; change (Z.of_nat 8) with 8; lia]|].
  destruct (m_fixedSize st).
  - destruct A4 as [A4 A5]. split; [|exact A5].
    eapply holds_kept; [exact A4|exact KT| |]; lia.
  - destruct A4 as (off & W & B1 & B2 & B3 & B4 & B5).
    exists off. split; [exact W|].
    split; [eapply holds_kept; [exact B1|exact KT| |]; [lia|rewrite len_le_bytes; lia]|].
    split; [eapply holds_kept; [exact B2|exact KT| |]; [lia|rewrite len_le_bytes; lia]|].
    split; [eapply holds_kept; [exact B3|exact KD| |]; [destruct B3; lia|lia]|].
    split; [lia|exact B5].
Qed.

Lemma slot_of_size st :
  well_formed st ->
  kHeaderSize + size st * m_recordSize st = writePos (m_time st)
  /\ 0 <= size st.
Proof.
  intros (R1 & _ & (_ & Tw & _) & _ & Hh & Ha & _).
  rewrite size_eq by lia.
  pose proof (Z.div_mod (writePos (m_time st) - kHeaderSize) (m_recordSize st) ltac:(lia)).
  split; [nia|]. apply Z.div_pos; lia.
Qed.

Lemma ptr_width_cases st :
  (m_fixedSize st = false -> m_recordSize st = 16 \/ m_recordSize st = 24) ->
  m_fixedSize st = false ->
  8 + Z.of_nat (ptr_width st) + Z.of_nat (ptr_width st) = m_recordSize st
  /\ 2 ^ (8 * Z.of_nat (ptr_width st)) <= 2 ^ 64.
Proof.
  intros H F. unfold ptr_width.
  destruct (H F) as [E|E]; rewrite E; cbn; lia.
Qed.

(** One append that goes through. *)
Lemma AppendRaw_stored st timestamp data st' :
  well_formed st ->
  (if m_fixedSize st then len data = m_recordSize st - 8
   else writePos (m_data st) + len data + len (m_gapData st)
        < 2 ^ (8 * Z.of_nat (ptr_width st))) ->
  AppendRaw timestamp data st = Some (true, st') ->
  well_formed st' /\ grows st st'
  /\ stored st' (size st) timestamp data
  /\ size st' = size st + 1
  /\ writePos (m_data st')
     = (if m_fixedSize st then writePos (m_data st)
        else writePos (m_data st) + len data + len (m_gapData st)).
Proof.
  intros WF Hfit H.
  pose proof WF as (R8 & Rv & Ht & Hd & Hh & Ha & Hl).
  pose proof (len_nonneg data) as Hn. pose proof (len_nonneg (m_gapData st)) as Hg.
  pose proof (ptr_width_cases st Rv) as PW.
  assert (Hk : kHeaderSize = 4096) by reflexivity.
  unfold AppendRaw in H.
  apply bind_Some in H as (out & s1 & E1 & H).
  destruct out as [p|]; [|discriminate].
  destruct (AppendRawStart_cases _ _ _ _ _ E1) as (S1 & P1 & _).
  destruct (AppendRawStart_stored _ _ _ _ _ Ht Hd Hh E1)
    as (Hp & Ht1 & Hd1 & KT1 & KD1 & Fts & Fptr).
  apply bind_Some in H as (u2 & s2 & E2 & H).
  apply bind_Some in H as (u3 & s3 & E3 & H). injection H as <-.
  destruct (store_preserved _ _ _ _ _ E2) as [(S2 & P2 & _) _].
  destruct (AppendRawFinish_effect _ _ _ _ E3) as (S3 & _ & T3 & D3 & _).
  destruct (settings_fields _ _ S1) as (R1 & F1 & G1 & _).
  destruct (settings_fields _ _ S2) as (R2 & F2 & G2 & _).
  destruct (settings_fields _ _ S3) as (R3 & F3 & G3 & _).
  destruct (positions_fields _ _ P1) as (PT1 & PD1).
  destruct (positions_fields _ _ P2) as (PT2 & PD2).
  rewrite R2, R1, PT2, PT1 in T3. rewrite F2, F1, G2, G1, PD2, PD1 in D3.
  assert (SS : settings s3 = settings st) by congruence.
  set (wp := writePos (m_time st)) in *.
  set (dwp := writePos (m_data st)) in *.
  set (rs := m_recordSize st) in *.
  (* the state after the payload has been written *)
  assert (B : file_ok (m_time s2) /\ file_ok (m_data s2)
              /\ bytes_kept kHeaderSize wp (contents (m_time st)) (contents (m_time s2))
              /\ bytes_kept 0 dwp (contents (m_data st)) (contents (m_data s2))
              /\ holds (m_time s2) wp (le_bytes 8 timestamp)
              /\ wp + rs <= len (contents (m_time s2))
              /\ if m_fixedSize st
                 then holds (m_time s2) (wp + 8) data
                 else holds (m_time s2) (wp + 8) (le_bytes (ptr_width st) dwp)
                      /\ holds (m_time s2) (wp + 8 + Z.of_nat (ptr_width st))
                           (le_bytes (ptr_width st) (len data))
                      /\ holds (m_data s2) dwp data).
  { destruct (m_fixedSize st) eqn:Efix; subst p.
    - destruct (store_holds _ _ _ _ _ kHeaderSize (wp + 8)
                  ltac:(unfold kHeaderSize; lia) E2 Ht1 ltac:(left; cbn; lia))
        as (Ok2 & K2 & O2 & H2).
      cbn [p_file p_off other file_of] in *.
      split; [exact Ok2|]. split; [rewrite O2; exact Hd1|].
      split; [eapply bytes_kept_trans; [exact KT1|];
              eapply bytes_kept_weaken; [|exact K2]; lia|].
      split; [rewrite O2; apply KD1|].
      split; [eapply holds_kept; [exact Fts|exact K2| |];
              [unfold kHeaderSize in *; lia
              |rewrite len_le_bytes; change (Z.of_nat 8) with 8; lia]|].
      split; [destruct H2 as (_ & H2 & _); lia|exact H2].
    - destruct (Fptr eq_refl) as (Fo & Fl).
      destruct (store_holds _ _ _ _ _ 0 dwp ltac:(lia) E2 Hd1 ltac:(left; cbn; lia))
        as (Ok2 & K2 & O2 & H2).
      cbn [p_file p_off other file_of] in *. rewrite O2.
      destruct (PW eq_refl) as (W & _).
      split; [exact Ht1|]. split; [exact Ok2|]. split; [exact KT1|].
      split; [eapply bytes_kept_trans; [apply KD1|exact K2]|].
      split; [exact Fts|].
      split; [destruct Fl as (_ & Fl & _); rewrite len_le_bytes in Fl; fold rs in W; lia|].
      split; [exact Fo|]. split; [exact Fl|exact H2]. }
  destruct B as (Ht2 & Hd2 & KT2 & KD2 & Fts2 & Hlen2 & Fpay).
  assert (Hdb : m_fixedSize s2 = false -> writePos (m_data s2) + len data < 2 ^ 64).
  { rewrite F2, F1, PD2, PD1. fold dwp. intros Efix. rewrite Efix in Hfit.
    destruct (PW Efix) as (_ & W). lia. }
  destruct (AppendRawFinish_step _ _ _ _ (wp + rs) E3 Ht2 Hd2 Hn Hdb)
    as (Ht3 & Hd3 & KT3 & KD3).
  rewrite PT2, PT1 in Ht3. rewrite PD2, PD1 in Hd3, KD3. fold wp in Ht3. fold dwp in Hd3, KD3.
  pose proof Ht2 as (_ & _ & Ts2 & _).
  assert (Hwp3 : writePos (m_time s3) = wp + rs).
  { rewrite T3. apply u64_small. lia. }
  assert (Hdw3 : writePos (m_data s3)
                 = (if m_fixedSize st then dwp else dwp + len data + len (m_gapData st))).
  { rewrite D3. destruct (m_fixedSize st) eqn:Efix; [reflexivity|].
    destruct (PW eq_refl) as (_ & W).
    apply u64_small. destruct Hd as (_ & Dw & _). fold dwp in Dw. lia. }
  assert (Hdmono : dwp <= writePos (m_data s3) < 2 ^ 64).
  { rewrite Hdw3. destruct Hd as (_ & Dw & _). fold dwp in Dw.
    destruct (m_fixedSize st) eqn:Efix; [lia|].
    destruct (PW eq_refl) as (_ & W). lia. }
  assert (KT : bytes_kept kHeaderSize wp (contents (m_time st)) (contents (m_time s3))).
  { eapply bytes_kept_trans; [exact KT2|].
    eapply bytes_kept_weaken; [|exact KT3]. lia. }
  assert (KD : bytes_kept 0 dwp (contents (m_data st)) (contents (m_data s3))).
  { eapply bytes_kept_trans; [exact KD2|].
    eapply bytes_kept_weaken; [|exact KD3]. lia. }
  assert (Hlen3 : wp + rs <= len (contents (m_time s3))).
  { destruct KT3 as [L _]. lia. }
  destruct (slot_of_size st WF) as (Hslot & Hsz0). fold rs wp in Hslot.
  split; [|split; [|split; [|split]]].
  - (* well_formed *)
    unfold well_formed. rewrite R3, R2, R1, F3, F2, F1. fold rs.
    split; [exact R8|]. split; [exact Rv|].
    split.
    { destruct Ht3 as (A1 & A2 & A3 & A4). repeat split; fsimpl; try lia; try exact A1.
      destruct A4 as [A4|A4]; [left|right]; exact A4. }
    split.
    { destruct Hd3 as (A1 & A2 & A3 & A4). repeat split; fsimpl; try lia; try exact A1.
      destruct A4 as [A4|A4]; [left|right]; exact A4. }
    rewrite Hwp3. split; [lia|]. split; [|lia].
    replace (wp + rs - kHeaderSize) with (wp - kHeaderSize + 1 * rs) by lia.
    rewrite Z.mod_add by lia. exact Ha.
  - (* grows *)
    split; [exact SS|]. fold wp dwp. rewrite Hwp3.
    split; [lia|]. split; [lia|]. split; [exact KT|exact KD].
  - (* stored *)
    unfold stored. rewrite R3, R2, R1, F3, F2, F1, (ptr_width_settings _ _ SS).
    fold rs. rewrite Hslot, Hwp3.
    split; [lia|]. split; [lia|].
    split; [eapply holds_kept; [exact Fts2|exact KT3| |];
            [lia|rewrite len_le_bytes; change (Z.of_nat 8) with 8; lia]|].
    destruct (m_fixedSize st) eqn:Efix.
    + split; [|exact Hfit].
      eapply holds_kept; [exact Fpay|exact KT3| |]; lia.
    + destruct Fpay as (Fo & Fl & Fd).
      destruct (PW eq_refl) as (W & _). fold rs in W.
      exists dwp. split; [lia|].
      split; [eapply holds_kept; [exact Fo|exact KT3| |]; [lia|rewrite len_le_bytes; lia]|].
      split; [eapply holds_kept; [exact Fl|exact KT3| |]; [lia|rewrite len_le_bytes; lia]|].
      split; [eapply holds_kept; [exact Fd|exact KD3| |]; [destruct Fd; lia|lia]|].
      rewrite Hdw3. split; lia.
  - (* size *)
    destruct Ht as (_ & Tw & _). fold wp in Tw.
    rewrite (size_eq s3) by (rewrite Hwp3; lia).
    rewrite (size_eq st) by (fold wp; lia).
    rewrite Hwp3, R3, R2, R1. fold rs wp.
    replace (wp + rs - kHeaderSize) with (wp - kHeaderSize + 1 * rs) by lia.
    rewrite Z.div_add by lia. reflexivity.
  - exact Hdw3.
Qed.

Lemma accessible_sub f o n d k :
  accessible f o n = true -> 0 <= d -> 0 <= k -> d + k <= n ->
  accessible f (o + d) k = true.
Proof.
  unfold accessible. intros H Hd Hk Hdk.
  apply andb_prop in H as [H H5]. apply andb_prop in H as [H H4].
  apply andb_prop in H as [H H3]. apply andb_prop in H as [H1 H2].
  apply Z.leb_le in H2, H3, H4, H5.
  apply accessible_intro; try assumption; lia.
Qed.

Lemma load_holds p v st :
  accessible (file_of (p_file p) st) (p_off p) (len v) = true ->
  holds (file_of (p_file p) st) (p_off p) v ->
  load p (len v) st = Some (v, st).
Proof.
  intros A (_ & _ & H). unfold load. rewrite A, H. reflexivity.
Qed.

Lemma le_value_small k v :
  0 <= v < 2 ^ (8 * Z.of_nat k) -> le_value (le_bytes k v) = v.
Proof. intros H. rewrite le_value_bytes. apply Z.mod_small. exact H. Qed.

Lemma GetMappedOffset_good w pos n st :
  file_ok (file_of w st) -> Forall maps_ok (os st) ->
  0 <= pos -> 0 <= n -> pos + n <= len (contents (file_of w st)) ->
  exists st',
    GetMappedOffset w pos n st = Some ((pos, 0), st')
    /\ file_ok (file_of w st')
    /\ (forall lo hi, 0 <= lo ->
        bytes_kept lo hi (contents (file_of w st)) (contents (file_of w st')))
    /\ file_of (other w) st' = file_of (other w) st
    /\ Forall maps_ok (os st')
    /\ accessible (file_of w st') pos n = true.
Proof.
  intros Hok Hos Hp Hn Hl.
  pose proof Hok as (_ & _ & Fs & Fg).
  destruct (GetMappedOffset_total w pos n st Fg) as ([off ec] & st' & E & _).
  destruct (GetMappedOffset_step _ _ _ _ _ _ _ 0 0 ltac:(lia) E Hok)
    as (Ok & _ & O & Off & Ms & Acc).
  destruct (Ms Hos) as [-> Hos']. rewrite (Off eq_refl), u64_small in E by lia.
  exists st'. split; [exact E|]. split; [exact Ok|].
  split.
  { intros lo hi Hlo.
    apply (GetMappedOffset_step _ _ _ _ _ _ _ lo hi Hlo E Hok). }
  split; [exact O|]. split; [exact Hos'|].
  apply Acc; auto.
Qed.

(** A stored record is what [ReadRaw] returns, when the operating system maps
    the files. *)
Lemma ReadRaw_stored_files st n timestamp payload :
  8 <= m_recordSize st -> file_ok (m_time st) ->
  (m_fixedSize st = false -> file_ok (m_data st)) ->
  writePos (m_time st) <= len (contents (m_time st)) ->
  stored st n timestamp payload ->
  0 <= timestamp < 2 ^ 64 ->
  Forall maps_ok (os st) ->
  exists view st',
    ReadRaw n st = Some ((timestamp, view), st')
    /\ view_bytes view st' = Some payload.
Proof.
  intros R8 Ht Hdata Hl (A1 & A2 & A3 & A4) Hts Hos.
  assert (Hk : kHeaderSize = 4096) by reflexivity.
  pose proof Ht as (_ & Tw & Ts & _).
  set (slot := kHeaderSize + n * m_recordSize st) in *.
  set (rs := m_recordSize st) in *.
  unfold ReadRaw. rewrite (bind_eq get _ st st st eq_refl).
  fold rs slot. rewrite (u64_small slot) by lia.
  destruct (GetMappedOffset_good Time slot rs st Ht Hos ltac:(lia) ltac:(lia)
              ltac:(cbn [file_of]; lia))
    as (s1 & E1 & Ht1 & K1 & O1 & Hos1 & Acc1).
  cbn [file_of other] in *.
  assert (ER : Read Time slot rs st
               = Some (mkArrayRef (Some (mkPtr Time slot)) rs, s1)).
  { unfold Read. rewrite (bind_eq _ _ _ _ _ E1). reflexivity. }
  rewrite (bind_eq _ _ _ _ _ ER). cbn [a_size a_data].
  replace (rs <? rs) with false by (symmetry; apply Z.ltb_ge; lia).
  replace (rs <? kTimestampSize) with false
    by (symmetry; apply Z.ltb_ge; unfold kTimestampSize; lia).
  cbn [orb].
  assert (KT : bytes_kept kHeaderSize (writePos (m_time st))
                 (contents (m_time st)) (contents (m_time s1)))
    by (apply K1; lia).
  assert (LD : forall d v, 0 <= d -> d + len v <= rs ->
             holds (m_time st) (slot + d) v ->
             load (mkPtr Time (slot + d)) (len v) s1 = Some (v, s1)).
  { intros d v Hd0 Hdv Hv. pose proof (len_nonneg v).
    apply load_holds; cbn [p_file p_off file_of].
    - apply (accessible_sub _ _ rs); auto; lia.
    - eapply holds_kept; [exact Hv|exact KT| |]; lia. }
  assert (E8 : read64le (mkPtr Time slot) s1 = Some (timestamp, s1)).
  { unfold read64le.
    pose proof (LD 0 (le_bytes 8 timestamp) ltac:(lia)
                  ltac:(rewrite len_le_bytes; change (Z.of_nat 8) with 8; lia)) as L.
    rewrite Z.add_0_r, len_le_bytes in L. change (Z.of_nat 8) with 8 in L.
    rewrite (bind_eq _ _ _ _ _ (L A3)).
    unfold ret. rewrite le_value_small by (change (8 * Z.of_nat 8) with 64; lia).
    reflexivity. }
  rewrite (bind_eq _ _ _ _ _ E8).
  destruct (m_fixedSize st) eqn:Efix.
  - destruct A4 as [A4 A5].
    eexists _, s1. split; [reflexivity|].
    unfold view_bytes, slice. cbn [a_data a_size option_map ptr_add p_file p_off].
    unfold kTimestampSize, ptr_add. cbn [p_file p_off]. rewrite <- A5.
    rewrite (LD 8 payload ltac:(lia) ltac:(lia) A4). reflexivity.
  - destruct A4 as (off & W & B1 & B2 & B3 & B4 & B5).
    pose proof (Hdata eq_refl) as Hd.
    pose proof (len_nonneg payload) as Hp.
    pose proof B3 as (B30 & B31 & _).
    assert (RD : exists s2,
               Read Data off (len payload) s1
               = Some (mkArrayRef (Some (mkPtr Data off)) (len payload), s2)
               /\ view_bytes (mkArrayRef (Some (mkPtr Data off)) (len payload)) s2
                  = Some payload).
    { assert (Hd1 : file_ok (file_of Data s1)) by (cbn [file_of]; rewrite O1; exact Hd).
      destruct (GetMappedOffset_good Data off (len payload) s1 Hd1 Hos1 B30 Hp
                  ltac:(cbn [file_of]; rewrite O1; exact B31))
        as (s2 & E2 & _ & K2 & _ & _ & Acc2).
      exists s2. unfold Read. rewrite (bind_eq _ _ _ _ _ E2). split; [reflexivity|].
      unfold view_bytes. cbn [a_data a_size].
      rewrite load_holds; [reflexivity|exact Acc2|].
      cbn [p_file p_off file_of] in *.
      eapply holds_kept; [|apply (K2 0 (off + len payload)); lia| |]; [|lia|lia].
      eapply holds_same; [|exact B3]. rewrite O1. reflexivity. }
    destruct RD as (s2 & ERD & VB).
    unfold ptr_width in *. fold rs in W, B1, B2, B5.
    revert W B1 B2 B5.
    destruct (Z.eqb_spec rs kLargePointerRecordSize) as [E24|E24]; intros W B1 B2 B5.
    + unfold read64le.
      pose proof (LD 8 (le_bytes 8 off) ltac:(lia) ltac:(rewrite len_le_bytes; lia) B1) as L1.
      pose proof (LD (8 + Z.of_nat 8) (le_bytes 8 (len payload)) ltac:(lia)
                    ltac:(rewrite len_le_bytes; lia)) as L2.
      rewrite Z.add_assoc in L2. specialize (L2 B2).
      rewrite len_le_bytes in L1, L2. change (Z.of_nat 8) with 8 in L1, L2.
      unfold ptr_add, kTimestampSize. cbn [p_file p_off].
      rewrite (bind_eq _ _ _ _ _ (bind_eq _ _ _ _ _ L1)).
      replace (slot + (8 + 8)) with (slot + 8 + 8) by lia.
      rewrite (bind_eq _ _ _ _ _ (bind_eq _ _ _ _ _ L2)).
      rewrite !le_value_small by lia.
      rewrite (bind_eq _ _ _ _ _ ERD).
      eexists _, s2. split; [reflexivity|exact VB].
    + unfold read32le.
      pose proof (LD 8 (le_bytes 4 off) ltac:(lia) ltac:(rewrite len_le_bytes; lia) B1) as L1.
      pose proof (LD (8 + Z.of_nat 4) (le_bytes 4 (len payload)) ltac:(lia)
                    ltac:(rewrite len_le_bytes; lia)) as L2.
      rewrite Z.add_assoc in L2. specialize (L2 B2).
      rewrite len_le_bytes in L1, L2. change (Z.of_nat 4) with 4 in L1, L2.
      unfold ptr_add, kTimestampSize. cbn [p_file p_off].
      rewrite (bind_eq _ _ _ _ _ (bind_eq _ _ _ _ _ L1)).
      replace (slot + (8 + 4)) with (slot + 8 + 4) by lia.
      rewrite (bind_eq _ _ _ _ _ (bind_eq _ _ _ _ _ L2)).
      rewrite !le_value_small by lia.
      rewrite (bind_eq _ _ _ _ _ ERD).
      eexists _, s2. split; [reflexivity|exact VB].
Qed.

Lemma ReadRaw_stored st n timestamp payload :
  well_formed st -> stored st n timestamp payload ->
  0 <= timestamp < 2 ^ 64 ->
  Forall maps_ok (os st) ->
  exists view st',
    ReadRaw n st = Some ((timestamp, view), st')
    /\ view_bytes view st' = Some payload.
Proof.
  intros (R8 & _ & Ht & Hd & _ & _ & Hl).
  apply ReadRaw_stored_files; try assumption. intros _. exact Hd.
Qed.

Lemma payload_sum_nonneg l : 0 <= payload_sum l.
Proof.
  induction l as [|[t d] r IH]; cbn [payload_sum]; [lia|].
  pose proof (len_nonneg d). lia.
Qed.

Lemma AppendAll_stored l :
  forall st st',
    well_formed st -> fits st l ->
    AppendAll l st = Some (repeat true (length l), st') ->
    well_formed st' /\ grows st st'
    /\ forall k timestamp payload,
         nth_error l k = Some (timestamp, payload) ->
         stored st' (size st + Z.of_nat k) timestamp payload.
Proof.
  induction l as [|[t d] r IH]; intros st st' WF Hfit H.
  - injection H as <-. split; [exact WF|]. split; [apply grows_refl|].
    intros [|k] ? ? C; discriminate.
  - cbn [AppendAll] in H.
    apply bind_Some in H as (b & s1 & E1 & H).
    apply bind_Some in H as (bs & s2 & E2 & H).
    cbn [length repeat] in H. injection H as -> -> <-.
    pose proof (payload_sum_nonneg r) as Hr.
    pose proof (len_nonneg (m_gapData st)) as Hg.
    pose proof (len_nonneg d) as Hd.
    assert (Hfit1 : if m_fixedSize st then len d = m_recordSize st - 8
                    else writePos (m_data st) + len d + len (m_gapData st)
                         < 2 ^ (8 * Z.of_nat (ptr_width st))).
    { unfold fits in Hfit. destruct (m_fixedSize st).
      - inversion Hfit; subst. assumption.
      - cbn [payload_sum length] in Hfit. rewrite Nat2Z.inj_succ in Hfit. nia. }
    destruct (AppendRaw_stored _ _ _ _ WF Hfit1 E1) as (WF1 & G1 & S1 & Z1 & D1).
    pose proof G1 as (SS & _).
    destruct (settings_fields _ _ SS) as (R & F & G & _).
    assert (Hfit' : fits s1 r).
    { unfold fits in *. rewrite F, R, G, (ptr_width_settings _ _ SS), D1.
      destruct (m_fixedSize st).
      - inversion Hfit; subst. assumption.
      - cbn [payload_sum length] in Hfit. rewrite Nat2Z.inj_succ in Hfit. lia. }
    destruct (IH s1 s2 WF1 Hfit' E2) as (WF2 & G2 & S2).
    split; [exact WF2|]. split; [eapply grows_trans; eassumption|].
    intros [|k] timestamp payload Hk.
    + injection Hk as <- <-. rewrite Z.add_0_r.
      eapply stored_grows; eassumption.
    + cbn [nth_error] in Hk. specialize (S2 k timestamp payload Hk).
      rewrite Z1 in S2.
      replace (size st + Z.of_nat (S k)) with (size st + 1 + Z.of_nat k) by lia.
      exact S2.
Qed.
(** * The header and its JSON text *)

Lemma skip_ws_cons c r : Json.is_ws c = false -> Json.skip_ws (c :: r) = c :: r.
Proof. intros H. cbn. rewrite H. reflexivity. Qed.

Lemma hex_value_digit d :
  0 <= d < 16 -> Json.hex_value (Json.hex_digit d) = Some d.
Proof.
  intros H.
  assert (C : d = 0 \/ d = 1 \/ d = 2 \/ d = 3 \/ d = 4 \/ d = 5 \/ d = 6 \/ d = 7
              \/ d = 8 \/ d = 9 \/ d = 10 \/ d = 11 \/ d = 12 \/ d = 13 \/ d = 14
              \/ d = 15) by lia.
  repeat (destruct C as [->|C]; [reflexivity|]). subst; reflexivity.
Qed.

Lemma parse_chars_escape_char c s :
  0 <= c ->
  Json.parse_chars (Json.escape_char c ++ s)
  = match Json.parse_chars s with
    | Some (r, rest) => Some (c :: r, rest)
    | None => None
    end.
Proof.
  intros Hc. unfold Json.escape_char.
  destruct (Z.eqb_spec c 34) as [->|N34]; [reflexivity|].
  destruct (Z.eqb_spec c 92) as [->|N92]; [reflexivity|].
  destruct (Z.eqb_spec c 8) as [->|N8]; [reflexivity|].
  destruct (Z.eqb_spec c 12) as [->|N12]; [reflexivity|].
  destruct (Z.eqb_spec c 10) as [->|N10]; [reflexivity|].
  destruct (Z.eqb_spec c 13) as [->|N13]; [reflexivity|].
  destruct (Z.eqb_spec c 9) as [->|N9]; [reflexivity|].
  destruct (Z.ltb_spec c 32) as [L|L].
  - cbn [app Json.parse_chars].
    change (92 =? 34) with false. change (92 =? 92) with true.
    change (117 =? 117) with true. cbv iota.
    unfold Json.hex4. change (Json.hex_value 48) with (Some 0).
    rewrite !hex_value_digit
      by (split; [apply Z.div_pos || apply Z.mod_pos_bound; lia
                 | apply Z.div_lt_upper_bound || apply Z.mod_pos_bound; lia]).
    replace (((0 * 16 + 0) * 16 + c / 16) * 16 + c mod 16) with c
      by (pose proof (Z.div_mod c 16 ltac:(lia)); lia).
    replace (Json.is_high c) with false
      by (symmetry; apply andb_false_iff; left; apply Z.leb_gt; lia).
    unfold Json.utf8. replace (c <? 128) with true by (symmetry; apply Z.ltb_lt; lia).
    destruct (Json.parse_chars s) as [[r rest']|]; reflexivity.
  - cbn [app Json.parse_chars].
    replace (c =? 34) with false by (symmetry; apply Z.eqb_neq; lia).
    replace (c =? 92) with false by (symmetry; apply Z.eqb_neq; lia).
    replace (c <? 32) with false by (symmetry; apply Z.ltb_ge; lia).
    reflexivity.
Qed.

Lemma parse_chars_escape s rest :
  is_string s ->
  Json.parse_chars (Json.escape s ++ 34 :: rest) = Some (s, rest).
Proof.
  induction 1 as [|c s Hc Hs IH].
  - reflexivity.
  - cbn [Json.escape]. rewrite <- app_assoc.
    rewrite parse_chars_escape_char by assumption.
    rewrite IH. reflexivity.
Qed.

Lemma read_uint_chars d rest :
  no_digit_ahead rest ->
  Json.read_uint (Json.uint_chars d ++ rest) = (d, rest).
Proof.
  intros H. induction d; cbn [Json.uint_chars app];
    try (cbn [Json.read_uint]; change (Json.is_digit _) with true; cbv iota;
         rewrite IHd; reflexivity).
  destruct rest as [|c r]; [reflexivity|].
  cbn [Json.read_uint]. cbn in H. rewrite H. reflexivity.
Qed.

Lemma to_uint_normal n d : N.to_uint n = Decimal.D0 d -> d = Decimal.Nil.
Proof.
  intros E.
  pose proof (DecimalN.Unsigned.to_of (N.to_uint n)) as H.
  rewrite DecimalN.Unsigned.of_to in H. rewrite E in H.
  unfold Decimal.unorm in H.
  destruct (Decimal.nzhead (Decimal.D0 d)) eqn:Z;
    try (symmetry in H; rewrite <- Z in H;
         exfalso; exact (DecimalFacts.nzhead_nonzero _ _ H)).
  injection H as H. exact H.
Qed.

Lemma to_uint_nonnil n : N.to_uint n <> Decimal.Nil.
Proof.
  pose proof (DecimalN.Unsigned.to_of (N.to_uint n)) as H.
  rewrite DecimalN.Unsigned.of_to in H. rewrite H.
  apply DecimalFacts.unorm_nonnil.
Qed.

Lemma prefix_eqb_head x p c t :
  x <> c -> Json.prefix_eqb (x :: p) (c :: t) = false.
Proof.
  intros H. cbn. replace (x =? c) with false by (symmetry; apply Z.eqb_neq; exact H).
  reflexivity.
Qed.

Lemma number_end_digit rest : number_end rest -> no_digit_ahead rest.
Proof.
  destruct rest as [|c r]; [exact id|]. cbn.
  intros H. destruct (Json.is_digit c); [discriminate H|reflexivity].
Qed.

Lemma read_frac_end rest : number_end rest -> Json.read_frac rest = Some (Decimal.Nil, rest).
Proof.
  destruct rest as [|c r]; [reflexivity|]. cbn [number_end Json.read_frac].
  intros H. destruct (c =? 46); [|reflexivity].
  rewrite orb_true_r in H. discriminate H.
Qed.

Lemma read_exp_end rest : number_end rest -> Json.read_exp rest = Some (None, rest).
Proof.
  destruct rest as [|c r]; [reflexivity|]. cbn [number_end Json.read_exp].
  intros H. destruct ((c =? 101) || (c =? 69)) eqn:E; [|reflexivity].
  rewrite <- !orb_assoc in H. rewrite E in H. rewrite !orb_true_r in H.
  discriminate H.
Qed.

Lemma parse_number_uint n rest :
  number_end rest ->
  Json.parse_number (Json.uint_chars (N.to_uint n) ++ rest) = Some (Json.Num n, rest).
Proof.
  intros Hr. unfold Json.parse_number.
  pose proof (read_uint_chars (N.to_uint n) rest (number_end_digit rest Hr)) as R.
  pose proof (DecimalN.Unsigned.of_to n) as O.
  pose proof (to_uint_nonnil n) as NN.
  pose proof (to_uint_normal n) as NZ.
  assert (M : Json.read_minus (Json.uint_chars (N.to_uint n) ++ rest)
              = (false, Json.uint_chars (N.to_uint n) ++ rest)).
  { destruct (N.to_uint n); [contradiction|..]; reflexivity. }
  rewrite M, R.
  assert (Z0 : Json.is_nil (N.to_uint n) || Json.leading_zero (N.to_uint n) = false).
  { destruct (N.to_uint n) as [|d|d|d|d|d|d|d|d|d|d]; [contradiction|..];
      try reflexivity.
    rewrite (NZ d eq_refl). reflexivity. }
  rewrite Z0, (read_frac_end rest Hr), (read_exp_end rest Hr).
  unfold Json.number. cbn [Json.is_nil]. rewrite O. reflexivity.
Qed.

Lemma uint_chars_head n :
  exists c r, Json.uint_chars (N.to_uint n) = c :: r /\ 48 <= c <= 57.
Proof.
  pose proof (to_uint_nonnil n) as NN.
  destruct (N.to_uint n); [contradiction|..]; cbn [Json.uint_chars];
    eexists; eexists; (split; [reflexivity|lia]).
Qed.

Lemma parse_value_dump step cur v fuel rest :
  value_ok v -> number_end rest -> (0 < fuel)%nat ->
  Json.parse_value fuel (Json.dump_value step cur v ++ rest) = Some (v, rest).
Proof.
  intros Hv Hr Hf. destruct fuel as [|fuel]; [lia|].
  destruct v as [s|n|[|]| | | | |]; try contradiction.
  - cbn [Json.dump_value Json.quote app Json.parse_value].
    change (34 =? 34) with true. cbv iota.
    rewrite <- app_assoc. cbn [app].
    rewrite parse_chars_escape by exact Hv. reflexivity.
  - cbn [Json.dump_value].
    pose proof (parse_number_uint n rest Hr) as P.
    destruct (uint_chars_head n) as (c & r & E & Hc). rewrite E in *.
    cbn [app Json.parse_value] in *.
    replace (c =? 34) with false by (symmetry; apply Z.eqb_neq; lia).
    rewrite !prefix_eqb_head by lia.
    replace (c =? 91) with false by (symmetry; apply Z.eqb_neq; lia).
    replace (c =? 123) with false by (symmetry; apply Z.eqb_neq; lia).
    exact P.
  - reflexivity.
  - reflexivity.
Qed.

Lemma skip_ws_value step cur v rest :
  value_ok v ->
  Json.skip_ws (Json.dump_value step cur v ++ rest) = Json.dump_value step cur v ++ rest.
Proof.
  intros Hv. destruct v as [s|n|[|]| | | | |]; try contradiction; try reflexivity.
  cbn [Json.dump_value]. destruct (uint_chars_head n) as (c & r & E & Hc).
  rewrite E. cbn [app]. apply skip_ws_cons. unfold Json.is_ws.
  repeat (replace (c =? _) with false by (symmetry; apply Z.eqb_neq; lia)).
  reflexivity.
Qed.

Lemma dump_members_cons step indent m o :
  Json.dump_members step indent (m :: o)
  = Json.dump_member step indent m
    ++ match o with
       | [] => [10]
       | _ => [44; 10] ++ Json.dump_members step indent o
       end.
Proof. destruct o; reflexivity. Qed.

Lemma dump_eq o :
  o <> [] -> Json.dump 1 o = [123; 10] ++ Json.dump_members 1 1 o ++ [125].
Proof. destruct o; [contradiction|reflexivity]. Qed.

Lemma parse_members_dump o :
  forall fuel rest,
    o <> [] -> Forall member_ok o -> (length o < fuel)%nat ->
    Json.parse_members fuel (Json.skip_ws (Json.dump_members 1 1 o ++ 125 :: rest))
    = Some (o, rest).
Proof.
  induction o as [|[k v] o IH]; intros fuel rest Hne Hok Hf; [contradiction|].
  inversion Hok as [|? ? [Hk Hv] Hok']; subst. cbn [fst snd] in *.
  destruct fuel as [|fuel]; [cbn in Hf; lia|]. cbn [length] in Hf.
  rewrite dump_members_cons. unfold Json.dump_member. cbn [repeat].
  unfold Json.quote. cbn [app]. rewrite <- !app_assoc. cbn [app].
  change (Json.skip_ws (32 :: 34 :: ?x)) with (34 :: x).
  cbn [Json.parse_members]. change (34 =? 34) with true. cbv iota.
  rewrite parse_chars_escape by exact Hk.
  change (Json.skip_ws (58 :: ?x)) with (58 :: x). cbv iota.
  change (58 =? 58) with true. cbv iota.
  change (Json.skip_ws (32 :: ?x)) with (Json.skip_ws x).
  rewrite skip_ws_value by exact Hv.
  destruct o as [|m o].
  - cbn [app]. rewrite parse_value_dump by (assumption || reflexivity || lia).
    reflexivity.
  - cbn [app]. rewrite parse_value_dump by (assumption || reflexivity || lia).
    change (Json.skip_ws (44 :: ?x)) with (44 :: x). cbv iota.
    change (44 =? 44) with true. cbv iota.
    change (Json.skip_ws (10 :: ?x)) with (Json.skip_ws x).
    rewrite IH; [reflexivity|discriminate|assumption|cbn [length] in *; lia].
Qed.

Lemma skip_ws_length t : (length (Json.skip_ws t) <= length t)%nat.
Proof.
  induction t as [|c t IH]; [cbn; lia|].
  cbn [Json.skip_ws]. destruct (Json.is_ws c); cbn [length]; lia.
Qed.

Lemma skip_ws_members_length o rest :
  o <> [] ->
  Nat.lt (length o) (length (Json.skip_ws (Json.dump_members 1 1 o ++ 125 :: rest)))
  /\ exists x, Json.skip_ws (Json.dump_members 1 1 o ++ 125 :: rest) = 34 :: x.
Proof.
  revert rest. induction o as [|[k v] o IH]; intros rest Hne; [contradiction|].
  rewrite dump_members_cons. unfold Json.dump_member. cbn [repeat].
  unfold Json.quote. cbn [app]. rewrite <- !app_assoc. cbn [app].
  change (Json.skip_ws (32 :: 34 :: ?x)) with (34 :: x).
  split; [|eexists; reflexivity].
  cbn [length]. rewrite !length_app. cbn [length]. rewrite !length_app.
  destruct o as [|m o]; [cbn; lia|].
  cbn [app length].
  destruct (IH rest ltac:(discriminate)) as [L _].
  pose proof (skip_ws_length (Json.dump_members 1 1 (m :: o) ++ 125 :: rest)) as K.
  rewrite length_app in *. cbn [length] in *. unfold lt in *. lia.
Qed.

Lemma parse_object_dump o tail :
  o <> [] -> Forall member_ok o ->
  Json.parse_object (Json.dump 1 o ++ tail) = Some (o, tail).
Proof.
  intros Hne Hok. unfold Json.parse_object.
  rewrite (dump_eq o Hne). cbn [app]. rewrite <- app_assoc. cbn [app].
  change (Json.skip_ws (123 :: ?x)) with (123 :: x). cbv iota.
  change (123 =? 123) with true. cbv iota.
  change (Json.skip_ws (10 :: ?x)) with (Json.skip_ws x).
  destruct (skip_ws_members_length o tail Hne) as [L [x E]].
  pose proof (parse_members_dump o (length (34 :: x)) tail Hne Hok) as P.
  rewrite E in *. change (34 =? 125) with false. cbv iota.
  apply P. exact L.
Qed.

Lemma parse_dump o tail :
  o <> [] -> Forall member_ok o -> padding tail ->
  Json.parse (Json.dump 1 o ++ tail) = Some o.
Proof.
  intros Hne Hok Hp. unfold Json.parse.
  rewrite parse_object_dump by assumption.
  unfold padding in Hp. destruct (Json.skip_ws tail) as [|c r]; [reflexivity|].
  rewrite Hp. reflexivity.
Qed.

Lemma u64_idem x : u64 (u64 x) = u64 x.
Proof. unfold u64. apply Z.mod_mod. lia. Qed.

Lemma header_fields_json st :
  0 <= m_recordSize st < 2 ^ 32 ->
  header_fields (header_json st) = Some (header_at st).
Proof.
  intros H. unfold header_fields, header_json.
  cbn. rewrite !Z2N.id by (apply u64_range || lia).
  unfold header_at. rewrite !u64_idem.
  unfold u32. rewrite Z.mod_small by exact H. reflexivity.
Qed.

Lemma ReadHeader_header st :
  match header_of (contents (m_time st)) with
  | Some h => ReadHeader st = Some (0, with_header h st)
  | None => exists st', ReadHeader st = Some (wrong_protocol_type, st')
  end.
Proof.
  unfold header_of, ReadHeader.
  rewrite (bind_eq get _ st st st eq_refl).
  destruct (parse_header (contents (m_time st))) as [j|];
    [|eexists; reflexivity].
  unfold header_fields.
  destruct (Json.get_string (Json.at_ (bytes "dataType"%string) j)); [|eexists; reflexivity].
  destruct (Json.get_string (Json.at_ (bytes "dataLayout"%string) j)); [|eexists; reflexivity].
  destruct (Json.get_unsigned (Json.at_ (bytes "recordSize"%string) j)); [|eexists; reflexivity].
  destruct (Json.get_bool (Json.at_ (bytes "fixedSize"%string) j)); [|eexists; reflexivity].
  destruct (Json.get_string (Json.at_ (bytes "gapData"%string) j)); [|eexists; reflexivity].
  destruct (Json.get_unsigned (Json.at_ (bytes "timeWritePos"%string) j)); [|eexists; reflexivity].
  destruct (Json.get_unsigned (Json.at_ (bytes "dataWritePos"%string) j)); [|eexists; reflexivity].
  reflexivity.
Qed.

(** ** A text that has been read stays read when more text follows *)

Lemma parse_chars_ext S :
  forall n t s rest,
    (length t <= n)%nat ->
    Json.parse_chars t = Some (s, rest) ->
    Json.parse_chars (t ++ S) = Some (s, rest ++ S).
Proof.
  induction n as [|n IH]; intros t s rest Hn H.
  - destruct t; [discriminate|cbn in Hn; lia].
  - destruct t as [|c r]; [discriminate|].
    cbn [app Json.parse_chars] in *. cbn [length] in Hn.
    destruct (c =? 34); [injection H as <- <-; reflexivity|].
    destruct (c =? 92).
    + destruct r as [|e r']; [discriminate|]. cbn [app length] in *.
      destruct (e =? 117).
      * destruct r' as [|h1 [|h2 [|h3 [|h4 r'']]]]; try discriminate.
        cbn [app length] in *.
        destruct (Json.hex4 h1 h2 h3 h4) as [v|]; [|discriminate].
        destruct (Json.is_high v).
        -- destruct r'' as [|b [|u [|l1 [|l2 [|l3 [|l4 r3]]]]]]; try discriminate.
           cbn [app length] in *.
           destruct ((b =? 92) && (u =? 117)); [|discriminate].
           destruct (Json.hex4 l1 l2 l3 l4) as [w|]; [|discriminate].
           destruct (Json.is_low w); [|discriminate].
           destruct (Json.utf8 (Json.pair_point v w)); [|discriminate].
           destruct (Json.parse_chars r3) as [[s' rest']|] eqn:E; [|discriminate].
           rewrite (IH r3 s' rest' ltac:(lia) E). injection H as <- <-. reflexivity.
        -- destruct (Json.utf8 v); [|discriminate].
           destruct (Json.parse_chars r'') as [[s' rest']|] eqn:E; [|discriminate].
           rewrite (IH r'' s' rest' ltac:(lia) E). injection H as <- <-. reflexivity.
      * destruct (if e =? 34 then Some 34 else _) as [x|]; [|discriminate].
        destruct (Json.parse_chars r') as [[s' rest']|] eqn:E; [|discriminate].
        rewrite (IH r' s' rest' ltac:(lia) E). injection H as <- <-. reflexivity.
    + destruct (c <? 32); [discriminate|].
      destruct (Json.parse_chars r) as [[s' rest']|] eqn:E; [|discriminate].
      rewrite (IH r s' rest' ltac:(lia) E). injection H as <- <-. reflexivity.
Qed.

Lemma skip_ws_ext t c r S :
  Json.skip_ws t = c :: r -> Json.skip_ws (t ++ S) = c :: r ++ S.
Proof.
  induction t as [|x t IH]; [discriminate|].
  cbn [Json.skip_ws app]. destruct (Json.is_ws x).
  - exact IH.
  - intros [= <- <-]. reflexivity.
Qed.

Lemma read_uint_ext t d c r S :
  Json.read_uint t = (d, c :: r) -> Json.read_uint (t ++ S) = (d, c :: r ++ S).
Proof.
  revert d. induction t as [|x t IH]; intros d; [discriminate|].
  cbn [Json.read_uint app]. destruct (Json.is_digit x).
  - destruct (Json.read_uint t) as [d' rest'] eqn:E.
    intros [= <- ->]. rewrite (IH d' eq_refl). reflexivity.
  - intros [= <- <- <-]. reflexivity.
Qed.

Lemma prefix_eqb_ext p t S :
  Json.prefix_eqb p t = true ->
  Json.prefix_eqb p (t ++ S) = true
  /\ skipn (length p) (t ++ S) = skipn (length p) t ++ S.
Proof.
  revert t. induction p as [|x p IH]; intros t H; [split; reflexivity|].
  destruct t as [|y t]; [discriminate|].
  cbn [Json.prefix_eqb app length skipn] in *.
  apply andb_prop in H as [H1 H2]. rewrite H1.
  destruct (IH t H2) as [A B]. rewrite A. split; [reflexivity|exact B].
Qed.

Lemma prefix_eqb_first x p c t :
  Json.prefix_eqb (x :: p) (c :: t) = true -> c = x.
Proof.
  cbn. intros H. apply andb_prop in H as [H _]. apply Z.eqb_eq in H. congruence.
Qed.

Lemma read_minus_ext t neg c r S :
  Json.read_minus t = (neg, c :: r) -> Json.read_minus (t ++ S) = (neg, c :: r ++ S).
Proof.
  destruct t as [|x t]; [discriminate|]. cbn [Json.read_minus app].
  destruct (x =? 45).
  - intros [= <- ->]. reflexivity.
  - intros [= <- <- <-]. reflexivity.
Qed.

Lemma read_sign_ext t neg c r S :
  Json.read_sign t = (neg, c :: r) -> Json.read_sign (t ++ S) = (neg, c :: r ++ S).
Proof.
  destruct t as [|x t]; [discriminate|]. cbn [Json.read_sign app].
  destruct (x =? 45); [intros [= <- ->]; reflexivity|].
  destruct (x =? 43); [intros [= <- ->]; reflexivity|].
  intros [= <- <- <-]. reflexivity.
Qed.

Lemma read_uint_nil : Json.read_uint [] = (Decimal.Nil, []).
Proof. reflexivity. Qed.

Lemma read_frac_ext t f c r S :
  Json.read_frac t = Some (f, c :: r) ->
  Json.read_frac (t ++ S) = Some (f, c :: r ++ S).
Proof.
  destruct t as [|x t]; [discriminate|]. cbn [Json.read_frac app].
  destruct (x =? 46).
  - destruct (Json.read_uint t) as [f' rest'] eqn:E.
    destruct (Json.is_nil f') eqn:Z; [discriminate|].
    intros [= <- ->]. rewrite (read_uint_ext _ _ _ _ S E), Z. reflexivity.
  - intros [= <- <- <-]. reflexivity.
Qed.

Lemma read_exp_ext t e c r S :
  Json.read_exp t = Some (e, c :: r) ->
  Json.read_exp (t ++ S) = Some (e, c :: r ++ S).
Proof.
  destruct t as [|x t]; [discriminate|]. cbn [Json.read_exp app].
  destruct ((x =? 101) || (x =? 69)).
  - destruct (Json.read_sign t) as [neg r'] eqn:Es.
    destruct (Json.read_uint r') as [e' rest'] eqn:E.
    destruct (Json.is_nil e') eqn:Z; [discriminate|].
    intros [= <- ->].
    destruct r' as [|y r']; [rewrite read_uint_nil in E; discriminate E|].
    rewrite (read_sign_ext _ _ _ _ S Es).
    change (y :: r' ++ S) with ((y :: r') ++ S).
    rewrite (read_uint_ext _ _ _ _ S E), Z. reflexivity.
  - intros [= <- <- <-]. reflexivity.
Qed.

Lemma parse_number_head c r x :
  Json.parse_number (c :: r) = Some x -> c = 45 \/ 48 <= c <= 57.
Proof.
  unfold Json.parse_number. cbn [Json.read_minus].
  destruct (Z.eqb_spec c 45) as [->|N]; [left; reflexivity|].
  cbn [Json.read_uint]. destruct (Json.is_digit c) eqn:D.
  - intros _. right. unfold Json.is_digit in D.
    apply andb_prop in D as [A B]. apply Z.leb_le in A, B. lia.
  - discriminate.
Qed.

Lemma parse_number_ext t v rest S :
  Json.parse_number t = Some (v, rest) -> rest <> [] ->
  Json.parse_number (t ++ S) = Some (v, rest ++ S).
Proof.
  unfold Json.parse_number. intros H Hr.
  destruct (Json.read_minus t) as [neg t0] eqn:Em.
  destruct (Json.read_uint t0) as [i t1] eqn:Ei.
  destruct (Json.is_nil i || Json.leading_zero i) eqn:Z; [discriminate|].
  destruct (Json.read_frac t1) as [[f t2]|] eqn:Ef; [|discriminate].
  destruct (Json.read_exp t2) as [[e rest']|] eqn:Ee; [|discriminate].
  injection H as <- <-.
  destruct rest' as [|x rest']; [contradiction|].
  destruct t2 as [|x2 t2]; [discriminate|].
  destruct t1 as [|x1 t1]; [discriminate|].
  destruct t0 as [|x0 t0]; [discriminate|].
  rewrite (read_minus_ext _ _ _ _ S Em).
  change (x0 :: t0 ++ S) with ((x0 :: t0) ++ S).
  rewrite (read_uint_ext _ _ _ _ S Ei), Z.
  change (x1 :: t1 ++ S) with ((x1 :: t1) ++ S).
  rewrite (read_frac_ext _ _ _ _ S Ef).
  change (x2 :: t2 ++ S) with ((x2 :: t2) ++ S).
  rewrite (read_exp_ext _ _ _ _ S Ee). reflexivity.
Qed.

Lemma parse_elements_nil fuel : Json.parse_elements fuel [] = None.
Proof. destruct fuel as [|[|fuel]]; reflexivity. Qed.

Lemma parse_members_nil fuel : Json.parse_members fuel [] = None.
Proof. destruct fuel; reflexivity. Qed.

Lemma parse_value_nil fuel : Json.parse_value fuel [] = None.
Proof. destruct fuel; reflexivity. Qed.

Lemma parse_ext S :
  forall fuel,
    (forall t v rest,
        Json.parse_value fuel t = Some (v, rest) -> rest <> [] ->
        Json.parse_value fuel (t ++ S) = Some (v, rest ++ S))
    /\ (forall t vs rest,
        Json.parse_elements fuel t = Some (vs, rest) ->
        Json.parse_elements fuel (t ++ S) = Some (vs, rest ++ S))
    /\ (forall t o rest,
        Json.parse_members fuel t = Some (o, rest) ->
        Json.parse_members fuel (t ++ S) = Some (o, rest ++ S)).
Proof.
  induction fuel as [|fuel (IHv & IHe & IHm)];
    [repeat split; intros; discriminate|].
  split; [|split].
  - intros t v rest H Hr. destruct t as [|c r]; [discriminate|].
    cbn [Json.parse_value app] in *.
    destruct (c =? 34).
    { destruct (Json.parse_chars r) as [[s rest']|] eqn:E; [|discriminate].
      injection H as <- <-.
      rewrite (parse_chars_ext S (length r) r s rest' (Nat.le_refl _) E).
      reflexivity. }
    destruct (Json.prefix_eqb [116; 114; 117; 101] (c :: r)) eqn:Et.
    { injection H as <- <-.
      destruct (prefix_eqb_ext _ _ S Et) as [A B].
      change ((c :: r) ++ S) with (c :: r ++ S) in A, B. rewrite A.
      cbn [length] in B. rewrite B. reflexivity. }
    destruct (Json.prefix_eqb [102; 97; 108; 115; 101] (c :: r)) eqn:Ef.
    { injection H as <- <-.
      destruct (prefix_eqb_ext _ _ S Ef) as [A B].
      change ((c :: r) ++ S) with (c :: r ++ S) in A, B.
      apply prefix_eqb_first in Ef. subst c.
      rewrite (prefix_eqb_head 116) by lia.
      rewrite A. cbn [length] in B. rewrite B. reflexivity. }
    destruct (Json.prefix_eqb [110; 117; 108; 108] (c :: r)) eqn:En.
    { injection H as <- <-.
      destruct (prefix_eqb_ext _ _ S En) as [A B].
      change ((c :: r) ++ S) with (c :: r ++ S) in A, B.
      apply prefix_eqb_first in En. subst c.
      rewrite (prefix_eqb_head 116), (prefix_eqb_head 102) by lia.
      rewrite A. cbn [length] in B. rewrite B. reflexivity. }
    destruct (Z.eqb_spec c 91) as [->|N91].
    { rewrite (prefix_eqb_head 116), (prefix_eqb_head 102), (prefix_eqb_head 110)
        by lia.
      destruct (Json.skip_ws r) as [|c' r'] eqn:E1; [discriminate|].
      rewrite (skip_ws_ext _ _ _ S E1).
      destruct (c' =? 93); [injection H as <- <-; reflexivity|].
      destruct (Json.parse_elements fuel (c' :: r')) as [[vs rest']|] eqn:E2;
        [|discriminate].
      injection H as <- <-.
      change (c' :: r' ++ S) with ((c' :: r') ++ S).
      rewrite (IHe _ _ _ E2). reflexivity. }
    destruct (Z.eqb_spec c 123) as [->|N123].
    { rewrite (prefix_eqb_head 116), (prefix_eqb_head 102), (prefix_eqb_head 110)
        by lia.
      destruct (Json.skip_ws r) as [|c' r'] eqn:E1; [discriminate|].
      rewrite (skip_ws_ext _ _ _ S E1).
      destruct (c' =? 125); [injection H as <- <-; reflexivity|].
      destruct (Json.parse_members fuel (c' :: r')) as [[o rest']|] eqn:E2;
        [|discriminate].
      injection H as <- <-.
      change (c' :: r' ++ S) with ((c' :: r') ++ S).
      rewrite (IHm _ _ _ E2). reflexivity. }
    pose proof (parse_number_head _ _ _ H) as Hc.
    rewrite (prefix_eqb_head 116), (prefix_eqb_head 102), (prefix_eqb_head 110)
      by lia.
    change (c :: r ++ S) with ((c :: r) ++ S).
    apply parse_number_ext; assumption.
  - intros t vs rest H. cbn [Json.parse_elements] in *.
    destruct (Json.parse_value fuel t) as [[v r1]|] eqn:E1; [|discriminate].
    destruct (Json.skip_ws r1) as [|c r2] eqn:E2; [discriminate|].
    assert (N1 : r1 <> []) by (intros ->; discriminate).
    rewrite (IHv _ _ _ E1 N1), (skip_ws_ext _ _ _ S E2).
    destruct (c =? 44).
    + destruct (Json.parse_elements fuel (Json.skip_ws r2)) as [[vs' rest']|] eqn:E3;
        [|discriminate].
      injection H as <- <-.
      destruct (Json.skip_ws r2) as [|x r2'] eqn:E4.
      { rewrite parse_elements_nil in E3. discriminate E3. }
      rewrite (skip_ws_ext _ _ _ S E4).
      change (x :: r2' ++ S) with ((x :: r2') ++ S).
      rewrite (IHe _ _ _ E3). reflexivity.
    + destruct (c =? 93); [|discriminate].
      injection H as <- <-. reflexivity.
  - intros t o rest H. destruct t as [|q r]; [discriminate|].
    cbn [Json.parse_members app] in *.
    destruct (q =? 34); [|discriminate].
    destruct (Json.parse_chars r) as [[k r1]|] eqn:E1; [|discriminate].
    rewrite (parse_chars_ext S (length r) r k r1 (Nat.le_refl _) E1).
    destruct (Json.skip_ws r1) as [|c1 r2] eqn:E2; [discriminate|].
    rewrite (skip_ws_ext _ _ _ S E2).
    destruct (c1 =? 58); [|discriminate].
    destruct (Json.parse_value fuel (Json.skip_ws r2)) as [[v r3]|] eqn:E3;
      [|discriminate].
    destruct (Json.skip_ws r3) as [|c2 r4] eqn:E4; [discriminate|].
    assert (N3 : r3 <> []) by (intros ->; discriminate).
    destruct (Json.skip_ws r2) as [|x2 r2'] eqn:E5.
    { rewrite parse_value_nil in E3. discriminate E3. }
    rewrite (skip_ws_ext _ _ _ S E5).
    change (x2 :: r2' ++ S) with ((x2 :: r2') ++ S).
    rewrite (IHv _ _ _ E3 N3).
    rewrite (skip_ws_ext _ _ _ S E4).
    destruct (c2 =? 44).
    + destruct (Json.parse_members fuel (Json.skip_ws r4)) as [[o' rest']|] eqn:E6;
        [|discriminate].
      injection H as <- <-.
      destruct (Json.skip_ws r4) as [|x4 r4'] eqn:E7.
      { rewrite parse_members_nil in E6. discriminate E6. }
      rewrite (skip_ws_ext _ _ _ S E7).
      change (x4 :: r4' ++ S) with ((x4 :: r4') ++ S).
      rewrite (IHm _ _ _ E6). reflexivity.
    + destruct (c2 =? 125); [|discriminate].
      injection H as <- <-. reflexivity.
Qed.

(** More fuel reads the same. *)
Lemma parse_fuel :
  forall fuel,
    (forall fuel' t x,
        Json.parse_value fuel t = Some x -> (fuel <= fuel')%nat ->
        Json.parse_value fuel' t = Some x)
    /\ (forall fuel' t x,
        Json.parse_elements fuel t = Some x -> (fuel <= fuel')%nat ->
        Json.parse_elements fuel' t = Some x)
    /\ (forall fuel' t x,
        Json.parse_members fuel t = Some x -> (fuel <= fuel')%nat ->
        Json.parse_members fuel' t = Some x).
Proof.
  induction fuel as [|fuel (IHv & IHe & IHm)];
    [repeat split; intros; discriminate|].
  split; [|split]; intros fuel' t x H Hf;
    (destruct fuel' as [|fuel']; [lia|]).
  - destruct t as [|c r]; [discriminate|].
    cbn [Json.parse_value] in *.
    destruct (c =? 34); [exact H|].
    destruct (Json.prefix_eqb [116; 114; 117; 101] (c :: r)); [exact H|].
    destruct (Json.prefix_eqb [102; 97; 108; 115; 101] (c :: r)); [exact H|].
    destruct (Json.prefix_eqb [110; 117; 108; 108] (c :: r)); [exact H|].
    destruct (c =? 91).
    { destruct (Json.skip_ws r) as [|c' r']; [discriminate|].
      destruct (c' =? 93); [exact H|].
      destruct (Json.parse_elements fuel (c' :: r')) as [y|] eqn:E; [|discriminate].
      rewrite (IHe fuel' _ _ E ltac:(lia)). exact H. }
    destruct (c =? 123); [|exact H].
    destruct (Json.skip_ws r) as [|c' r']; [discriminate|].
    destruct (c' =? 125); [exact H|].
    destruct (Json.parse_members fuel (c' :: r')) as [y|] eqn:E; [|discriminate].
    rewrite (IHm fuel' _ _ E ltac:(lia)). exact H.
  - cbn [Json.parse_elements] in *.
    destruct (Json.parse_value fuel t) as [[v r1]|] eqn:E1; [|discriminate].
    rewrite (IHv fuel' _ _ E1 ltac:(lia)).
    destruct (Json.skip_ws r1) as [|c r2]; [discriminate|].
    destruct (c =? 44); [|exact H].
    destruct (Json.parse_elements fuel (Json.skip_ws r2)) as [y|] eqn:E; [|discriminate].
    rewrite (IHe fuel' _ _ E ltac:(lia)). exact H.
  - destruct t as [|q r]; [discriminate|].
    cbn [Json.parse_members] in *.
    destruct (q =? 34); [|discriminate].
    destruct (Json.parse_chars r) as [[k r1]|]; [|discriminate].
    destruct (Json.skip_ws r1) as [|c1 r2]; [discriminate|].
    destruct (c1 =? 58); [|discriminate].
    destruct (Json.parse_value fuel (Json.skip_ws r2)) as [[v r3]|] eqn:E3;
      [|discriminate].
    rewrite (IHv fuel' _ _ E3 ltac:(lia)).
    destruct (Json.skip_ws r3) as [|c2 r4]; [discriminate|].
    destruct (c2 =? 44); [|exact H].
    destruct (Json.parse_members fuel (Json.skip_ws r4)) as [y|] eqn:E; [|discriminate].
    rewrite (IHm fuel' _ _ E ltac:(lia)). exact H.
Qed.

Lemma parse_object_ext t o rest S :
  Json.parse_object t = Some (o, rest) ->
  Json.parse_object (t ++ S) = Some (o, rest ++ S).
Proof.
  unfold Json.parse_object. intros H.
  destruct (Json.skip_ws t) as [|c r] eqn:E1; [discriminate|].
  rewrite (skip_ws_ext _ _ _ S E1).
  destruct (c =? 123); [|discriminate].
  destruct (Json.skip_ws r) as [|c' r'] eqn:E2; [discriminate|].
  rewrite (skip_ws_ext _ _ _ S E2).
  destruct (c' =? 125); [injection H as <- <-; reflexivity|].
  change (c' :: r' ++ S) with ((c' :: r') ++ S).
  apply (proj2 (proj2 (parse_fuel (length (c' :: r'))))).
  - apply (proj2 (proj2 (parse_ext S _))). exact H.
  - rewrite length_app. lia.
Qed.

(** A text cut short of the object it was to hold cannot be read. *)
Lemma parse_cut o P S :
  o <> [] -> Forall member_ok o ->
  Json.dump 1 o = P ++ S -> S <> [] ->
  Json.parse P = None.
Proof.
  intros Hne Hok E HS. unfold Json.parse.
  destruct (Json.parse_object P) as [[o' rest]|] eqn:H; [|reflexivity].
  exfalso. apply (parse_object_ext _ _ _ S) in H.
  rewrite <- E in H.
  pose proof (parse_object_dump o [] Hne Hok) as R. rewrite app_nil_r in R.
  rewrite R in H. injection H as _ H.
  destruct rest; destruct S; try discriminate. contradiction.
Qed.

(** ** The fuel of the reader *)

Lemma parse_chars_length :
  forall n t s rest,
    (length t <= n)%nat ->
    Json.parse_chars t = Some (s, rest) -> (length rest < length t)%nat.
Proof.
  induction n as [|n IH]; intros t s rest Hn H.
  - destruct t; [discriminate|cbn in Hn; lia].
  - destruct t as [|c r]; [discriminate|].
    cbn [Json.parse_chars] in H. cbn [length] in *.
    destruct (c =? 34); [injection H as _ <-; lia|].
    destruct (c =? 92).
    + destruct r as [|e r']; [discriminate|]. cbn [length] in *.
      destruct (e =? 117).
      * destruct r' as [|h1 [|h2 [|h3 [|h4 r'']]]]; try discriminate.
        cbn [length] in *.
        destruct (Json.hex4 h1 h2 h3 h4) as [v|]; [|discriminate].
        destruct (Json.is_high v).
        -- destruct r'' as [|b [|u [|l1 [|l2 [|l3 [|l4 r3]]]]]]; try discriminate.
           cbn [length] in *.
           destruct ((b =? 92) && (u =? 117)); [|discriminate].
           destruct (Json.hex4 l1 l2 l3 l4) as [w|]; [|discriminate].
           destruct (Json.is_low w); [|discriminate].
           destruct (Json.utf8 (Json.pair_point v w)); [|discriminate].
           destruct (Json.parse_chars r3) as [[s' rest']|] eqn:E; [|discriminate].
           injection H as _ <-. pose proof (IH r3 s' rest' ltac:(lia) E). lia.
        -- destruct (Json.utf8 v); [|discriminate].
           destruct (Json.parse_chars r'') as [[s' rest']|] eqn:E; [|discriminate].
           injection H as _ <-. pose proof (IH r'' s' rest' ltac:(lia) E). lia.
      * destruct (if e =? 34 then Some 34 else _) as [x|]; [|discriminate].
        destruct (Json.parse_chars r') as [[s' rest']|] eqn:E; [|discriminate].
        injection H as _ <-. pose proof (IH r' s' rest' ltac:(lia) E). lia.
    + destruct (c <? 32); [discriminate|].
      destruct (Json.parse_chars r) as [[s' rest']|] eqn:E; [|discriminate].
      injection H as _ <-. pose proof (IH r s' rest' ltac:(lia) E). lia.
Qed.

Lemma read_uint_length t d rest :
  Json.read_uint t = (d, rest) ->
  (length rest <= length t)%nat
  /\ (Json.is_nil d = false -> (length rest < length t)%nat).
Proof.
  revert d rest. induction t as [|c t IH]; intros d rest.
  - intros [= <- <-]. split; [lia|discriminate].
  - cbn [Json.read_uint]. destruct (Json.is_digit c).
    + destruct (Json.read_uint t) as [d' rest'] eqn:E.
      intros [= <- <-]. destruct (IH d' rest' eq_refl) as [L _].
      cbn [length]. split; [lia|intros _; lia].
    + intros [= <- <-]. split; [lia|discriminate].
Qed.

Lemma parse_number_length t v rest :
  Json.parse_number t = Some (v, rest) -> (length rest < length t)%nat.
Proof.
  unfold Json.parse_number. intros H.
  destruct (Json.read_minus t) as [neg t0] eqn:Em.
  destruct (Json.read_uint t0) as [i t1] eqn:Ei.
  destruct (Json.is_nil i) eqn:Z; [discriminate|]. cbn [orb] in H.
  destruct (Json.leading_zero i); [discriminate|].
  destruct (Json.read_frac t1) as [[f t2]|] eqn:Ef; [|discriminate].
  destruct (Json.read_exp t2) as [[e rest']|] eqn:Ee; [|discriminate].
  injection H as _ <-.
  assert (L0 : (length t0 <= length t)%nat).
  { destruct t as [|c r]; [injection Em as _ <-; lia|].
    cbn [Json.read_minus] in Em. destruct (c =? 45); injection Em as _ <-;
      cbn [length]; lia. }
  destruct (read_uint_length _ _ _ Ei) as [_ L1]. specialize (L1 Z).
  assert (L2 : (length t2 <= length t1)%nat).
  { destruct t1 as [|c r]; [injection Ef as _ <-; lia|].
    cbn [Json.read_frac] in Ef. destruct (c =? 46).
    - destruct (Json.read_uint r) as [f' r'] eqn:E.
      destruct (Json.is_nil f'); [discriminate|]. injection Ef as _ <-.
      destruct (read_uint_length _ _ _ E) as [L _]. cbn [length]. lia.
    - injection Ef as _ <-. lia. }
  assert (L3 : (length rest' <= length t2)%nat).
  { destruct t2 as [|c r]; [injection Ee as _ <-; lia|].
    cbn [Json.read_exp] in Ee. destruct ((c =? 101) || (c =? 69)).
    - destruct (Json.read_sign r) as [sg r'] eqn:Es.
      destruct (Json.read_uint r') as [e' r''] eqn:E.
      destruct (Json.is_nil e'); [discriminate|]. injection Ee as _ <-.
      destruct (read_uint_length _ _ _ E) as [L _].
      assert ((length r' <= length r)%nat).
      { destruct r as [|x r0]; [injection Es as _ <-; lia|].
        cbn [Json.read_sign] in Es.
        destruct (x =? 45); [injection Es as _ <-; cbn [length]; lia|].
        destruct (x =? 43); injection Es as _ <-; cbn [length]; lia. }
      cbn [length]. lia.
    - injection Ee as _ <-. lia. }
  lia.
Qed.

Lemma prefix_eqb_length p t :
  Json.prefix_eqb p t = true -> (length p <= length t)%nat.
Proof.
  revert t. induction p as [|x p IH]; intros t H; [cbn; lia|].
  destruct t as [|y t]; [discriminate|]. cbn [Json.prefix_eqb] in H.
  apply andb_prop in H as [_ H]. specialize (IH t H). cbn [length]. lia.
Qed.

(** A text that is read with some fuel is read with the fuel of its length:
    the reader goes no deeper than the text is long. *)
Lemma parse_enough :
  forall fuel,
    (forall t v rest,
        Json.parse_value fuel t = Some (v, rest) ->
        (length rest < length t)%nat
        /\ Json.parse_value (length t - length rest) t = Some (v, rest))
    /\ (forall t vs rest,
        Json.parse_elements fuel t = Some (vs, rest) ->
        (length rest < length t)%nat
        /\ Json.parse_elements (length t - length rest) t = Some (vs, rest))
    /\ (forall t o rest,
        Json.parse_members fuel t = Some (o, rest) ->
        (length rest < length t)%nat
        /\ Json.parse_members (length t - length rest) t = Some (o, rest)).
Proof.
  induction fuel as [|fuel (IHv & IHe & IHm)];
    [repeat split; intros; discriminate|].
  assert (Up : forall (A : Type) (P : nat -> option A) k n x,
             (forall a b y, P a = Some y -> (a <= b)%nat -> P b = Some y) ->
             P k = Some x -> (k <= n)%nat -> P n = Some x)
    by (intros A P k n x M E L; exact (M k n x E L)).
  split; [|split].
  - intros t v rest H. destruct t as [|c r]; [discriminate|].
    assert (Leaf : (length rest < length (c :: r))%nat ->
                   Json.parse_value 1 (c :: r) = Some (v, rest) ->
                   (length rest < length (c :: r))%nat
                   /\ Json.parse_value (length (c :: r) - length rest) (c :: r)
                      = Some (v, rest)).
    { intros L E. split; [exact L|].
      apply (proj1 (parse_fuel 1) _ _ _ E). lia. }
    cbn [Json.parse_value] in H.
    destruct (c =? 34) eqn:E34.
    { destruct (Json.parse_chars r) as [[s rest']|] eqn:E; [|discriminate].
      injection H as <- <-.
      pose proof (parse_chars_length _ _ _ _ (Nat.le_refl _) E).
      apply Leaf; [cbn [length]; lia|].
      cbn [Json.parse_value]. rewrite E34, E. reflexivity. }
    destruct (Json.prefix_eqb [116; 114; 117; 101] (c :: r)) eqn:Et.
    { injection H as <- <-. pose proof (prefix_eqb_length _ _ Et) as L.
      pose proof (length_skipn 3 r) as Lk. cbn [skipn] in Lk.
      apply Leaf; [cbn [length] in *; lia|].
      cbn [Json.parse_value]. rewrite E34, Et. reflexivity. }
    destruct (Json.prefix_eqb [102; 97; 108; 115; 101] (c :: r)) eqn:Ef.
    { injection H as <- <-. pose proof (prefix_eqb_length _ _ Ef) as L.
      pose proof (length_skipn 4 r) as Lk. cbn [skipn] in Lk.
      apply Leaf; [cbn [length] in *; lia|].
      cbn [Json.parse_value]. rewrite E34, Et, Ef. reflexivity. }
    destruct (Json.prefix_eqb [110; 117; 108; 108] (c :: r)) eqn:En.
    { injection H as <- <-. pose proof (prefix_eqb_length _ _ En) as L.
      pose proof (length_skipn 3 r) as Lk. cbn [skipn] in Lk.
      apply Leaf; [cbn [length] in *; lia|].
      cbn [Json.parse_value]. rewrite E34, Et, Ef, En. reflexivity. }
    destruct (c =? 91) eqn:E91.
    { destruct (Json.skip_ws r) as [|c' r'] eqn:E1; [discriminate|].
      pose proof (skip_ws_length r) as Ls. rewrite E1 in Ls. cbn [length] in Ls.
      destruct (c' =? 93) eqn:E93.
      { injection H as <- <-. apply Leaf; [cbn [length]; lia|].
        cbn [Json.parse_value]. rewrite E34, Et, Ef, En, E91, E1, E93. reflexivity. }
      destruct (Json.parse_elements fuel (c' :: r')) as [[vs rest']|] eqn:E2;
        [|discriminate].
      injection H as <- <-. destruct (IHe _ _ _ E2) as [L P].
      cbn [length] in *. split; [lia|].
      destruct (S (length r) - length rest')%nat as [|k] eqn:K; [lia|].
      cbn [Json.parse_value]. rewrite E34, Et, Ef, En, E91, E1, E93.
      rewrite (proj1 (proj2 (parse_fuel _)) k _ _ P ltac:(lia)). reflexivity. }
    destruct (c =? 123) eqn:E123.
    { destruct (Json.skip_ws r) as [|c' r'] eqn:E1; [discriminate|].
      pose proof (skip_ws_length r) as Ls. rewrite E1 in Ls. cbn [length] in Ls.
      destruct (c' =? 125) eqn:E125.
      { injection H as <- <-. apply Leaf; [cbn [length]; lia|].
        cbn [Json.parse_value].
        rewrite E34, Et, Ef, En, E91, E123, E1, E125. reflexivity. }
      destruct (Json.parse_members fuel (c' :: r')) as [[o rest']|] eqn:E2;
        [|discriminate].
      injection H as <- <-. destruct (IHm _ _ _ E2) as [L P].
      cbn [length] in *. split; [lia|].
      destruct (S (length r) - length rest')%nat as [|k] eqn:K; [lia|].
      cbn [Json.parse_value]. rewrite E34, Et, Ef, En, E91, E123, E1, E125.
      rewrite (proj2 (proj2 (parse_fuel _)) k _ _ P ltac:(lia)). reflexivity. }
    pose proof (parse_number_length _ _ _ H) as L.
    apply Leaf; [exact L|].
    cbn [Json.parse_value]. rewrite E34, Et, Ef, En, E91, E123. exact H.
  - intros t vs rest H. cbn [Json.parse_elements] in H.
    destruct (Json.parse_value fuel t) as [[v r1]|] eqn:E1; [|discriminate].
    destruct (IHv _ _ _ E1) as [L1 P1].
    destruct (Json.skip_ws r1) as [|c r2] eqn:E2; [discriminate|].
    pose proof (skip_ws_length r1) as Ls. rewrite E2 in Ls. cbn [length] in Ls.
    destruct (c =? 44) eqn:E44.
    + destruct (Json.parse_elements fuel (Json.skip_ws r2)) as [[vs' rest']|] eqn:E3;
        [|discriminate].
      injection H as <- <-. destruct (IHe _ _ _ E3) as [L3 P3].
      pose proof (skip_ws_length r2) as Ls2.
      split; [lia|].
      destruct (length t - length rest')%nat as [|k] eqn:K; [lia|].
      cbn [Json.parse_elements].
      rewrite (proj1 (parse_fuel _) k _ _ P1 ltac:(lia)), E2, E44.
      rewrite (proj1 (proj2 (parse_fuel _)) k _ _ P3 ltac:(lia)). reflexivity.
    + destruct (c =? 93) eqn:E93; [|discriminate].
      injection H as <- <-. split; [lia|].
      destruct (length t - length r2)%nat as [|k] eqn:K; [lia|].
      cbn [Json.parse_elements].
      rewrite (proj1 (parse_fuel _) k _ _ P1 ltac:(lia)), E2, E44, E93. reflexivity.
  - intros t o rest H. destruct t as [|q r]; [discriminate|].
    cbn [Json.parse_members] in H.
    destruct (q =? 34) eqn:E34; [|discriminate].
    destruct (Json.parse_chars r) as [[k r1]|] eqn:E1; [|discriminate].
    pose proof (parse_chars_length _ _ _ _ (Nat.le_refl _) E1) as L1.
    destruct (Json.skip_ws r1) as [|c1 r2] eqn:E2; [discriminate|].
    pose proof (skip_ws_length r1) as Ls1. rewrite E2 in Ls1. cbn [length] in Ls1.
    destruct (c1 =? 58) eqn:E58; [|discriminate].
    destruct (Json.parse_value fuel (Json.skip_ws r2)) as [[v r3]|] eqn:E3;
      [|discriminate].
    destruct (IHv _ _ _ E3) as [L3 P3].
    pose proof (skip_ws_length r2) as Ls2.
    destruct (Json.skip_ws r3) as [|c2 r4] eqn:E4; [discriminate|].
    pose proof (skip_ws_length r3) as Ls3. rewrite E4 in Ls3. cbn [length] in Ls3.
    destruct (c2 =? 44) eqn:E44.
    + destruct (Json.parse_members fuel (Json.skip_ws r4)) as [[o' rest']|] eqn:E6;
        [|discriminate].
      injection H as <- <-. destruct (IHm _ _ _ E6) as [L6 P6].
      pose proof (skip_ws_length r4) as Ls4.
      cbn [length]. split; [lia|].
      destruct (S (length r) - length rest')%nat as [|n] eqn:K; [lia|].
      cbn [Json.parse_members]. rewrite E34, E1, E2, E58.
      rewrite (proj1 (parse_fuel _) n _ _ P3 ltac:(lia)), E4, E44.
      rewrite (proj2 (proj2 (parse_fuel _)) n _ _ P6 ltac:(lia)). reflexivity.
    + destruct (c2 =? 125) eqn:E125; [|discriminate].
      injection H as <- <-. cbn [length]. split; [lia|].
      destruct (S (length r) - length r4)%nat as [|n] eqn:K; [lia|].
      cbn [Json.parse_members]. rewrite E34, E1, E2, E58.
      rewrite (proj1 (parse_fuel _) n _ _ P3 ltac:(lia)), E4, E44, E125. reflexivity.
Qed.

(** The members of an object that some fuel reads are read with the fuel
    [parse_object] gives, the length of the text. *)
Lemma parse_members_enough fuel t o rest :
  Json.parse_members fuel t = Some (o, rest) ->
  Json.parse_members (length t) t = Some (o, rest).
Proof.
  intros H. destruct (proj2 (proj2 (parse_enough fuel)) _ _ _ H) as [L P].
  apply (proj2 (proj2 (parse_fuel _)) _ _ _ P). lia.
Qed.

(** ** The header region *)

Lemma resize_fit n c :
  len c <= n -> resize n c = c ++ repeat 0 (Z.to_nat n - length c).
Proof.
  intros H. unfold resize. rewrite firstn_all2 by (unfold len in H; lia). reflexivity.
Qed.

Lemma resize_cut n c :
  0 <= n <= len c -> resize n c = firstn (Z.to_nat n) c.
Proof.
  intros H. unfold resize.
  replace (Z.to_nat n - length c)%nat with 0%nat by (unfold len in H; lia).
  apply app_nil_r.
Qed.

Lemma padding_zeros k : padding (repeat 0 k).
Proof. destruct k; cbn; [exact I|reflexivity]. Qed.

Lemma header_bytes_fit st :
  len (Json.dump 1 (header_json st)) <= kHeaderSize ->
  exists tail,
    header_bytes st = Json.dump 1 (header_json st) ++ tail /\ padding tail.
Proof.
  intros H. unfold header_bytes, kHeaderSize in *.
  destruct (Z.eq_dec (len (Json.dump 1 (header_json st))) 4096) as [E|N].
  - exists []. split; [|exact I].
    rewrite resize_cut by (rewrite len_app; change (len [10]) with 1; lia).
    rewrite firstn_app.
    replace (Z.to_nat 4096 - length (Json.dump 1 (header_json st)))%nat with 0%nat
      by (unfold len in E; lia).
    rewrite firstn_all2 by (unfold len in E; lia). reflexivity.
  - exists (10 :: repeat 0 (Z.to_nat 4096 - length (Json.dump 1 (header_json st) ++ [10]))).
    split.
    + rewrite resize_fit by (rewrite len_app; change (len [10]) with 1; lia).
      rewrite <- app_assoc. reflexivity.
    + unfold padding. change (Json.skip_ws (10 :: ?x)) with (Json.skip_ws x).
      apply padding_zeros.
Qed.

Lemma header_json_ok st :
  is_string (m_dataType st) -> is_string (m_dataLayout st) ->
  is_string (m_gapData st) ->
  header_json st <> [] /\ Forall member_ok (header_json st).
Proof.
  intros H1 H2 H3. split; [discriminate|].
  unfold header_json.
  repeat (apply Forall_cons; [split; [repeat constructor; lia|cbn; auto]|]).
  constructor.
Qed.

Lemma header_of_bytes st c :
  is_string (m_dataType st) -> is_string (m_dataLayout st) ->
  is_string (m_gapData st) ->
  0 <= m_recordSize st < 2 ^ 32 ->
  len (Json.dump 1 (header_json st)) <= kHeaderSize ->
  firstn (Z.to_nat kHeaderSize) c = header_bytes st ->
  header_of c = Some (header_at st).
Proof.
  intros H1 H2 H3 Hr Hl Hc. unfold header_of, parse_header. rewrite Hc.
  destruct (header_bytes_fit st Hl) as (tail & -> & Hp).
  destruct (header_json_ok st H1 H2 H3) as [Hne Hok].
  rewrite (parse_dump _ _ Hne Hok Hp). apply header_fields_json. exact Hr.
Qed.

Lemma header_of_cut st c :
  is_string (m_dataType st) -> is_string (m_dataLayout st) ->
  is_string (m_gapData st) ->
  kHeaderSize < len (Json.dump 1 (header_json st)) ->
  firstn (Z.to_nat kHeaderSize) c = header_bytes st ->
  parse_header c = None.
Proof.
  intros H1 H2 H3 Hl Hc. unfold parse_header. rewrite Hc.
  destruct (header_json_ok st H1 H2 H3) as [Hne Hok].
  unfold header_bytes.
  rewrite resize_cut
    by (rewrite len_app; change (len [10]) with 1; unfold kHeaderSize in *; lia).
  rewrite firstn_app.
  replace (Z.to_nat kHeaderSize - length (Json.dump 1 (header_json st)))%nat
    with 0%nat by (unfold len, kHeaderSize in *; lia).
  cbn [firstn]. rewrite app_nil_r.
  apply (parse_cut (header_json st) _
           (skipn (Z.to_nat kHeaderSize) (Json.dump 1 (header_json st))) Hne Hok).
  - symmetry. apply firstn_skipn.
  - intros E. apply (f_equal (@length Z)) in E. rewrite length_skipn in E.
    cbn [length] in E. unfold len, kHeaderSize in *. lia.
Qed.

(** * Opening a log that exists *)

Lemma bytes_eqb_spec a b : reflect (a = b) (bytes_eqb a b).
Proof.
  revert b. induction a as [|x a IH]; intros [|y b]; cbn;
    try (constructor; congruence).
  destruct (Z.eqb_spec x y) as [->|N]; cbn.
  - destruct (IH b) as [->|N]; constructor; congruence.
  - constructor. congruence.
Qed.

Lemma Check_cases h st dataType dataLayout recordSize config :
  let e := Check (with_header h st) dataType dataLayout recordSize
             (cfg_checkType config) (cfg_checkLayout config) (cfg_checkSize config) in
  (checks_pass h dataType dataLayout recordSize config /\ e = 0)
  \/ (~ checks_pass h dataType dataLayout recordSize config /\ e = wrong_protocol_type).
Proof.
  unfold Check, checks_pass, size_matches.
  cbn [with_header m_dataType m_dataLayout m_recordSize m_fixedSize].
  destruct (bytes_eqb_spec (h_dataType h) dataType) as [T|T];
  destruct (bytes_eqb_spec (h_dataLayout h) dataLayout) as [L|L];
  destruct (Z.eqb_spec recordSize 0) as [Z0|Z0];
  destruct (h_fixedSize h);
  destruct (Z.eqb_spec (h_recordSize h) recordSize) as [R|R];
  destruct (Z.eqb_spec (h_recordSize h) kLargePointerRecordSize) as [R1|R1];
  destruct (Z.eqb_spec (h_recordSize h) kSmallPointerRecordSize) as [R2|R2];
  destruct (cfg_checkType config), (cfg_checkLayout config), (cfg_checkSize config);
  cbn [negb andb orb];
  first
    [ left; split; [|reflexivity];
      repeat split; intros; auto; discriminate
    | right; split; [|reflexivity];
      intros (A & B & C);
      try (specialize (A eq_refl)); try (specialize (B eq_refl));
      try (specialize (C eq_refl)); try contradiction;
      destruct C as [C1 C2]; try discriminate; try contradiction;
      destruct C2; contradiction ].
Qed.

Lemma GetMappedOffset_errno (P : Z -> Prop) w pos n st off ec st' :
  P 0 -> Forall (fun a => P (mmap_errno a)) (os st) ->
  GetMappedOffset w pos n st = Some ((off, ec), st') ->
  P ec /\ Forall (fun a => P (mmap_errno a)) (os st').
Proof.
  intros P0 Hos. unfold GetMappedOffset.
  destruct (_ && _ && _).
  { intros [= <- <- <-]. split; assumption. }
  assert (N : P (mmap_errno (fst (next_os st)))
              /\ Forall (fun a => P (mmap_errno a)) (snd (next_os st))).
  { unfold next_os. destruct (os st) as [|a r]; cbn.
    - split; [exact P0|constructor].
    - inversion Hos; subst. split; assumption. }
  destruct (next_os st) as [a rest]. cbn [fst snd] in N. destruct N as [Na Nr].
  destruct (readOnly (file_of w st)).
  - destruct (Z.eqb_spec (mmap_errno a) 0) as [E|E]; intros [= <- <- <-];
      (split; [assumption|destruct w; exact Nr]).
  - destruct (mapGrowSize (file_of w st) =? 0); [discriminate|].
    destruct (ftruncate_ok a);
      destruct (Z.eqb_spec (mmap_errno a) 0) as [E|E]; intros [= <- <- <-];
      (split; [assumption|destruct w; exact Nr]).
Qed.

(** The first mapping of a file that has just been opened. *)
Lemma GetMappedOffset_opens w pos n st :
  m_mapping (mapping (file_of w st)) = false ->
  readOnly (file_of w st) = true \/ mapGrowSize (file_of w st) <> 0 ->
  Forall maps_ok (os st) ->
  len (contents (file_of w st)) <= fileSize (file_of w st) ->
  exists st',
    GetMappedOffset w pos n st = Some ((u64 (pos - mapOffset (file_of w st)), 0), st')
    /\ Forall maps_ok (os st')
    /\ file_of (other w) st' = file_of (other w) st
    /\ (forall o k, 0 <= o -> 0 <= k -> o + k <= len (contents (file_of w st)) ->
        accessible (file_of w st') o k = true).
Proof.
  intros Hm Hg Hos Hl. unfold GetMappedOffset. rewrite Hm. cbn [andb].
  assert (N : mmap_errno (fst (next_os st)) = 0 /\ Forall maps_ok (snd (next_os st))).
  { unfold next_os. destruct (os st) as [|a r]; cbn.
    - split; [reflexivity|constructor].
    - inversion Hos; subst. split; assumption. }
  destruct (next_os st) as [a rest]. cbn [fst snd] in N. destruct N as [Na Nr].
  rewrite Na. change (0 =? 0) with true.
  destruct (readOnly (file_of w st)) eqn:Ero.
  - eexists. split; [reflexivity|].
    split; [destruct w; exact Nr|]. split; [destruct w; reflexivity|].
    intros o k Ho Hk Hok. destruct w; fsimpl; apply accessible_intro; cbn; lia.
  - destruct Hg as [Hg|Hg]; [discriminate|].
    replace (mapGrowSize (file_of w st) =? 0) with false
      by (symmetry; apply Z.eqb_neq; exact Hg).
    set (size := u64 (u64 (pos + n + mapGrowSize (file_of w st) - 1)
                      / mapGrowSize (file_of w st) * mapGrowSize (file_of w st))).
    set (fs := if fileSize (file_of w st) <? size then size else fileSize (file_of w st)).
    assert (Hfs : fileSize (file_of w st) <= fs).
    { subst fs. destruct (Z.ltb_spec (fileSize (file_of w st)) size); lia. }
    pose proof (len_nonneg (contents (file_of w st))) as L0.
    destruct (ftruncate_ok a).
    + eexists. split; [reflexivity|].
      split; [destruct w; exact Nr|]. split; [destruct w; reflexivity|].
      intros o k Ho Hk Hok.
      destruct w; fsimpl; apply accessible_intro; cbn; rewrite ?len_resize; lia.
    + eexists. split; [reflexivity|].
      split; [destruct w; exact Nr|]. split; [destruct w; reflexivity|].
      intros o k Ho Hk Hok.
      destruct w; fsimpl; apply accessible_intro; cbn; lia.
Qed.

Lemma header_of_range c h :
  header_of c = Some h ->
  0 <= h_recordSize h < 2 ^ 32 /\ 0 <= h_timeWritePos h < 2 ^ 64
  /\ 0 <= h_dataWritePos h < 2 ^ 64.
Proof.
  unfold header_of, header_fields.
  destruct (parse_header c) as [j|]; [|discriminate].
  destruct (Json.get_string _); [|discriminate].
  destruct (Json.get_string _); [|discriminate].
  destruct (Json.get_unsigned _); [|discriminate].
  destruct (Json.get_bool _); [|discriminate].
  destruct (Json.get_string _); [|discriminate].
  destruct (Json.get_unsigned _); [|discriminate].
  destruct (Json.get_unsigned _); [|discriminate].
  intros [= <-]. cbn.
  split; [unfold u32; apply Z.mod_pos_bound; lia|].
  split; apply u64_range.
Qed.

Lemma opens_existing disp c :
  creates disp (Some c) = false ->
  openFile (Some c) disp = (0, c)
  /\ disp_eqb disp CD_OpenExisting
     || (disp_eqb disp CD_OpenAlways && (0 <? len c)) = true.
Proof.
  destruct disp; cbn; try discriminate.
  - destruct c as [|x c]; [discriminate|]. intros _. split; [reflexivity|].
    apply Z.ltb_lt. unfold len. cbn [length]. lia.
  - intros _. split; reflexivity.
Qed.

Ltac stepin H :=
  match type of H with
  | _ = bind ?c ?k ?s => rewrite (bind_eq c k s _ _ eq_refl) in H
  end.

Lemma openFile_errors disk disp : fst (openFile disk disp) <> wrong_protocol_type.
Proof. destruct disp, disk; cbn; discriminate. Qed.

Lemma DoOpen_existing c data_disk dataType dataLayout recordSize disp config answers :
  creates disp (Some c) = false ->
  Forall os_error answers ->
  let r := DoOpen (Some c) data_disk dataType dataLayout recordSize disp config
             (DataLogImpl_new answers) in
  match header_of c with
  | None => exists st', r = Some (wrong_protocol_type, st')
  | Some h =>
      (~ checks_pass h dataType dataLayout recordSize config
       /\ exists st', r = Some (wrong_protocol_type, st'))
      \/ (checks_pass h dataType dataLayout recordSize config
          /\ (forall e st', r = Some (e, st') -> e <> wrong_protocol_type)
          /\ (can_open h c data_disk disp config answers ->
              exists st', r = Some (0, st')))
  end.
Proof.
  intros Hcr Hos r.
  destruct (opens_existing disp c Hcr) as [HO Hcond].
  set (st0 := set_file Time
                (mkFileInfo 3 (cfg_readOnly config) 0 (len c) 0 0 0 0
                   (mkMappedFile false 0) c) (DataLogImpl_new answers)).
  pose proof (ReadHeader_header st0) as HR.
  change (contents (m_time st0)) with c in HR.
  assert (Er : r = DoOpen (Some c) data_disk dataType dataLayout recordSize disp config
             (DataLogImpl_new answers)) by reflexivity.
  clearbody r. unfold DoOpen in Er. unfold Open at 1 in Er. rewrite HO in Er.
  match type of Er with _ = bind (bind ?c0 ?k0) ?k ?s =>
    rewrite (bind_eq (bind c0 k0) k s 0 _ eq_refl) in Er end.
  change (0 =? 0) with true in Er. cbn [negb] in Er.
  stepin Er. stepin Er.
  match type of Er with _ = bind ?c0 ?k ?s => change s with st0 in Er end.
  change (fileSize (m_time st0)) with (len c) in Er. rewrite Hcond in Er.
  destruct (header_of c) as [h|] eqn:Hh.
  2:{ destruct HR as [st' HR]. exists st'.
      match type of Er with _ = bind ?c0 ?k ?s =>
        assert (E1 : c0 s = Some (wrong_protocol_type, st'))
          by (rewrite (bind_eq _ _ _ _ _ HR); reflexivity);
        rewrite (bind_eq c0 k s _ _ E1) in Er end.
      rewrite Er. reflexivity. }
  set (st1 := with_header h st0) in *.
  match type of Er with _ = bind ?c0 ?k ?s =>
    assert (E1 : c0 s = Some (Check st1 dataType dataLayout recordSize
                                (cfg_checkType config) (cfg_checkLayout config)
                                (cfg_checkSize config), st1))
      by (rewrite (bind_eq _ _ _ _ _ HR); reflexivity);
    rewrite (bind_eq c0 k s _ _ E1) in Er end.
  clear E1.
  destruct (Check_cases h st0 dataType dataLayout recordSize config) as [[Hp E]|[Hn E]];
    fold st1 in E; rewrite E in Er.
  2:{ left. split; [exact Hn|]. exists st1. rewrite Er. reflexivity. }
  right. split; [exact Hp|].
  change (0 =? 0) with true in Er. cbv beta iota in Er. cbn [negb] in Er.
  cbv beta iota in Er.
  stepin Er. stepin Er. stepin Er. stepin Er.
  change (m_recordSize (set_config _ _ st1)) with (h_recordSize h) in Er.
  change (writePos (m_time (set_config _ _ st1))) with (h_timeWritePos h) in Er.
  change (m_fixedSize (set_config _ _ st1)) with (h_fixedSize h) in Er.
  match type of Er with _ = bind ?b ?k ?s =>
    set (s3 := s) in Er; set (blk := b) in Er; set (K := k) in Er end.
  destruct (header_of_range c h Hh) as (Rr & Rt & Rd).
  assert (HB : forall a s, blk s3 = Some (a, s) ->
                 a <> wrong_protocol_type /\ Forall os_error (os s)).
  { intros a s Hb. subst blk. cbv beta in Hb.
    destruct (kHeaderSize + h_recordSize h <? h_timeWritePos h).
    - apply bind_Some in Hb as ([off ec] & s4 & EG & Hb).
      apply (GetMappedOffset_errno (fun e => e <> wrong_protocol_type)) in EG
        as [Hec Hos4]; [|discriminate|exact Hos].
      destruct (ec =? 0); cbn [negb] in Hb.
      + apply bind_Some in Hb as (ts & s5 & EL & Hb).
        unfold read64le in EL. apply bind_Some in EL as (bs & s5' & EL & EL').
        apply load_state in EL. injection EL' as _ <-. subst s5'.
        injection Hb as <- <-. split; [discriminate|exact Hos4].
      + injection Hb as <- <-. split; assumption.
    - apply bind_Some in Hb as ([off ec] & s4 & EG & Hb).
      apply (GetMappedOffset_errno (fun e => e <> wrong_protocol_type)) in EG
        as [Hec Hos4]; [|discriminate|exact Hos].
      injection Hb as <- <-. split; assumption. }
  assert (HS : can_open h c data_disk disp config answers ->
               exists s, blk s3 = Some (0, s) /\ Forall maps_ok (os s)
                         /\ m_data s = m_data s3).
  { intros (Co & _ & Cg & Cl). subst blk. cbv beta.
    assert (G : readOnly (file_of Time s3) = true \/ mapGrowSize (file_of Time s3) <> 0).
    { change (readOnly (file_of Time s3)) with (cfg_readOnly config).
      change (mapGrowSize (file_of Time s3))
        with (u64 (cfg_initialSize config * h_recordSize h)).
      destruct (cfg_readOnly config); [left; reflexivity|right; apply Cg; reflexivity]. }
    destruct (Z.ltb_spec (kHeaderSize + h_recordSize h) (h_timeWritePos h)) as [Lt|Ge].
    - unfold kHeaderSize in *.
      rewrite (u64_small (h_timeWritePos h - h_recordSize h)) by lia.
      rewrite (u64_small (h_recordSize h * 2)) by lia.
      destruct (GetMappedOffset_opens Time (h_timeWritePos h - h_recordSize h)
                  (h_recordSize h * 2) s3 eq_refl G Co (Z.le_refl _))
        as (s4 & EG & Hos4 & Hd & Hacc).
      change (mapOffset (file_of Time s3)) with 0 in EG.
      rewrite Z.sub_0_r in EG.
      rewrite u64_small in EG by lia.
      rewrite (bind_eq _ _ _ _ _ EG). change (0 =? 0) with true. cbn [negb].
      assert (ER : read64le (mkPtr Time (h_timeWritePos h - h_recordSize h)) s4
                   = Some (le_value (peek (h_timeWritePos h - h_recordSize h) 8
                                       (contents (file_of Time s4))), s4)).
      { unfold read64le, load, bind. cbn [p_file p_off].
        rewrite (Hacc (h_timeWritePos h - h_recordSize h) 8)
          by (change (contents (file_of Time s3)) with c; lia).
        reflexivity. }
      rewrite (bind_eq _ _ _ _ _ ER).
      eexists. split; [reflexivity|]. split; [exact Hos4|exact Hd].
    - destruct (GetMappedOffset_opens Time (h_timeWritePos h) (h_recordSize h)
                  s3 eq_refl G Co (Z.le_refl _))
        as (s4 & EG & Hos4 & Hd & Hacc).
      rewrite (bind_eq _ _ _ _ _ EG).
      eexists. split; [reflexivity|]. split; [exact Hos4|exact Hd]. }
  clearbody blk. split.
  - intros e st' Hr. rewrite Er in Hr.
    apply bind_Some in Hr as (a & s & Eb & Hk).
    destruct (HB a s Eb) as [Ha Hs]. subst K. cbv beta in Hk.
    destruct (a =? 0); cbn [negb] in Hk; [|injection Hk as <- _; exact Ha].
    destruct (h_fixedSize h); cbn [negb] in Hk; [injection Hk as <- _; discriminate|].
    apply bind_Some in Hk as (ec0 & s5 & EO & Hk).
    apply Open_Some in EO as [E0 E5].
    destruct (ec0 =? 0); cbn [negb] in Hk.
    2:{ injection Hk as <- _. rewrite E0. apply openFile_errors. }
    apply bind_Some in Hk as (u & s6 & E6 & Hk). apply upd_file_Some in E6.
    apply bind_Some in Hk as (s7 & s7' & E7 & Hk). injection E7 as <- <-.
    apply bind_Some in Hk as ([off ec1] & s8 & EG & Hk).
    injection Hk as <- _.
    apply (GetMappedOffset_errno (fun e => e <> wrong_protocol_type)) in EG
      as [Hec _]; [exact Hec|discriminate|].
    subst s6 s5. exact Hs.
  - intros Hco. destruct (HS Hco) as (s & Eb & Hos' & Hd).
    destruct Hco as (_ & Cd & Cg & _).
    rewrite Er. rewrite (bind_eq blk K s3 _ _ Eb). subst K. cbv beta.
    change (0 =? 0) with true. cbn [negb].
    destruct (h_fixedSize h) eqn:Hf; cbn [negb]; [eexists; reflexivity|].
    unfold Open. specialize (Cd eq_refl).
    destruct (openFile data_disk disp) as [e0 d]. cbn [fst] in Cd. subst e0.
    match goal with |- exists st', bind (bind ?c0 ?k0) ?k ?s = _ =>
      rewrite (bind_eq (bind c0 k0) k s 0 _ eq_refl) end.
    change (0 =? 0) with true. cbn [negb].
    do 2 (match goal with |- exists st', bind ?c0 ?k ?s = _ =>
      rewrite (bind_eq c0 k s _ _ eq_refl) end).
    match goal with |- exists st', bind (GetMappedOffset Data ?p ?n) ?k ?s = _ =>
      destruct (GetMappedOffset_opens Data p n s) as (s9 & EG & _);
      [| | | |rewrite (bind_eq _ _ _ _ _ EG); eexists; reflexivity]
    end.
    + cbn. rewrite Hd. reflexivity.
    + cbn. rewrite Hd. cbn.
      destruct (cfg_readOnly config); [left; reflexivity|right].
      apply Cg; reflexivity.
    + exact Hos'.
    + exact (Z.le_refl _).
Qed.

(** * What a view shows *)

Lemma accessible_true f off n :
  accessible f off n = true <->
  m_mapping (mapping f) = true /\ 0 <= off /\ 0 <= n
  /\ off + n <= m_size (mapping f) /\ off + n <= len (contents f).
Proof.
  unfold accessible. rewrite !andb_true_iff, !Z.leb_le. tauto.
Qed.

Lemma peek_peek off n k m c :
  0 <= off -> 0 <= k -> 0 <= m -> k + m <= n ->
  peek k m (peek off n c) = peek (off + k) m c.
Proof.
  unfold peek. intros H0 Hk Hm Hn.
  rewrite skipn_firstn_comm, firstn_firstn, skipn_skipn.
  replace (Nat.min (Z.to_nat m) (Z.to_nat n - Z.to_nat k)) with (Z.to_nat m) by lia.
  f_equal. f_equal. lia.
Qed.

Lemma peek_all c : peek 0 (len c) c = c.
Proof. unfold peek, len. rewrite Nat2Z.id. cbn [Z.to_nat skipn]. apply firstn_all. Qed.

Lemma view_bytes_shows view st payload :
  view_bytes view st = Some payload -> shows view st payload.
Proof.
  unfold view_bytes, shows.
  destruct (a_data view) as [p|].
  - unfold load. destruct (accessible _ _ _) eqn:A; [|discriminate].
    cbn [option_map fst]. intros [= <-].
    apply accessible_true in A as (M & O & N & S & L).
    rewrite len_peek by lia. split; [reflexivity|].
    intros k m Hk Hm Hb. cbn [ptr_add p_file p_off].
    rewrite (accessible_sub _ (p_off p) (a_size view) k m) by
      (try lia; apply accessible_true; repeat split; assumption).
    rewrite peek_peek by lia. reflexivity.
  - destruct (a_size view =? 0) eqn:E; [|discriminate].
    intros [= <-]. apply Z.eqb_eq in E. split; [exact E|reflexivity].
Qed.

Lemma shows_data view st payload :
  shows view st payload -> payload <> [] ->
  exists p, a_data view = Some p
    /\ forall k m, 0 <= k -> 0 <= m -> k + m <= len payload ->
         load (ptr_add p k) m st = Some (peek k m payload, st).
Proof.
  intros [_ H] N. destruct (a_data view) as [p|]; [|contradiction].
  exists p. split; [reflexivity|exact H].
Qed.

Lemma ptr_add_0 p : ptr_add p 0 = p.
Proof. destruct p. unfold ptr_add. cbn. rewrite Z.add_0_r. reflexivity. Qed.

Lemma ptr_add_add p a b : ptr_add (ptr_add p a) b = ptr_add p (a + b).
Proof. unfold ptr_add. cbn. rewrite Z.add_assoc. reflexivity. Qed.


(** * FileInfo::GetMappedOffset *)

(** C5 (amended).  For a position and a length whose sum with [mapGrowSize]
    stays below [2^64]: when the mapping covers [[pos, pos + n)],
    [GetMappedOffset] returns [pos - mapOffset], sets no error and changes
    nothing.  Otherwise, on a writable file with a positive [mapGrowSize], it
    takes for [size] the multiple of [mapGrowSize] next above [pos + n],
    raises [fileSize] to it when it is larger, doubles [mapGrowSize], as the
    64-bit value it is, up to [maxGrowSize] when it was below [maxGrowSize]
    (and leaves it alone otherwise), asks for the file to be resized to
    [fileSize] and maps the whole file again.  A failure of the mapping is
    reported in [ec], with [SIZE_MAX] returned; a failure to resize the file
    is only printed by [perror] and is not reported. *)
Theorem GetMappedOffset_spec (w : Which) (st : World) (pos n : Z) :
  let f := file_of w st in
  let a := fst (next_os st) in
  0 <= pos -> 0 <= n -> 0 <= mapOffset f ->
  pos + n + mapGrowSize f < 2 ^ 64 ->
  0 <= mapGrowSize f ->
  (covers f pos n ->
   GetMappedOffset w pos n st = Some ((pos - mapOffset f, 0), st))
  /\
  (~ covers f pos n -> readOnly f = false -> 0 < mapGrowSize f ->
   exists st' size,
     GetMappedOffset w pos n st
     = Some ((if mmap_errno a =? 0 then u64 (pos - mapOffset f) else SIZE_MAX,
              mmap_errno a), st')
     /\ (mapGrowSize f | size) /\ pos + n <= size < pos + n + mapGrowSize f
     /\ fileSize (file_of w st') = Z.max (fileSize f) size
     /\ mapGrowSize (file_of w st')
        = (if mapGrowSize f <? maxGrowSize f
           then Z.min (u64 (2 * mapGrowSize f)) (maxGrowSize f)
           else mapGrowSize f)
     /\ mapping (file_of w st')
        = mkMappedFile (mmap_errno a =? 0) (Z.max (fileSize f) size)
     /\ contents (file_of w st')
        = (if ftruncate_ok a then resize (Z.max (fileSize f) size) (contents f)
           else contents f)
     /\ perrors st'
        = (if ftruncate_ok a then perrors st else msg_update_size :: perrors st)
     /\ file_of (other w) st' = file_of (other w) st).
Proof.
  intros f a Hpos Hn Hmo Hsum Hg.
  assert (Hw : (m_mapping (mapping f) && (mapOffset f <=? pos)
                && (u64 (pos + n - mapOffset f) <=? m_size (mapping f))) = true
               <-> covers f pos n).
  { unfold covers. rewrite !andb_true_iff, !Z.leb_le.
    split.
    - intros [[H1 H2] H3].
      rewrite u64_small in H3 by lia. tauto.
    - intros (H1 & H2 & H3).
      rewrite u64_small by lia. tauto. }
  split.
  - intros C. unfold GetMappedOffset. fold f.
    apply Hw in C. rewrite C. rewrite u64_small by (apply Hw in C; unfold covers in C; lia).
    reflexivity.
  - intros NC Hro Hg0.
    destruct (round_up_bounds (pos + n) (mapGrowSize f) Hg0 ltac:(lia)) as [Hb Hd].
    set (size := (pos + n + mapGrowSize f - 1) / mapGrowSize f * mapGrowSize f) in *.
    unfold GetMappedOffset. cbv zeta. fold f.
    destruct (m_mapping (mapping f) && (mapOffset f <=? pos)
              && (u64 (pos + n - mapOffset f) <=? m_size (mapping f))) eqn:E.
    { exfalso. apply NC, Hw. reflexivity. }
    rewrite Hro.
    destruct (next_os st) as [a' rest] eqn:En. subst a. simpl fst.
    replace (mapGrowSize f =? 0) with false by (symmetry; apply Z.eqb_neq; lia).
    rewrite (u64_small (pos + n + mapGrowSize f - 1)) by lia.
    fold size. rewrite (u64_small size) by lia.
    replace (mapGrowSize f * 2) with (2 * mapGrowSize f) by lia.
    assert (Efs : (if fileSize f <? size then size else fileSize f)
                  = Z.max (fileSize f) size).
    { destruct (Z.ltb_spec (fileSize f) size); lia. }
    assert (Egr : (if mapGrowSize f <? maxGrowSize f
                   then if maxGrowSize f <? u64 (2 * mapGrowSize f)
                        then maxGrowSize f else u64 (2 * mapGrowSize f)
                   else mapGrowSize f)
                  = (if mapGrowSize f <? maxGrowSize f
                     then Z.min (u64 (2 * mapGrowSize f)) (maxGrowSize f)
                     else mapGrowSize f)).
    { destruct (mapGrowSize f <? maxGrowSize f); [|reflexivity].
      destruct (Z.ltb_spec (maxGrowSize f) (u64 (2 * mapGrowSize f))); lia. }
    rewrite Efs, Egr.
    destruct (Z.eqb_spec (mmap_errno a') 0) as [e0|e0]; [rewrite e0|];
      destruct (ftruncate_ok a'); eexists; exists size;
      (split; [reflexivity|]);
      destruct w; cbn; repeat split; try apply Hd; try apply Hb; reflexivity.
Qed.

(** Both paths of C5 on concrete files: a mapped file of 4128 bytes, and an
    empty one that has to grow. *)
Lemma GetMappedOffset_spec_witness :
  GetMappedOffset Time 4096 16 ex_mapped = Some ((4096, 0), ex_mapped)
  /\ exists st',
       GetMappedOffset Time 4096 16 (ex_fresh 32 64 []) = Some ((4096, 0), st')
       /\ fileSize (m_time st') = 4128
       /\ mapGrowSize (m_time st') = 64
       /\ mapping (m_time st') = mkMappedFile true 4128
       /\ contents (m_time st') = repeat 0 4128%nat.
Proof.
  split.
  - apply (GetMappedOffset_spec Time ex_mapped 4096 16
             ltac:(by_computation) ltac:(by_computation) ltac:(by_computation)
             ltac:(by_computation) ltac:(by_computation)).
    by_computation.
  - destruct (proj2 (GetMappedOffset_spec Time (ex_fresh 32 64 []) 4096 16
                ltac:(by_computation) ltac:(by_computation) ltac:(by_computation)
                ltac:(by_computation) ltac:(by_computation)))
      as (st' & size & E & _); [by_computation ..|].
    exists st'. split; [exact E|].
    vm_compute in E. injection E as <-.
    repeat split; reflexivity.
Defined.

(** C5 as stated fails in three places.  When [ftruncate] fails and [mmap]
    succeeds, no error is set and the plain offset is returned, not
    [SIZE_MAX]; the file itself stays empty.  A [mapGrowSize] that is
    already above [maxGrowSize] is not clamped.  And the doubling is that of
    a 64-bit value: a [mapGrowSize] of [2^63] below [maxGrowSize] becomes 0. *)
Lemma GetMappedOffset_counterexample :
  ftruncate_ok (fst (next_os ex_extend_fails)) = false
  /\ result (GetMappedOffset Time 4096 16 ex_extend_fails) = Some (4096, 0)
  /\ option_map (fun s => contents (m_time s))
       (world (GetMappedOffset Time 4096 16 ex_extend_fails)) = Some []
  /\ option_map (fun s => mapGrowSize (m_time s))
       (world (GetMappedOffset Time 4096 16 (ex_fresh 8 4 []))) = Some 8
  /\ Z.min (2 * 8) 4 <> 8
  /\ option_map (fun s => mapGrowSize (m_time s))
       (world (GetMappedOffset Time 4096 16
                 (ex_fresh (2 ^ 63) (2 ^ 63 + 1) [mkOsAnswer false 0]))) = Some 0.
Proof. by_computation. Qed.

(** * DataLogImpl::AppendRawStart *)






(** * DataLogImpl::ReadRaw on a read that fails *)

(** C3 (amended).  The time-file read either yields the whole record, the file
    being mapped, or the empty view, the file not being mapped; with an
    operating system that maps the file it yields the whole record, whatever
    [n] is.  When it yields fewer bytes than [recordSize], or fewer than the 8
    of a timestamp, [ReadRaw] returns [(0, empty)].  When it yields the whole
    record, [ReadRaw] returns what the slot holds, and [n] is not compared
    with [size()]: on a fixed-size log the timestamp in the first 8 bytes and
    the view of the bytes after them, on a variable-size log that timestamp
    and what the read of the data file gives at the offset and the length
    that the slot holds.  A read that returns leaves the configuration, the
    write positions, the last timestamp and [size()] as they were; it may
    have grown and remapped the file. *)
Theorem ReadRaw_short_read (st : World) (n : Z) (raw : ArrayRef) (st1 : World) :
  Read Time (u64 (kHeaderSize + n * m_recordSize st)) (m_recordSize st) st
  = Some (raw, st1) ->
  ((a_size raw = m_recordSize st /\ is_mapped Time st1 = true)
   \/ (raw = nil_ref /\ is_mapped Time st1 = false))
  /\ (a_size raw < m_recordSize st \/ a_size raw < kTimestampSize ->
      ReadRaw n st = Some ((0, nil_ref), st1)
      /\ preserved st st1 /\ size st1 = size st)
  /\ (Forall maps_ok (os st) -> a_size raw = m_recordSize st)
  /\ (a_size raw = m_recordSize st ->
      forall slot, view_bytes raw st1 = Some slot ->
      let w := if m_recordSize st =? kLargePointerRecordSize then 8 else 4 in
      if m_fixedSize st
      then 8 <= m_recordSize st ->
           ReadRaw n st
           = Some ((le_value (peek 0 8 slot), slice raw kTimestampSize), st1)
      else 8 + w + w <= m_recordSize st ->
           ReadRaw n st
           = (r <- Read Data (le_value (peek 8 w slot))
                     (le_value (peek (8 + w) w slot)) ;;
              ret (le_value (peek 0 8 slot), r)) st1)
  /\ (forall r st', ReadRaw n st = Some (r, st') ->
      preserved st st' /\ size st' = size st).
Proof.
  intros E. split; [|split; [|split; [|split]]].
  - unfold Read in E. apply bind_Some in E as ([off ec] & s & G & E).
    apply GetMappedOffset_mapped in G as [G _].
    destruct (ec =? 0); cbn [negb] in E; injection E as <- <-.
    + left. split; [reflexivity|exact G].
    + right. split; [reflexivity|exact G].
  - intros Hshort. pose proof (Read_preserved _ _ _ _ _ _ E) as P.
    split; [|split; [exact P|apply size_preserved; exact P]].
    unfold ReadRaw. rewrite (bind_eq get _ st st st eq_refl).
    rewrite (bind_eq _ _ _ _ _ E).
    replace ((a_size raw <? m_recordSize st) || (a_size raw <? kTimestampSize))
      with true; [reflexivity|].
    symmetry. apply orb_true_iff. rewrite !Z.ltb_lt. exact Hshort.
  - intros Hos. unfold Read in E. apply bind_Some in E as ([off ec] & s & G & E).
    destruct (GetMappedOffset_errno (fun e => e = 0) _ _ _ _ _ _ _ eq_refl Hos G)
      as [-> _].
    injection E as <- _. reflexivity.
  - intros Hfull slot Hv w.
    pose proof (view_bytes_shows _ _ _ Hv) as [Hl Sh].
    assert (Full : 8 <= m_recordSize st ->
                   (a_size raw <? m_recordSize st) || (a_size raw <? kTimestampSize)
                   = false).
    { intros R8. apply orb_false_iff. rewrite !Z.ltb_ge.
      unfold kTimestampSize. lia. }
    assert (Start : 8 <= m_recordSize st ->
                    exists p, a_data raw = Some p
                      /\ forall k m, 0 <= k -> 0 <= m -> k + m <= m_recordSize st ->
                           load (ptr_add p k) m st1 = Some (peek k m slot, st1)).
    { intros R8. destruct (a_data raw) as [p|].
      - exists p. split; [reflexivity|]. intros k m Hk Hm Hb.
        apply Sh; lia.
      - subst slot. change (len []) with 0 in Hl. lia. }
    assert (Here : forall p k m,
               (forall k m, 0 <= k -> 0 <= m -> k + m <= m_recordSize st ->
                  load (ptr_add p k) m st1 = Some (peek k m slot, st1)) ->
               0 < k -> 0 <= m -> k + m <= m_recordSize st ->
               load (ptr_add p k) m st1 = Some (peek k m slot, st1))
      by (intros p k m L Hk Hm Hb; apply L; lia).
    destruct (m_fixedSize st) eqn:Hfix.
    + intros R8. destruct (Start R8) as (p & Ep & L).
      unfold ReadRaw. rewrite (bind_eq get _ st st st eq_refl).
      rewrite (bind_eq _ _ _ _ _ E), (Full R8), Ep.
      unfold read64le.
      pose proof (L 0 8 ltac:(lia) ltac:(lia) ltac:(lia)) as L0.
      rewrite ptr_add_0 in L0.
      rewrite (bind_eq _ _ _ _ _ (bind_eq _ _ _ _ _ L0)).
      rewrite Hfix. reflexivity.
    + intros Rw.
      assert (R8 : 8 <= m_recordSize st)
        by (subst w; destruct (m_recordSize st =? kLargePointerRecordSize); lia).
      destruct (Start R8) as (p & Ep & L).
      unfold ReadRaw. rewrite (bind_eq get _ st st st eq_refl).
      rewrite (bind_eq _ _ _ _ _ E), (Full R8), Ep.
      unfold read64le, read32le.
      pose proof (L 0 8 ltac:(lia) ltac:(lia) ltac:(lia)) as L0.
      rewrite ptr_add_0 in L0.
      rewrite (bind_eq _ _ _ _ _ (bind_eq _ _ _ _ _ L0)).
      rewrite Hfix. unfold kTimestampSize. subst w.
      destruct (m_recordSize st =? kLargePointerRecordSize).
      * rewrite (bind_eq _ _ _ _ _
                   (bind_eq _ _ _ _ _ (L 8 8 ltac:(lia) ltac:(lia) ltac:(lia)))).
        rewrite (bind_eq _ _ _ _ _
                   (bind_eq _ _ _ _ _ (L (8 + 8) 8 ltac:(lia) ltac:(lia) ltac:(lia)))).
        reflexivity.
      * rewrite (bind_eq _ _ _ _ _
                   (bind_eq _ _ _ _ _ (L 8 4 ltac:(lia) ltac:(lia) ltac:(lia)))).
        rewrite (bind_eq _ _ _ _ _
                   (bind_eq _ _ _ _ _ (L (8 + 4) 4 ltac:(lia) ltac:(lia) ltac:(lia)))).
        reflexivity.
  - intros r st' H. pose proof (ReadRaw_preserved _ _ _ _ H) as P.
    split; [exact P|apply size_preserved; exact P].
Qed.

(** C3 where the operating system cannot map the time file, and on an empty
    log whose slot 0 is inside the mapping: [ReadRaw 0] returns the
    timestamp and the view that the slot holds. *)
Lemma ReadRaw_short_read_witness :
  (exists st1,
     ReadRaw 3 ex_map_fails = Some ((0, nil_ref), st1)
     /\ preserved ex_map_fails st1 /\ size st1 = size ex_map_fails)
  /\ size ex_mapped = 0
  /\ ReadRaw 0 ex_mapped
     = Some ((0, mkArrayRef (Some (mkPtr Time 4104)) 8), ex_mapped).
Proof.
  split; [|split; [reflexivity|]].
  - destruct (Read Time (u64 (kHeaderSize + 3 * m_recordSize ex_map_fails))
                (m_recordSize ex_map_fails) ex_map_fails) as [[raw st1]|] eqn:E;
      [|vm_compute in E; discriminate E].
    exists st1.
    apply (proj1 (proj2 (ReadRaw_short_read ex_map_fails 3 raw st1 E))).
    vm_compute in E. injection E as <- <-. left. reflexivity.
  - assert (E : Read Time (u64 (kHeaderSize + 0 * m_recordSize ex_mapped))
                  (m_recordSize ex_mapped) ex_mapped
                = Some (mkArrayRef (Some (mkPtr Time 4096)) 16, ex_mapped))
      by (vm_compute; reflexivity).
    pose proof (proj1 (proj2 (proj2 (proj2 (ReadRaw_short_read ex_mapped 0 _ _ E))))
                  eq_refl (repeat 0 16%nat) eq_refl) as R.
    cbv zeta in R. change (m_fixedSize ex_mapped) with true in R. cbv iota in R.
    rewrite (R ltac:(vm_compute; discriminate)). reflexivity.
Defined.

(** C3 as stated fails: on an empty log, whose [size()] is 0, [ReadRaw 0]
    finds the slot inside the mapping and returns a view of 8 bytes; and
    [ReadRaw 5], whose slot is outside the mapping, grows the file from 4128
    to 4192 bytes and then does the same. *)
Lemma ReadRaw_out_of_range_counterexample :
  size ex_mapped = 0
  /\ result (ReadRaw 0 ex_mapped)
     = Some (0, mkArrayRef (Some (mkPtr Time 4104)) 8)
  /\ result (ReadRaw 5 ex_mapped)
     = Some (0, mkArrayRef (Some (mkPtr Time 4184)) 8)
  /\ len (contents (m_time ex_mapped)) = 4128
  /\ option_map (fun s => len (contents (m_time s))) (world (ReadRaw 5 ex_mapped))
     = Some 4192.
Proof. by_computation. Qed.

(** * DataLogImpl::FindImpl *)

Lemma ex_five_readable : readable ex_five.
Proof.
  unfold readable.
  repeat split; try (vm_compute; first [reflexivity | discriminate]).
  right. split; vm_compute; first [reflexivity | discriminate].
Qed.

Lemma ex_five_sorted : sorted ex_five.
Proof.
  intros i j Hi Hij Hj.
  change (size ex_five) with 5 in Hj.
  assert (Ci : i = 0 \/ i = 1 \/ i = 2 \/ i = 3 \/ i = 4) by lia.
  assert (Cj : j = 0 \/ j = 1 \/ j = 2 \/ j = 3 \/ j = 4) by lia.
  destruct Ci as [->|[->|[->|[->| ->]]]];
    destruct Cj as [->|[->|[->|[->| ->]]]];
    first [ lia | vm_compute; discriminate ].
Qed.

(** C9.  On a readable log, if [first <= min(size(), last)] the loop of
    [FindImpl] ends before its 64 turns are used up, for every timestamp and
    whatever the records hold, and the result lies between [first] and
    [min(size(), last)]; the log keeps its records.  The loop ends because
    [count] goes down on every turn, whichever branch is taken.  If [first]
    is above [min(size(), last)], the subtraction wraps around: [count] starts
    at [2^64 - (first - min(size(), last))], which is positive. *)
Theorem FindImpl_terminates (st : World) (timestamp first last : Z) :
  readable st -> 0 <= first < 2 ^ 64 -> 0 <= last ->
  (first <= Z.min (size st) last ->
   exists n st',
     FindImpl timestamp first last st = Some (Some n, st')
     /\ first <= n <= Z.min (size st) last
     /\ same_records st st')
  /\ (forall count, 0 < count < 2 ^ 64 ->
      0 <= count / 2 < count /\ 0 <= u64 (count - (count / 2 + 1)) < count)
  /\ (Z.min (size st) last < first ->
      u64 (Z.min (size st) last - first)
      = 2 ^ 64 - (first - Z.min (size st) last)
      /\ 0 < u64 (Z.min (size st) last - first)).
Proof.
  intros R Hf Hl.
  pose proof (readable_size st R) as Hsz.
  split; [|split].
  - intros Hpre. unfold FindImpl.
    rewrite (bind_eq get _ st st st eq_refl).
    rewrite u64_small by lia.
    destruct (FindImpl_loop_spec timestamp 64 st first (Z.min (size st) last - first) R
                ltac:(lia) ltac:(change (2 ^ Z.of_nat 64) with (2 ^ 64); lia) ltac:(lia))
      as (n & st' & E & B & _ & SR & _).
    exists n, st'. split; [exact E|]. split; [lia|exact SR].
  - intros count Hc.
    pose proof (Z.div_mod count 2 ltac:(lia)).
    pose proof (Z.mod_pos_bound count 2 ltac:(lia)).
    rewrite u64_small by lia. lia.
  - intros Hlt.
    assert (E : u64 (Z.min (size st) last - first)
                = 2 ^ 64 - (first - Z.min (size st) last)).
    { unfold u64.
      replace (Z.min (size st) last - first)
        with ((2 ^ 64 - (first - Z.min (size st) last)) + (-1) * 2 ^ 64) by lia.
      rewrite Z.mod_add by lia. apply Z.mod_small. lia. }
    rewrite E. split; [reflexivity|lia].
Qed.

(** C9 on the log of scenario S5, searched between the records 1 and 4. *)
Lemma FindImpl_terminates_witness :
  exists n st',
    FindImpl 35 1 4 ex_five = Some (Some n, st')
    /\ 1 <= n <= Z.min (size ex_five) 4
    /\ same_records ex_five st'.
Proof.
  apply (FindImpl_terminates ex_five 35 1 4 ex_five_readable);
    vm_compute; repeat split; discriminate.
Defined.

(** C2.  On a readable log whose stored timestamps never go down, and so in
    particular when they go up, the search from 0 over the whole log returns
    the smallest ordinal whose timestamp is at least [timestamp], and
    [size()] when there is none: the result [n] is at most [size()], the
    record [n], if there is one, is at or after [timestamp], and no earlier
    record is.  [find] is that search. *)
Theorem find_lower_bound (st : World) (timestamp last : Z) :
  readable st -> sorted st -> size st <= last ->
  exists n st',
    FindImpl timestamp 0 last st = Some (Some n, st')
    /\ find timestamp st = Some (Some n, st')
    /\ 0 <= n <= size st
    /\ (n < size st -> timestamp <= ts_at st n)
    /\ (forall m, 0 <= m < size st -> timestamp <= ts_at st m -> n <= m)
    /\ same_records st st'.
Proof.
  intros R So Hl.
  pose proof (readable_size st R) as Hsz.
  destruct (FindImpl_loop_spec timestamp 64 st 0 (size st) R
              ltac:(lia) ltac:(change (2 ^ Z.of_nat 64) with (2 ^ 64); lia) ltac:(lia))
    as (n & st' & E & B & _ & SR & LB).
  destruct (LB So) as (L1 & L2 & L3).
  exists n, st'.
  assert (F : forall l, size st <= l -> FindImpl timestamp 0 l st = Some (Some n, st')).
  { intros l Hle. unfold FindImpl. rewrite (bind_eq get _ st st st eq_refl).
    rewrite Z.min_l by lia. rewrite Z.sub_0_r, u64_small by lia. exact E. }
  split; [apply F; exact Hl|].
  split; [change (find timestamp st) with (FindImpl timestamp 0 SIZE_MAX st);
          apply (F SIZE_MAX); unfold SIZE_MAX; lia|].
  split; [lia|]. split; [intros Hn; apply L3; lia|].
  split; [|exact SR].
  intros m Hm Hts. destruct (Z.le_gt_cases n m) as [A|A]; [exact A|].
  pose proof (L2 m ltac:(lia)). lia.
Qed.

(** C2 on scenario S5: the search for 25 among 10, 20, 30, 40, 50. *)
Lemma find_lower_bound_witness :
  exists n st',
    FindImpl 25 0 SIZE_MAX ex_five = Some (Some n, st')
    /\ find 25 ex_five = Some (Some n, st')
    /\ 0 <= n <= size ex_five
    /\ (n < size ex_five -> 25 <= ts_at ex_five n)
    /\ (forall m, 0 <= m < size ex_five -> 25 <= ts_at ex_five m -> n <= m)
    /\ same_records ex_five st'.
Proof.
  apply (find_lower_bound ex_five 25 SIZE_MAX ex_five_readable ex_five_sorted).
  vm_compute. discriminate.
Defined.

(** * The write position of the data file *)

(** The data file after [AppendRawFinish] on a variable-size log with a gap:
    it is the one [Write] has left, moved on by the gap. *)
Lemma AppendRawFinish_data st sz u st' :
  AppendRawFinish sz st = Some (u, st') ->
  m_fixedSize st = false -> m_gapData st <> [] ->
  exists s4,
    Write Data (u64 (writePos (m_data st) + sz)) (m_gapData st)
      (set_file Data (set_writePos (u64 (writePos (m_data st) + sz)) (m_data st)) st)
    = Some (tt, s4)
    /\ contents (m_data st') = contents (m_data s4)
    /\ mapping (m_data st') = mapping (m_data s4).
Proof.
  unfold AppendRawFinish. intros H Hv Hg.
  apply bind_Some in H as (s0 & s0' & E0 & H). injection E0 as <- <-.
  apply bind_Some in H as (u1 & s1 & E1 & H).
  rewrite Hv in E1. cbn [negb] in E1.
  apply bind_Some in E1 as (u2 & s2 & E2 & E1).
  apply upd_file_Some in E2. subst s2.
  assert (Ng : (len (m_gapData st) =? 0) = false).
  { apply Z.eqb_neq. destruct (m_gapData st); [contradiction|].
    unfold len. cbn [length]. lia. }
  rewrite Ng in E1. cbn [negb] in E1.
  apply bind_Some in E1 as (s3 & s3' & E3 & E1). injection E3 as <- <-.
  apply bind_Some in E1 as ([] & s4 & E4 & E1).
  apply upd_file_Some in E1. subst s1.
  exists s4. split; [exact E4|].
  apply bind_Some in H as (u5 & s5 & E5 & H).
  apply upd_file_Some in E5. subst s5.
  destruct (negb (m_periodicFlush st =? 0)).
  2:{ injection H as _ <-. split; reflexivity. }
  apply bind_Some in H as (u6 & s6 & E6 & H).
  apply modify_Some in E6. subst s6.
  apply bind_Some in H as (s7 & s7' & E7 & H). injection E7 as <- <-.
  match type of H with (if ?c then _ else _) _ = _ => destruct c end.
  2:{ injection H as _ <-. split; reflexivity. }
  apply bind_Some in H as (u8 & s8 & E8 & H).
  unfold Flush in E8.
  destruct (WriteHeader_preserved _ _ _ E8) as (_ & PD & _).
  apply modify_Some in H. subst st'.
  cbn [m_data set_periodicFlushCount]. rewrite PD. split; reflexivity.
Qed.

(** [Write] with an operating system that maps the file leaves it mapped. *)
Lemma Write_maps w pos d st u st' :
  Forall maps_ok (os st) ->
  Write w pos d st = Some (u, st') -> is_mapped w st' = true.
Proof.
  unfold Write. intros Hos H. minv H. destruct a as [off ec].
  destruct (GetMappedOffset_errno (fun e => e = 0) _ _ _ _ _ _ _ eq_refl Hos E)
    as [-> _].
  destruct (GetMappedOffset_mapped _ _ _ _ _ _ _ E) as [Mp _].
  change (negb (0 =? 0)) with false in H. cbv iota in H.
  destruct (store_preserved _ _ _ _ _ H) as [_ M].
  unfold is_mapped in *. rewrite M. exact Mp.
Qed.

(** [Write] that leaves the file without a mapping has stored nothing: the
    file is as it was, or as the resize has left it. *)
Lemma Write_unmapped w pos d st u st' :
  Write w pos d st = Some (u, st') -> is_mapped w st' = false ->
  contents (file_of w st') = contents (file_of w st)
  \/ exists fs, contents (file_of w st') = resize fs (contents (file_of w st)).
Proof.
  unfold Write. intros H Hm. minv H. destruct a as [off ec].
  destruct (GetMappedOffset_mapped _ _ _ _ _ _ _ E) as [Mp _].
  destruct (ec =? 0) eqn:Eec; cbn [negb] in H.
  { destruct (store_preserved _ _ _ _ _ H) as [_ M].
    unfold is_mapped in *. rewrite M, Mp in Hm. discriminate Hm. }
  injection H as _ <-.
  unfold GetMappedOffset in E.
  destruct (_ && _ && _); [injection E as _ _ <-; left; reflexivity|].
  destruct (next_os st) as [a rest].
  destruct (readOnly (file_of w st)).
  - destruct (mmap_errno a =? 0); injection E as _ _ <-; left;
      destruct w; reflexivity.
  - destruct (mapGrowSize (file_of w st) =? 0); [discriminate|].
    destruct (ftruncate_ok a); destruct (mmap_errno a =? 0); injection E as _ _ <-;
      first [ left; destruct w; reflexivity
            | right; eexists; destruct w; reflexivity ].
Qed.

(** C8 (amended).  A variable-size log is created, by a disposition that
    makes a new log, and any run of appends follows.  Then [data.writePos] is
    the sum of the sizes of the payloads of the appends that went through,
    plus the length of [gapData] for each of them, within 64 bits.  And every
    [AppendRawFinish(size)] on a variable-size log advances [data.writePos] by
    [size + len(gapData)].  When the data file is mapped afterwards, as it is
    with an operating system that maps the files, the gap bytes stand in it
    at the position reached after the payload; when it is not, because the
    mapping for the gap failed, nothing has been written: the data file is
    as it was, or as the resize has left it. *)
Theorem data_writePos_sum (td dd : option (list Z)) (dataType dataLayout : list Z)
    (disp : CreationDisposition) (config : Config) (answers : list OsAnswer)
    (st0 : World) (l : list (Z * list Z)) (bs : list bool) (st' : World) :
  creates disp td = true ->
  DoOpen td dd dataType dataLayout 0 disp config (DataLogImpl_new answers)
  = Some (0, st0) ->
  AppendAll l st0 = Some (bs, st') ->
  writePos (m_data st')
  = u64 (payload_sum (completed l bs)
         + Z.of_nat (length (completed l bs)) * len (cfg_gapData config))
  /\ (forall st sz u st1,
        m_fixedSize st = false -> mapOffset (m_data st) = 0 ->
        AppendRawFinish sz st = Some (u, st1) ->
        writePos (m_data st1)
        = u64 (writePos (m_data st) + sz + len (m_gapData st))
        /\ (m_gapData st <> [] -> is_mapped Data st1 = true ->
            peek (u64 (writePos (m_data st) + sz)) (len (m_gapData st))
              (contents (m_data st1))
            = m_gapData st)
        /\ (m_gapData st <> [] -> Forall maps_ok (os st) ->
            is_mapped Data st1 = true)
        /\ (m_gapData st <> [] -> is_mapped Data st1 = false ->
            contents (m_data st1) = contents (m_data st)
            \/ exists fs, contents (m_data st1) = resize fs (contents (m_data st)))).
Proof.
  intros Hc Ho Ha. split.
  - pose proof (DoOpen_creates _ _ _ _ _ _ _ _ _ Hc Ho) as L.
    unfold data_layout in L. cbn [Z.eqb negb] in L.
    injection L as Lf Lg Lw _.
    destruct (AppendAll_writePos l st0 bs st' Lf ltac:(rewrite Lw; lia) Ha) as (_ & W).
    rewrite W, Lw, Lg. f_equal.
  - intros st sz u st1 Hv Hm Hf.
    destruct (AppendRawFinish_effect _ _ _ _ Hf) as (_ & _ & _ & D & G).
    rewrite Hv in D. split; [exact D|]. split; [|split].
    + intros Hg Hmap. specialize (G Hv Hg Hmap).
      rewrite Hm, Z.sub_0_r in G. unfold u64 in G. rewrite Z.mod_mod in G by lia.
      exact G.
    + intros Hg Hos.
      destruct (AppendRawFinish_data _ _ _ _ Hf Hv Hg) as (s4 & E4 & _ & M).
      unfold is_mapped. cbn [file_of]. rewrite M.
      refine (Write_maps Data _ _ _ _ _ _ E4). exact Hos.
    + intros Hg Hmap.
      destruct (AppendRawFinish_data _ _ _ _ Hf Hv Hg) as (s4 & E4 & C & M).
      rewrite C. unfold is_mapped in Hmap. cbn [file_of] in Hmap. rewrite M in Hmap.
      exact (Write_unmapped Data _ _ _ _ _ E4 Hmap).
Qed.

(** C8 on scenario S2: the payloads ["a"] and ["bcd"] with the gap ["##"]
    leave the write position at 8 and the data file at ["a##bcd##"]. *)
Lemma data_writePos_sum_witness :
  writePos (m_data ex_s2) = 8
  /\ peek 0 8 (contents (m_data ex_s2)) = bytes "a##bcd##"%string.
Proof.
  split; [|reflexivity].
  apply (data_writePos_sum None None (bytes "string"%string) [] CD_CreateAlways
           ex_config [] ex_s2_open ex_s2_appends [true; true] ex_s2);
    vm_compute; reflexivity.
Defined.

(** C8 as stated fails where the mapping for the gap fails.  The payload of
    1024 bytes fills the mapping of the data file; the gap after it needs a
    new mapping, which the operating system refuses: the append returns
    true and [data.writePos] is 1026, but the two bytes at 1024 are zeros,
    not the gap ["##"]. *)
Lemma gap_not_written_counterexample :
  result ex_gap_unmapped = Some true
  /\ option_map (fun s => m_gapData s) (world ex_gap_unmapped)
     = Some (bytes "##"%string)
  /\ option_map (fun s => writePos (m_data s)) (world ex_gap_unmapped) = Some 1026
  /\ option_map (fun s => peek 1024 2 (contents (m_data s))) (world ex_gap_unmapped)
     = Some [0; 0]
  /\ option_map (fun s => is_mapped Data s) (world ex_gap_unmapped) = Some false.
Proof. by_computation. Qed.

(** * Reading back what was appended *)

Lemma ex_s2_open_well_formed : well_formed ex_s2_open.
Proof.
  unfold well_formed, file_ok, growable.
  repeat split; try (vm_compute; first [reflexivity | discriminate]).
  - intros _. left. reflexivity.
  - right. split; vm_compute; first [reflexivity | discriminate].
  - right. split; vm_compute; first [reflexivity | discriminate].
Qed.

(** C1 (amended).  On a well-formed open log, after any run of appends that
    all went through, with 64-bit timestamps and payloads that fit the log
    (on a fixed-size log each payload has [recordSize - 8] bytes; on a
    variable-size log the data offsets and sizes stay within the 32 or 64 bits
    of the pointer record), and with an operating system that maps the files
    when the record is read: reading the record of the [k]-th append returns
    the timestamp passed to that append, and a view whose bytes are its
    payload. *)
Theorem ReadRaw_after_appends (st0 : World) (l : list (Z * list Z)) (st' : World)
    (k : nat) (timestamp : Z) (payload : list Z) :
  well_formed st0 ->
  Forall (fun p => 0 <= fst p < 2 ^ 64) l ->
  fits st0 l ->
  AppendAll l st0 = Some (repeat true (length l), st') ->
  Forall maps_ok (os st') ->
  nth_error l k = Some (timestamp, payload) ->
  exists view st'',
    ReadRaw (size st0 + Z.of_nat k) st' = Some ((timestamp, view), st'')
    /\ view_bytes view st'' = Some payload.
Proof.
  intros WF Hts Hfit Ha Hos Hk.
  destruct (AppendAll_stored l st0 st' WF Hfit Ha) as (WF' & _ & S).
  apply ReadRaw_stored; [exact WF'|apply S; exact Hk| |exact Hos].
  rewrite Forall_forall in Hts.
  apply (Hts (timestamp, payload)). eapply nth_error_In; exact Hk.
Qed.

(** C1 on scenario S2: the second record is read back as timestamp 2 and
    payload ["bcd"]. *)
Lemma ReadRaw_after_appends_witness :
  exists view st'',
    ReadRaw (size ex_s2_open + 1) ex_s2 = Some ((2, view), st'')
    /\ view_bytes view st'' = Some (bytes "bcd"%string).
Proof.
  apply (ReadRaw_after_appends ex_s2_open ex_s2_appends ex_s2 1 2 (bytes "bcd"%string)
           ex_s2_open_well_formed).
  - repeat constructor; vm_compute; discriminate.
  - vm_compute. reflexivity.
  - vm_compute. reflexivity.
  - vm_compute. constructor.
  - reflexivity.
Defined.

(** C1 as stated fails: on a fixed-size log of 16-byte records an append of a
    4-byte payload goes through, and the record read back has the 8 bytes of
    the slot, not the 4 that were written.  And the pointer of a 16-byte
    variable-size record keeps only 32 bits of an offset. *)
Lemma ReadRaw_payload_counterexample :
  exists st1 st2 view,
    AppendRaw 100 [1; 2; 3; 4] ex_s1_open = Some (true, st1)
    /\ ReadRaw 0 st1 = Some ((100, view), st2)
    /\ view_bytes view st2 = Some [1; 2; 3; 4; 0; 0; 0; 0]
    /\ [1; 2; 3; 4; 0; 0; 0; 0] <> [1; 2; 3; 4]
    /\ le_value (le_bytes 4 (2 ^ 32)) = 0.
Proof.
  destruct (AppendRaw 100 [1; 2; 3; 4] ex_s1_open) as [[b st1]|] eqn:E1;
    [|vm_compute in E1; discriminate E1].
  destruct (ReadRaw 0 st1) as [[[ts view] st2]|] eqn:E2;
    [|vm_compute in E1; injection E1 as _ <-; vm_compute in E2; discriminate E2].
  exists st1, st2, view.
  vm_compute in E1. injection E1 as <- <-.
  vm_compute in E2. injection E2 as <- <- <-.
  repeat split; try reflexivity. discriminate.
Qed.
(** * The header round trip *)

(** C6 (amended).  Let the time file be mapped and writable, let the strings
    of the header be byte strings and the record size a 32-bit value, and let
    the JSON text of the header be no longer than the 4096 bytes of the header
    region.  After a [Flush] that has written the header (the file is still
    mapped after it), a log that reads the header from the same bytes gets no
    error, and is given the [dataType], [dataLayout], [recordSize],
    [fixedSize] and [gapData] of the writer, its [mapOffset + writePos] of the
    time file as [timeWritePos] and that of the data file as [dataWritePos]. *)
Theorem header_round_trip st st' rd :
  m_mapping (mapping (m_time st)) = true -> readOnly (m_time st) = false ->
  mapOffset (m_time st) = 0 ->
  is_string (m_dataType st) -> is_string (m_dataLayout st) ->
  is_string (m_gapData st) ->
  0 <= m_recordSize st < 2 ^ 32 ->
  len (Json.dump 1 (header_json st)) <= kHeaderSize ->
  Flush st = Some (tt, st') -> is_mapped Time st' = true ->
  contents (m_time rd) = contents (m_time st') ->
  ReadHeader rd = Some (0, with_header (header_at st) rd).
Proof.
  intros Hm Hro Ho H1 H2 H3 Hr Hl HF Hm' Hc.
  unfold Flush, WriteHeader in HF.
  rewrite (bind_eq get _ st st st eq_refl) in HF.
  rewrite Hm, Hro in HF. cbn [negb orb] in HF.
  destruct (Write_effect _ _ _ _ _ _ HF) as [_ P].
  specialize (P Hm'). cbn [file_of] in P. rewrite Ho in P.
  change (u64 (0 - 0)) with 0 in P. rewrite len_header_bytes in P.
  pose proof (ReadHeader_header rd) as R.
  rewrite (header_of_bytes st (contents (m_time rd)) H1 H2 H3 Hr Hl) in R.
  - exact R.
  - rewrite Hc. exact P.
Qed.

(** C6 on scenario S2: the header flushed after the two appends is read
    back. *)
Lemma header_round_trip_witness :
  ReadHeader ex_s2_flushed
  = Some (0, with_header (header_at ex_s2) ex_s2_flushed).
Proof.
  apply (header_round_trip ex_s2 ex_s2_flushed ex_s2_flushed).
  - reflexivity.
  - reflexivity.
  - reflexivity.
  - repeat constructor; vm_compute; discriminate.
  - repeat constructor; vm_compute; discriminate.
  - repeat constructor; vm_compute; discriminate.
  - vm_compute. split; [discriminate|reflexivity].
  - vm_compute. discriminate.
  - vm_compute. reflexivity.
  - reflexivity.
  - reflexivity.
Defined.

(** C6 as stated fails: with a gap of 5000 bytes the JSON text is longer than
    the header region; [Flush] writes its first 4096 bytes, and both
    [ReadHeader] on these bytes and a read-only [DoOpen] of the files return
    [wrong_protocol_type]. *)
Lemma header_round_trip_counterexample :
  m_mapping (mapping (m_time ex_long)) = true
  /\ readOnly (m_time ex_long) = false
  /\ exists st' rd',
       Flush ex_long = Some (tt, st')
       /\ is_mapped Time st' = true
       /\ ReadHeader st' = Some (wrong_protocol_type, rd')
       /\ result (DoOpen (Some (contents (m_time st'))) (Some (contents (m_data st')))
                    (bytes "string"%string) [] 0 CD_OpenExisting
                    ex_readonly_config
                    (DataLogImpl_new []))
          = Some wrong_protocol_type.
Proof.
  split; [vm_compute; reflexivity|]. split; [vm_compute; reflexivity|].
  eexists. eexists. split; [vm_compute; reflexivity|].
  split; [vm_compute; reflexivity|].
  split; [vm_compute; reflexivity|].
  vm_compute. reflexivity.
Qed.

(** * Protocol errors of DataLogImpl::DoOpen *)

(** C7.  Let [DoOpen] open a time file that exists (the disposition is
    [CD_OpenExisting], or [CD_OpenAlways] on a file that is not empty), under
    an operating system whose own errors are not [wrong_protocol_type].
    [DoOpen] returns [wrong_protocol_type] if and only if the file has no
    header that parses with every key at its type, or the header fails a check
    that the configuration enables: [checkType] with another [dataType],
    [checkLayout] with another [dataLayout], [checkSize] with a record size
    that does not match the argument.  And when the header is good and passes
    the enabled checks, the open succeeds, provided the operating system maps
    the files, the data file of a variable-size log can be opened, the growth
    steps of a writable log are not zero and the last record is in the
    file. *)
Theorem DoOpen_protocol c data_disk dataType dataLayout recordSize disp config answers :
  creates disp (Some c) = false ->
  Forall os_error answers ->
  let r := DoOpen (Some c) data_disk dataType dataLayout recordSize disp config
             (DataLogImpl_new answers) in
  ((exists st', r = Some (wrong_protocol_type, st'))
   <-> (forall h, header_of c = Some h ->
        ~ checks_pass h dataType dataLayout recordSize config))
  /\ (forall h, header_of c = Some h ->
      checks_pass h dataType dataLayout recordSize config ->
      can_open h c data_disk disp config answers ->
      exists st', r = Some (0, st')).
Proof.
  intros Hcr Hos r.
  pose proof (DoOpen_existing c data_disk dataType dataLayout recordSize disp config
                answers Hcr Hos) as H.
  cbv zeta in H. fold r in H.
  destruct (header_of c) as [h|].
  - destruct H as [[Hn Hw]|(Hp & Hne & Hok)].
    + split.
      * split; [intros _ h' [= <-]; exact Hn|intros _; exact Hw].
      * intros h' [= <-] Hp. contradiction.
    + split.
      * split.
        -- intros [st' E]. exfalso. exact (Hne _ _ E eq_refl).
        -- intros Hf. exfalso. exact (Hf h eq_refl Hp).
      * intros h' [= <-] _. exact Hok.
  - split.
    + split; [intros _ h' E; discriminate E|intros _; exact H].
    + intros h' E. discriminate E.
Qed.

(** C7 on scenario S4, with the log of scenario S2: reopened for reading with
    another [dataType] the open fails with [wrong_protocol_type]; with the
    same [dataType] it succeeds, also when the header holds five more
    members, of the other kinds of JSON values. *)
Lemma DoOpen_protocol_witness :
  (exists st',
     DoOpen (Some (contents (m_time ex_s2_flushed))) (Some (contents (m_data ex_s2_flushed)))
       (bytes "double"%string) [] 0 CD_OpenExisting ex_readonly_config
       (DataLogImpl_new [])
     = Some (wrong_protocol_type, st'))
  /\ (exists st',
        DoOpen (Some (contents (m_time ex_s2_flushed))) (Some (contents (m_data ex_s2_flushed)))
          (bytes "string"%string) [] 0 CD_OpenExisting ex_readonly_config
          (DataLogImpl_new [])
        = Some (0, st'))
  /\ (exists st',
        DoOpen (Some ex_s2_more) (Some (contents (m_data ex_s2_flushed)))
          (bytes "string"%string) [] 0 CD_OpenExisting ex_readonly_config
          (DataLogImpl_new [])
        = Some (0, st')).
Proof.
  split; [|split].
  - apply (DoOpen_protocol (contents (m_time ex_s2_flushed))
             (Some (contents (m_data ex_s2_flushed))) (bytes "double"%string) [] 0
             CD_OpenExisting ex_readonly_config [] eq_refl (Forall_nil _)).
    intros h Hh. vm_compute in Hh. injection Hh as <-.
    intros (A & _). specialize (A eq_refl). discriminate A.
  - apply (DoOpen_protocol (contents (m_time ex_s2_flushed))
             (Some (contents (m_data ex_s2_flushed))) (bytes "string"%string) [] 0
             CD_OpenExisting ex_readonly_config [] eq_refl (Forall_nil _))
      with (h := header_at ex_s2).
    + vm_compute. reflexivity.
    + split; [intros _; reflexivity|]. split; [intros _; reflexivity|].
      intros _. split; [reflexivity|]. right. reflexivity.
    + split; [constructor|]. split; [intros _; reflexivity|].
      split; [intros E; discriminate E|].
      intros _. vm_compute. discriminate.
  - apply (DoOpen_protocol ex_s2_more
             (Some (contents (m_data ex_s2_flushed))) (bytes "string"%string) [] 0
             CD_OpenExisting ex_readonly_config [] eq_refl (Forall_nil _))
      with (h := header_at ex_s2).
    + vm_compute. reflexivity.
    + split; [intros _; reflexivity|]. split; [intros _; reflexivity|].
      intros _. split; [reflexivity|]. right. reflexivity.
    + split; [constructor|]. split; [intros _; reflexivity|].
      split; [intros E; discriminate E|].
      intros _. vm_compute. discriminate.
Defined.

(** * DataLogImpl::WriteHeader *)

(** C10.  When the time file is mapped and writable: where the mapping and the
    file hold the header region, [WriteHeader] returns with the bytes
    [header_bytes] written at offset 0 and nothing else changed; whenever it
    returns with the file still mapped, the first 4096 bytes of the file are
    [header_bytes].  These are exactly 4096 bytes: the JSON text and the line
    feed, followed by zero bytes up to 4096 when they are shorter, and their
    first 4096 bytes when they are longer; and when the JSON text itself is
    longer than 4096 bytes, no file that starts with them has a header that
    parses.  When the time file is not mapped, or is read-only, [WriteHeader]
    returns and leaves the log as it was. *)
Theorem WriteHeader_writes st :
  (m_mapping (mapping (m_time st)) = true -> readOnly (m_time st) = false ->
   mapOffset (m_time st) = 0 ->
   (kHeaderSize <= m_size (mapping (m_time st)) ->
    kHeaderSize <= len (contents (m_time st)) ->
    WriteHeader st
    = Some (tt, set_file Time
                  (set_contents (poke 0 (header_bytes st) (contents (m_time st)))
                     (m_time st)) st))
   /\ (forall st', WriteHeader st = Some (tt, st') -> is_mapped Time st' = true ->
       peek 0 kHeaderSize (contents (m_time st')) = header_bytes st)
   /\ len (header_bytes st) = kHeaderSize
   /\ (len (header_text st) <= kHeaderSize ->
       header_bytes st
       = header_text st ++ repeat 0 (Z.to_nat (kHeaderSize - len (header_text st))))
   /\ (kHeaderSize < len (header_text st) ->
       header_bytes st = firstn (Z.to_nat kHeaderSize) (header_text st))
   /\ (kHeaderSize < len (Json.dump 1 (header_json st)) ->
       is_string (m_dataType st) -> is_string (m_dataLayout st) ->
       is_string (m_gapData st) ->
       forall c, peek 0 kHeaderSize c = header_bytes st -> parse_header c = None))
  /\ (m_mapping (mapping (m_time st)) = false \/ readOnly (m_time st) = true ->
      WriteHeader st = Some (tt, st)).
Proof.
  split.
  - intros Hm Hro Ho. split; [|split; [|split; [|split; [|split]]]].
    + intros Hs Hc. unfold WriteHeader.
      rewrite (bind_eq get _ st st st eq_refl).
      rewrite Hm, Hro. cbn [negb orb]. unfold Write.
      pose proof (len_header_bytes st) as Hl. unfold kHeaderSize in *.
      rewrite (bind_eq _ _ _ _ _
                 (GetMappedOffset_covered Time 0 (len (header_bytes st)) st Hm
                    ltac:(cbn [file_of]; lia) ltac:(cbn [file_of]; lia)
                    ltac:(lia) ltac:(lia) ltac:(cbn [file_of]; lia))).
      cbn [file_of]. rewrite Ho. change (0 - 0) with 0.
      change (0 =? 0) with true. cbn [negb].
      unfold store. cbn [p_file p_off file_of].
      rewrite accessible_intro by (try assumption; lia).
      rewrite Hro. reflexivity.
    + intros st' HW Hm'. unfold WriteHeader in HW.
      rewrite (bind_eq get _ st st st eq_refl) in HW.
      rewrite Hm, Hro in HW. cbn [negb orb] in HW.
      destruct (Write_effect _ _ _ _ _ _ HW) as [_ P].
      specialize (P Hm'). cbn [file_of] in P. rewrite Ho in P.
      change (u64 (0 - 0)) with 0 in P. rewrite len_header_bytes in P. exact P.
    + apply len_header_bytes.
    + intros Hl. unfold header_bytes. fold (header_text st).
      rewrite resize_fit by exact Hl. f_equal. f_equal. unfold len. lia.
    + intros Hl. unfold header_bytes. fold (header_text st).
      apply resize_cut. unfold kHeaderSize in *. lia.
    + intros Hl H1 H2 H3 c Hc.
      apply (header_of_cut st c H1 H2 H3 Hl). exact Hc.
  - intros H. unfold WriteHeader.
    rewrite (bind_eq get _ st st st eq_refl).
    destruct H as [-> | ->]; [reflexivity|].
    rewrite orb_true_r. reflexivity.
Qed.

(** C10 on scenario S2, on the log with a gap of 5000 bytes, and on a log
    that is not open. *)
Lemma WriteHeader_writes_witness :
  WriteHeader ex_s2 = Some (tt, ex_s2_flushed)
  /\ parse_header (contents (m_time ex_s2_flushed)) <> None
  /\ (forall c, peek 0 kHeaderSize c = header_bytes ex_long -> parse_header c = None)
  /\ WriteHeader (DataLogImpl_new []) = Some (tt, DataLogImpl_new []).
Proof.
  destruct (WriteHeader_writes ex_s2) as [A _].
  specialize (A eq_refl eq_refl eq_refl). destruct A as (A & _).
  destruct (WriteHeader_writes ex_long) as [B _].
  specialize (B ltac:(vm_compute; reflexivity) ltac:(vm_compute; reflexivity)
                ltac:(vm_compute; reflexivity)).
  destruct B as (_ & _ & _ & _ & _ & B).
  destruct (WriteHeader_writes (DataLogImpl_new [])) as [_ C].
  split; [|split; [|split]].
  - rewrite A; [vm_compute; reflexivity| |]; vm_compute; discriminate.
  - vm_compute. discriminate.
  - apply B.
    + vm_compute. reflexivity.
    + repeat constructor; vm_compute; discriminate.
    + repeat constructor; vm_compute; discriminate.
    + apply Forall_forall. intros x Hx. apply repeat_spec in Hx. subst x. lia.
  - apply C. left. reflexivity.
Defined.

(** * Logs opened for reading *)

Lemma GetMappedOffset_readonly w pos n st r st' :
  readOnly (file_of w st) = true ->
  GetMappedOffset w pos n st = Some (r, st') ->
  files st' = files st.
Proof.
  intros Hro. unfold GetMappedOffset.
  destruct (_ && _ && _); [intros [= <- <-]; reflexivity|].
  destruct (next_os st) as [a rest]. rewrite Hro.
  destruct (mmap_errno a =? 0); intros [= <- <-]; destruct w; reflexivity.
Qed.

Lemma Read_readonly w pos n st r st' :
  readOnly (file_of w st) = true ->
  Read w pos n st = Some (r, st') ->
  files st' = files st.
Proof.
  intros Hro H. unfold Read in H.
  apply bind_Some in H as ([off ec] & s & E & H).
  apply (GetMappedOffset_readonly _ _ _ _ _ _ Hro) in E.
  destruct (negb (ec =? 0)); injection H as _ <-; exact E.
Qed.

Lemma read_only_preserved st st' :
  preserved st st' -> read_only st -> read_only st'.
Proof.
  intros (S & _) [H1 H2]. apply settings_fields in S as (_ & F & _ & T & D & _).
  unfold read_only. rewrite T, F, D. split; assumption.
Qed.

Lemma read64le_state p st r st' : read64le p st = Some (r, st') -> st' = st.
Proof.
  unfold read64le. intros H. apply bind_Some in H as (bs & s & E & H).
  apply load_state in E. injection H as _ <-. exact E.
Qed.

Lemma read32le_state p st r st' : read32le p st = Some (r, st') -> st' = st.
Proof.
  unfold read32le. intros H. apply bind_Some in H as (bs & s & E & H).
  apply load_state in E. injection H as _ <-. exact E.
Qed.

Lemma ReadRaw_readonly n st r st' :
  read_only st -> ReadRaw n st = Some (r, st') ->
  files st' = files st /\ read_only st'.
Proof.
  intros RO H. split; [|exact (read_only_preserved _ _ (ReadRaw_preserved _ _ _ _ H) RO)].
  destruct RO as [Ht Hd].
  unfold ReadRaw in H. apply bind_Some in H as (s & s0 & E & H).
  injection E as <- <-.
  apply bind_Some in H as (raw & s1 & ER & H).
  pose proof (Read_preserved _ _ _ _ _ _ ER) as P1.
  apply (Read_readonly Time _ _ _ _ _ Ht) in ER.
  destruct (_ || _); [injection H as _ <-; exact ER|].
  destruct (a_data raw) as [p|]; [|discriminate].
  apply bind_Some in H as (ts & s2 & E2 & H). apply read64le_state in E2. subst s2.
  destruct (m_fixedSize st) eqn:Hf; [injection H as _ <-; exact ER|].
  destruct Hd as [Hd|Hd]; [discriminate|].
  assert (Hd1 : readOnly (file_of Data s1) = true).
  { destruct P1 as (S & _). apply settings_fields in S as (_ & _ & _ & _ & D & _).
    cbn [file_of]. congruence. }
  destruct (m_recordSize st =? kLargePointerRecordSize).
  - apply bind_Some in H as (off & s3 & E3 & H). apply read64le_state in E3. subst s3.
    apply bind_Some in H as (sz & s4 & E4 & H). apply read64le_state in E4. subst s4.
    apply bind_Some in H as (rr & s5 & E5 & H). injection H as _ <-.
    apply (Read_readonly Data _ _ _ _ _ Hd1) in E5. congruence.
  - apply bind_Some in H as (off & s3 & E3 & H). apply read32le_state in E3. subst s3.
    apply bind_Some in H as (sz & s4 & E4 & H). apply read32le_state in E4. subst s4.
    apply bind_Some in H as (rr & s5 & E5 & H). injection H as _ <-.
    apply (Read_readonly Data _ _ _ _ _ Hd1) in E5. congruence.
Qed.

Lemma FindImpl_loop_readonly fuel timestamp :
  forall first count st r st',
    read_only st ->
    FindImpl_loop fuel timestamp first count st = Some (r, st') ->
    files st' = files st /\ read_only st'.
Proof.
  induction fuel as [|fuel IH]; intros first count st r st' RO H.
  - cbn in H. destruct (count <=? 0); injection H as _ <-; split; auto.
  - cbn [FindImpl_loop] in H.
    destruct (count <=? 0); [injection H as _ <-; split; auto|].
    apply bind_Some in H as (rr & s1 & E & H).
    destruct (ReadRaw_readonly _ _ _ _ RO E) as [F1 RO1].
    destruct (fst rr <? timestamp);
      destruct (IH _ _ _ _ _ RO1 H) as [F2 RO2]; split; congruence.
Qed.

Lemma FindImpl_readonly timestamp first last st r st' :
  read_only st -> FindImpl timestamp first last st = Some (r, st') ->
  files st' = files st /\ read_only st'.
Proof.
  intros RO. unfold FindImpl. rewrite (bind_eq get _ st st st eq_refl).
  apply FindImpl_loop_readonly. exact RO.
Qed.

Lemma call_eq c :
  call c = match c with
           | CallReadRaw n => ReadRaw n ;;; ret tt
           | CallFind timestamp first last => FindImpl timestamp first last ;;; ret tt
           | CallAppendRaw timestamp data => AppendRaw timestamp data ;;; ret tt
           | CallFlush => Flush
           end.
Proof. reflexivity. Qed.

Lemma AppendRaw_readonly timestamp data st b st' :
  read_only st -> AppendRaw timestamp data st = Some (b, st') -> st' = st.
Proof.
  intros RO E.
  unfold AppendRaw in E. apply bind_Some in E as (out & s1 & E1 & E).
  destruct (AppendRawStart_cases _ _ _ _ _ E1) as (_ & _ & _ & R & _).
  destruct R as [-> ->].
  { unfold rejected. destruct RO as [-> _]. apply orb_true_r. }
  injection E as _ <-. reflexivity.
Qed.

Lemma Flush_readonly st u st' :
  read_only st -> Flush st = Some (u, st') -> st' = st.
Proof.
  intros [Ht Hd]. unfold Flush, WriteHeader.
  rewrite (bind_eq get _ st st st eq_refl). rewrite Ht, orb_true_r.
  intros [= _ <-]. reflexivity.
Qed.

Lemma call_readonly c st u st' :
  read_only st -> call c st = Some (u, st') ->
  files st' = files st /\ read_only st'.
Proof.
  intros RO H. rewrite call_eq in H.
  destruct c as [n|timestamp first last|timestamp data|].
  - apply bind_Some in H as (r & s & E & H). injection H as _ <-.
    exact (ReadRaw_readonly _ _ _ _ RO E).
  - apply bind_Some in H as (r & s & E & H). injection H as _ <-.
    exact (FindImpl_readonly _ _ _ _ _ _ RO E).
  - apply bind_Some in H as (b & s & E & H). injection H as _ <-.
    rewrite (AppendRaw_readonly _ _ _ _ _ RO E). split; auto.
  - rewrite (Flush_readonly _ _ _ RO H). split; auto.
Qed.

(** X1.  A log opened for reading never changes its files: whatever run of
    [ReadRaw], [FindImpl], [AppendRaw] and [Flush] is made on a log whose
    time file is read-only, and whose data file is read-only when it has
    one, the bytes of both files are afterwards what they were, and the log
    is still read-only. *)
Theorem read_only_keeps_files (l : list Call) :
  forall st st',
    read_only st -> calls l st = Some (tt, st') ->
    files st' = files st /\ read_only st'.
Proof.
  induction l as [|c l IH]; intros st st' RO H.
  - injection H as <-. split; auto.
  - cbn [calls] in H. apply bind_Some in H as (u & s & E & H).
    destruct (call_readonly _ _ _ _ RO E) as [F1 RO1].
    destruct (IH _ _ RO1 H) as [F2 RO2]. split; congruence.
Qed.

(** X1 on the log of scenario S2, opened again for reading: a read, an
    append, a flush and a search leave the two files as they were. *)
Lemma read_only_keeps_files_witness :
  exists st',
    calls ex_calls ex_s2_reopened = Some (tt, st')
    /\ files st' = files ex_s2_reopened /\ read_only st'.
Proof.
  destruct (calls ex_calls ex_s2_reopened) as [[[] st']|] eqn:E;
    [|vm_compute in E; discriminate E].
  exists st'. split; [reflexivity|].
  apply (read_only_keeps_files ex_calls ex_s2_reopened st'); [|exact E].
  split; [reflexivity|right; reflexivity].
Defined.

(** * FileInfo::Close *)

Lemma peek_resize_cut off n m c :
  0 <= off -> 0 <= n -> off + n <= m -> m <= len c ->
  peek off n (resize m c) = peek off n c.
Proof.
  unfold peek, resize, len. intros H0 Hn H1 H2.
  replace (Z.to_nat m - length c)%nat with 0%nat by lia.
  cbn [repeat]. rewrite app_nil_r.
  rewrite skipn_firstn_comm, firstn_firstn. f_equal. lia.
Qed.

(** X2.  [FileInfo::Close] always returns, with the file unmapped and its
    descriptor -1, and leaves the other file, the settings and the write
    positions alone.  An open, writable file with a write position above 0 is
    cut to that position when the operating system truncates it, and the
    bytes below the position stay; a file that is not open, is read-only or
    has the write position 0 keeps its bytes, and the operating system is not
    asked.  Closing again changes nothing.  The time file of a log that can
    be appended to is, once closed this way, as long as the header and the
    records: 4096 bytes and [recordSize] for each of the [size()] records. *)
Theorem Close_cuts (w : Which) (st : World) :
  let f := file_of w st in
  exists st',
    Close w st = Some (tt, st')
    /\ is_mapped w st' = false /\ fd (file_of w st') = -1
    /\ file_of (other w) st' = file_of (other w) st
    /\ settings st' = settings st /\ positions st' = positions st
    /\ (fd f <> -1 -> readOnly f = false -> 0 < writePos f ->
        ftruncate_ok (fst (next_os st)) = true ->
        len (contents (file_of w st')) = writePos f
        /\ (writePos f <= len (contents f) ->
            forall off n, 0 <= off -> 0 <= n -> off + n <= writePos f ->
              peek off n (contents (file_of w st')) = peek off n (contents f)))
    /\ (fd f = -1 \/ readOnly f = true \/ writePos f = 0 ->
        contents (file_of w st') = contents f /\ os st' = os st)
    /\ Close w st' = Some (tt, st')
    /\ (w = Time -> well_formed st -> fd f <> -1 -> readOnly f = false ->
        ftruncate_ok (fst (next_os st)) = true ->
        len (contents (m_time st')) = kHeaderSize + size st * m_recordSize st).
Proof.
  intros f. unfold Close. fold f.
  set (cut := negb (fd f =? -1) && negb (writePos f =? 0) && negb (readOnly f)).
  destruct (if cut then next_os st else (os_fine, os st)) as [a rest] eqn:Ea.
  eexists. split; [reflexivity|].
  split; [destruct w; reflexivity|]. split; [destruct w; reflexivity|].
  split; [destruct w; reflexivity|]. split; [destruct w; reflexivity|].
  split; [destruct w; reflexivity|].
  match goal with |- ?A /\ _ => assert (Cut : A) end.
  2:{ split; [exact Cut|]. split; [|split].
      - intros Hc.
        assert (Hcut : cut = false).
        { subst cut. destruct Hc as [Hc|[Hc|Hc]]; rewrite Hc;
            rewrite ?andb_false_r; reflexivity. }
        rewrite Hcut in Ea. injection Ea as <- <-. rewrite Hcut. cbn [andb].
        split; destruct w; reflexivity.
      - destruct w; cbn [file_of set_file set_env m_time m_data fd]; reflexivity.
      - intros -> WF Hfd Hro Hok.
        destruct WF as (R8 & _ & (_ & Tw & _) & _ & Hh & Hm & _).
        cbn [file_of] in f. fold f in Tw, Hh, Hm.
        destruct (Cut Hfd Hro ltac:(unfold kHeaderSize in Hh; lia) Hok) as [L _].
        cbn [file_of] in L. rewrite L.
        unfold size. fold f. rewrite u64_small by (unfold kHeaderSize in *; lia).
        pose proof (Z.div_exact (writePos f - kHeaderSize) (m_recordSize st)
                      ltac:(lia)) as [_ D].
        specialize (D Hm). lia. }
  { intros Hfd Hro Hwp Hok.
    assert (Hcut : cut = true).
    { subst cut. rewrite Hro.
      replace (fd f =? -1) with false by (symmetry; apply Z.eqb_neq; exact Hfd).
      replace (writePos f =? 0) with false by (symmetry; apply Z.eqb_neq; lia).
      reflexivity. }
    rewrite Hcut in Ea. rewrite Ea in Hok. cbn [fst] in Hok.
    rewrite Hcut, Hok. cbn [andb].
    assert (Ec : contents (file_of w
                   (set_env rest (perrors st)
                      (set_file w
                         (mkFileInfo (-1) (readOnly f) (writePos f) (fileSize f)
                            (mapOffset f) (mapGrowSize f) (maxGrowSize f) (maxMapSize f)
                            (Unmap (mapping f)) (resize (writePos f) (contents f))) st)))
                 = resize (writePos f) (contents f)) by (destruct w; reflexivity).
    cbn [negb]. rewrite Ec. split; [apply len_resize; lia|].
    intros Hl off n H0 Hn Hb. apply peek_resize_cut; lia. }
Qed.

(** * DataLog::Open *)



(** * The periodic flush *)

Lemma header_at_settings st st' :
  settings st' = settings st -> positions st' = positions st ->
  header_at st' = header_at st.
Proof.
  unfold settings, positions, header_at. intros S P.
  injection S as -> -> -> -> -> _ _ _ _ -> ->. injection P as -> ->. reflexivity.
Qed.

(** What a [Flush] that has written the header leaves in the file. *)
Lemma Flush_header st st' :
  m_mapping (mapping (m_time st)) = true -> readOnly (m_time st) = false ->
  mapOffset (m_time st) = 0 ->
  is_string (m_dataType st) -> is_string (m_dataLayout st) ->
  is_string (m_gapData st) ->
  0 <= m_recordSize st < 2 ^ 32 ->
  len (Json.dump 1 (header_json st)) <= kHeaderSize ->
  Flush st = Some (tt, st') -> is_mapped Time st' = true ->
  header_of (contents (m_time st')) = Some (header_at st)
  /\ preserved st st' /\ m_data st' = m_data st
  /\ m_periodicFlushCount st' = m_periodicFlushCount st.
Proof.
  intros Hm Hro Ho H1 H2 H3 Hr Hl HF Hm'.
  unfold Flush in HF.
  destruct (WriteHeader_preserved _ _ _ HF) as (P & D & C).
  split; [|split; [exact P|split; [exact D|exact C]]].
  unfold WriteHeader in HF.
  rewrite (bind_eq get _ st st st eq_refl) in HF.
  rewrite Hm, Hro in HF. cbn [negb orb] in HF.
  destruct (Write_effect _ _ _ _ _ _ HF) as [_ Q].
  specialize (Q Hm'). cbn [file_of] in Q. rewrite Ho in Q.
  change (u64 (0 - 0)) with 0 in Q. rewrite len_header_bytes in Q.
  apply (header_of_bytes st _ H1 H2 H3 Hr Hl). exact Q.
Qed.

(** The steps of [AppendRawFinish]: the positions are advanced, which gives
    [s2], and then the counter of the periodic flush is looked at. *)
Lemma AppendRawFinish_steps st sz u st' :
  AppendRawFinish sz st = Some (u, st') ->
  exists s2,
    m_time s2 = set_writePos (u64 (writePos (m_time st) + m_recordSize st)) (m_time st)
    /\ settings s2 = settings st
    /\ m_periodicFlushCount s2 = m_periodicFlushCount st
    /\ if m_periodicFlush st =? 0 then st' = s2
       else if m_periodicFlush st <=? m_periodicFlushCount st + 1
            then exists s4,
                   Flush (set_periodicFlushCount (m_periodicFlushCount st + 1) s2)
                   = Some (tt, s4)
                   /\ st' = set_periodicFlushCount 0 s4
            else st' = set_periodicFlushCount (m_periodicFlushCount st + 1) s2.
Proof.
  unfold AppendRawFinish. intros H.
  apply bind_Some in H as (s0 & s0' & E0 & H). injection E0 as <- <-.
  apply bind_Some in H as (u1 & s1 & E1 & H).
  assert (A : settings s1 = settings st /\ m_time s1 = m_time st
              /\ m_periodicFlushCount s1 = m_periodicFlushCount st).
  { destruct (m_fixedSize st) eqn:Efix; cbn [negb] in E1.
    { injection E1 as _ <-. repeat split. }
    apply bind_Some in E1 as (u2 & s2 & E2 & E1).
    apply upd_file_Some in E2. subst s2.
    destruct (len (m_gapData st) =? 0) eqn:Eg; cbn [negb] in E1.
    { injection E1 as _ <-. repeat split. }
    apply bind_Some in E1 as (s3 & s3' & E3 & E1). injection E3 as <- <-.
    apply bind_Some in E1 as (u4 & s4 & E4 & E1).
    pose proof (Write_preserved _ _ _ _ _ _ E4) as (P1 & P2 & P3).
    pose proof (Write_count _ _ _ _ _ _ E4) as C.
    destruct (Write_effect _ _ _ _ _ _ E4) as (O & _).
    apply upd_file_Some in E1. subst s1.
    cbn [other file_of] in O.
    split; [|split].
    - unfold settings in *. cbn in *. exact P1.
    - cbn. exact O.
    - cbn. exact C. }
  destruct A as (A1 & A2 & A3).
  apply bind_Some in H as (u5 & s5 & E5 & H).
  apply upd_file_Some in E5. subst s5.
  exists (set_file Time
            (set_writePos (u64 (writePos (file_of Time s1) + m_recordSize st))
               (file_of Time s1)) s1).
  split; [cbn [file_of set_file m_time]; rewrite A2; reflexivity|].
  split; [rewrite <- A1; unfold settings; cbn; reflexivity|].
  split; [cbn; exact A3|].
  rewrite <- A3.
  destruct (m_periodicFlush st =? 0); cbn [negb] in H.
  { injection H as _ <-. reflexivity. }
  apply bind_Some in H as (u6 & s6 & E6 & H).
  apply modify_Some in E6. subst s6.
  apply bind_Some in H as (s7 & s7' & E7 & H). injection E7 as <- <-.
  cbn [m_periodicFlushCount set_periodicFlushCount set_file] in H.
  destruct (m_periodicFlush st <=? m_periodicFlushCount s1 + 1).
  - apply bind_Some in H as ([] & s8 & E8 & H).
    apply modify_Some in H. exists s8. split; [exact E8|exact H].
  - injection H as _ <-. reflexivity.
Qed.

Lemma header_json_settings st st' :
  settings st' = settings st -> positions st' = positions st ->
  header_json st' = header_json st.
Proof.
  unfold settings, positions, header_json. intros S P.
  injection S as -> -> -> -> -> _ _ _ _ -> ->. injection P as -> ->. reflexivity.
Qed.

(** X4.  The periodic flush of [AppendRawFinish].  With [periodicFlush] 0 the
    counter and the time file's bytes stay as they are.  Otherwise the
    counter goes up by one and the bytes stay, until the counter reaches
    [periodicFlush]: then the counter is back at 0 and the header has been
    written.  The header read from the file is then the header of the log
    with the new record counted in, provided the time file is writable and
    mapped, before and after, from offset 0, the type, the layout and the
    gap are strings of characters, the record size is a 32-bit value, and the
    text of the new header is no longer than the 4096 bytes kept for it. *)
Theorem AppendRawFinish_periodic (st : World) (sz : Z) (st' : World) :
  AppendRawFinish sz st = Some (tt, st') ->
  (m_periodicFlush st = 0 ->
   m_periodicFlushCount st' = m_periodicFlushCount st
   /\ contents (m_time st') = contents (m_time st))
  /\ (m_periodicFlush st <> 0 ->
      m_periodicFlushCount st + 1 < m_periodicFlush st ->
      m_periodicFlushCount st' = m_periodicFlushCount st + 1
      /\ contents (m_time st') = contents (m_time st))
  /\ (m_periodicFlush st <> 0 ->
      m_periodicFlush st <= m_periodicFlushCount st + 1 ->
      m_periodicFlushCount st' = 0
      /\ (m_mapping (mapping (m_time st)) = true -> readOnly (m_time st) = false ->
          mapOffset (m_time st) = 0 ->
          is_string (m_dataType st) -> is_string (m_dataLayout st) ->
          is_string (m_gapData st) ->
          0 <= m_recordSize st < 2 ^ 32 ->
          len (Json.dump 1 (header_json st')) <= kHeaderSize ->
          is_mapped Time st' = true ->
          header_of (contents (m_time st')) = Some (header_at st'))).
Proof.
  intros H. destruct (AppendRawFinish_steps _ _ _ _ H) as (s2 & T & S & C & K).
  split; [|split].
  - intros N0. rewrite N0 in K. cbn in K. subst st'.
    split; [exact C|rewrite T; reflexivity].
  - intros N0 Lt.
    replace (m_periodicFlush st =? 0) with false in K
      by (symmetry; apply Z.eqb_neq; exact N0).
    replace (m_periodicFlush st <=? m_periodicFlushCount st + 1) with false in K
      by (symmetry; apply Z.leb_gt; exact Lt).
    subst st'. split; [reflexivity|]. cbn. rewrite T. reflexivity.
  - intros N0 Le.
    replace (m_periodicFlush st =? 0) with false in K
      by (symmetry; apply Z.eqb_neq; exact N0).
    replace (m_periodicFlush st <=? m_periodicFlushCount st + 1) with true in K
      by (symmetry; apply Z.leb_le; exact Le).
    destruct K as (s4 & EF & ->). split; [reflexivity|].
    intros Hm Hro Ho H1 H2 H3 Hr Hl Hm'.
    set (s3 := set_periodicFlushCount (m_periodicFlushCount st + 1) s2) in *.
    assert (S3 : settings s3 = settings st) by exact S.
    assert (T3 : m_time s3 = m_time s2) by reflexivity.
    unfold settings in S3. injection S3 as D1 D2 D3 D4 D5 _ _ _ _ _ _.
    destruct (WriteHeader_preserved _ _ _ EF) as ((P1 & P2 & _) & _ & _).
    assert (J : header_json (set_periodicFlushCount 0 s4) = header_json s3).
    { apply (header_json_settings s3 s4); assumption. }
    assert (A : header_at (set_periodicFlushCount 0 s4) = header_at s3).
    { apply (header_at_settings s3 s4); assumption. }
    rewrite A. rewrite J in Hl.
    apply (Flush_header s3 s4); try assumption.
    + rewrite T3, T. exact Hm.
    + rewrite T3, T. exact Hro.
    + rewrite T3, T. exact Ho.
    + change (is_string (m_dataType s2)). rewrite D1. exact H1.
    + change (is_string (m_dataLayout s2)). rewrite D2. exact H2.
    + change (is_string (m_gapData s2)). rewrite D5. exact H3.
    + change (0 <= m_recordSize s2 < 2 ^ 32). rewrite D3. exact Hr.
Qed.

(** X4 on a new log that flushes after every record: the append that is
    finished leaves the counter at 0 and the header in the file. *)
Lemma AppendRawFinish_periodic_witness :
  exists st',
    AppendRawFinish 8 ex_flush_started = Some (tt, st')
    /\ m_periodicFlushCount st' = 0
    /\ header_of (contents (m_time st')) = Some (header_at st').
Proof.
  pose (st' := state_after (AppendRawFinish 8) ex_flush_started).
  assert (E : AppendRawFinish 8 ex_flush_started = Some (tt, st'))
    by (vm_compute; reflexivity).
  exists st'. split; [exact E|].
  destruct (AppendRawFinish_periodic ex_flush_started 8 st' E) as (_ & _ & F).
  destruct F as [F1 F2]; [discriminate|vm_compute; discriminate|].
  split; [exact F1|].
  apply F2; try reflexivity.
  - repeat constructor; discriminate.
  - constructor.
  - constructor.
  - vm_compute. split; [discriminate|reflexivity].
  - vm_compute. discriminate.
Defined.

(** * New logs *)

Lemma next_os_ok st :
  Forall os_ok (os st) -> os_ok (fst (next_os st)) /\ Forall os_ok (snd (next_os st)).
Proof.
  unfold next_os. intros H. destruct (os st) as [|a r]; cbn.
  - split; [split; reflexivity|constructor].
  - inversion H; subst. split; assumption.
Qed.

(** The first mapping of a writable file, under an operating system that
    does what it is asked. *)
Lemma GetMappedOffset_first w pos n st :
  let f := file_of w st in
  let fs := Z.max (fileSize f) (round_up (pos + n) (mapGrowSize f)) in
  m_mapping (mapping f) = false -> readOnly f = false ->
  0 < mapGrowSize f < 2 ^ 63 -> 0 <= pos -> 0 <= n ->
  pos + n + mapGrowSize f < 2 ^ 64 ->
  Forall os_ok (os st) ->
  GetMappedOffset w pos n st
  = Some ((u64 (pos - mapOffset f), 0),
          set_env (snd (next_os st)) (perrors st)
            (set_file w
               (mkFileInfo (fd f) false (writePos f) fs (mapOffset f)
                  (next_grow (mapGrowSize f) (maxGrowSize f))
                  (maxGrowSize f) (maxMapSize f) (mkMappedFile true fs)
                  (resize fs (contents f))) st))
  /\ pos + n <= round_up (pos + n) (mapGrowSize f) < pos + n + mapGrowSize f.
Proof.
  intros f fs Hm Hro Hg Hp Hn Hb Hos. subst fs. unfold round_up.
  destruct (round_up_bounds (pos + n) (mapGrowSize f) (proj1 Hg) ltac:(lia)) as [Hr _].
  split; [|exact Hr].
  set (size := (pos + n + mapGrowSize f - 1) / mapGrowSize f * mapGrowSize f) in *.
  unfold GetMappedOffset. fold f. rewrite Hm, Hro. cbn [andb].
  destruct (next_os_ok st Hos) as [[Ht Hmm] _].
  destruct (next_os st) as [a rest]. cbn [fst snd] in *.
  replace (mapGrowSize f =? 0) with false by (symmetry; apply Z.eqb_neq; lia).
  rewrite Ht, Hmm. change (0 =? 0) with true.
  rewrite (u64_small (pos + n + mapGrowSize f - 1)) by lia.
  fold size. rewrite (u64_small size) by lia.
  assert (Efs : (if fileSize f <? size then size else fileSize f)
                = Z.max (fileSize f) size).
  { destruct (Z.ltb_spec (fileSize f) size); lia. }
  rewrite Efs.
  assert (Eg : (if mapGrowSize f <? maxGrowSize f
                then if maxGrowSize f <? u64 (mapGrowSize f * 2)
                     then maxGrowSize f else u64 (mapGrowSize f * 2)
                else mapGrowSize f) = next_grow (mapGrowSize f) (maxGrowSize f)).
  { unfold next_grow. destruct (Z.ltb_spec (mapGrowSize f) (maxGrowSize f)); [|reflexivity].
    rewrite u64_small by lia.
    destruct (Z.ltb_spec (maxGrowSize f) (mapGrowSize f * 2)); lia. }
  rewrite Eg. reflexivity.
Qed.

Lemma creates_empty disp td :
  creates disp td = true -> fst (openFile td disp) = 0 ->
  openFile td disp = (0, []).
Proof. destruct disp; destruct td as [[|x c]|]; cbn; intros; congruence. Qed.

Lemma new_recordSize_bounds recordSize config :
  recordSize = 0 \/ 8 <= recordSize < 2 ^ 32 ->
  8 <= new_recordSize recordSize config < 2 ^ 32
  /\ (negb (recordSize =? 0) = false ->
      new_recordSize recordSize config = 16 \/ new_recordSize recordSize config = 24).
Proof.
  unfold new_recordSize. intros [->|H]; cbn.
  - destruct (cfg_largeData config); cbn; split; try lia; intros _; auto.
  - replace (recordSize =? 0) with false by (symmetry; apply Z.eqb_neq; lia).
    cbn. split; [lia|discriminate].
Qed.

(** X5.  [DoOpen] on a time file that is created (or found empty), writable,
    with record and growth sizes in range and an operating system that grows
    and maps the files: it returns 0 and leaves a log that appends go
    through on, with no record and the last timestamp 0, whose header would
    hold the given type and layout, the record size asked for (16 or 24 for
    a variable-size log), the gap of the configuration and the write
    positions 4096 and 0; the time file is mapped, and as long as the
    header, one record and the rounding up to the growth step make it. *)
Theorem DoOpen_new_log td dd dataType dataLayout recordSize disp config answers :
  creates disp td = true -> fst (openFile td disp) = 0 ->
  cfg_readOnly config = false ->
  config_ok recordSize config ->
  (recordSize = 0 ->
   fst (openFile dd disp) = 0 /\ len (snd (openFile dd disp)) < 2 ^ 64) ->
  Forall os_ok answers ->
  exists st0,
    DoOpen td dd dataType dataLayout recordSize disp config (DataLogImpl_new answers)
    = Some (0, st0)
    /\ appendable st0 /\ size st0 = 0 /\ m_lastTimestamp st0 = 0
    /\ header_at st0
       = mkHeader dataType dataLayout (new_recordSize recordSize config)
           (negb (recordSize =? 0)) (cfg_gapData config) kHeaderSize 0
    /\ m_checkMonotonic st0 = cfg_checkMonotonic config
    /\ m_periodicFlush st0 = cfg_periodicFlush config
    /\ is_mapped Time st0 = true
    /\ len (contents (m_time st0))
       = round_up (kHeaderSize + new_recordSize recordSize config)
           (cfg_initialSize config * new_recordSize recordSize config).
Proof.
  intros Hcr Ho Hro (Hrs & Hg & Hmg & Hdg & Hdm) Hd Hos.
  pose proof (creates_fresh disp td Hcr Ho) as Hcond.
  pose proof (creates_empty disp td Hcr Ho) as HO. rewrite HO in Hcond. cbn [snd] in Hcond.
  destruct (new_recordSize_bounds recordSize config Hrs) as [Hb Hv].
  set (rs := new_recordSize recordSize config) in *.
  set (r := DoOpen td dd dataType dataLayout recordSize disp config
              (DataLogImpl_new answers)).
  assert (Er : r = DoOpen td dd dataType dataLayout recordSize disp config
                     (DataLogImpl_new answers)) by reflexivity.
  clearbody r. unfold DoOpen in Er. unfold Open at 1 in Er. rewrite HO in Er.
  match type of Er with _ = bind (bind ?c0 ?k0) ?k ?s =>
    rewrite (bind_eq (bind c0 k0) k s 0 _ eq_refl) in Er end.
  change (0 =? 0) with true in Er. cbn [negb] in Er.
  stepin Er. stepin Er.
  match type of Er with context [fileSize (m_time ?s)] =>
    change (fileSize (m_time s)) with (len (@nil Z)) in Er end.
  rewrite Hcond in Er.
  assert (Ers : (if negb (recordSize =? 0) then recordSize
                 else if cfg_largeData config then kLargePointerRecordSize
                      else kSmallPointerRecordSize) = rs).
  { subst rs. unfold new_recordSize. destruct (recordSize =? 0); reflexivity. }
  rewrite Ers, Hro in Er.
  match type of Er with _ = bind ?c0 ?k ?s =>
    rewrite (bind_eq c0 k s 0 _ eq_refl) in Er end.
  change (0 =? 0) with true in Er. cbn [negb] in Er.
  stepin Er. stepin Er. stepin Er. stepin Er.
  cbn [m_recordSize set_config set_recordSize set_header_field set_gapData set_file
       file_of m_time m_data writePos set_writePos m_fixedSize set_fixedSize
       set_dataType set_dataLayout Nat.eqb DataLogImpl_new FileInfo_new
       m_dataType m_dataLayout m_gapData m_lastTimestamp m_checkMonotonic
       m_periodicFlush m_periodicFlushCount os perrors set_growth set_fileSize
       GetFileSize fd readOnly fileSize mapOffset mapGrowSize maxGrowSize
       maxMapSize mapping contents] in Er.
  rewrite (u64_small (cfg_initialSize config * rs)) in Er by lia.
  rewrite (u64_small (cfg_maxGrowSize config * rs)) in Er by lia.
  replace (kHeaderSize + rs <? kHeaderSize) with false in Er
    by (symmetry; apply Z.ltb_ge; lia).
  match type of Er with _ = bind ?c0 ?k ?s => set (s3 := s) in Er end.
  destruct (GetMappedOffset_first Time kHeaderSize rs s3 eq_refl eq_refl)
    as [EG Hr];
    [exact Hg|unfold kHeaderSize; lia|lia
    |change (kHeaderSize + rs + cfg_initialSize config * rs < 2 ^ 64);
     unfold kHeaderSize; lia
    |exact Hos|].
  cbv zeta in EG, Hr.
  change (mapGrowSize (file_of Time s3)) with (cfg_initialSize config * rs) in EG, Hr.
  change (fileSize (file_of Time s3)) with 0 in EG.
  set (fsz := round_up (kHeaderSize + rs) (cfg_initialSize config * rs)) in *.
  rewrite Z.max_r in EG by (unfold kHeaderSize in *; lia).
  match type of EG with _ = Some (_, ?s) => set (s4 := s) in EG end.
  match type of Er with _ = bind (bind ?c0 ?k0) ?k ?s =>
    rewrite (bind_eq (bind c0 k0) k s 0 s4) in Er
      by (rewrite (bind_eq _ _ _ _ _ EG); reflexivity) end.
  change (0 =? 0) with true in Er. cbn [negb] in Er.
  destruct (next_os_ok s3 Hos) as [_ Hos4].
  assert (Ft : file_ok (m_time s4)).
  { subst s4. cbn. unfold file_ok. cbn. unfold kHeaderSize in *.
    rewrite len_resize by lia. repeat split; try lia.
    right. unfold next_grow.
    destruct (Z.ltb_spec (cfg_initialSize config * rs) (cfg_maxGrowSize config * rs));
      cbn [mapGrowSize maxGrowSize]; lia. }
  assert (Common : forall st0,
             m_dataType st0 = dataType -> m_dataLayout st0 = dataLayout ->
             m_recordSize st0 = rs -> m_fixedSize st0 = negb (recordSize =? 0) ->
             m_gapData st0 = cfg_gapData config -> m_lastTimestamp st0 = 0 ->
             m_checkMonotonic st0 = cfg_checkMonotonic config ->
             m_periodicFlush st0 = cfg_periodicFlush config ->
             m_time st0 = m_time s4 ->
             file_ok (m_data st0) -> writePos (m_data st0) = 0 ->
             readOnly (m_data st0) = false -> backed (m_data st0) ->
             Forall os_ok (os st0) ->
             appendable st0 /\ size st0 = 0 /\ m_lastTimestamp st0 = 0
             /\ header_at st0
                = mkHeader dataType dataLayout rs (negb (recordSize =? 0))
                    (cfg_gapData config) kHeaderSize 0
             /\ m_checkMonotonic st0 = cfg_checkMonotonic config
             /\ m_periodicFlush st0 = cfg_periodicFlush config
             /\ is_mapped Time st0 = true
             /\ len (contents (m_time st0)) = fsz).
  { intros st0 E1 E2 E3 E4 E5 E6 E7 E8 E9 Fd Wd Rd Bd Hos0.
    pose proof Fd as (Od & _).
    assert (Wt : writePos (m_time st0) = kHeaderSize) by (rewrite E9; reflexivity).
    assert (Lt : len (contents (m_time st0)) = fsz).
    { rewrite E9. subst s4. cbn. apply len_resize. unfold kHeaderSize in *. lia. }
    split.
    { split.
      { unfold well_formed. rewrite E3, E4, Wt, Lt, Z.sub_diag.
        split; [lia|]. split; [exact Hv|]. split; [rewrite E9; exact Ft|].
        split; [exact Fd|]. split; [lia|]. split; [apply Z.mod_0_l; lia|].
        unfold kHeaderSize in *. lia. }
      split; [rewrite E9; reflexivity|]. split; [exact Rd|].
      split; [|split; [exact Bd|exact Hos0]].
      intros _. rewrite Lt, E9. subst s4. cbn. lia. }
    split.
    { unfold size. rewrite Wt, Z.sub_diag.
      change (u64 0) with 0. apply Z.div_0_l. rewrite E3. lia. }
    split; [exact E6|]. split.
    { unfold header_at. rewrite E1, E2, E3, E4, E5, Wt, Wd, Od.
      assert (Ot : mapOffset (m_time st0) = 0) by (rewrite E9; reflexivity).
      rewrite Ot. reflexivity. }
    split; [exact E7|]. split; [exact E8|].
    split; [unfold is_mapped; cbn [file_of]; rewrite E9; reflexivity|exact Lt]. }
  destruct (recordSize =? 0) eqn:Ez; cbn [negb] in Er, Common |- *.
  - apply Z.eqb_eq in Ez. destruct (Hd Ez) as [Hod Hld].
    unfold Open in Er. destruct (openFile dd disp) as [e0 d].
    cbn [fst snd] in Hod, Hld. subst e0.
    match type of Er with _ = bind (bind ?c0 ?k0) ?k ?s =>
      rewrite (bind_eq (bind c0 k0) k s 0 _ eq_refl) in Er end.
    change (0 =? 0) with true in Er. cbn [negb] in Er.
    stepin Er. stepin Er.
    match type of Er with _ = bind (GetMappedOffset Data ?p ?n) ?k ?s =>
      change p with 0 in Er; set (s6 := s) in Er end.
    pose proof (len_nonneg d) as Hd0.
    destruct (GetMappedOffset_first Data 0 1024 s6 eq_refl eq_refl)
      as [EG2 Hr2];
      [exact Hdg|lia|lia
      |change (0 + 1024 + cfg_initialDataSize config < 2 ^ 64); lia
      |exact Hos4|].
    cbv zeta in EG2, Hr2. change (0 + 1024) with 1024 in EG2, Hr2.
    change (mapGrowSize (file_of Data s6)) with (cfg_initialDataSize config) in EG2, Hr2.
    change (fileSize (file_of Data s6)) with (len d) in EG2.
    rewrite (bind_eq _ _ _ _ _ EG2) in Er.
    eexists. split; [exact Er|].
    destruct (next_os_ok s6 Hos4) as [_ Hos7].
    apply Common; try reflexivity.
    + cbn. unfold file_ok. cbn. rewrite len_resize by lia.
      repeat split; try lia.
      right. unfold next_grow.
      destruct (Z.ltb_spec (cfg_initialDataSize config) (cfg_maxDataGrowSize config));
        cbn [mapGrowSize maxGrowSize]; lia.
    + intros _. cbn. rewrite len_resize by lia. lia.
    + exact Hos7.
  - eexists. split; [exact Er|].
    apply Common; try reflexivity.
    + cbn. unfold file_ok. cbn. repeat split; try lia.
      right. cbn. split; lia.
    + intros H. discriminate H.
    + exact Hos4.
Qed.

(** X5 on scenario S1: a new log of 16-byte records. *)
Lemma DoOpen_new_log_witness :
  exists st0,
    DoOpen None None (bytes "double"%string) [] 16 CD_CreateAlways ex_config
      (DataLogImpl_new [])
    = Some (0, st0)
    /\ appendable st0 /\ size st0 = 0 /\ m_lastTimestamp st0 = 0
    /\ header_at st0
       = mkHeader (bytes "double"%string) [] 16 true (bytes "##"%string) kHeaderSize 0
    /\ m_checkMonotonic st0 = true
    /\ m_periodicFlush st0 = 0
    /\ is_mapped Time st0 = true
    /\ len (contents (m_time st0)) = 4128.
Proof.
  apply (DoOpen_new_log None None (bytes "double"%string) [] 16 CD_CreateAlways
           ex_config [] eq_refl eq_refl eq_refl).
  - unfold config_ok. vm_compute. repeat split; try discriminate.
    right. split; [discriminate|reflexivity].
  - intros E. discriminate E.
  - constructor.
Defined.

(** * Monotonic timestamps *)

(** An append that fails leaves the files good and the records as they were. *)
Lemma AppendRawStart_none st timestamp sz s1 :
  file_ok (m_time st) -> file_ok (m_data st) ->
  kHeaderSize <= writePos (m_time st) ->
  AppendRawStart timestamp sz st = Some (None, s1) ->
  file_ok (m_time s1) /\ file_ok (m_data s1)
  /\ bytes_kept kHeaderSize (writePos (m_time st))
       (contents (m_time st)) (contents (m_time s1))
  /\ (forall hi, bytes_kept 0 hi (contents (m_data st)) (contents (m_data s1))).
Proof.
  intros Ht Hd Hwp H. unfold AppendRawStart in H.
  apply bind_Some in H as (s0 & s0' & E0 & H). injection E0 as <- <-.
  assert (Same : file_ok (m_time st) /\ file_ok (m_data st)
                 /\ bytes_kept kHeaderSize (writePos (m_time st))
                      (contents (m_time st)) (contents (m_time st))
                 /\ (forall hi, bytes_kept 0 hi (contents (m_data st)) (contents (m_data st)))).
  { split; [exact Ht|]. split; [exact Hd|]. split; [apply bytes_kept_refl|].
    intros hi. apply bytes_kept_refl. }
  destruct (m_checkMonotonic st && (timestamp <=? m_lastTimestamp st));
    [injection H as <-; exact Same|].
  destruct (readOnly (m_time st)); [injection H as <-; exact Same|]. clear Same.
  apply bind_Some in H as ([off ec] & sa & Ea & H).
  destruct (GetMappedOffset_step _ _ _ _ _ _ _ kHeaderSize (writePos (m_time st))
              ltac:(unfold kHeaderSize; lia) Ea Ht) as (Oka & Ka & Oa & Offa & _).
  cbn [other file_of] in *.
  destruct (Z.eqb_spec ec 0) as [->|Hec]; cbn [negb] in H.
  2:{ injection H as <-. split; [exact Oka|]. split; [rewrite Oa; exact Hd|].
      split; [exact Ka|]. intros hi. rewrite Oa. apply bytes_kept_refl. }
  pose proof Ht as (_ & Tw & _).
  rewrite (Offa eq_refl), u64_small in H by exact Tw. clear Offa.
  apply bind_Some in H as (ub & sb & Eb & H). unfold write64le in Eb.
  destruct (store_step _ _ _ _ _ kHeaderSize (writePos (m_time st))
              ltac:(unfold kHeaderSize; lia) Eb Oka ltac:(left; cbn; lia))
    as (Okb & Kb & Ob & _).
  cbn [p_file p_off other file_of] in *.
  pose proof (bytes_kept_trans _ _ _ _ _ Ka Kb) as Kab.
  destruct (m_fixedSize st) eqn:Efix.
  { apply bind_Some in H as (uc & sc & Ec & H). discriminate H. }
  apply bind_Some in H as (uc & sc & Ec & H).
  assert (C : file_ok (m_time sc) /\ m_data sc = m_data st
              /\ bytes_kept kHeaderSize (writePos (m_time st))
                   (contents (m_time st)) (contents (m_time sc))).
  { unfold write64le, write32le in Ec.
    destruct (m_recordSize st =? kLargePointerRecordSize).
    - apply bind_Some in Ec as (u1 & t1 & F1 & Ec).
      destruct (store_step _ _ _ _ _ kHeaderSize (writePos (m_time st))
                  ltac:(unfold kHeaderSize; lia) F1 Okb
                  ltac:(left; cbn; unfold kTimestampSize; lia))
        as (Ok1 & K1 & O1 & _).
      destruct (store_step _ _ _ _ _ kHeaderSize (writePos (m_time st))
                  ltac:(unfold kHeaderSize; lia) Ec Ok1
                  ltac:(left; cbn; unfold kTimestampSize; lia))
        as (Ok2 & K2 & O2 & _).
      cbn [p_file p_off other file_of ptr_add] in *.
      split; [exact Ok2|]. split; [congruence|].
      eapply bytes_kept_trans; [exact Kab|].
      eapply bytes_kept_trans; eapply bytes_kept_weaken; try eassumption; lia.
    - apply bind_Some in Ec as (u1 & t1 & F1 & Ec).
      destruct (store_step _ _ _ _ _ kHeaderSize (writePos (m_time st))
                  ltac:(unfold kHeaderSize; lia) F1 Okb
                  ltac:(left; cbn; unfold kTimestampSize; lia))
        as (Ok1 & K1 & O1 & _).
      destruct (store_step _ _ _ _ _ kHeaderSize (writePos (m_time st))
                  ltac:(unfold kHeaderSize; lia) Ec Ok1
                  ltac:(left; cbn; unfold kTimestampSize; lia))
        as (Ok2 & K2 & O2 & _).
      cbn [p_file p_off other file_of ptr_add] in *.
      split; [exact Ok2|]. split; [congruence|].
      eapply bytes_kept_trans; [exact Kab|].
      eapply bytes_kept_trans; eapply bytes_kept_weaken; try eassumption; lia. }
  destruct C as (Okc & Dc & Kc).
  apply bind_Some in H as ([off2 ec2] & sd & Ed & H).
  assert (Hdc : file_ok (file_of Data sc)) by (cbn [file_of]; rewrite Dc; exact Hd).
  destruct (Z.eqb_spec ec2 0) as [->|Hec2]; cbn [negb] in H.
  { apply bind_Some in H as (ue & se & Ee & H). discriminate H. }
  injection H as <-.
  destruct (GetMappedOffset_step _ _ _ _ _ _ _ 0 0 ltac:(lia) Ed Hdc)
    as (Okd & _ & Od & _).
  cbn [other file_of] in Od, Okd. rewrite Od.
  split; [exact Okc|]. split; [exact Okd|]. split; [exact Kc|].
  intros hi.
  destruct (GetMappedOffset_step _ _ _ _ _ _ _ 0 hi ltac:(lia) Ed Hdc)
    as (_ & Kd & _). cbn [file_of] in Kd. rewrite Dc in Kd. exact Kd.
Qed.

Lemma ts_at_grows st st' i :
  well_formed st -> grows st st' -> 0 <= i < size st ->
  ts_at st' i = ts_at st i.
Proof.
  intros WF (S & _ & _ & KT & _) Hi.
  pose proof WF as (R8 & _ & _ & _ & Hh & _ & Hl).
  destruct (slot_of_size st WF) as [Es _].
  destruct (settings_fields _ _ S) as (R & _).
  unfold ts_at. rewrite R. f_equal.
  destruct KT as [_ K]. apply K; unfold kHeaderSize in *; nia.
Qed.

Lemma stored_ts_at st n timestamp payload :
  stored st n timestamp payload -> 0 <= timestamp < 2 ^ 64 ->
  ts_at st n = timestamp.
Proof.
  intros (_ & _ & (_ & _ & H) & _) Ht. unfold ts_at.
  rewrite len_le_bytes in H. change (Z.of_nat 8) with 8 in H. rewrite H.
  apply le_value_small. exact Ht.
Qed.

(** What one [AppendRaw] does to a log that can be appended to. *)
Lemma AppendRaw_keeps st timestamp data b st' :
  well_formed st ->
  (b = true -> fits_one st (timestamp, data)) ->
  AppendRaw timestamp data st = Some (b, st') ->
  well_formed st' /\ grows st st'
  /\ size st' = (if b then size st + 1 else size st)
  /\ (if b
      then m_lastTimestamp st' = timestamp /\ rejected st timestamp = false
           /\ ts_at st' (size st) = timestamp
           /\ writePos (m_data st')
              = (if m_fixedSize st then writePos (m_data st)
                 else writePos (m_data st) + len data + len (m_gapData st))
      else m_lastTimestamp st' = m_lastTimestamp st
           /\ writePos (m_data st') = writePos (m_data st)).
Proof.
  intros WF Hfit H. destruct b.
  - destruct (Hfit eq_refl) as [Hts Hf]. cbn [fst snd] in Hts, Hf.
    destruct (AppendRaw_stored st timestamp data st' WF Hf H) as (W' & G & St & Sz & Dw).
    split; [exact W'|]. split; [exact G|]. split; [exact Sz|].
    split; [|split; [|split; [exact (stored_ts_at _ _ _ _ St Hts)|exact Dw]]].
    + unfold AppendRaw in H. apply bind_Some in H as (out & s1 & E1 & H).
      destruct out as [p|]; [|discriminate].
      destruct (AppendRawStart_cases _ _ _ _ _ E1) as (_ & _ & _ & _ & L1 & _).
      apply bind_Some in H as (u2 & s2 & E2 & H).
      apply bind_Some in H as (u3 & s3 & E3 & H). injection H as <-.
      destruct (store_preserved _ _ _ _ _ E2) as [(_ & _ & L2) _].
      destruct (AppendRawFinish_effect _ _ _ _ E3) as (_ & L3 & _).
      congruence.
    + unfold AppendRaw in H. apply bind_Some in H as (out & s1 & E1 & H).
      destruct out as [p|]; [|discriminate].
      destruct (AppendRawStart_cases _ _ _ _ _ E1) as (_ & _ & _ & _ & _ & L1 & _).
      exact L1.
  - unfold AppendRaw in H. apply bind_Some in H as (out & s1 & E1 & H).
    destruct out as [p|].
    { apply bind_Some in H as (u2 & s2 & E2 & H).
      apply bind_Some in H as (u3 & s3 & E3 & H). discriminate H. }
    injection H as <-.
    pose proof WF as (R8 & Rv & Ht & Hd & Hh & Ha & Hl).
    destruct (AppendRawStart_cases _ _ _ _ _ E1) as (S1 & P1 & Sz & _ & L1 & _).
    destruct (AppendRawStart_none _ _ _ _ Ht Hd Hh E1) as (Ht1 & Hd1 & KT & KD).
    destruct (settings_fields _ _ S1) as (R1 & F1 & _).
    destruct (positions_fields _ _ P1) as (PT1 & PD1).
    split.
    { unfold well_formed. rewrite R1, F1, PT1.
      split; [exact R8|]. split; [exact Rv|]. split; [exact Ht1|].
      split; [exact Hd1|]. split; [exact Hh|]. split; [exact Ha|].
      destruct KT as [KL _]. lia. }
    split.
    { split; [exact S1|]. rewrite PT1, PD1. split; [lia|]. split; [lia|].
      split; [exact KT|apply KD]. }
    split; [exact Sz|]. split; [exact L1|exact PD1].
Qed.

Lemma increasing_sorted st : increasing st -> sorted st.
Proof.
  intros [H _] i j Hi Hij Hj.
  destruct (Z.eq_dec i j) as [->|N]; [lia|].
  pose proof (H i j Hi ltac:(lia) Hj). lia.
Qed.

Lemma AppendRaw_increasing st timestamp data b st' :
  well_formed st -> m_checkMonotonic st = true -> increasing st ->
  (b = true -> fits_one st (timestamp, data)) ->
  AppendRaw timestamp data st = Some (b, st') ->
  well_formed st' /\ m_checkMonotonic st' = true /\ increasing st'
  /\ (b = true -> m_lastTimestamp st < timestamp).
Proof.
  intros WF CM [I1 I2] Hfit H.
  destruct (AppendRaw_keeps _ _ _ _ _ WF Hfit H) as (WF' & G & Sz & L).
  pose proof G as (S & _).
  split; [exact WF'|]. split.
  { unfold settings in S. injection S as _ _ _ _ _ S _ _ _ _ _. congruence. }
  destruct (slot_of_size st WF) as [_ Hs0].
  destruct b.
  - destruct L as (L & Rj & Ts & _).
    assert (Lt : m_lastTimestamp st < timestamp).
    { unfold rejected in Rj. rewrite CM in Rj. apply orb_false_elim in Rj as [Rj _].
      cbn [andb] in Rj. apply Z.leb_gt in Rj. exact Rj. }
    split; [|intros _; exact Lt]. split.
    + intros i j Hi Hij Hj. rewrite Sz in Hj.
      rewrite (ts_at_grows _ _ i WF G) by lia.
      destruct (Z.eq_dec j (size st)) as [->|N].
      * rewrite Ts. pose proof (I2 i ltac:(lia)). lia.
      * rewrite (ts_at_grows _ _ j WF G) by lia. apply I1; lia.
    + intros i Hi. rewrite Sz in Hi. rewrite L.
      destruct (Z.eq_dec i (size st)) as [->|N]; [lia|].
      rewrite (ts_at_grows _ _ i WF G) by lia.
      pose proof (I2 i ltac:(lia)). lia.
  - destruct L as [L _]. split; [|discriminate]. split.
    + intros i j Hi Hij Hj. rewrite Sz in Hj.
      rewrite !(ts_at_grows _ _ _ WF G) by lia. apply I1; lia.
    + intros i Hi. rewrite Sz in Hi. rewrite L.
      rewrite (ts_at_grows _ _ i WF G) by lia. apply I2. exact Hi.
Qed.

Lemma fits_head st timestamp data l :
  0 <= timestamp < 2 ^ 64 -> fits st ((timestamp, data) :: l) ->
  fits_one st (timestamp, data).
Proof.
  intros Ht. unfold fits, fits_one. cbn [fst snd]. split; [exact Ht|].
  destruct (m_fixedSize st).
  - inversion H; subst. assumption.
  - cbn [payload_sum length] in H.
    pose proof (payload_sum_nonneg l). pose proof (len_nonneg (m_gapData st)).
    nia.
Qed.

Lemma fits_tail st st' timestamp data l (b : bool) :
  grows st st' ->
  writePos (m_data st')
  = (if b then if m_fixedSize st then writePos (m_data st)
               else writePos (m_data st) + len data + len (m_gapData st)
     else writePos (m_data st)) ->
  fits st ((timestamp, data) :: l) -> fits st' l.
Proof.
  intros (S & _) W. unfold fits.
  destruct (settings_fields _ _ S) as (R & F & G & _).
  rewrite (ptr_width_settings _ _ S), R, F, G, W.
  destruct (m_fixedSize st).
  - intros H. inversion H; subst. assumption.
  - cbn [payload_sum length].
    pose proof (payload_sum_nonneg l). pose proof (len_nonneg (m_gapData st)).
    pose proof (len_nonneg data).
    destruct b; nia.
Qed.

(** X6.  [checkMonotonic] keeps the timestamps going up.  On a log that can
    be appended to, checks the timestamps, and whose stored timestamps go up
    and are not above the last timestamp, any run of [AppendRaw] with 64-bit
    timestamps and payloads that fit leaves such a log again: the stored
    timestamps go up, so the log is sorted as the search needs it, and the
    size has grown by the number of appends that went through. *)
Theorem AppendAll_increasing (l : list (Z * list Z)) :
  forall st bs st',
    well_formed st -> m_checkMonotonic st = true -> increasing st ->
    Forall (fun p => 0 <= fst p < 2 ^ 64) l -> fits st l ->
    AppendAll l st = Some (bs, st') ->
    well_formed st' /\ m_checkMonotonic st' = true /\ increasing st'
    /\ sorted st'
    /\ size st' = size st + Z.of_nat (length (completed l bs)).
Proof.
  induction l as [|[timestamp data] l IH]; intros st bs st' WF CM I Hts Hfit H.
  - injection H as <- <-. cbn.
    split; [exact WF|]. split; [exact CM|]. split; [exact I|].
    split; [apply increasing_sorted; exact I|lia].
  - cbn [AppendAll] in H.
    apply bind_Some in H as (b & s1 & E1 & H).
    apply bind_Some in H as (bs' & s2 & E2 & H). injection H as <- <-.
    inversion Hts as [|? ? Ht Hts']; subst. cbn [fst] in Ht.
    pose proof (fits_head _ _ _ _ Ht Hfit) as F1.
    destruct (AppendRaw_increasing _ _ _ _ _ WF CM I (fun _ => F1) E1)
      as (WF1 & CM1 & I1 & _).
    destruct (AppendRaw_keeps _ _ _ _ _ WF (fun _ => F1) E1) as (_ & G & Sz & L).
    assert (F2 : fits s1 l).
    { apply (fits_tail st s1 timestamp data l b G); [|exact Hfit].
      destruct b; [destruct L as (_ & _ & _ & L)|destruct L as (_ & L)]; exact L. }
    destruct (IH _ _ _ WF1 CM1 I1 Hts' F2 E2) as (WF2 & CM2 & I2 & So & Sz2).
    split; [exact WF2|]. split; [exact CM2|]. split; [exact I2|].
    split; [exact So|].
    rewrite Sz2, Sz. destruct b; cbn [completed length]; lia.
Qed.

(** X6 on scenario S2 with an append that comes too early: it is refused,
    and the two records that are stored are sorted. *)
Lemma AppendAll_increasing_witness :
  exists st',
    AppendAll ex_early_appends ex_s2_open = Some ([true; false; true], st')
    /\ sorted st' /\ size st' = 2.
Proof.
  pose (st' := state_after (AppendAll ex_early_appends) ex_s2_open).
  assert (E : AppendAll ex_early_appends ex_s2_open = Some ([true; false; true], st'))
    by (vm_compute; reflexivity).
  exists st'. split; [exact E|].
  destruct (AppendAll_increasing ex_early_appends ex_s2_open [true; false; true] st')
    as (_ & _ & _ & So & Sz).
  - exact ex_s2_open_well_formed.
  - reflexivity.
  - split; intros i; intros; exfalso; change (size ex_s2_open) with 0 in *; lia.
  - repeat constructor; discriminate.
  - vm_compute. reflexivity.
  - exact E.
  - split; [exact So|exact Sz].
Defined.

(** * The typed logs *)

(** ** Stores one after the other *)

Lemma poke_app off a b c :
  0 <= off -> off + len a + len b <= len c ->
  poke (off + len a) b (poke off a c) = poke off (a ++ b) c.
Proof.
  unfold poke, len. intros H0 H1.
  rewrite !length_app in *.
  replace (Z.to_nat (off + Z.of_nat (length a)))
    with (Z.to_nat off + length a)%nat by lia.
  rewrite firstn_app, length_firstn.
  replace (Nat.min (Z.to_nat off) (length c)) with (Z.to_nat off) by lia.
  replace (Z.to_nat off + length a - Z.to_nat off)%nat with (length a) by lia.
  rewrite (firstn_all2 (n := (Z.to_nat off + length a)%nat) (firstn (Z.to_nat off) c))
    by (rewrite length_firstn; lia).
  rewrite firstn_app, firstn_all, Nat.sub_diag. cbn [firstn]. rewrite app_nil_r.
  rewrite <- !app_assoc. f_equal. f_equal. f_equal.
  rewrite !skipn_app, length_firstn.
  replace (Nat.min (Z.to_nat off) (length c)) with (Z.to_nat off) by lia.
  rewrite (skipn_all2 (n := (Z.to_nat off + length a + length b)%nat)
             (firstn (Z.to_nat off) c)) by (rewrite length_firstn; lia).
  rewrite (skipn_all2 (n := (Z.to_nat off + length a + length b - Z.to_nat off)%nat) a)
    by lia.
  cbn [app]. rewrite skipn_skipn. f_equal. lia.
Qed.

Lemma set_file_twice w f g st : set_file w g (set_file w f st) = set_file w g st.
Proof. destruct w; reflexivity. Qed.

Lemma file_of_set_file w f st : file_of w (set_file w f st) = f.
Proof. destruct w; reflexivity. Qed.

Lemma store_app p a b st :
  store p (a ++ b) st = (store p a ;;; store (ptr_add p (len a)) b) st.
Proof.
  unfold bind, store. cbn [ptr_add p_file p_off].
  set (f := file_of (p_file p) st).
  pose proof (len_nonneg a) as Ha. pose proof (len_nonneg b) as Hb.
  rewrite len_app.
  destruct (accessible f (p_off p) (len a)) eqn:A1.
  - apply accessible_true in A1 as (M & O & _ & S1 & L1).
    destruct (readOnly f) eqn:Ro; cbn [negb andb].
    { rewrite andb_false_r. reflexivity. }
    rewrite andb_true_r. rewrite file_of_set_file.
    cbn [set_contents readOnly mapping contents negb].
    rewrite Ro. cbn [negb]. rewrite andb_true_r.
    destruct (accessible f (p_off p) (len a + len b)) eqn:A2.
    + apply accessible_true in A2 as (_ & _ & _ & S2 & L2).
      replace (accessible _ (p_off p + len a) (len b)) with true.
      2:{ symmetry. apply accessible_true. cbn [set_contents mapping contents].
          rewrite len_poke by lia. repeat split; try assumption; lia. }
      rewrite set_file_twice. cbn [set_contents fd readOnly writePos fileSize mapOffset
        mapGrowSize maxGrowSize maxMapSize mapping contents].
      rewrite poke_app by lia. reflexivity.
    + replace (accessible _ (p_off p + len a) (len b)) with false; [reflexivity|].
      symmetry. apply not_true_is_false. intros A3.
      apply accessible_true in A3 as (_ & _ & _ & S3 & L3).
      cbn [set_contents mapping contents] in S3, L3. rewrite len_poke in L3 by lia.
      assert (accessible f (p_off p) (len a + len b) = true); [|congruence].
      apply accessible_true. repeat split; try assumption; lia.
  - cbn [andb].
    replace (accessible f (p_off p) (len a + len b)) with false; [reflexivity|].
    symmetry. apply not_true_is_false. intros A2.
    apply accessible_true in A2 as (M & O & _ & S2 & L2).
    assert (accessible f (p_off p) (len a) = true); [|congruence].
    apply accessible_true. repeat split; try assumption; lia.
Qed.

Lemma bind_unit_r (c : M unit) st : (c ;;; ret tt) st = c st.
Proof. unfold bind, ret. destruct (c st) as [[[] s]|]; reflexivity. Qed.

Lemma store_some_app p a b st :
  (store_some p a ;;; store_some (ptr_add p (len a)) b) st = store_some p (a ++ b) st.
Proof.
  destruct a as [|x a].
  - cbn [store_some app]. change (len []) with 0. rewrite ptr_add_0. reflexivity.
  - destruct b as [|y b].
    + rewrite app_nil_r. cbn [store_some]. apply bind_unit_r.
    + cbn [store_some app]. symmetry. apply (store_app p (x :: a) (y :: b)).
Qed.

Lemma bind_ext {A B} (c c' : M A) (k k' : A -> M B) st :
  c st = c' st -> (forall a s, k a s = k' a s) -> bind c k st = bind c' k' st.
Proof.
  unfold bind. intros -> H. destruct (c' st) as [[a s]|]; [apply H|reflexivity].
Qed.

Lemma bind_assoc {A B C} (c : M A) (k : A -> M B) (h : B -> M C) st :
  bind (bind c k) h st = bind c (fun a => bind (k a) h) st.
Proof. unfold bind. destruct (c st) as [[a s]|]; reflexivity. Qed.

Lemma store_each_some p bs st : store_each p bs st = store_some p bs st.
Proof.
  revert p st. induction bs as [|b r IH]; intros p st; [reflexivity|].
  cbn [store_each]. change (b :: r) with ([b] ++ r).
  rewrite <- store_some_app. apply bind_ext; [reflexivity|].
  intros _ s. apply IH.
Qed.

Lemma write64le_each_some p vs st :
  write64le_each p vs st = store_some p (concat (map (le_bytes 8) vs)) st.
Proof.
  revert p st. induction vs as [|v r IH]; intros p st; [reflexivity|].
  cbn [write64le_each map concat]. rewrite <- store_some_app.
  apply bind_ext; [reflexivity|].
  intros _ s. rewrite len_le_bytes. apply IH.
Qed.

(** ** Booleans and doubles *)

Lemma ex_s1_open_well_formed : well_formed ex_s1_open.
Proof.
  unfold well_formed, file_ok, growable. vm_compute.
  repeat split; try discriminate; try (right; split; [reflexivity|discriminate]).
Qed.

(** An append that went through is read back: the view of the new record
    shows the payload. *)
Lemma append_read_back st timestamp data st' :
  well_formed st -> fits_one st (timestamp, data) ->
  AppendRaw timestamp data st = Some (true, st') ->
  Forall maps_ok (os st') ->
  exists view st'',
    ReadRaw (size st) st' = Some ((timestamp, view), st'')
    /\ shows view st'' data.
Proof.
  intros WF [Hts Hf] H Hos. cbn [fst snd] in Hts, Hf.
  destruct (AppendRaw_stored st timestamp data st' WF Hf H) as (W' & _ & St & _).
  destruct (ReadRaw_stored st' (size st) timestamp data W' St Hts Hos)
    as (view & st'' & E & V).
  exists view, st''. split; [exact E|apply view_bytes_shows; exact V].
Qed.

(** The typed appends that write the payload piece by piece are the raw
    append of the whole payload. *)
Lemma append_pieces (wr : Ptr -> M unit) timestamp sz data st :
  data <> [] -> sz = len data ->
  (forall p s, wr p s = store_some p data s) ->
  (out <- AppendRawStart timestamp sz ;;
   match out with
   | None => ret false
   | Some p => wr p ;;; AppendRawFinish sz ;;; ret true
   end) st
  = AppendRaw timestamp data st.
Proof.
  intros Hne -> Hw. unfold AppendRaw. apply bind_ext; [reflexivity|].
  intros [p|] s; [|reflexivity].
  apply bind_ext; [|reflexivity].
  rewrite Hw. destruct data; [contradiction|reflexivity].
Qed.

Lemma for_each_list {A} (body : Z -> M A) st (xs : list A) :
  forall i,
    (forall d x, nth_error xs d = Some x -> body (i + Z.of_nat d) st = Some (x, st)) ->
    for_each (length xs) i body st = Some (xs, st).
Proof.
  induction xs as [|x xs IH]; intros i H; [reflexivity|].
  cbn [length for_each].
  pose proof (H 0%nat x eq_refl) as H0. cbn in H0. rewrite Z.add_0_r in H0.
  rewrite (bind_eq _ _ _ _ _ H0).
  rewrite (bind_eq _ _ _ _ _ (IH (i + 1)
             ltac:(intros d y Hd; specialize (H (S d) y Hd);
                   replace (i + 1 + Z.of_nat d) with (i + Z.of_nat (S d)) by lia;
                   exact H))).
  reflexivity.
Qed.

(** The item [d] of a payload made of items of [w] bytes. *)
Lemma peek_concat {A} (f : A -> list Z) (w : Z) (l : list A) :
  0 <= w -> (forall y, In y l -> len (f y) = w) ->
  forall d x, nth_error l d = Some x ->
    peek (w * Z.of_nat d) w (concat (map f l)) = f x.
Proof.
  intros Hw. induction l as [|y l IH]; intros Hl d x Hd.
  - destruct d; discriminate.
  - cbn [map concat]. destruct d as [|d].
    + injection Hd as ->. rewrite Z.mul_0_r.
      unfold peek. cbn [Z.to_nat skipn].
      rewrite firstn_app.
      pose proof (Hl x (or_introl eq_refl)) as E. unfold len in E.
      replace (Z.to_nat w - length (f x))%nat with 0%nat by lia.
      cbn [firstn]. rewrite app_nil_r. apply firstn_all2. lia.
    + cbn [nth_error] in Hd.
      rewrite <- (IH (fun z Hz => Hl z (or_intror Hz)) d x Hd).
      pose proof (Hl y (or_introl eq_refl)) as E. unfold len in E.
      unfold peek. f_equal.
      replace (Z.to_nat (w * Z.of_nat (S d)))
        with (Z.to_nat (w * Z.of_nat d) + length (f y))%nat by lia.
      rewrite <- skipn_skipn. f_equal.
      rewrite skipn_app, skipn_all, Nat.sub_diag. reflexivity.
Qed.

Lemma len_concat {A} (f : A -> list Z) (w : Z) (l : list A) :
  (forall y, In y l -> len (f y) = w) ->
  len (concat (map f l)) = w * Z.of_nat (length l).
Proof.
  induction l as [|y l IH]; intros Hl; [cbn; lia|].
  cbn [map concat length]. rewrite len_app, (Hl y (or_introl eq_refl)).
  rewrite (IH (fun z Hz => Hl z (or_intror Hz))). lia.
Qed.

Lemma nth_error_bound {A} (l : list A) d x :
  nth_error l d = Some x -> (d < length l)%nat.
Proof. intros H. apply nth_error_Some. congruence. Qed.

Lemma concat_singletons (l : list Z) : concat (map (fun y => [y]) l) = l.
Proof. induction l as [|y l IH]; [reflexivity|]. cbn. rewrite IH. reflexivity. Qed.

Lemma peek_nth (l : list Z) d x :
  nth_error l d = Some x -> peek (Z.of_nat d) 1 l = [x].
Proof.
  intros H.
  pose proof (peek_concat (fun y => [y]) 1 l ltac:(lia) (fun _ _ => eq_refl) d x H) as P.
  rewrite concat_singletons, Z.mul_1_l in P. exact P.
Qed.

Lemma each_byte_shows view st payload :
  shows view st payload -> each_byte view st = Some (payload, st).
Proof.
  intros Sh. pose proof Sh as [Sz _]. unfold each_byte. rewrite Sz.
  unfold len. rewrite Nat2Z.id.
  destruct payload as [|b payload]; [reflexivity|].
  destruct (shows_data _ _ _ Sh ltac:(discriminate)) as (p & Ep & L).
  apply for_each_list. intros d x Hd.
  unfold data_ptr. rewrite Ep. rewrite (bind_eq _ _ _ p st eq_refl).
  unfold load8. rewrite Z.add_0_l.
  pose proof (nth_error_bound _ _ _ Hd) as Hb.
  rewrite (bind_eq _ _ _ _ _ (L (Z.of_nat d) 1 ltac:(lia) ltac:(lia)
                                ltac:(unfold len; lia))).
  rewrite (peek_nth _ _ _ Hd). reflexivity.
Qed.

(** X7.  [BooleanArrayLog]: appending an array of booleans that is not empty
    is the raw append of one byte for each of them, 1 for true and 0 for
    false.  On a log that can be appended to and that the array fits (a
    64-bit timestamp; as many booleans as [recordSize - 8] on a fixed-size
    log; on a variable-size log a data position after the array and the gap
    that the pointer record can hold), when the append went through and the
    operating system maps the files at the read, [Get] on the new record
    gives back the timestamp and the array. *)
Theorem BooleanArrayLog_round_trip (st : World) (timestamp : Z) (arr : list bool)
    (st' : World) :
  let payload := map (fun value : bool => if value then 1 else 0) arr in
  well_formed st -> arr <> [] -> fits_one st (timestamp, payload) ->
  BooleanArrayLog_Append timestamp arr st = Some (true, st') ->
  Forall maps_ok (os st') ->
  BooleanArrayLog_Append timestamp arr st = AppendRaw timestamp payload st
  /\ exists st'',
       BooleanArrayLog_Get (size st) st' = Some ((timestamp, arr), st'').
Proof.
  intros payload WF Hne Hfit H Hos.
  assert (E : BooleanArrayLog_Append timestamp arr st = AppendRaw timestamp payload st).
  { unfold BooleanArrayLog_Append.
    apply (append_pieces _ timestamp _ payload).
    - subst payload. destruct arr; [contradiction|discriminate].
    - subst payload. unfold len. rewrite length_map. reflexivity.
    - intros p s. apply store_each_some. }
  split; [exact E|]. rewrite E in H.
  destruct (append_read_back _ _ _ _ WF Hfit H Hos) as (view & st'' & ER & Sh).
  exists st''. unfold BooleanArrayLog_Get.
  rewrite (bind_eq _ _ _ _ _ ER).
  rewrite (bind_eq _ _ _ _ _ (each_byte_shows _ _ _ Sh)).
  unfold ret. f_equal. f_equal. f_equal.
  subst payload. rewrite map_map. rewrite <- (map_id arr) at 2.
  apply map_ext. intros []; reflexivity.
Qed.

(** X8.  [BooleanArrayLog] over integers: an append of integers stores 1 for
    every integer that is not 0 and 0 for the others.  On a log that can be
    appended to and that the array fits (a 64-bit timestamp; as many integers
    as [recordSize - 8] on a fixed-size log; on a variable-size log a data
    position after the array and the gap that the pointer record can hold),
    when the append of an array that is not empty went through and the
    operating system maps the files at the read, what the integer [Get]
    reads back from the new record is the array with every non-zero value
    turned into 1, and what the boolean [Get] reads back is, for every
    integer, whether it is not 0. *)
Theorem BooleanArrayLog_int_round_trip (st : World) (timestamp : Z) (arr : list Z)
    (st' : World) :
  let payload := map (fun value => if value =? 0 then 0 else 1) arr in
  well_formed st -> arr <> [] -> fits_one st (timestamp, payload) ->
  BooleanArrayLog_Append_int timestamp arr st = Some (true, st') ->
  Forall maps_ok (os st') ->
  exists st'',
    BooleanArrayLog_Get_int (size st) st' = Some ((timestamp, payload), st'')
    /\ BooleanArrayLog_Get (size st) st'
       = Some ((timestamp, map (fun value => negb (value =? 0)) arr), st'').
Proof.
  intros payload WF Hne Hfit H Hos.
  assert (E : BooleanArrayLog_Append_int timestamp arr st
              = AppendRaw timestamp payload st).
  { unfold BooleanArrayLog_Append_int.
    apply (append_pieces _ timestamp _ payload).
    - subst payload. destruct arr; [contradiction|discriminate].
    - subst payload. unfold len. rewrite length_map. reflexivity.
    - intros p s. apply store_each_some. }
  rewrite E in H.
  destruct (append_read_back _ _ _ _ WF Hfit H Hos) as (view & st'' & ER & Sh).
  exists st''. unfold BooleanArrayLog_Get_int, BooleanArrayLog_Get.
  rewrite !(bind_eq _ _ _ _ _ ER).
  rewrite !(bind_eq _ _ _ _ _ (each_byte_shows _ _ _ Sh)).
  unfold ret. subst payload. rewrite !map_map. split; f_equal; f_equal; f_equal;
    apply map_ext; intros v; destruct (v =? 0); reflexivity.
Qed.

Section DoubleLogs.

Variable double : Type.
Variable DoubleToBits : double -> Z.
Variable BitsToDouble : Z -> double.

(** X9.  [DoubleLog]: on a log of 16-byte records that can be appended to,
    a value that the two casts take to its 64 bits and back, appended at a
    64-bit timestamp, is what [operator[]] gives back at the ordinal of the
    new record, with the timestamp. *)
Theorem DoubleLog_round_trip (st : World) (timestamp : Z) (value : double)
    (st' : World) :
  well_formed st -> m_fixedSize st = true -> m_recordSize st = 16 ->
  0 <= timestamp < 2 ^ 64 -> bit_cast DoubleToBits BitsToDouble value ->
  DoubleLog_Append double DoubleToBits timestamp value st = Some (true, st') ->
  Forall maps_ok (os st') ->
  exists st'',
    DoubleLog_at double BitsToDouble (size st) st' = Some ((timestamp, value), st'').
Proof.
  intros WF Hf Hr Hts [Hb Hc] H Hos. unfold DoubleLog_Append in H.
  assert (Hfit : fits_one st (timestamp, le_bytes 8 (DoubleToBits value))).
  { split; [exact Hts|]. cbn [snd]. rewrite Hf, Hr, len_le_bytes. reflexivity. }
  destruct (append_read_back _ _ _ _ WF Hfit H Hos) as (view & st'' & ER & Sh).
  destruct (shows_data _ _ _ Sh ltac:(discriminate)) as (p & Ep & L).
  exists st''. unfold DoubleLog_at.
  rewrite (bind_eq _ _ _ _ _ ER).
  unfold data_ptr. rewrite Ep. rewrite (bind_eq _ _ _ p st'' eq_refl).
  unfold read64le.
  specialize (L 0 8 ltac:(lia) ltac:(lia) ltac:(rewrite len_le_bytes; lia)).
  rewrite ptr_add_0 in L.
  rewrite (bind_eq _ _ _ _ _ (bind_eq _ _ _ _ _ L)).
  unfold ret. f_equal. f_equal. f_equal.
  pose proof (peek_all (le_bytes 8 (DoubleToBits value))) as P.
  rewrite len_le_bytes in P. change (Z.of_nat 8) with 8 in P. rewrite P.
  rewrite le_value_small by (change (8 * Z.of_nat 8) with 64; exact Hb).
  exact Hc.
Qed.

(** X10.  [DoubleArrayLog]: appending an array that is not empty, of values
    that the two casts take to their 64 bits and back, is the raw append of
    the 8 little-endian bytes of every value in turn.  On a log that can be
    appended to and that these bytes fit (a 64-bit timestamp; [recordSize - 8]
    bytes on a fixed-size log; on a variable-size log a data position after
    the bytes and the gap that the pointer record can hold), when the append
    went through and the operating system maps the files at the read, [Get]
    on the new record gives back the timestamp and the array, and the proxy
    over the record's bytes gives back the value at every index. *)
Theorem DoubleArrayLog_round_trip (st : World) (timestamp : Z) (arr : list double)
    (st' : World) :
  let payload := concat (map (fun value => le_bytes 8 (DoubleToBits value)) arr) in
  well_formed st -> arr <> [] -> fits_one st (timestamp, payload) ->
  Z.of_nat (length arr) * 8 < 2 ^ 64 ->
  Forall (bit_cast DoubleToBits BitsToDouble) arr ->
  DoubleArrayLog_Append double DoubleToBits timestamp arr st = Some (true, st') ->
  Forall maps_ok (os st') ->
  DoubleArrayLog_Append double DoubleToBits timestamp arr st
  = AppendRaw timestamp payload st
  /\ exists view st'',
       ReadRaw (size st) st' = Some ((timestamp, view), st'')
       /\ DoubleArrayLog_Get double BitsToDouble (size st) st'
          = Some ((timestamp, arr), st'')
       /\ forall d value, nth_error arr d = Some value ->
            DoubleArrayLogArrayProxy_at double BitsToDouble view (Z.of_nat d) st''
            = Some (value, st'').
Proof.
  intros payload WF Hne Hfit Hn Hbc H Hos.
  assert (Hw : forall y, In y arr -> len (le_bytes 8 (DoubleToBits y)) = 8).
  { intros y _. apply len_le_bytes. }
  pose proof (len_concat _ 8 arr Hw) as Hl. fold payload in Hl.
  assert (Hp : payload <> []).
  { intros E. rewrite E in Hl. destruct arr; [contradiction|]. cbn in Hl. lia. }
  assert (E : DoubleArrayLog_Append double DoubleToBits timestamp arr st
              = AppendRaw timestamp payload st).
  { unfold DoubleArrayLog_Append.
    apply (append_pieces _ timestamp _ payload).
    - exact Hp.
    - rewrite Hl, u64_small by lia. lia.
    - intros p s. rewrite write64le_each_some. subst payload.
      rewrite map_map. reflexivity. }
  split; [exact E|]. rewrite E in H.
  destruct (append_read_back _ _ _ _ WF Hfit H Hos) as (view & st'' & ER & Sh).
  destruct (shows_data _ _ _ Sh Hp) as (p & Ep & L).
  pose proof Sh as [Sz _].
  assert (Item : forall d value, nth_error arr d = Some value ->
            (q <- data_ptr view ;;
             bits <- read64le (ptr_add q (u64 (Z.of_nat d * 8))) ;;
             ret (BitsToDouble bits)) st'' = Some (value, st'')).
  { intros d value Hd. pose proof (nth_error_bound _ _ _ Hd) as Hb.
    unfold data_ptr. rewrite Ep. rewrite (bind_eq _ _ _ p st'' eq_refl).
    rewrite u64_small by lia. unfold read64le.
    rewrite (bind_eq _ _ _ _ _
               (bind_eq _ _ _ _ _
                  (L (Z.of_nat d * 8) 8 ltac:(lia) ltac:(lia) ltac:(lia)))).
    unfold ret. f_equal. f_equal.
    replace (Z.of_nat d * 8) with (8 * Z.of_nat d) by lia.
    subst payload. rewrite (peek_concat _ 8 arr ltac:(lia) Hw d value Hd).
    assert (B : bit_cast DoubleToBits BitsToDouble value).
    { rewrite Forall_forall in Hbc. apply Hbc. eapply nth_error_In. exact Hd. }
    destruct B as [B1 B2].
    rewrite le_value_small by (change (8 * Z.of_nat 8) with 64; exact B1).
    exact B2. }
  exists view, st''. split; [exact ER|]. split.
  - unfold DoubleArrayLog_Get. rewrite (bind_eq _ _ _ _ _ ER).
    rewrite Sz, Hl. replace (8 * Z.of_nat (length arr) / 8) with (Z.of_nat (length arr))
      by (rewrite Z.mul_comm, Z.div_mul; lia).
    rewrite Nat2Z.id.
    match goal with |- bind (for_each ?k ?i ?body) _ _ = _ =>
      assert (F : for_each k i body st'' = Some (arr, st''))
        by (apply for_each_list; intros d x Hd; rewrite Z.add_0_l;
            exact (Item d x Hd))
    end.
    rewrite (bind_eq _ _ _ _ _ F). reflexivity.
  - intros d value Hd. unfold DoubleArrayLogArrayProxy_at. exact (Item d value Hd).
Qed.

End DoubleLogs.

(** X7 on scenario S2: three booleans. *)
Lemma BooleanArrayLog_round_trip_witness :
  exists st' st'',
    BooleanArrayLog_Append 5 [true; false; true] ex_s2_open = Some (true, st')
    /\ BooleanArrayLog_Get 0 st' = Some ((5, [true; false; true]), st'').
Proof.
  pose (st' := state_after (BooleanArrayLog_Append 5 [true; false; true]) ex_s2_open).
  assert (E : BooleanArrayLog_Append 5 [true; false; true] ex_s2_open = Some (true, st'))
    by (vm_compute; reflexivity).
  destruct (BooleanArrayLog_round_trip ex_s2_open 5 [true; false; true] st')
    as (_ & st'' & G).
  - exact ex_s2_open_well_formed.
  - discriminate.
  - vm_compute. repeat split; discriminate.
  - exact E.
  - vm_compute. constructor.
  - exists st', st''. split; [exact E|exact G].
Defined.

(** X8 on scenario S2: the integers 2, 0 and -1 are read back as 1, 0 and 1. *)
Lemma BooleanArrayLog_int_round_trip_witness :
  exists st' st'',
    BooleanArrayLog_Append_int 5 [2; 0; -1] ex_s2_open = Some (true, st')
    /\ BooleanArrayLog_Get_int 0 st' = Some ((5, [1; 0; 1]), st'')
    /\ BooleanArrayLog_Get 0 st' = Some ((5, [true; false; true]), st'').
Proof.
  pose (st' := state_after (BooleanArrayLog_Append_int 5 [2; 0; -1]) ex_s2_open).
  assert (E : BooleanArrayLog_Append_int 5 [2; 0; -1] ex_s2_open = Some (true, st'))
    by (vm_compute; reflexivity).
  destruct (BooleanArrayLog_int_round_trip ex_s2_open 5 [2; 0; -1] st')
    as (st'' & G1 & G2).
  - exact ex_s2_open_well_formed.
  - discriminate.
  - vm_compute. repeat split; discriminate.
  - exact E.
  - vm_compute. constructor.
  - exists st', st''. split; [exact E|]. split; [exact G1|exact G2].
Defined.

(** X9 on scenario S1, with the 64-bit patterns themselves for the doubles. *)
Lemma DoubleLog_round_trip_witness :
  exists st' st'',
    DoubleLog_Append Z (fun value => value) 5 1000 ex_s1_open = Some (true, st')
    /\ DoubleLog_at Z (fun bits => bits) 0 st' = Some ((5, 1000), st'').
Proof.
  pose (st' := state_after (DoubleLog_Append Z (fun value => value) 5 1000) ex_s1_open).
  assert (E : DoubleLog_Append Z (fun value => value) 5 1000 ex_s1_open = Some (true, st'))
    by (vm_compute; reflexivity).
  destruct (DoubleLog_round_trip Z (fun value => value) (fun bits => bits)
              ex_s1_open 5 1000 st') as (st'' & G).
  - exact ex_s1_open_well_formed.
  - reflexivity.
  - reflexivity.
  - lia.
  - split; [lia|reflexivity].
  - exact E.
  - vm_compute. constructor.
  - exists st', st''. split; [exact E|exact G].
Defined.

(** X10 on scenario S2, with the 64-bit patterns themselves for the doubles. *)
Lemma DoubleArrayLog_round_trip_witness :
  exists st' view st'',
    DoubleArrayLog_Append Z (fun value => value) 5 [1000; 2000] ex_s2_open
    = Some (true, st')
    /\ DoubleArrayLog_Get Z (fun bits => bits) 0 st' = Some ((5, [1000; 2000]), st'')
    /\ ReadRaw 0 st' = Some ((5, view), st'')
    /\ DoubleArrayLogArrayProxy_at Z (fun bits => bits) view 1 st'' = Some (2000, st'').
Proof.
  pose (st' := state_after (DoubleArrayLog_Append Z (fun value => value) 5 [1000; 2000])
                 ex_s2_open).
  assert (E : DoubleArrayLog_Append Z (fun value => value) 5 [1000; 2000] ex_s2_open
              = Some (true, st')) by (vm_compute; reflexivity).
  destruct (DoubleArrayLog_round_trip Z (fun value => value) (fun bits => bits)
              ex_s2_open 5 [1000; 2000] st') as (_ & view & st'' & R & G & P).
  - exact ex_s2_open_well_formed.
  - discriminate.
  - vm_compute. repeat split; discriminate.
  - vm_compute. reflexivity.
  - repeat constructor; cbv beta; lia.
  - exact E.
  - vm_compute. constructor.
  - exists st', view, st''. split; [exact E|]. split; [exact G|]. split; [exact R|].
    exact (P 1%nat 2000 eq_refl).
Defined.

(** ** The payload of a string array *)

Lemma strings_len_nonneg arr : 0 <= strings_len arr.
Proof.
  induction arr as [|v r IH]; [cbn; lia|].
  cbn [strings_len]. pose proof (len_nonneg v). lia.
Qed.

Lemma len_pointer_table off arr : len (pointer_table off arr) = 8 * Z.of_nat (length arr).
Proof.
  revert off. induction arr as [|v r IH]; intros off; [reflexivity|].
  cbn [pointer_table length]. rewrite !len_app, !len_le_bytes, IH. lia.
Qed.

Lemma len_strings_bytes arr : len (strings_bytes arr) = strings_len arr.
Proof.
  unfold strings_bytes. induction arr as [|v r IH]; [reflexivity|].
  cbn [map concat strings_len]. rewrite !len_app, IH. change (len [0]) with 1. lia.
Qed.

Lemma len_string_array_bytes arr :
  len (string_array_bytes arr) = 4 + 8 * Z.of_nat (length arr) + strings_len arr.
Proof.
  unfold string_array_bytes.
  rewrite !len_app, len_le_bytes, len_pointer_table, len_strings_bytes. lia.
Qed.

Lemma u32_small x : 0 <= x < 2 ^ 32 -> u32 x = x.
Proof. intros H. unfold u32. apply Z.mod_small. exact H. Qed.

Lemma strings_size_sum arr :
  forall off, 0 <= off -> off + strings_len arr < 2 ^ 32 ->
    strings_size off arr = off + strings_len arr.
Proof.
  unfold strings_size. induction arr as [|v r IH]; intros off H0 H; [cbn; lia|].
  cbn [fold_left strings_len] in *.
  pose proof (len_nonneg v). pose proof (strings_len_nonneg r).
  rewrite u32_small by lia. rewrite IH by lia. lia.
Qed.

(** ** The loops of [StringArrayLog::Append] *)

Lemma write_strings_some arr :
  forall out st, write_strings out arr st = store_some out (strings_bytes arr) st.
Proof.
  unfold strings_bytes. induction arr as [|v r IH]; intros out st; [reflexivity|].
  cbn [write_strings map concat].
  rewrite <- store_some_app.
  rewrite <- (bind_assoc (store out v) (fun _ => store (ptr_add out (len v)) [0])).
  apply bind_ext.
  - rewrite <- store_app. destruct v; reflexivity.
  - intros _ s. rewrite len_app. change (len [0]) with 1. apply IH.
Qed.

Lemma bind_store_some {A} p a b (k : M A) st :
  (store_some p a ;;; store_some (ptr_add p (len a)) b ;;; k) st
  = (store_some p (a ++ b) ;;; k) st.
Proof.
  unfold bind at 3. rewrite <- store_some_app.
  unfold bind. destruct (store_some p a st) as [[[] s]|]; reflexivity.
Qed.

Lemma write_pointers_some arr :
  forall out off st,
    0 <= off -> off + strings_len arr < 2 ^ 32 ->
    write_pointers out off arr st
    = (store_some out (pointer_table off arr) ;;;
       ret (ptr_add out (8 * Z.of_nat (length arr)))) st.
Proof.
  induction arr as [|v r IH]; intros out off st H0 H.
  - cbn. rewrite ptr_add_0. reflexivity.
  - cbn [write_pointers pointer_table strings_len length] in *.
    pose proof (len_nonneg v). pose proof (strings_len_nonneg r).
    rewrite u32_small by lia. unfold write32le.
    etransitivity.
    { apply bind_ext; [reflexivity|]. intros u s.
      apply bind_ext; [reflexivity|]. intros u' s'. apply IH; lia. }
    etransitivity.
    { exact (bind_store_some out (le_bytes 4 off) (le_bytes 4 (len v)) _ st). }
    etransitivity.
    { exact (bind_store_some out (le_bytes 4 off ++ le_bytes 4 (len v))
               (pointer_table (off + (len v + 1)) r) _ st). }
    rewrite <- app_assoc. apply bind_ext; [reflexivity|].
    intros _ s. rewrite ptr_add_add. unfold ret. f_equal. f_equal. f_equal. lia.
Qed.

Lemma bind_ret_l {A B} (c : M unit) (x : A) (k : A -> M B) st :
  (y <- (c ;;; ret x) ;; k y) st = (c ;;; k x) st.
Proof. unfold bind, ret. destruct (c st) as [[[] s]|]; reflexivity. Qed.

Lemma StringArrayLog_Append_raw timestamp arr st :
  len (string_array_bytes arr) < 2 ^ 32 ->
  StringArrayLog_Append timestamp arr st
  = AppendRaw timestamp (string_array_bytes arr) st.
Proof.
  intros Hl. rewrite len_string_array_bytes in Hl.
  pose proof (strings_len_nonneg arr) as Hs.
  unfold StringArrayLog_Append, StringArrayLog_Append_with, AppendRaw.
  rewrite (u64_small (8 * Z.of_nat (length arr))) by lia.
  rewrite (u32_small (4 + 8 * Z.of_nat (length arr))) by lia.
  rewrite strings_size_sum by lia.
  rewrite len_string_array_bytes.
  apply bind_ext; [reflexivity|]. intros [p|] s; [|reflexivity].
  set (K := AppendRawFinish (4 + 8 * Z.of_nat (length arr) + strings_len arr) ;;; ret true).
  unfold write32le.
  etransitivity.
  { apply bind_ext; [reflexivity|]. intros u s1.
    etransitivity.
    { apply bind_ext; [apply write_pointers_some; lia|]. intros q s2.
      apply bind_ext; [apply write_strings_some|reflexivity]. }
    apply (bind_ret_l (store_some (ptr_add p 4)
                         (pointer_table (4 + 8 * Z.of_nat (length arr)) arr))). }
  cbv beta.
  etransitivity.
  { apply bind_ext; [reflexivity|]. intros u s1.
    assert (P : ptr_add (ptr_add p 4) (8 * Z.of_nat (length arr))
                = ptr_add (ptr_add p (len (le_bytes 4 (Z.of_nat (length arr)))))
                    (len (pointer_table (4 + 8 * Z.of_nat (length arr)) arr)))
      by (rewrite len_pointer_table; reflexivity).
    rewrite P.
    exact (bind_store_some (ptr_add p (len (le_bytes 4 (Z.of_nat (length arr)))))
             (pointer_table (4 + 8 * Z.of_nat (length arr)) arr)
             (strings_bytes arr) K s1). }
  etransitivity.
  { exact (bind_store_some p (le_bytes 4 (Z.of_nat (length arr))) _ K s). }
  reflexivity.
Qed.

Lemma peek_middle a b c : peek (len a) (len b) (a ++ b ++ c) = b.
Proof.
  unfold peek, len. rewrite !Nat2Z.id.
  rewrite skipn_app, skipn_all, Nat.sub_diag. cbn [app skipn].
  rewrite firstn_app, firstn_all, Nat.sub_diag. cbn [firstn]. apply app_nil_r.
Qed.

Lemma pointer_table_app off a b :
  pointer_table off (a ++ b)
  = pointer_table off a ++ pointer_table (off + strings_len a) b.
Proof.
  revert off. induction a as [|v a IH]; intros off; cbn [app pointer_table strings_len].
  - rewrite Z.add_0_r. reflexivity.
  - rewrite IH, <- !app_assoc.
    replace (off + (len v + 1) + strings_len a) with (off + (len v + 1 + strings_len a))
      by lia.
    reflexivity.
Qed.

Lemma strings_bytes_app a b : strings_bytes (a ++ b) = strings_bytes a ++ strings_bytes b.
Proof. unfold strings_bytes. rewrite map_app, concat_app. reflexivity. Qed.

(** Where the pointer record and the characters of the string [d] are in the
    payload. *)
Lemma string_array_layout arr d value :
  nth_error arr d = Some value ->
  let payload := string_array_bytes arr in
  let rec := 4 + 8 * Z.of_nat d in
  let off := 4 + 8 * Z.of_nat (length arr) + strings_len (firstn d arr) in
  peek rec 4 payload = le_bytes 4 off
  /\ peek (rec + 4) 4 payload = le_bytes 4 (len value)
  /\ peek off (len value) payload = value
  /\ off + len value < len payload.
Proof.
  intros H payload rec off.
  destruct (nth_error_split _ _ H) as (pre & post & E & Ld).
  assert (Ef : firstn d arr = pre).
  { rewrite E, <- Ld. rewrite firstn_app, Nat.sub_diag, firstn_all. cbn [firstn].
    apply app_nil_r. }
  subst off. rewrite Ef.
  set (n := Z.of_nat (length arr)).
  set (N := le_bytes 4 n).
  set (O := le_bytes 4 (4 + 8 * n + strings_len pre)).
  set (L := le_bytes 4 (len value)).
  set (Tpre := pointer_table (4 + 8 * n) pre).
  set (Tpost := pointer_table (4 + 8 * n + strings_len pre + (len value + 1)) post).
  assert (P : payload
              = N ++ Tpre ++ O ++ L ++ Tpost
                ++ strings_bytes pre ++ value ++ [0] ++ strings_bytes post).
  { subst payload. unfold string_array_bytes. fold n N.
    rewrite E. rewrite pointer_table_app, strings_bytes_app. fold Tpre.
    cbn [pointer_table]. fold O L Tpost.
    change (strings_bytes (value :: post)) with ((value ++ [0]) ++ strings_bytes post).
    rewrite <- !app_assoc. reflexivity. }
  assert (Ln : n = Z.of_nat d + 1 + Z.of_nat (length post)).
  { subst n. rewrite E, length_app. cbn [length]. lia. }
  assert (LN : len N = 4) by apply len_le_bytes.
  assert (LO : len O = 4) by apply len_le_bytes.
  assert (LL : len L = 4) by apply len_le_bytes.
  assert (LTpre : len Tpre = 8 * Z.of_nat d)
    by (unfold Tpre; rewrite len_pointer_table, Ld; reflexivity).
  assert (LTpost : len Tpost = 8 * Z.of_nat (length post))
    by (unfold Tpost; apply len_pointer_table).
  pose proof (len_strings_bytes pre) as LSpre.
  pose proof (strings_len_nonneg post) as LSpost.
  rewrite <- (len_strings_bytes post) in LSpost.
  split; [|split; [|split]].
  - rewrite P. rewrite (app_assoc N Tpre).
    replace rec with (len (N ++ Tpre)) by (rewrite len_app; lia).
    rewrite <- LO at 1. apply peek_middle.
  - rewrite P. rewrite (app_assoc N Tpre), (app_assoc (N ++ Tpre) O).
    replace (rec + 4) with (len ((N ++ Tpre) ++ O)) by (rewrite !len_app; lia).
    rewrite <- LL at 1. apply peek_middle.
  - rewrite P.
    replace (N ++ Tpre ++ O ++ L ++ Tpost ++ strings_bytes pre ++ value ++ [0]
             ++ strings_bytes post)
      with ((N ++ Tpre ++ O ++ L ++ Tpost ++ strings_bytes pre) ++ value ++ [0]
            ++ strings_bytes post)
      by (rewrite <- !app_assoc; reflexivity).
    replace (4 + 8 * n + strings_len pre)
      with (len (N ++ Tpre ++ O ++ L ++ Tpost ++ strings_bytes pre))
      by (rewrite !len_app; lia).
    apply peek_middle.
  - rewrite P, !len_app. change (len [0]) with 1. lia.
Qed.

Lemma string_at_shows view st arr d value rec :
  shows view st (string_array_bytes arr) ->
  len (string_array_bytes arr) < 2 ^ 32 ->
  nth_error arr d = Some value ->
  rec = 4 + 8 * Z.of_nat d ->
  string_at view rec st = Some (value, st).
Proof.
  intros Sh Hl Hd ->.
  assert (Hp : string_array_bytes arr <> []).
  { intros E. pose proof (len_string_array_bytes arr) as L. rewrite E in L.
    pose proof (strings_len_nonneg arr). change (len []) with 0 in L. lia. }
  destruct (shows_data _ _ _ Sh Hp) as (p & Ep & L).
  destruct (string_array_layout arr d value Hd) as (P1 & P2 & P3 & P4).
  cbv zeta in P1, P2, P3, P4.
  pose proof (nth_error_bound _ _ _ Hd) as Hb.
  pose proof (strings_len_nonneg (firstn d arr)) as H0.
  pose proof (len_nonneg value) as Hv.
  unfold string_at, data_ptr. rewrite Ep. rewrite (bind_eq _ _ _ p st eq_refl).
  unfold read32le. rewrite ptr_add_add.
  rewrite (bind_eq _ _ _ _ _
             (bind_eq _ _ _ _ _
                (L (4 + 8 * Z.of_nat d) 4 ltac:(lia) ltac:(lia) ltac:(lia)))).
  rewrite (bind_eq _ _ _ _ _
             (bind_eq _ _ _ _ _
                (L (4 + 8 * Z.of_nat d + 4) 4 ltac:(lia) ltac:(lia) ltac:(lia)))).
  unfold ret. rewrite P1, P2.
  rewrite !le_value_small by (change (8 * Z.of_nat 4) with 32; lia).
  rewrite (L (4 + 8 * Z.of_nat (length arr) + strings_len (firstn d arr)) (len value)
             ltac:(lia) Hv ltac:(lia)).
  rewrite P3. reflexivity.
Qed.

(** X11.  [StringArrayLog::Append(uint64_t, ArrayRef<StringRef>)]: for
    strings whose record stays below [2^32] bytes, the append is the raw
    append of the number of strings, the table of their offsets and lengths,
    and the strings, each ended by a zero byte.  On a log that can be
    appended to and that the record fits (a 64-bit timestamp;
    [recordSize - 8] bytes on a fixed-size log; on a variable-size log a data
    position after the record and the gap that the pointer record can hold),
    when the append went through and the operating system maps the files at
    the read, [Get] on the new record gives back the timestamp and the
    strings, [operator[]] gives their number and the view of the record, and
    the proxy over that view gives the string at every index. *)
Theorem StringArrayLog_round_trip (st : World) (timestamp : Z) (arr : list (list Z))
    (st' : World) :
  let payload := string_array_bytes arr in
  well_formed st -> fits_one st (timestamp, payload) -> len payload < 2 ^ 32 ->
  StringArrayLog_Append timestamp arr st = Some (true, st') ->
  Forall maps_ok (os st') ->
  StringArrayLog_Append timestamp arr st = AppendRaw timestamp payload st
  /\ exists view st'',
       StringArrayLog_Get (size st) st' = Some ((timestamp, arr), st'')
       /\ StringArrayLog_at (size st) st'
          = Some ((timestamp, (Z.of_nat (length arr), view)), st'')
       /\ forall d value, nth_error arr d = Some value ->
            StringArrayLogArrayProxy_at view (Z.of_nat d) st'' = Some (value, st'').
Proof.
  intros payload WF Hfit Hl H Hos.
  pose proof (StringArrayLog_Append_raw timestamp arr st Hl) as E.
  split; [exact E|]. rewrite E in H.
  destruct (append_read_back _ _ _ _ WF Hfit H Hos) as (view & st'' & ER & Sh).
  assert (Hp : payload <> []).
  { intros E0. pose proof (len_string_array_bytes arr) as L. fold payload in L.
    rewrite E0 in L. pose proof (strings_len_nonneg arr). change (len []) with 0 in L. lia. }
  destruct (shows_data _ _ _ Sh Hp) as (p & Ep & L).
  pose proof (len_string_array_bytes arr) as Lp. fold payload in Lp.
  pose proof (strings_len_nonneg arr) as Hs.
  assert (Num : (q <- data_ptr view ;; read32le q) st''
                = Some (Z.of_nat (length arr), st'')).
  { unfold data_ptr. rewrite Ep. rewrite (bind_eq _ _ _ p st'' eq_refl).
    unfold read32le.
    pose proof (L 0 4 ltac:(lia) ltac:(lia) ltac:(lia)) as L0.
    rewrite ptr_add_0 in L0. rewrite (bind_eq _ _ _ _ _ L0).
    unfold ret. f_equal. f_equal.
    assert (P0 : peek 0 4 payload = le_bytes 4 (Z.of_nat (length arr)))
      by exact (peek_middle [] (le_bytes 4 (Z.of_nat (length arr)))
                  (pointer_table (4 + 8 * Z.of_nat (length arr)) arr
                   ++ strings_bytes arr)).
    rewrite P0. apply le_value_small. change (8 * Z.of_nat 4) with 32. lia. }
  unfold data_ptr in Num. rewrite Ep in Num.
  rewrite (bind_eq _ _ _ p st'' eq_refl) in Num.
  exists view, st''. split; [|split].
  - unfold StringArrayLog_Get. rewrite (bind_eq _ _ _ _ _ ER).
    unfold data_ptr. rewrite Ep. rewrite (bind_eq _ _ _ p st'' eq_refl).
    rewrite (bind_eq _ _ _ _ _ Num). rewrite Nat2Z.id.
    match goal with |- bind (for_each ?k ?i ?body) _ _ = _ =>
      assert (F : for_each k i body st'' = Some (arr, st''))
    end.
    { apply for_each_list. intros d x Hd. rewrite Z.add_0_l.
      pose proof (nth_error_bound _ _ _ Hd) as Hb.
      apply (string_at_shows view st'' arr d x); try assumption.
      rewrite (u32_small (Z.of_nat d * 8)) by lia.
      rewrite u32_small by lia. lia. }
    rewrite (bind_eq _ _ _ _ _ F). reflexivity.
  - unfold StringArrayLog_at. rewrite (bind_eq _ _ _ _ _ ER).
    unfold data_ptr. rewrite Ep. rewrite (bind_eq _ _ _ p st'' eq_refl).
    rewrite (bind_eq _ _ _ _ _ Num). reflexivity.
  - intros d value Hd. unfold StringArrayLogArrayProxy_at.
    pose proof (nth_error_bound _ _ _ Hd) as Hb.
    apply (string_at_shows view st'' arr d value); try assumption.
    rewrite (u64_small (Z.of_nat d * 8)) by lia.
    rewrite u64_small by lia. lia.
Qed.

(** X11 on scenario S2: three strings, the second one empty. *)
Lemma StringArrayLog_round_trip_witness :
  exists st' view st'',
    StringArrayLog_Append 5 [bytes "ab"%string; []; bytes "c"%string] ex_s2_open
    = Some (true, st')
    /\ StringArrayLog_Get 0 st'
       = Some ((5, [bytes "ab"%string; []; bytes "c"%string]), st'')
    /\ StringArrayLog_at 0 st' = Some ((5, (3, view)), st'')
    /\ StringArrayLogArrayProxy_at view 2 st'' = Some (bytes "c"%string, st'').
Proof.
  pose (arr := [bytes "ab"%string; []; bytes "c"%string]).
  pose (st' := state_after (StringArrayLog_Append 5 arr) ex_s2_open).
  assert (E : StringArrayLog_Append 5 arr ex_s2_open = Some (true, st'))
    by (vm_compute; reflexivity).
  destruct (StringArrayLog_round_trip ex_s2_open 5 arr st')
    as (_ & view & st'' & G & A & P).
  - exact ex_s2_open_well_formed.
  - vm_compute. repeat split; discriminate.
  - vm_compute. reflexivity.
  - exact E.
  - vm_compute. constructor.
  - exists st', view, st''. split; [exact E|]. split; [exact G|]. split; [exact A|].
    exact (P 2%nat (bytes "c"%string) eq_refl).
Defined.

Lemma poke_twice off a b c :
  0 <= off -> len a = len b -> off + len a <= len c ->
  poke off b (poke off a c) = poke off b c.
Proof.
  unfold poke, len. intros H0 Hl Hc. apply Nat2Z.inj in Hl.
  rewrite firstn_app, firstn_firstn, Nat.min_id, length_firstn.
  rewrite Nat.min_l by lia. rewrite Nat.sub_diag.
  cbn [firstn]. rewrite app_nil_r. f_equal. f_equal.
  rewrite !skipn_app, length_firstn, Nat.min_l by lia.
  rewrite (skipn_all2 (firstn _ c)) by (rewrite length_firstn; lia).
  rewrite (skipn_all2 a) by lia. cbn [app]. rewrite skipn_skipn.
  f_equal. lia.
Qed.

(** A store over a store of the same length at the same place. *)
Lemma store_twice p a b st :
  len a = len b -> (store p a ;;; store p b) st = store p b st.
Proof.
  intros Hl. unfold bind, store. rewrite Hl.
  set (f := file_of (p_file p) st).
  destruct (accessible f (p_off p) (len b)) eqn:A; [|reflexivity].
  destruct (readOnly f) eqn:Ro; [reflexivity|]. cbn [negb andb].
  rewrite file_of_set_file. cbn [set_contents readOnly mapping contents].
  rewrite Ro. cbn [negb]. rewrite andb_true_r.
  apply accessible_true in A as (M & O & N & S & L).
  replace (accessible _ (p_off p) (len b)) with true.
  2:{ symmetry. apply accessible_true. cbn [set_contents mapping contents].
      rewrite len_poke by lia. repeat split; assumption. }
  rewrite set_file_twice. cbn [set_contents fd readOnly writePos fileSize mapOffset
    mapGrowSize maxGrowSize maxMapSize mapping contents].
  rewrite poke_twice by lia. reflexivity.
Qed.

Lemma write_pointers_string_off arr :
  forall out off off' st,
    write_pointers_string out off arr st = write_pointers_string out off' arr st.
Proof.
  induction arr as [|value r IH]; intros out off off' st; [reflexivity|].
  cbn [write_pointers_string]. unfold write32le.
  transitivity ((store out (le_bytes 4 (len value)) ;;;
                 write_pointers_string (ptr_add out 8) (u32 (off + (len value + 1))) r) st).
  { unfold bind at 1 2.
    pose proof (store_twice out (le_bytes 4 off) (le_bytes 4 (len value)) st
                  ltac:(rewrite !len_le_bytes; reflexivity)) as T.
    unfold bind in T at 1. unfold bind at 1.
    destruct (store out (le_bytes 4 off) st) as [[[] s1]|].
    - rewrite T. reflexivity.
    - rewrite <- T. reflexivity. }
  transitivity ((store out (le_bytes 4 (len value)) ;;;
                 write_pointers_string (ptr_add out 8) (u32 (off' + (len value + 1))) r) st).
  { apply bind_ext; [reflexivity|]. intros u s. apply IH. }
  symmetry.
  pose proof (store_twice out (le_bytes 4 off') (le_bytes 4 (len value)) st
                ltac:(rewrite !len_le_bytes; reflexivity)) as T.
  unfold bind in T at 1. unfold bind at 1 2. unfold bind at 1.
  destruct (store out (le_bytes 4 off') st) as [[[] s1]|].
  - rewrite T. reflexivity.
  - rewrite <- T. reflexivity.
Qed.

(** X12.  The table that [StringArrayLog::Append(uint64_t,
    ArrayRef<std::string>)] writes: both values of a pointer record are
    written at the same place, so when the loop returns, it has moved on by 8
    bytes for every string, what it did is the same for every starting
    offset, the first four bytes of every pointer record hold the length of
    the string, where [Get] reads the offset, and the four bytes where [Get]
    reads the length are what the file held before; the bytes before the
    table and the length of the file are unchanged. *)
Theorem write_pointers_string_lengths (arr : list (list Z)) :
  forall (out : Ptr) (off : Z) (st : World) (q : Ptr) (st' : World),
    write_pointers_string out off arr st = Some (q, st') ->
    let c := contents (file_of (p_file out) st) in
    let c' := contents (file_of (p_file out) st') in
    q = ptr_add out (8 * Z.of_nat (length arr))
    /\ (forall off', write_pointers_string out off' arr st = Some (q, st'))
    /\ len c' = len c
    /\ (forall k m, 0 <= k -> 0 <= m -> k + m <= p_off out ->
          peek k m c' = peek k m c)
    /\ (forall d value, nth_error arr d = Some value ->
          peek (p_off out + 8 * Z.of_nat d) 4 c' = le_bytes 4 (len value)
          /\ peek (p_off out + 8 * Z.of_nat d + 4) 4 c'
             = peek (p_off out + 8 * Z.of_nat d + 4) 4 c).
Proof.
  induction arr as [|value r IH]; intros out off st q st' H c c'.
  - cbn in H. injection H as <- <-. subst c c'.
    split; [cbn [length]; rewrite Z.mul_0_r, ptr_add_0; reflexivity|].
    split; [reflexivity|]. split; [reflexivity|]. split; [reflexivity|].
    intros [|d] value H; discriminate.
  - split; [|split].
    2:{ intros off'. rewrite <- H. apply write_pointers_string_off. }
    all: cbn [write_pointers_string] in H; unfold write32le in H.
    all: apply bind_Some in H; destruct H as ([] & s1 & E1 & H).
    all: apply bind_Some in H; destruct H as ([] & s2 & E2 & H).
    all: destruct (store_effect _ _ _ _ _ E1) as (C1 & _ & O1 & B1 & _).
    all: destruct (store_effect _ _ _ _ _ E2) as (C2 & _ & O2 & B2 & _).
    all: destruct (IH _ _ _ _ _ H) as (Q & _ & Ln & Bf & En).
    all: cbn [ptr_add p_file p_off] in Ln, Bf, En.
    all: rewrite len_le_bytes in B1, B2; change (Z.of_nat 4) with 4 in B1, B2.
    all: assert (L1 : len (contents (file_of (p_file out) s1)) = len c)
           by (rewrite C1; apply len_poke; [exact O1|rewrite len_le_bytes; exact B1]).
    all: assert (L2 : len (contents (file_of (p_file out) s2)) = len c)
           by (rewrite C2, len_poke, L1;
               [reflexivity|exact O2|rewrite len_le_bytes; exact B2]).
    + rewrite Q. rewrite ptr_add_add. f_equal. cbn [length]. lia.
    + split; [unfold c', c; rewrite Ln; exact L2|]. split.
      * intros k m Hk Hm Hb. unfold c', c. rewrite Bf by lia.
        rewrite C2, peek_poke_before by lia.
        rewrite C1, peek_poke_before by lia. reflexivity.
      * intros [|d] v Hd.
        -- cbn [nth_error] in Hd. injection Hd as <-.
           change (Z.of_nat 0) with 0. rewrite Z.mul_0_r, !Z.add_0_r.
           unfold c', c. split.
           ++ rewrite Bf by lia. rewrite C2.
              change 4 with (len (le_bytes 4 (len value))) at 1.
              apply peek_poke; [exact O2|rewrite len_le_bytes; exact B2].
           ++ rewrite Bf by lia. rewrite C2.
              rewrite peek_poke_after
                by (rewrite ?len_le_bytes; change (Z.of_nat 4) with 4; lia).
              rewrite C1.
              rewrite peek_poke_after
                by (rewrite ?len_le_bytes; change (Z.of_nat 4) with 4; lia).
              reflexivity.
        -- cbn [nth_error] in Hd. destruct (En d v Hd) as [En1 En2].
           replace (p_off out + 8 * Z.of_nat (S d)) with (p_off out + 8 + 8 * Z.of_nat d)
             by lia.
           unfold c', c. split; [exact En1|]. rewrite En2. rewrite C2.
           rewrite peek_poke_after
             by (rewrite ?len_le_bytes; change (Z.of_nat 4) with 4; lia).
           rewrite C1.
           rewrite peek_poke_after
             by (rewrite ?len_le_bytes; change (Z.of_nat 4) with 4; lia).
           reflexivity.
Qed.

(** X12 on a mapped file of zero bytes: the table of ["ab"] and ["c"] holds
    the lengths 2 and 1 where the offsets belong, and zero bytes after them. *)
Lemma write_pointers_string_lengths_witness :
  exists st',
    write_pointers_string (mkPtr Time 4100) 12 [bytes "ab"%string; bytes "c"%string]
      ex_mapped
    = Some (mkPtr Time 4116, st')
    /\ peek 4100 16 (contents (m_time st')) = [2; 0; 0; 0; 0; 0; 0; 0; 1; 0; 0; 0; 0; 0; 0; 0]
    /\ peek 4108 4 (contents (m_time st')) = le_bytes 4 1
    /\ peek 4112 4 (contents (m_time st')) = peek 4112 4 (contents (m_time ex_mapped)).
Proof.
  pose (arr := [bytes "ab"%string; bytes "c"%string]).
  assert (G : forall st',
             write_pointers_string (mkPtr Time 4100) 12 arr ex_mapped
             = Some (mkPtr Time 4116, st') ->
             peek 4108 4 (contents (m_time st')) = le_bytes 4 1
             /\ peek 4112 4 (contents (m_time st'))
                = peek 4112 4 (contents (m_time ex_mapped))).
  { intros st' E.
    destruct (write_pointers_string_lengths arr (mkPtr Time 4100) 12 ex_mapped
                (mkPtr Time 4116) st' E) as (_ & _ & _ & _ & En).
    exact (En 1%nat (bytes "c"%string) eq_refl). }
  exists (state_after (write_pointers_string (mkPtr Time 4100) 12 arr) ex_mapped).
  split; [vm_compute; reflexivity|]. split; [vm_compute; reflexivity|].
  apply G. vm_compute. reflexivity.
Defined.

(** * Closing a log and opening it again *)















Lemma DoOpen_reopen_writable c dd h dataType dataLayout recordSize config answers :
  header_of c = Some h ->
  checks_pass h dataType dataLayout recordSize config ->
  cfg_readOnly config = false ->
  Forall os_ok answers ->
  reopen_ok h c dd config ->
  exists st2,
    DoOpen (Some c) (Some dd) dataType dataLayout recordSize CD_OpenExisting config
      (DataLogImpl_new answers) = Some (0, st2)
    /\ contents (m_time st2) = resize (reopened_size h config c) c
    /\ writePos (m_time st2) = h_timeWritePos h
    /\ writePos (m_data st2) = h_dataWritePos h
    /\ readOnly (m_time st2) = false /\ readOnly (m_data st2) = false
    /\ file_ok (m_time st2) /\ file_ok (m_data st2)
    /\ backed (m_time st2) /\ backed (m_data st2)
    /\ is_mapped Time st2 = true
    /\ m_dataType st2 = h_dataType h /\ m_dataLayout st2 = h_dataLayout h
    /\ m_recordSize st2 = h_recordSize h /\ m_fixedSize st2 = h_fixedSize h
    /\ m_gapData st2 = h_gapData h
    /\ m_lastTimestamp st2
       = (if kHeaderSize + h_recordSize h <? h_timeWritePos h
          then le_value (peek (h_timeWritePos h - h_recordSize h) 8
                           (resize (reopened_size h config c) c))
          else 0)
    /\ m_checkMonotonic st2 = cfg_checkMonotonic config
    /\ m_periodicFlush st2 = cfg_periodicFlush config
    /\ Forall os_ok (os st2).
Proof.
  intros Hh Hp Hro Hos (Hlc & R8 & _ & Hg & Hmg & Hb & Hdg & Hdm & Hdata).
  destruct (header_of_range c h Hh) as (Rr & Rt & Rd).
  set (rs := h_recordSize h) in *. set (tw := h_timeWritePos h) in *.
  set (g := cfg_initialSize config * rs) in *.
  set (fs := reopened_size h config c).
  pose proof (len_nonneg c) as Hc0.
  destruct (round_up_bounds (tw + rs) g ltac:(lia) ltac:(lia)) as [Hru _].
  cbv zeta in Hru. fold (round_up (tw + rs) g) in Hru.
  assert (Hfs : tw + rs <= fs < 2 ^ 64).
  { unfold fs, reopened_size. fold rs tw g. lia. }
  set (r := DoOpen (Some c) (Some dd) dataType dataLayout recordSize CD_OpenExisting
              config (DataLogImpl_new answers)).
  set (st0 := set_file Time
                (mkFileInfo 3 (cfg_readOnly config) 0 (len c) 0 0 0 0
                   (mkMappedFile false 0) c) (DataLogImpl_new answers)).
  pose proof (ReadHeader_header st0) as HR.
  change (contents (m_time st0)) with c in HR. rewrite Hh in HR.
  assert (Er : r = DoOpen (Some c) (Some dd) dataType dataLayout recordSize
                     CD_OpenExisting config (DataLogImpl_new answers)) by reflexivity.
  clearbody r. unfold DoOpen in Er. unfold Open at 1 in Er.
  change (openFile (Some c) CD_OpenExisting) with (0, c) in Er. cbv beta iota in Er.
  match type of Er with _ = bind (bind ?c0 ?k0) ?k ?s =>
    rewrite (bind_eq (bind c0 k0) k s 0 _ eq_refl) in Er end.
  change (0 =? 0) with true in Er. cbn [negb] in Er.
  stepin Er. stepin Er.
  match type of Er with _ = bind ?c0 ?k ?s => change s with st0 in Er end.
  change (disp_eqb CD_OpenExisting CD_OpenExisting) with true in Er. cbn [orb] in Er.
  set (st1 := with_header h st0) in *.
  match type of Er with _ = bind ?c0 ?k ?s =>
    assert (E1 : c0 s = Some (Check st1 dataType dataLayout recordSize
                                (cfg_checkType config) (cfg_checkLayout config)
                                (cfg_checkSize config), st1))
      by (rewrite (bind_eq _ _ _ _ _ HR); reflexivity);
    rewrite (bind_eq c0 k s _ _ E1) in Er end.
  clear E1.
  destruct (Check_cases h st0 dataType dataLayout recordSize config) as [[_ E]|[Hn _]];
    [|contradiction].
  fold st1 in E. rewrite E in Er.
  change (0 =? 0) with true in Er. cbv beta iota in Er. cbn [negb] in Er.
  cbv beta iota in Er.
  stepin Er. stepin Er. stepin Er. stepin Er.
  change (m_recordSize (set_config _ _ st1)) with rs in Er.
  change (writePos (m_time (set_config _ _ st1))) with tw in Er.
  change (m_fixedSize (set_config _ _ st1)) with (h_fixedSize h) in Er.
  fold g in Er. rewrite (u64_small g) in Er by lia.
  rewrite (u64_small (cfg_maxGrowSize config * rs)) in Er by lia.
  match type of Er with _ = bind ?b ?k ?s =>
    set (s3 := s) in Er; set (blk := b) in Er; set (K := k) in Er end.
  assert (Hos3 : Forall os_ok (os s3)) by exact Hos.
  destruct (next_os_ok s3 Hos3) as [_ Hos4].
  set (ft := mkFileInfo 3 false tw fs 0
               (next_grow g (cfg_maxGrowSize config * rs))
               (cfg_maxGrowSize config * rs) (cfg_maxMapSize config)
               (mkMappedFile true fs) (resize fs c)).
  set (s4 := set_env (snd (next_os s3)) (perrors s3) (set_file Time ft s3)).
  set (last := if kHeaderSize + rs <? tw
               then le_value (peek (tw - rs) 8 (resize fs c)) else 0).
  assert (Maps : forall pos n, 0 <= pos -> 0 <= n -> pos + n = tw + rs ->
             GetMappedOffset Time pos n s3 = Some ((pos, 0), s4)).
  { intros pos n Hpos Hn Hpn.
    destruct (GetMappedOffset_first Time pos n s3 eq_refl Hro) as [EG _];
      [exact Hg|exact Hpos|exact Hn
      |change (pos + n + g < 2 ^ 64); lia|exact Hos3|].
    cbv zeta in EG. rewrite EG.
    change (mapOffset (file_of Time s3)) with 0. rewrite Z.sub_0_r.
    rewrite u64_small by lia. rewrite Hpn. reflexivity. }
  assert (EB : blk s3 = Some (0, set_lastTimestamp last s4)).
  { subst blk last. cbv beta.
    destruct (Z.ltb_spec (kHeaderSize + rs) tw) as [Lt|Ge].
    - unfold kHeaderSize in *.
      rewrite (u64_small (tw - rs)) by lia.
      rewrite (u64_small (rs * 2)) by lia.
      rewrite (bind_eq _ _ _ _ _ (Maps (tw - rs) (rs * 2) ltac:(lia) ltac:(lia)
                                    ltac:(lia))).
      change (0 =? 0) with true. cbn [negb].
      match goal with |- bind (read64le ?p) _ ?s = _ =>
        assert (ER : read64le p s
                     = Some (le_value (peek (tw - rs) 8 (resize fs c)), s))
      end.
      { unfold read64le, load, bind. cbn [p_file p_off].
        replace (accessible _ _ _) with true; [reflexivity|].
        symmetry. apply accessible_true. cbn.
        rewrite len_resize by lia. repeat split; lia. }
      rewrite (bind_eq _ _ _ _ _ ER). reflexivity.
    - rewrite (bind_eq _ _ _ _ _ (Maps tw rs ltac:(lia) ltac:(lia) ltac:(lia))).
      reflexivity. }
  rewrite (bind_eq blk K s3 _ _ EB) in Er. subst K. cbv beta in Er.
  change (0 =? 0) with true in Er. cbn [negb] in Er.
  assert (Ft : file_ok ft).
  { unfold file_ok, growable, ft. cbn. rewrite len_resize by lia.
    repeat split; try lia. right. unfold next_grow.
    destruct (Z.ltb_spec g (cfg_maxGrowSize config * rs)); lia. }
  assert (Bt : backed ft).
  { intros _. unfold ft. cbn. rewrite len_resize by lia. lia. }
  destruct (h_fixedSize h) eqn:Hf; cbn [negb] in Er.
  - eexists. split; [exact Er|].
    split; [reflexivity|]. split; [reflexivity|]. split; [reflexivity|].
    split; [reflexivity|]. split; [reflexivity|]. split; [exact Ft|].
    split.
    { unfold file_ok, growable. cbn. repeat split; lia. }
    split; [exact Bt|]. split; [intros Hx; discriminate Hx|].
    repeat (split; [reflexivity|]).
    split; [cbn; exact Hf|]. repeat (split; [reflexivity|]). exact Hos4.
  - destruct (Hdata eq_refl) as (Hdb & Hld).
    pose proof (len_nonneg dd) as Hd0.
    unfold Open in Er.
    change (openFile (Some dd) CD_OpenExisting) with (0, dd) in Er. cbv beta iota in Er.
    match type of Er with _ = bind (bind ?c0 ?k0) ?k ?s =>
      rewrite (bind_eq (bind c0 k0) k s 0 _ eq_refl) in Er end.
    change (0 =? 0) with true in Er. cbn [negb] in Er.
    stepin Er. stepin Er.
    match type of Er with _ = bind (GetMappedOffset Data ?p ?n) ?k ?s =>
      change p with (h_dataWritePos h) in Er; set (s6 := s) in Er end.
    destruct (GetMappedOffset_first Data (h_dataWritePos h) 1024 s6 eq_refl Hro)
      as [EG2 Hr2];
      [exact Hdg|lia|lia
      |change (h_dataWritePos h + 1024 + cfg_initialDataSize config < 2 ^ 64); lia
      |exact Hos4|].
    cbv zeta in EG2, Hr2.
    change (mapGrowSize (file_of Data s6)) with (cfg_initialDataSize config) in EG2, Hr2.
    change (fileSize (file_of Data s6)) with (len dd) in EG2.
    rewrite (bind_eq _ _ _ _ _ EG2) in Er.
    destruct (next_os_ok s6 Hos4) as [_ Hos7].
    eexists. split; [exact Er|].
    split; [reflexivity|]. split; [reflexivity|]. split; [reflexivity|].
    split; [reflexivity|]. split; [reflexivity|]. split; [exact Ft|].
    split.
    { cbn [m_data set_env set_file file_of].
      unfold file_ok, growable. cbn. rewrite len_resize by lia.
      repeat split; try lia. right. unfold next_grow.
      destruct (Z.ltb_spec (cfg_initialDataSize config) (cfg_maxDataGrowSize config));
        lia. }
    split; [exact Bt|].
    split; [intros _; cbn; rewrite len_resize by lia; lia|].
    repeat (split; [reflexivity|]).
    split; [cbn; exact Hf|]. repeat (split; [reflexivity|]). exact Hos7.
Qed.

(** X14.  The last timestamp of a log that is opened again for appending,
    with a header that passes the checks, write positions on a record
    boundary inside the file, and sizes in range: [DoOpen] returns 0 and
    leaves a log that appends go through on, the header and the stored
    timestamps are those of the file, and the last timestamp is the one of
    the last record when there are two records or more.  With one record or
    none it is 0: then no timestamp above 0 is rejected, whatever the
    timestamp of the record that is stored. *)
Theorem reopened_lastTimestamp_edge (c dd : list Z) (h : Header)
    (dataType dataLayout : list Z) (recordSize : Z) (config : Config)
    (answers : list OsAnswer) :
  header_of c = Some h ->
  checks_pass h dataType dataLayout recordSize config ->
  cfg_readOnly config = false ->
  Forall os_ok answers ->
  reopen_ok h c dd config ->
  (h_timeWritePos h - kHeaderSize) mod h_recordSize h = 0 ->
  kHeaderSize <= h_timeWritePos h <= len c ->
  exists st2,
    DoOpen (Some c) (Some dd) dataType dataLayout recordSize CD_OpenExisting config
      (DataLogImpl_new answers) = Some (0, st2)
    /\ header_at st2 = h
    /\ appendable st2
    /\ size st2 = (h_timeWritePos h - kHeaderSize) / h_recordSize h
    /\ (forall n, 0 <= n < size st2 ->
        ts_at st2 n = le_value (peek (kHeaderSize + n * h_recordSize h) 8 c))
    /\ (2 <= size st2 -> m_lastTimestamp st2 = ts_at st2 (size st2 - 1))
    /\ (size st2 <= 1 ->
        m_lastTimestamp st2 = 0
        /\ forall timestamp, 0 < timestamp -> rejected st2 timestamp = false).
Proof.
  intros Hh Hp Hro Hos Hok Hmod Htw.
  destruct (DoOpen_reopen_writable c dd h dataType dataLayout recordSize config answers
              Hh Hp Hro Hos Hok)
    as (st2 & EO & Ct & Wt & Wd & Rt & Rod & Ft & Fd & Bt & Bd & Mt & F1 & F2 & F3 & F4
        & F5 & Lt & Cm & Pf & Hos2).
  destruct Hok as (Hlc & R8 & Rv & Hg & Hmg & Hb & Hdg & Hdm & Hdata).
  destruct (header_of_range c h Hh) as (Rr & Rtw & Rd).
  pose proof Ft as (Ot & _). pose proof Fd as (Od & _).
  set (rs := h_recordSize h) in *. set (tw := h_timeWritePos h) in *.
  set (fs := reopened_size h config c) in *.
  assert (Hk : kHeaderSize = 4096) by reflexivity.
  assert (Hfs : len c <= fs) by (unfold fs, reopened_size; lia).
  assert (Esz : size st2 = (tw - kHeaderSize) / rs).
  { unfold size. rewrite Wt, F3. fold tw rs. rewrite u64_small by lia. reflexivity. }
  assert (Etw : tw - kHeaderSize = rs * size st2).
  { rewrite Esz. apply Z.div_exact; [lia|exact Hmod]. }
  assert (Sz0 : 0 <= size st2) by (rewrite Esz; apply Z.div_pos; lia).
  exists st2. split; [exact EO|].
  split; [|split; [|split; [exact Esz|split; [|split]]]].
  - unfold header_at. rewrite F1, F2, F3, F4, F5, Wt, Wd, Ot, Od.
    fold tw. rewrite !Z.add_0_l, !u64_small by lia. destruct h; reflexivity.
  - split; [|split; [exact Rt|split; [exact Rod|split; [exact Bt|split;
      [exact Bd|exact Hos2]]]]].
    unfold well_formed. rewrite F3, F4, Wt, Ct. fold rs tw fs.
    rewrite len_resize by lia.
    split; [exact R8|]. split; [exact Rv|]. split; [exact Ft|]. split; [exact Fd|].
    split; [lia|]. split; [exact Hmod|].
    unfold fs, reopened_size. fold rs tw.
    destruct (round_up_bounds (tw + rs) (cfg_initialSize config * rs)
                ltac:(lia) ltac:(lia)) as [Hru _].
    cbv zeta in Hru. unfold round_up. lia.
  - intros n Hn. unfold ts_at. rewrite F3, Ct. fold rs fs.
    f_equal. apply peek_resize; nia.
  - intros H2. rewrite Lt. fold rs tw fs.
    replace (kHeaderSize + rs <? tw) with true by (symmetry; apply Z.ltb_lt; nia).
    unfold ts_at. rewrite F3, Ct. fold rs fs. f_equal. f_equal. nia.
  - intros H1. rewrite Lt. fold rs tw fs.
    replace (kHeaderSize + rs <? tw) with false by (symmetry; apply Z.ltb_ge; nia).
    split; [reflexivity|].
    intros timestamp Hts. unfold rejected. rewrite Lt, Rt. fold rs tw.
    replace (kHeaderSize + rs <? tw) with false by (symmetry; apply Z.ltb_ge; nia).
    replace (timestamp <=? 0) with false by (symmetry; apply Z.leb_gt; lia).
    rewrite andb_false_r. reflexivity.
Qed.

(** X14 on a log of one record at the timestamp 100, opened again with
    [checkMonotonic] on: the last timestamp is 0, and an append at the
    timestamp 50 goes through. *)
Lemma reopened_lastTimestamp_edge_witness :
  exists st2 st3,
    DoOpen (Some (contents (m_time ex_one_record))) (Some [])
      (bytes "double"%string) [] 16 CD_OpenExisting ex_config (DataLogImpl_new [])
    = Some (0, st2)
    /\ size st2 = 1 /\ ts_at st2 0 = 100
    /\ m_checkMonotonic st2 = true /\ m_lastTimestamp st2 = 0
    /\ rejected st2 50 = false
    /\ AppendRaw 50 (le_bytes 8 8) st2 = Some (true, st3).
Proof.
  pose (c := contents (m_time ex_one_record)).
  pose (st2c := state_after
                  (DoOpen (Some c) (Some []) (bytes "double"%string) [] 16
                     CD_OpenExisting ex_config) (DataLogImpl_new [])).
  assert (EC : DoOpen (Some c) (Some []) (bytes "double"%string) [] 16
                 CD_OpenExisting ex_config (DataLogImpl_new []) = Some (0, st2c))
    by (vm_compute; reflexivity).
  assert (G : forall st2,
             DoOpen (Some c) (Some []) (bytes "double"%string) [] 16
               CD_OpenExisting ex_config (DataLogImpl_new []) = Some (0, st2) ->
             size st2 = 1 /\ ts_at st2 0 = 100 /\ m_lastTimestamp st2 = 0
             /\ rejected st2 50 = false).
  { intros st2 E.
    destruct (reopened_lastTimestamp_edge c [] (header_at ex_one_record)
                (bytes "double"%string) [] 16 ex_config [])
      as (s & Es & _ & _ & Sz & Ts & _ & L).
    - vm_compute. reflexivity.
    - split; [intros _; reflexivity|]. split; [intros _; reflexivity|].
      intros _. split; reflexivity.
    - reflexivity.
    - constructor.
    - vm_compute. repeat split; try reflexivity; try discriminate.
    - vm_compute. reflexivity.
    - vm_compute. split; discriminate.
    - rewrite E in Es. injection Es as <-.
      assert (S1 : size st2 = 1) by (rewrite Sz; vm_compute; reflexivity).
      split; [exact S1|]. split.
      + rewrite (Ts 0) by lia. vm_compute. reflexivity.
      + destruct (L ltac:(lia)) as [L0 Rj]. split; [exact L0|]. apply Rj. lia. }
  exists st2c, (state_after (AppendRaw 50 (le_bytes 8 8)) st2c).
  split; [exact EC|].
  destruct (G st2c EC) as (G1 & G2 & G3 & G4).
  split; [exact G1|]. split; [exact G2|]. split; [vm_compute; reflexivity|].
  split; [exact G3|]. split; [exact G4|].
  vm_compute. reflexivity.
Defined.

(** * Appends that go through *)

Lemma good_accessible f hi G o k :
  good f hi G -> 0 <= o -> 0 <= k -> o + k <= hi ->
  accessible f o k = true.
Proof.
  intros (_ & _ & B & C & _) Ho Hk Hb. destruct (C ltac:(lia)) as [M S].
  specialize (B M). apply accessible_intro; try assumption; lia.
Qed.

Lemma good_step_pos f hi G : good f hi G -> 0 < G.
Proof.
  intros ((_ & _ & _ & [R|[P _]]) & Ro & _ & _ & L & _); [congruence|lia].
Qed.

Lemma good_weaken f hi hi' G : good f hi G -> hi' <= hi -> good f hi' G.
Proof.
  intros (A & B & C & D & E) H.
  split; [exact A|]. split; [exact B|]. split; [exact C|]. split; [|exact E].
  intros H'. destruct (D ltac:(lia)) as [M S]. split; [exact M|lia].
Qed.

Lemma good_set_contents f hi G c :
  good f hi G -> len c = len (contents f) -> good (set_contents c f) hi G.
Proof.
  intros ((Fo & Fw & Fs & Fg) & B & C & D & E) H.
  unfold good, file_ok, growable in *. cbn. rewrite H. tauto.
Qed.

Lemma good_set_writePos f hi G p :
  good f hi G -> 0 <= p < 2 ^ 64 -> good (set_writePos p f) hi G.
Proof.
  intros ((Fo & Fw & Fs & Fg) & B & C & D & E) H.
  unfold good, file_ok, growable in *. cbn. tauto.
Qed.

(** [GetMappedOffset] on a good file, under an operating system that grows
    and maps: the offset is the position, and the file is good and covers
    the bytes asked for. *)
Lemma GetMappedOffset_good_file w pos n st hi G :
  good (file_of w st) hi G -> Forall os_ok (os st) ->
  0 <= pos -> 0 <= n -> pos + n + G < 2 ^ 64 ->
  exists st',
    GetMappedOffset w pos n st = Some ((pos, 0), st')
    /\ good (file_of w st') (Z.max hi (pos + n)) G
    /\ file_of (other w) st' = file_of (other w) st
    /\ Forall os_ok (os st')
    /\ preserved st st'.
Proof.
  intros Hg Hos Hp Hn Hb.
  pose proof Hg as ((Fo & Fw & Fs & Fg) & Ro & Bk & Cv & G1 & G2).
  destruct Fg as [Fg|[Fg1 Fg2]]; [congruence|].
  set (f := file_of w st) in *.
  destruct (GetMappedOffset w pos n st) as [[[off ec] st']|] eqn:E.
  2:{ exfalso. destruct (GetMappedOffset_total w pos n st
                          (or_intror (conj Fg1 Fg2))) as (r & s & E' & _).
      fold f in E'. congruence. }
  pose proof (GetMappedOffset_preserved _ _ _ _ _ _ E) as P.
  unfold GetMappedOffset in E. fold f in E. rewrite Fo, Ro in E.
  rewrite !Z.sub_0_r in E.
  destruct (m_mapping (mapping f) && (0 <=? pos) && (u64 (pos + n) <=? m_size (mapping f)))
    eqn:Efast.
  - injection E as <- <- <-. rewrite u64_small by lia.
    apply andb_prop in Efast as [Efast E3]. apply andb_prop in Efast as [E1 E2].
    apply Z.leb_le in E3. rewrite u64_small in E3 by lia.
    exists st. split; [reflexivity|]. split; [|split; [reflexivity|split; assumption]].
    fold f. unfold good. repeat split; try assumption; try tauto.
    + right. split; assumption.
    + destruct (Z.max_spec hi (pos + n)) as [[_ ->]|[_ ->]]; [lia|].
      destruct (Z.le_gt_cases 0 hi) as [Hh|Hh]; [apply Cv; exact Hh|lia].
  - clear Efast.
    destruct (next_os_ok st Hos) as [[Ht Hm] Hos'].
    destruct (next_os st) as [a rest]. cbn [fst snd] in *.
    replace (mapGrowSize f =? 0) with false in E by (symmetry; apply Z.eqb_neq; lia).
    rewrite Ht, Hm in E. change (0 =? 0) with true in E.
    rewrite (u64_small (pos + n + mapGrowSize f - 1)) in E by lia.
    destruct (round_up_bounds (pos + n) (mapGrowSize f) Fg1 ltac:(lia)) as [Hr _].
    cbv zeta in Hr.
    set (size := (pos + n + mapGrowSize f - 1) / mapGrowSize f * mapGrowSize f) in *.
    rewrite (u64_small size) in E by lia.
    set (fs := if fileSize f <? size then size else fileSize f) in *.
    assert (Hfs : fileSize f <= fs /\ size <= fs /\ fs < 2 ^ 64).
    { subst fs. destruct (Z.ltb_spec (fileSize f) size); lia. }
    set (g' := if mapGrowSize f <? maxGrowSize f
               then if maxGrowSize f <? u64 (mapGrowSize f * 2)
                    then maxGrowSize f else u64 (mapGrowSize f * 2)
               else mapGrowSize f) in *.
    assert (Hg' : 0 < g' <= G).
    { subst g'. destruct (Z.ltb_spec (mapGrowSize f) (maxGrowSize f)); [|lia].
      rewrite u64_small by lia.
      destruct (Z.ltb_spec (maxGrowSize f) (mapGrowSize f * 2)); lia. }
    injection E as <- <- <-. rewrite u64_small by lia.
    eexists. split; [reflexivity|].
    split; [|split; [destruct w; reflexivity|split; [exact Hos'|exact P]]].
    assert (Ef : file_of w
                   (set_env rest (perrors st)
                      (set_file w
                         (mkFileInfo (fd f) false (writePos f) fs 0 g' (maxGrowSize f)
                            (maxMapSize f) (mkMappedFile true fs)
                            (resize fs (contents f))) st))
                 = mkFileInfo (fd f) false (writePos f) fs 0 g' (maxGrowSize f)
                     (maxMapSize f) (mkMappedFile true fs) (resize fs (contents f)))
      by (destruct w; reflexivity).
    rewrite Ef. unfold good, file_ok, growable. cbn.
    pose proof (len_nonneg (contents f)) as Hc.
    rewrite len_resize by lia.
    repeat split; try lia.
    destruct (Z.le_gt_cases 0 hi) as [Hh|Hh];
      [destruct (Cv Hh) as [M S]; specialize (Bk M); lia|lia].
Qed.

Lemma store_runs p bs st :
  accessible (file_of (p_file p) st) (p_off p) (len bs) = true ->
  readOnly (file_of (p_file p) st) = false ->
  store p bs st
  = Some (tt, set_file (p_file p)
                (set_contents (poke (p_off p) bs (contents (file_of (p_file p) st)))
                   (file_of (p_file p) st)) st).
Proof. intros A R. unfold store. rewrite A, R. reflexivity. Qed.

Lemma store_time o bs st ht hd Gt Gd :
  safe st ht hd Gt Gd -> 0 <= o -> o + len bs <= ht ->
  exists st',
    store (mkPtr Time o) bs st = Some (tt, st')
    /\ safe st' ht hd Gt Gd /\ preserved st st'.
Proof.
  intros (Ht & Hd & Hos) Ho Hb. pose proof (len_nonneg bs) as Hl.
  pose proof (good_accessible _ _ _ o (len bs) Ht Ho Hl Hb) as A.
  pose proof Ht as (_ & Ro & _).
  pose proof (store_runs (mkPtr Time o) bs st A Ro) as E.
  eexists. split; [exact E|]. split.
  - split; [|split; [exact Hd|exact Hos]].
    apply good_set_contents; [exact Ht|].
    apply accessible_true in A as (_ & _ & _ & _ & L).
    apply len_poke; assumption.
  - apply (store_preserved _ _ _ _ _ E).
Qed.

Lemma store_data o bs st ht hd Gt Gd :
  safe st ht hd Gt Gd -> 0 <= o -> o + len bs <= hd ->
  exists st',
    store (mkPtr Data o) bs st = Some (tt, st')
    /\ safe st' ht hd Gt Gd /\ preserved st st'.
Proof.
  intros (Ht & Hd & Hos) Ho Hb. pose proof (len_nonneg bs) as Hl.
  pose proof (good_accessible _ _ _ o (len bs) Hd Ho Hl Hb) as A.
  pose proof Hd as (_ & Ro & _).
  pose proof (store_runs (mkPtr Data o) bs st A Ro) as E.
  eexists. split; [exact E|]. split.
  - split; [exact Ht|split; [|exact Hos]].
    apply good_set_contents; [exact Hd|].
    apply accessible_true in A as (_ & _ & _ & _ & L).
    apply len_poke; assumption.
  - apply (store_preserved _ _ _ _ _ E).
Qed.

Lemma GetMappedOffset_time pos n st ht hd Gt Gd :
  safe st ht hd Gt Gd -> 0 <= pos -> 0 <= n -> pos + n + Gt < 2 ^ 64 ->
  exists st',
    GetMappedOffset Time pos n st = Some ((pos, 0), st')
    /\ safe st' (Z.max ht (pos + n)) hd Gt Gd /\ preserved st st'.
Proof.
  intros (Ht & Hd & Hos) Hp Hn Hb.
  destruct (GetMappedOffset_good_file Time pos n st ht Gt Ht Hos Hp Hn Hb)
    as (st' & E & G & O & Hos' & P).
  exists st'. split; [exact E|]. split; [|exact P].
  split; [exact G|]. split; [|exact Hos']. cbn [other file_of] in O. rewrite O. exact Hd.
Qed.

Lemma GetMappedOffset_data pos n st ht hd Gt Gd :
  safe st ht hd Gt Gd -> 0 <= pos -> 0 <= n -> pos + n + Gd < 2 ^ 64 ->
  exists st',
    GetMappedOffset Data pos n st = Some ((pos, 0), st')
    /\ safe st' ht (Z.max hd (pos + n)) Gt Gd /\ preserved st st'.
Proof.
  intros (Ht & Hd & Hos) Hp Hn Hb.
  destruct (GetMappedOffset_good_file Data pos n st hd Gd Hd Hos Hp Hn Hb)
    as (st' & E & G & O & Hos' & P).
  exists st'. split; [exact E|]. split; [|exact P].
  split; [|split; [exact G|exact Hos']]. cbn [other file_of] in O. rewrite O. exact Ht.
Qed.

Lemma safe_weaken st ht hd Gt Gd ht' hd' :
  safe st ht hd Gt Gd -> ht' <= ht -> hd' <= hd -> safe st ht' hd' Gt Gd.
Proof.
  intros (A & B & C) H1 H2.
  split; [eapply good_weaken; eassumption|].
  split; [eapply good_weaken; eassumption|exact C].
Qed.

Lemma safe_lastTimestamp st ht hd Gt Gd t :
  safe st ht hd Gt Gd -> safe (set_lastTimestamp t st) ht hd Gt Gd.
Proof. intros H. exact H. Qed.

(** [AppendRawStart] on a safe log, with a timestamp that is not rejected:
    it returns the pointer, and what the payload takes is covered. *)
Lemma AppendRawStart_succeeds st timestamp sz ht hd Gt Gd :
  safe st ht hd Gt Gd ->
  8 <= m_recordSize st ->
  (m_fixedSize st = false -> m_recordSize st = 16 \/ m_recordSize st = 24) ->
  rejected st timestamp = false -> 0 <= sz ->
  writePos (m_time st) + m_recordSize st + Gt < 2 ^ 64 ->
  (m_fixedSize st = false -> writePos (m_data st) + sz + Gd < 2 ^ 64) ->
  exists s1,
    AppendRawStart timestamp sz st
    = Some (Some (if m_fixedSize st then mkPtr Time (writePos (m_time st) + 8)
                  else mkPtr Data (writePos (m_data st))), s1)
    /\ safe s1 (Z.max ht (writePos (m_time st) + m_recordSize st))
         (if m_fixedSize st then hd else Z.max hd (writePos (m_data st) + sz)) Gt Gd
    /\ settings s1 = settings st /\ positions s1 = positions st.
Proof.
  intros Hs R8 Rv Hrej Hsz Hbt Hbd.
  pose proof Hs as (((_ & Tw & _) & _) & ((_ & Dw & _) & _) & _).
  unfold rejected in Hrej. apply orb_false_elim in Hrej as [Hm Hro].
  set (tw := writePos (m_time st)) in *. set (rs := m_recordSize st) in *.
  set (wd := writePos (m_data st)) in *.
  assert (C : exists p s1, AppendRawStart timestamp sz st = Some (Some p, s1)
              /\ p = (if m_fixedSize st then mkPtr Time (tw + 8) else mkPtr Data wd)
              /\ safe s1 (Z.max ht (tw + rs))
                   (if m_fixedSize st then hd else Z.max hd (wd + sz)) Gt Gd).
  { unfold AppendRawStart. rewrite (bind_eq get _ st st st eq_refl).
    rewrite Hm, Hro. fold tw rs wd.
    destruct (GetMappedOffset_time tw rs st ht hd Gt Gd Hs ltac:(lia) ltac:(lia) Hbt)
      as (s1 & E1 & S1 & P1).
    rewrite (bind_eq _ _ _ _ _ E1). change (0 =? 0) with true. cbn [negb].
    unfold write64le, write32le, ptr_add, kTimestampSize. cbn [p_file p_off].
    destruct (store_time tw (le_bytes 8 timestamp) s1 _ _ _ _ S1 ltac:(lia)
                ltac:(rewrite len_le_bytes; lia)) as (s2 & E2 & S2 & P2).
    rewrite (bind_eq _ _ _ _ _ E2).
    destruct (m_fixedSize st) eqn:Ef.
    - rewrite (bind_eq _ _ _ tt (set_lastTimestamp timestamp s2) eq_refl).
      eexists _, _. split; [reflexivity|]. split; [reflexivity|exact S2].
    - destruct (Rv eq_refl) as [R|R]; unfold kLargePointerRecordSize, kTimestampSize;
        fold rs; rewrite R.
      + change (16 =? 8 + 8 * 2) with false. cbv iota.
        destruct (store_time (tw + 8) (le_bytes 4 wd) s2 _ _ _ _ S2 ltac:(lia)
                    ltac:(rewrite len_le_bytes; lia)) as (s3 & E3 & S3 & P3).
        destruct (store_time (tw + (8 + 4)) (le_bytes 4 sz) s3 _ _ _ _ S3 ltac:(lia)
                    ltac:(rewrite len_le_bytes; lia)) as (s4 & E4 & S4 & P4).
        match goal with |- exists p s, bind (bind ?c ?k) _ _ = _ /\ _ =>
          assert (E34 : bind c k s2 = Some (tt, s4))
            by (rewrite (bind_eq _ _ _ _ _ E3); exact E4)
        end.
        rewrite (bind_eq _ _ _ _ _ E34).
        destruct (GetMappedOffset_data wd sz s4 _ _ _ _ S4 ltac:(lia) Hsz
                    (Hbd eq_refl)) as (s5 & E5 & S5 & P5).
        rewrite (bind_eq _ _ _ _ _ E5). change (0 =? 0) with true. cbn [negb].
        rewrite (bind_eq _ _ _ tt (set_lastTimestamp timestamp s5) eq_refl).
        eexists _, _. split; [reflexivity|]. split; [reflexivity|].
        rewrite <- R. exact S5.
      + change (24 =? 8 + 8 * 2) with true. cbv iota.
        destruct (store_time (tw + 8) (le_bytes 8 wd) s2 _ _ _ _ S2 ltac:(lia)
                    ltac:(rewrite len_le_bytes; lia)) as (s3 & E3 & S3 & P3).
        destruct (store_time (tw + (8 + 8)) (le_bytes 8 sz) s3 _ _ _ _ S3 ltac:(lia)
                    ltac:(rewrite len_le_bytes; lia)) as (s4 & E4 & S4 & P4).
        match goal with |- exists p s, bind (bind ?c ?k) _ _ = _ /\ _ =>
          assert (E34 : bind c k s2 = Some (tt, s4))
            by (rewrite (bind_eq _ _ _ _ _ E3); exact E4)
        end.
        rewrite (bind_eq _ _ _ _ _ E34).
        destruct (GetMappedOffset_data wd sz s4 _ _ _ _ S4 ltac:(lia) Hsz
                    (Hbd eq_refl)) as (s5 & E5 & S5 & P5).
        rewrite (bind_eq _ _ _ _ _ E5). change (0 =? 0) with true. cbn [negb].
        rewrite (bind_eq _ _ _ tt (set_lastTimestamp timestamp s5) eq_refl).
        eexists _, _. split; [reflexivity|]. split; [reflexivity|].
        rewrite <- R. exact S5. }
  destruct C as (p & s1 & E & -> & S).
  destruct (AppendRawStart_cases _ _ _ _ _ E) as (A & B & _).
  exists s1. split; [exact E|]. split; [exact S|]. split; [exact A|exact B].
Qed.

Lemma safe_writePos_time st ht hd Gt Gd p :
  safe st ht hd Gt Gd -> 0 <= p < 2 ^ 64 ->
  safe (set_file Time (set_writePos p (m_time st)) st) ht hd Gt Gd.
Proof.
  intros (A & B & C) H. split; [|split; [exact B|exact C]].
  apply good_set_writePos; assumption.
Qed.

Lemma safe_writePos_data st ht hd Gt Gd p :
  safe st ht hd Gt Gd -> 0 <= p < 2 ^ 64 ->
  safe (set_file Data (set_writePos p (m_data st)) st) ht hd Gt Gd.
Proof.
  intros (A & B & C) H. split; [exact A|split; [|exact C]].
  apply good_set_writePos; assumption.
Qed.

(** [Flush] on a safe log returns, and leaves a safe log. *)
Lemma Flush_succeeds st ht hd Gt Gd :
  safe st ht hd Gt Gd -> kHeaderSize + Gt < 2 ^ 64 ->
  exists st', Flush st = Some (tt, st') /\ safe st' ht hd Gt Gd.
Proof.
  intros Hs Hb. pose proof Hs as ((_ & Ro & _) & _).
  unfold Flush, WriteHeader. rewrite (bind_eq get _ st st st eq_refl).
  rewrite Ro, orb_false_r.
  destruct (m_mapping (mapping (m_time st))); cbn [negb].
  2:{ exists st. split; [reflexivity|exact Hs]. }
  unfold Write. pose proof (len_header_bytes st) as Lh. rewrite Lh.
  destruct (GetMappedOffset_time 0 kHeaderSize st _ _ _ _ Hs ltac:(lia)
              ltac:(unfold kHeaderSize; lia) Hb) as (s1 & E1 & S1 & _).
  rewrite (bind_eq _ _ _ _ _ E1). change (0 =? 0) with true. cbn [negb].
  destruct (store_time 0 (header_bytes st) s1 _ _ _ _ S1 ltac:(lia) ltac:(lia))
    as (s2 & E2 & S2 & _).
  exists s2. split; [exact E2|].
  apply (safe_weaken _ _ _ _ _ ht hd S2); lia.
Qed.

(** [AppendRawFinish] on a safe log returns, and leaves a safe log. *)
Lemma AppendRawFinish_succeeds st sz ht hd Gt Gd :
  safe st ht hd Gt Gd -> 0 <= sz -> kHeaderSize + Gt < 2 ^ 64 ->
  (m_fixedSize st = false ->
   writePos (m_data st) + sz + len (m_gapData st) + Gd < 2 ^ 64) ->
  exists st', AppendRawFinish sz st = Some (tt, st') /\ safe st' ht hd Gt Gd.
Proof.
  intros Hs Hsz Hbt Hbd.
  pose proof Hs as (((_ & Tw & _) & _) & ((_ & Dw & _) & _) & _).
  pose proof (len_nonneg (m_gapData st)) as Hg.
  pose proof (good_step_pos _ _ _ (proj1 (proj2 Hs))) as HGd.
  unfold AppendRawFinish. rewrite (bind_eq get _ st st st eq_refl).
  (* the data file *)
  assert (D : exists s1,
             (if negb (m_fixedSize st)
              then
                upd_file Data (fun f => set_writePos (u64 (writePos f + sz)) f) ;;;
                (if negb (len (m_gapData st) =? 0)
                 then
                   st1 <- get ;;
                   Write Data (writePos (m_data st1)) (m_gapData st) ;;;
                   upd_file Data
                     (fun f => set_writePos (u64 (writePos f + len (m_gapData st))) f)
                 else ret tt)
              else ret tt) st = Some (tt, s1)
             /\ safe s1 ht hd Gt Gd).
  { destruct (m_fixedSize st); cbn [negb].
    { exists st. split; [reflexivity|exact Hs]. }
    specialize (Hbd eq_refl).
    unfold upd_file at 1, modify.
    match goal with |- exists s1, bind _ _ _ = _ /\ _ =>
      rewrite (bind_eq _ _ _ tt
                 (set_file Data (set_writePos (u64 (writePos (m_data st) + sz)) (m_data st)) st)
                 eq_refl)
    end.
    pose proof (safe_writePos_data st _ _ _ _ (u64 (writePos (m_data st) + sz)) Hs
                  (u64_range _)) as SA.
    set (sA := set_file Data _ st) in *.
    destruct (len (m_gapData st) =? 0); cbn [negb].
    { exists sA. split; [reflexivity|exact SA]. }
    rewrite (bind_eq get _ sA sA sA eq_refl).
    change (writePos (m_data sA)) with (u64 (writePos (m_data st) + sz)).
    rewrite (u64_small (writePos (m_data st) + sz)) by lia.
    unfold Write.
    destruct (GetMappedOffset_data (writePos (m_data st) + sz) (len (m_gapData st)) sA
                _ _ _ _ SA ltac:(lia) Hg ltac:(lia)) as (sB & EB & SB & _).
    match goal with |- exists s1, bind (bind ?c ?k) _ _ = _ /\ _ =>
      destruct (store_data (writePos (m_data st) + sz) (m_gapData st) sB _ _ _ _ SB
                  ltac:(lia) ltac:(lia)) as (sC & EC & SC & _);
      assert (EBC : bind c k sA = Some (tt, sC))
        by (rewrite (bind_eq _ _ _ _ _ EB); exact EC)
    end.
    rewrite (bind_eq _ _ _ _ _ EBC).
    unfold upd_file, modify.
    eexists. split; [reflexivity|].
    apply safe_writePos_data; [|apply u64_range].
    apply (safe_weaken _ _ _ _ _ ht hd SC); lia. }
  destruct D as (s1 & E1 & S1).
  rewrite (bind_eq _ _ _ _ _ E1).
  unfold upd_file at 1, modify.
  match goal with |- exists st', bind _ _ _ = _ /\ _ =>
    rewrite (bind_eq _ _ _ tt
               (set_file Time
                  (set_writePos (u64 (writePos (m_time s1) + m_recordSize st)) (m_time s1))
                  s1) eq_refl)
  end.
  pose proof (safe_writePos_time s1 _ _ _ _
                (u64 (writePos (m_time s1) + m_recordSize st)) S1 (u64_range _)) as S2.
  set (s2 := set_file Time _ s1) in *.
  destruct (m_periodicFlush st =? 0); cbn [negb].
  { exists s2. split; [reflexivity|exact S2]. }
  match goal with |- exists st', bind _ _ _ = _ /\ _ =>
    rewrite (bind_eq _ _ _ tt
               (set_periodicFlushCount (m_periodicFlushCount s2 + 1) s2) eq_refl)
  end.
  set (s3 := set_periodicFlushCount _ s2).
  assert (S3 : safe s3 ht hd Gt Gd) by exact S2.
  rewrite (bind_eq get _ s3 s3 s3 eq_refl).
  destruct (m_periodicFlush st <=? m_periodicFlushCount s3).
  2:{ exists s3. split; [reflexivity|exact S3]. }
  destruct (Flush_succeeds s3 _ _ _ _ S3 Hbt) as (s4 & E4 & S4).
  rewrite (bind_eq _ _ _ _ _ E4).
  eexists. split; [reflexivity|]. exact S4.
Qed.

Lemma appendable_safe st :
  appendable st -> safe st (-1) (-1) (grow_step (m_time st)) (grow_step (m_data st)).
Proof.
  intros ((_ & _ & Ft & Fd & _) & Rt & Rd & Bt & Bd & Hos).
  unfold safe, good, grow_step.
  split; [|split; [|exact Hos]];
    (split; [assumption|]; split; [assumption|]; split; [assumption|];
     split; [intros H; lia|lia]).
Qed.

(** X15.  Appends go through and never write outside the mappings.  On a
    log that can be appended to, with both files writable, their mappings
    within them, and an operating system that grows and maps the files: an
    [AppendRaw] with a 64-bit timestamp that is not rejected and a payload
    that fits, when the positions leave room for a growth step, returns
    true; the log is such a log again, one record longer, its last timestamp
    is the new one, and the new record holds the timestamp and the
    payload. *)
Theorem AppendRaw_succeeds (st : World) (timestamp : Z) (data : list Z) :
  appendable st -> fits_one st (timestamp, data) ->
  rejected st timestamp = false -> room st data ->
  exists st',
    AppendRaw timestamp data st = Some (true, st')
    /\ appendable st'
    /\ size st' = size st + 1
    /\ m_lastTimestamp st' = timestamp
    /\ stored st' (size st) timestamp data.
Proof.
  intros Ha [Hts Hfit] Hrej [Rt Rd]. cbn [fst snd] in Hts, Hfit.
  pose proof (appendable_safe st Ha) as Hs.
  destruct Ha as (WF & Rot & Rod & _ & _ & _).
  pose proof WF as (R8 & Rv & Ft & Fd & Hh & Hm & Hl).
  pose proof Ft as (_ & Tw & _). pose proof Fd as (_ & Dw & _).
  pose proof (len_nonneg data) as Hd0.
  pose proof (len_nonneg (m_gapData st)) as Hg0.
  assert (Hk : kHeaderSize = 4096) by reflexivity.
  set (Gt := grow_step (m_time st)) in *. set (Gd := grow_step (m_data st)) in *.
  pose proof (good_step_pos _ _ _ (proj1 Hs)) as HGt.
  pose proof (good_step_pos _ _ _ (proj1 (proj2 Hs))) as HGd.
  destruct (AppendRawStart_succeeds st timestamp (len data) _ _ _ _ Hs R8 Rv Hrej Hd0 Rt)
    as (s1 & E1 & S1 & Se1 & P1).
  { intros Hf. specialize (Rd Hf). lia. }
  destruct (settings_fields _ _ Se1) as (Rs1 & Fx1 & Gp1 & _).
  destruct (positions_fields _ _ P1) as (Tw1 & Dw1).
  assert (E2 : exists s2,
             store (if m_fixedSize st then mkPtr Time (writePos (m_time st) + 8)
                    else mkPtr Data (writePos (m_data st))) data s1 = Some (tt, s2)
             /\ safe s2 (-1) (-1) Gt Gd
             /\ preserved s1 s2).
  { destruct (m_fixedSize st).
    - destruct (store_time (writePos (m_time st) + 8) data s1 _ _ _ _ S1 ltac:(lia)
                  ltac:(lia)) as (s2 & E2 & S2 & P2).
      exists s2. split; [exact E2|]. split; [|exact P2].
      apply (safe_weaken _ _ _ _ _ (-1) (-1) S2); lia.
    - destruct (store_data (writePos (m_data st)) data s1 _ _ _ _ S1 ltac:(lia)
                  ltac:(lia)) as (s2 & E2 & S2 & P2).
      exists s2. split; [exact E2|]. split; [|exact P2].
      apply (safe_weaken _ _ _ _ _ (-1) (-1) S2); lia. }
  destruct E2 as (s2 & E2 & S2 & (Se2 & P2 & _)).
  destruct (settings_fields _ _ Se2) as (Rs2 & Fx2 & Gp2 & _).
  destruct (positions_fields _ _ P2) as (Tw2 & Dw2).
  destruct (AppendRawFinish_succeeds s2 (len data) _ _ _ _ S2 Hd0 ltac:(lia))
    as (s3 & E3 & S3).
  { rewrite Fx2, Fx1, Dw2, Dw1, Gp2, Gp1. exact Rd. }
  assert (E : AppendRaw timestamp data st = Some (true, s3)).
  { unfold AppendRaw. rewrite (bind_eq _ _ _ _ _ E1).
    rewrite (bind_eq _ _ _ _ _ E2), (bind_eq _ _ _ _ _ E3). reflexivity. }
  destruct (AppendRaw_stored st timestamp data s3 WF Hfit E) as (WF3 & G3 & St3 & Sz3 & _).
  destruct (AppendRaw_keeps st timestamp data true s3 WF
              ltac:(intros _; split; assumption) E) as (_ & _ & _ & L3 & _).
  pose proof G3 as (Se3 & _).
  destruct (settings_fields _ _ Se3) as (_ & _ & _ & Ro3t & Ro3d & _).
  exists s3. split; [exact E|]. split; [|split; [exact Sz3|split; [exact L3|exact St3]]].
  destruct S3 as ((_ & _ & Bt3 & _) & (_ & _ & Bd3 & _) & Hos3).
  split; [exact WF3|]. split; [congruence|]. split; [congruence|].
  split; [exact Bt3|]. split; [exact Bd3|exact Hos3].
Qed.

(** X15 on scenario S2, at the first append. *)
Lemma AppendRaw_succeeds_witness :
  exists st',
    AppendRaw 5 (bytes "ab"%string) ex_s2_open = Some (true, st')
    /\ size st' = 1 /\ stored st' 0 5 (bytes "ab"%string).
Proof.
  destruct (AppendRaw_succeeds ex_s2_open 5 (bytes "ab"%string))
    as (st' & E & _ & Sz & _ & St).
  - split; [exact ex_s2_open_well_formed|].
    split; [reflexivity|]. split; [reflexivity|].
    split; [intros _; vm_compute; discriminate|].
    split; [intros _; vm_compute; discriminate|constructor].
  - vm_compute. repeat split; discriminate.
  - reflexivity.
  - split; [vm_compute; reflexivity|intros _; vm_compute; reflexivity].
  - exists st'. split; [exact E|]. split; [exact Sz|exact St].
Defined.

